(** * Memory layer of cpp-utils / light-std / lstd

    A shallow embedding of the allocator code of the repository:
    - [GuMemory]: the copy, move and fill routines of
      [cpp-utils/src/gu/memory/memory.cpp];
    - [GuPool]: the block pool of [cpp-utils/src/gu/memory/pool.cpp];
    - [TempAlloc]: the paged temporary allocator of
      [light-std/src/lstd/memory/allocator.cpp];
    - [TempStorage]: the fixed-size temporary allocator of
      [light-std/src/lstd/memory/temporary_allocator.hpp];
    - [Lstd]: the header codec, the debug tracker and the front-end entry
      points of [lstd/src/lstd/memory/allocator.{h,cpp}];
    - [Arena]: a bump allocator to run the front end with.

    The facts follow the definitions: [MemFacts] (memory), [GuMemoryFacts],
    [GuPoolFacts], [TempAllocFacts], [TempStorageFacts] and [LstdFacts] (the
    heap invariant of the front end, and what allocate, free and reallocate
    do to it).

    Machine integers are [Z] with the wrap-around written out, memory is a
    map from byte addresses to byte values, C++ structures that are only
    used through their fields are records. *)

From Stdlib Require Import ZArith List Lia Bool String Ascii Permutation.
Import ListNotations.
Local Open Scope Z_scope.

(** ** Machine arithmetic *)

Definition wrap64 (x : Z) : Z := x mod 2 ^ 64.
Definition wrap32 (x : Z) : Z := x mod 2 ^ 32.
Definition wrap16 (x : Z) : Z := x mod 2 ^ 16.

(** ** Byte-addressed memory

    An address is a [Z]; a cell holds one byte.  [load] and [store] are
    little-endian accesses of [n] bytes, [fill_memory] is the library's
    memset, [CopyMemory] the byte loop of [gu/memory/memory.cpp]. *)

Definition memory := Z -> Z.

Definition in_range (lo len x : Z) : bool := (lo <=? x) && (x <? lo + len).

Definition store (m : memory) (addr n v : Z) : memory :=
  fun x => if in_range addr n x then (v / 2 ^ (8 * (x - addr))) mod 256 else m x.

Fixpoint load_bytes (m : memory) (addr : Z) (n : nat) : Z :=
  match n with
  | O => 0
  | S k => (m addr) mod 256 + 256 * load_bytes m (addr + 1) k
  end.

Definition load (m : memory) (addr n : Z) : Z := load_bytes m addr (Z.to_nat n).

(** Modelled from the spec: [fill_memory] of lstd (memset, not among the
    sources), which sets [num] bytes at [dest] to [value]. *)
Definition fill_memory (m : memory) (dest value num : Z) : memory :=
  fun x => if in_range dest num x then value mod 256 else m x.

(** Modelled from the spec: [copy_memory] of lstd (memcpy, not among the
    sources); the bytes copied are those of the source before the call. *)
Definition copy_memory (m : memory) (dest src num : Z) : memory :=
  fun x => if in_range dest num x then m (src + (x - dest)) else m x.

(** [CopyMemory] of gu: [for (i = 0; i < num; i++) d[i] = s[i];]. *)
Fixpoint CopyMemory_loop (m : memory) (d s : Z) (num : nat) : memory :=
  match num with
  | O => m
  | S k => CopyMemory_loop (fun x => if x =? d then m s else m x) (d + 1) (s + 1) k
  end.

Definition CopyMemory (m : memory) (dest src num : Z) : memory :=
  CopyMemory_loop m dest src (Z.to_nat num).

(** Modelled from the spec: are the [n] bytes at [addr] all equal to [v]?
    This is [compare_memory(addr, pattern, n) == -1] against a buffer filled
    with [v]; [compare_memory] of lstd (the index of the first byte that
    differs, or -1) is not among the sources. *)
Fixpoint all_bytes (m : memory) (addr : Z) (n : nat) (v : Z) : bool :=
  match n with
  | O => true
  | S k => ((m addr) mod 256 =? v) && all_bytes m (addr + 1) k v
  end.

(** ** The memory routines of cpp-utils ([gu/memory/memory.cpp]) *)

Module GuMemory.

(** [((u32 * ) d)[i] = ((u32 * ) s)[i]] for [i] from 0 up to [num / 4]: a
    32-bit load and a 32-bit store per step. *)
Fixpoint CopyMemory_u32_loop (m : memory) (d s : Z) (n : nat) : memory :=
  match n with
  | O => m
  | S k => CopyMemory_u32_loop (store m d 4 (load m s 4)) (d + 4) (s + 4) k
  end.

(** [CopyMemory] in full: whole words when the two pointers and the length
    are multiples of [sizeof(u32)], the byte loop otherwise. *)
Definition CopyMemory (m : memory) (dest src num : Z) : memory :=
  if (dest mod 4 =? 0) && (src mod 4 =? 0) && (num mod 4 =? 0)
  then CopyMemory_u32_loop m dest src (Z.to_nat (num / 4))
  else CopyMemory_loop m dest src (Z.to_nat num).

(** [while (num--) { *d-- = *s--; }] *)
Fixpoint MoveMemory_backward (m : memory) (d s : Z) (num : nat) : memory :=
  match num with
  | O => m
  | S k => MoveMemory_backward (fun x => if x =? d then m s else m x) (d - 1) (s - 1) k
  end.

(** [MoveMemory]: forwards ([while (num--) { *d++ = *s++; }]) when
    [d <= s || d >= s + num], otherwise backwards from the last byte. *)
Definition MoveMemory (m : memory) (dest src num : Z) : memory :=
  if (dest <=? src) || (dest >=? src + num)
  then CopyMemory_loop m dest src (Z.to_nat num)
  else MoveMemory_backward m (dest + (num - 1)) (src + (num - 1)) (Z.to_nat num).

(** [while (num-- > 0) { *ptr++ = value; }]: the [int] is stored as a byte. *)
Fixpoint FillMemory_loop (m : memory) (ptr value : Z) (num : nat) : memory :=
  match num with
  | O => m
  | S k => FillMemory_loop (fun x => if x =? ptr then value mod 256 else m x)
             (ptr + 1) value k
  end.

Definition FillMemory (m : memory) (dest value num : Z) : memory :=
  FillMemory_loop m dest value (Z.to_nat num).

End GuMemory.

(** ** The raw memory source *)

(** Modelled from the spec: the raw memory source consumed by the pool and
    the temporary allocator ("reserve(size)->ptr / release(ptr)"); the
    [New]/[Delete] wrappers of gu and the heap behind [new (Malloc)] of
    light-std are not among the sources.  Blocks are handed out at
    increasing addresses, a block of size 0 still gets an address of its
    own, and the source remembers which blocks are still reserved. *)
Record raw_source := mk_raw {
  brk : Z;              (* next address handed out *)
  reserved : list Z     (* blocks reserved and not yet released *)
}.

Definition raw_reserve (count : Z) (h : raw_source) : Z * raw_source :=
  (brk h, {| brk := brk h + Z.max count 1; reserved := brk h :: reserved h |}).

Definition raw_release (p : Z) (h : raw_source) : raw_source :=
  {| brk := brk h; reserved := remove Z.eq_dec p (reserved h) |}.

Definition raw_release_all (ps : list Z) (h : raw_source) : raw_source :=
  fold_left (fun h p => raw_release p h) ps h.

(** ** The pool of cpp-utils ([gu/memory/pool.{h,cpp}]) *)

Module GuPool.

(** [New<u8>(count, allocator)] and [Delete(block, allocator)] on the
    pool's block allocator. *)
Definition New_u8 (count : Z) (h : raw_source) : Z * raw_source :=
  raw_reserve count h.

Definition Delete (p : Z) (h : raw_source) : raw_source := raw_release p h.

(** [for (u8 *it : blocks) Delete(it, pool.BlockAllocator);] *)
Definition Delete_all (ps : list Z) (h : raw_source) : raw_source :=
  fold_left (fun h p => Delete p h) ps h.

(** [struct Pool]; a [Dynamic_Array<u8 *>] is the list of its elements, the
    null block is [0]. *)
Record Pool := mk_pool {
  BlockSize : Z;
  Alignment : Z;
  UnusedMemblocks : list Z;
  UsedMemblocks : list Z;
  ObsoletedMemblocks : list Z;
  CurrentMemblock : Z;
  CurrentPosition : Z;
  BytesLeft : Z
}.

(** [Pool pool;] with the two fields a caller sets. *)
Definition fresh_pool (blockSize alignment : Z) : Pool :=
  {| BlockSize := blockSize; Alignment := alignment;
     UnusedMemblocks := []; UsedMemblocks := []; ObsoletedMemblocks := [];
     CurrentMemblock := 0; CurrentPosition := 0; BytesLeft := 0 |}.

Definition resize_blocks (pool : Pool) (blockSize : Z) : Pool :=
  let obs1 := if CurrentMemblock pool =? 0 then ObsoletedMemblocks pool
              else ObsoletedMemblocks pool ++ [CurrentMemblock pool] in
  {| BlockSize := blockSize;
     Alignment := Alignment pool;
     UnusedMemblocks := UnusedMemblocks pool;
     UsedMemblocks := [];
     ObsoletedMemblocks := obs1 ++ UsedMemblocks pool;
     CurrentMemblock := 0;
     CurrentPosition := CurrentPosition pool;
     BytesLeft := BytesLeft pool |}.

Definition cycle_new_block (pool : Pool) (h : raw_source) : Pool * raw_source :=
  let used := if CurrentMemblock pool =? 0 then UsedMemblocks pool
              else UsedMemblocks pool ++ [CurrentMemblock pool] in
  let '(newBlock, unused, h') :=
    match rev (UnusedMemblocks pool) with
    | lastBlock :: others => (lastBlock, rev others, h)
    | [] => let '(b, h1) := New_u8 (BlockSize pool) h in (b, [], h1)
    end in
  ({| BlockSize := BlockSize pool;
      Alignment := Alignment pool;
      UnusedMemblocks := unused;
      UsedMemblocks := used;
      ObsoletedMemblocks := ObsoletedMemblocks pool;
      CurrentMemblock := newBlock;
      CurrentPosition := newBlock;
      BytesLeft := BlockSize pool |}, h').

(** [while (bs < size) bs *= 2;] on [size_t].  After 64 doublings every
    value is 0, so the loop that has not stopped by then never stops. *)
Fixpoint double_until (fuel : nat) (bs size : Z) : option Z :=
  if bs <? size then
    match fuel with
    | O => None
    | S f => double_until f (wrap64 (bs * 2)) size
    end
  else Some bs.

Definition ensure_memory_exists (pool : Pool) (h : raw_source) (size : Z)
  : option (Pool * raw_source) :=
  match double_until 65 (BlockSize pool) size with
  | None => None
  | Some bs =>
      let pool1 := if BlockSize pool <? bs then resize_blocks pool bs else pool in
      Some (cycle_new_block pool1 h)
  end.

(** [get]: [None] is a call that does not return (division by a zero
    alignment, or the doubling loop running forever). *)
Definition get (pool : Pool) (h : raw_source) (size : Z)
  : option (Z * Pool * raw_source) :=
  if Alignment pool =? 0 then None else
  let extra := wrap64 (Alignment pool - size mod Alignment pool) in
  let size := wrap64 (size + extra) in
  match (if BytesLeft pool <? size then ensure_memory_exists pool h size
         else Some (pool, h)) with
  | None => None
  | Some (pool1, h1) =>
      Some (CurrentPosition pool1,
            {| BlockSize := BlockSize pool1;
               Alignment := Alignment pool1;
               UnusedMemblocks := UnusedMemblocks pool1;
               UsedMemblocks := UsedMemblocks pool1;
               ObsoletedMemblocks := ObsoletedMemblocks pool1;
               CurrentMemblock := CurrentMemblock pool1;
               CurrentPosition := wrap64 (CurrentPosition pool1 + size);
               BytesLeft := wrap64 (BytesLeft pool1 - size) |},
            h1)
  end.

Definition reset (pool : Pool) (h : raw_source) : Pool * raw_source :=
  let unused1 := if CurrentMemblock pool =? 0 then UnusedMemblocks pool
                 else UnusedMemblocks pool ++ [CurrentMemblock pool] in
  let h1 := Delete_all (ObsoletedMemblocks pool) h in
  cycle_new_block
    {| BlockSize := BlockSize pool;
       Alignment := Alignment pool;
       UnusedMemblocks := unused1 ++ UsedMemblocks pool;
       UsedMemblocks := [];
       ObsoletedMemblocks := [];
       CurrentMemblock := 0;
       CurrentPosition := CurrentPosition pool;
       BytesLeft := BytesLeft pool |} h1.

Definition release (pool : Pool) (h : raw_source) : Pool * raw_source :=
  let '(pool1, h1) := reset pool h in
  (pool1, Delete_all (UnusedMemblocks pool1) h1).

Inductive Allocator_Mode := ALLOCATE | RESIZE | FREE | FREE_ALL.

(** [__pool_allocator]: the returned address, and the pool, the raw source
    and the memory after the call. *)
Definition pool_allocator (mode : Allocator_Mode) (pool : Pool) (h : raw_source)
    (m : memory) (size oldMemory oldSize : Z)
  : option (Z * Pool * raw_source * memory) :=
  match mode with
  | ALLOCATE =>
      match get pool h size with
      | None => None
      | Some (p, pool1, h1) => Some (p, pool1, h1, m)
      end
  | RESIZE =>
      match get pool h size with
      | None => None
      | Some (newMemory, pool1, h1) =>
          Some (newMemory, pool1, h1, CopyMemory m oldMemory newMemory oldSize)
      end
  | FREE => Some (0, pool, h, m)
  | FREE_ALL => let '(pool1, h1) := reset pool h in Some (0, pool1, h1, m)
  end.

End GuPool.

(** ** The temporary allocator of light-std
    ([light-std/src/lstd/memory/allocator.cpp]) *)

Module TempAlloc.

(** [temporary_allocator_data::page] without its [Next] link: the chain of
    overflow pages is the list [Overflow], each page with the address of
    its node. *)
Record page := mk_page {
  Storage : Z;
  Reserved : Z;
  Used : Z
}.

Record temporary_allocator_data := mk_data {
  Base : page;
  Overflow : list (Z * page);
  TotalUsed : Z
}.

Definition KiB_8 : Z := 8192.

(** Modelled from the spec: [ceil_pow_of_2] ("next_pow2"), the smallest
    power of two that is at least [v], in [size_t]; [common.h] is not among
    the sources. *)
Definition ceil_pow_of_2 (v : Z) : Z :=
  if v <=? 1 then 1 else wrap64 (2 ^ Z.log2_up v).

(** [(x + 8_KiB - 1) & -8_KiB] on [size_t]. *)
Definition round_up_8_KiB (x : Z) : Z :=
  Z.land (wrap64 (x + KiB_8 - 1)) (- KiB_8).

Inductive allocator_mode := ALLOCATE | REALLOCATE | FREE | FREE_ALL.

Section Growth.

(** [(size_t) ceil(r * (log2(r * 10.0) / 3))]: the floating-point growth
    heuristic, as a function of the capacity [r] of the last page. *)
Variable loggedSize_of : Z -> Z.

Definition sizeof_page : Z := 32.

(** The capacity of a new overflow page after a last page of capacity
    [lastReserved], for a request of [size] bytes. *)
Definition reserveTarget (lastReserved size : Z) : Z :=
  round_up_8_KiB (Z.max (ceil_pow_of_2 (wrap64 (size * 2)))
                        (ceil_pow_of_2 (loggedSize_of lastReserved))).

Definition bump (p : page) (size : Z) : page :=
  {| Storage := Storage p; Reserved := Reserved p; Used := wrap64 (Used p + size) |}.

(** The scan of ALLOCATE from page [p] on, [rest] being the pages linked
    after it: a page that has a successor is taken when the request fits
    ([break]); the last page is taken when it fits, and otherwise gets a new
    successor, which is taken.  The answer is the address served and the
    chain after the bump.  The source checks [assert(result)] (line 115)
    before the bump; the model has no outcome for a failed assertion here
    and answers the address as it is, a null address included. *)
Fixpoint allocate_from (p : page) (rest : list (Z * page)) (size : Z)
    (h : raw_source) : Z * page * list (Z * page) * raw_source :=
  match rest with
  | (node, q) :: rest' =>
      if wrap64 (Used p + size) <? Reserved p
      then (wrap64 (Storage p + Used p), bump p size, rest, h)
      else
        let '(r, q', rest'', h') := allocate_from q rest' size h in
        (r, p, (node, q') :: rest'', h')
  | [] =>
      if wrap64 (Used p + size) >=? Reserved p then
        let '(node, h1) := raw_reserve sizeof_page h in
        let target := reserveTarget (Reserved p) size in
        let '(storage, h2) := raw_reserve target h1 in
        let q := {| Storage := storage; Reserved := target; Used := 0 |} in
        (wrap64 (Storage q + Used q), p, [(node, bump q size)], h2)
      else (wrap64 (Storage p + Used p), bump p size, [], h)
  end.

(** The first lines of [temporary_allocator]: a base page is reserved on
    the first call. *)
Definition ensure_initialized (data : temporary_allocator_data) (size : Z)
    (h : raw_source) : temporary_allocator_data * raw_source :=
  if Reserved (Base data) =? 0 then
    let startingSize := round_up_8_KiB (wrap64 (size * 2)) in
    let '(storage, h1) := raw_reserve startingSize h in
    ({| Base := {| Storage := storage; Reserved := startingSize;
                   Used := Used (Base data) |};
        Overflow := Overflow data; TotalUsed := TotalUsed data |}, h1)
  else (data, h).

Definition allocate (data : temporary_allocator_data) (size : Z) (h : raw_source)
  : Z * temporary_allocator_data * raw_source :=
  let '(r, base, overflow, h1) := allocate_from (Base data) (Overflow data) size h in
  (r, {| Base := base; Overflow := overflow;
         TotalUsed := wrap64 (TotalUsed data + size) |}, h1).

(** [targetSize] of FREE_ALL: the capacities of all pages, summed. *)
Definition total_reserved (data : temporary_allocator_data) : Z :=
  fold_left (fun acc np => wrap64 (acc + Reserved (snd np)))
            (Overflow data) (Reserved (Base data)).

Definition free_overflow (pages : list (Z * page)) (h : raw_source) : raw_source :=
  fold_left (fun h np => raw_release (fst np) (raw_release (Storage (snd np)) h))
            pages h.

Definition free_all (data : temporary_allocator_data) (h : raw_source)
  : temporary_allocator_data * raw_source :=
  let targetSize := total_reserved data in
  let h1 := free_overflow (Overflow data) h in
  let '(storage, reserved', h2) :=
    if targetSize =? Reserved (Base data)
    then (Storage (Base data), Reserved (Base data), h1)
    else let '(s, h') := raw_reserve targetSize (raw_release (Storage (Base data)) h1) in
         (s, targetSize, h') in
  ({| Base := {| Storage := storage; Reserved := reserved'; Used := 0 |};
      Overflow := []; TotalUsed := 0 |}, h2).

(** [temporary_allocator]: the address returned, the allocator's data, the
    raw source and the memory after the call. *)
Definition temporary_allocator (mode : allocator_mode)
    (data : temporary_allocator_data) (size oldMemory oldSize : Z)
    (h : raw_source) (m : memory)
  : Z * temporary_allocator_data * raw_source * memory :=
  let '(data, h) := ensure_initialized data size h in
  match mode with
  | ALLOCATE =>
      let '(r, data1, h1) := allocate data size h in (r, data1, h1, m)
  | REALLOCATE =>
      if size <=? oldSize then (oldMemory, data, h, m)
      else
        let '(data0, h0) := ensure_initialized data size h in
        let '(r, data1, h1) := allocate data0 size h0 in
        (r, data1, h1, copy_memory m r oldMemory oldSize)
  | FREE => (0, data, h, m)
  | FREE_ALL => let '(data1, h1) := free_all data h in (0, data1, h1, m)
  end.

End Growth.

End TempAlloc.

(** ** The fixed-size temporary allocator of light-std
    ([light-std/src/lstd/memory/temporary_allocator.hpp]) *)

Module TempStorage.

(** [struct temporary_storage]; [Data] is the address of the buffer. *)
Record temporary_storage := mk_storage {
  Data : Z;
  Size : Z;
  Occupied : Z;
  HighestUsed : Z
}.

Inductive allocator_mode := ALLOCATE | RESIZE | FREE | FREE_ALL.

(** [Context.Allocator], a function and its data. *)
Record allocator_closure := mk_closure {
  Function : Z;
  AllocatorData : Z
}.

(** The globals the allocator reads and writes: the allocator of the
    implicit context, [g_TemporaryAllocatorData], and what has been
    printed. *)
Record process := mk_process {
  ContextAllocator : allocator_closure;
  g_TemporaryAllocatorData : Z;
  printed : list string
}.

Section Fallback.

(** Modelled from the spec: the address of [temporary_allocator] itself,
    the closure [MALLOC] and the allocator [g_DefaultAllocator] behind it
    ("malloc"), which are declared in headers that are not among the
    sources; the default allocator answers an address and changes a state
    of its own (its last argument, the user flags, is always 0 here). *)
Variable temporary_allocator_address : Z.
Variable MALLOC : allocator_closure.
Variable malloc_state : Type.
Variable g_DefaultAllocator :
  allocator_mode -> Z -> Z -> Z -> Z -> malloc_state -> memory -> Z * malloc_state * memory.

(** [fmt::print] of a line. *)
Definition print (pr : process) (s : string) : process :=
  {| ContextAllocator := ContextAllocator pr;
     g_TemporaryAllocatorData := g_TemporaryAllocatorData pr;
     printed := s :: printed pr |}.

(** The branch [storage->Occupied + size > storage->Size]. *)
Definition out_of_space (mode : allocator_mode) (allocatorData : Z)
    (size oldMemory oldSize : Z) (pr : process) (ms : malloc_state) (m : memory)
  : Z * process * malloc_state * memory :=
  let switched :=
    (Function (ContextAllocator pr) =? temporary_allocator_address)
    || (AllocatorData (ContextAllocator pr) =? g_TemporaryAllocatorData pr) in
  let pr := {| ContextAllocator := if switched then MALLOC else ContextAllocator pr;
               g_TemporaryAllocatorData := 0;
               printed := printed pr |} in
  let nl := String (ascii_of_nat 10) EmptyString in
  let pr := print pr (String.append "!!! Warning !!!" nl) in
  let pr := print pr (String.append
                        ">> Temporary allocator ran out of space, using malloc for allocation..."
                        nl) in
  let pr := print pr (String.append
                        ">> Invalidating pointer to TemporaryAllocatorData..." nl) in
  let pr := if switched
            then print pr (String.append
                             ">> Context detected with temporary allocator, switching it to malloc..."
                             nl)
            else pr in
  let '(r, ms', m') := g_DefaultAllocator mode allocatorData size oldMemory oldSize ms m in
  (r, pr, ms', m').

(** [temporary_allocator]: the storage lives at [allocatorData]; the answer
    is the address returned with the storage, the globals, the state of the
    default allocator and the memory after the call. *)
Definition temporary_allocator (mode : allocator_mode) (allocatorData : Z)
    (storage : temporary_storage) (size oldMemory oldSize : Z)
    (pr : process) (ms : malloc_state) (m : memory)
  : Z * temporary_storage * process * malloc_state * memory :=
  match mode with
  | ALLOCATE | RESIZE =>
      if wrap64 (Occupied storage + size) >? Size storage then
        let '(r, pr', ms', m') :=
          out_of_space mode allocatorData size oldMemory oldSize pr ms m in
        (r, storage, pr', ms', m')
      else
        let block := wrap64 (Data storage + Occupied storage) in
        let m' := match mode with
                  | RESIZE => copy_memory m block oldMemory oldSize
                  | _ => m
                  end in
        let occupied := wrap64 (Occupied storage + size) in
        (block,
         {| Data := Data storage; Size := Size storage; Occupied := occupied;
            HighestUsed := Z.max (HighestUsed storage) occupied |},
         pr, ms, m')
  | FREE => (0, storage, pr, ms, m)
  | FREE_ALL =>
      (0, {| Data := Data storage; Size := Size storage; Occupied := 0;
             HighestUsed := HighestUsed storage |}, pr, ms, m)
  end.

End Fallback.

(** [temporary_storage_reset], [temporary_storage_get_mark] and
    [temporary_storage_set_mark], on the storage [g_TemporaryAllocatorData]
    points to. *)
Definition temporary_storage_reset (storage : temporary_storage) : temporary_storage :=
  {| Data := Data storage; Size := Size storage; Occupied := 0;
     HighestUsed := HighestUsed storage |}.

Definition temporary_storage_get_mark (storage : temporary_storage) : Z :=
  Occupied storage.

Definition temporary_storage_set_mark (storage : temporary_storage) (mark : Z)
  : temporary_storage :=
  {| Data := Data storage; Size := Size storage; Occupied := mark;
     HighestUsed := HighestUsed storage |}.

End TempStorage.

(** ** The front end of lstd ([lstd/src/lstd/memory/allocator.{h,cpp}]) *)

Module Lstd.

(** *** Outcomes of a call

    A call returns, or stops at a failed [assert], or runs into behaviour
    C++ leaves undefined; [OutOfFuel] is a loop cut short by the model. *)
Inductive outcome (A : Type) : Type :=
| Returns (a : A)
| AssertionFailed (msg : string)
| Undefined (what : string)
| OutOfFuel.
Arguments Returns {A} a.
Arguments AssertionFailed {A} msg.
Arguments Undefined {A} what.
Arguments OutOfFuel {A}.

Definition bind {A B : Type} (c : outcome A) (k : A -> outcome B) : outcome B :=
  match c with
  | Returns a => k a
  | AssertionFailed msg => AssertionFailed msg
  | Undefined what => Undefined what
  | OutOfFuel => OutOfFuel
  end.

Notation "x <- c ;; k" := (bind c (fun x => k))
  (at level 61, c at next level, right associativity).
Notation "' pat <- c ;; k" := (bind c (fun x => let 'pat := x in k))
  (at level 61, pat pattern, c at next level, right associativity).

Definition assert (cond : bool) (msg : string) : outcome unit :=
  if cond then Returns tt else AssertionFailed msg.

(** *** Constants of [allocator.h] *)

Definition POINTER_SIZE : Z := 8.
Definition NO_MANS_LAND_SIZE : Z := 4.
Definition NO_MANS_LAND_FILL : Z := 253.   (* 0xFD *)
Definition DEAD_LAND_FILL : Z := 221.      (* 0xDD *)
Definition CLEAN_LAND_FILL : Z := 205.     (* 0xCD *)
Definition DO_INIT_0 : Z := 2 ^ 63.
Definition LEAK : Z := 2 ^ 62.
Definition XXX_AVOID_RECURSION : Z := 2 ^ 61.

Inductive allocator_mode := ALLOCATE | RESIZE | FREE | FREE_ALL.

(** Conversions to the signed types. *)
Definition to_s32 (x : Z) : Z :=
  let y := wrap32 x in if y <? 2 ^ 31 then y else y - 2 ^ 32.
Definition to_s64 (x : Z) : Z :=
  let y := wrap64 x in if y <? 2 ^ 63 then y else y - 2 ^ 64.

(** Modelled from the spec: [is_pow_of_2] of [common.h] (not among the
    sources), "alignment is a power of two". *)
Definition is_pow_of_2 (x : Z) : bool := (0 <? x) && (Z.land x (x - 1) =? 0).

(** *** Layout of [allocation_header]

    A field is its offset in the structure and its width, for a 64-bit
    target (pointers and [s64] of 8 bytes, natural alignment).  With
    [DEBUG_MEMORY] the structure has 104 bytes, without it 40. *)
Definition field : Type := Z * Z.

Section Layout.
Variable debug : bool.   (* is DEBUG_MEMORY defined? *)

Definition sizeof_allocation_header : Z := if debug then 104 else 40.

(* Fields that exist with DEBUG_MEMORY only. *)
Definition f_DEBUG_Next : field := (0, 8).
Definition f_DEBUG_Previous : field := (8, 8).
Definition f_ID : field := (16, 8).
Definition f_RID : field := (24, 8).
Definition f_FileName : field := (32, 8).
Definition f_FileLine : field := (40, 8).
Definition f_DEBUG_Pointer : field := (80, 8).
Definition f_MarkedAsLeak : field := (92, 1).
(* Fields of both layouts. *)
Definition f_Function : field := (if debug then 48 else 0, 8).
Definition f_Context : field := (if debug then 56 else 8, 8).
Definition f_Size : field := (if debug then 64 else 16, 8).
Definition f_Owner : field := (if debug then 72 else 24, 8).
Definition f_Alignment : field := (if debug then 88 else 32, 2).
Definition f_AlignmentPadding : field := (if debug then 90 else 34, 2).

End Layout.

(** [header->f] and [header->f = v]. *)
Definition rd (m : memory) (header : Z) (f : field) : Z :=
  load m (header + fst f) (snd f).
Definition wr (m : memory) (header : Z) (f : field) (v : Z) : memory :=
  store m (header + fst f) (snd f) v.

(** [s64] fields are read back signed. *)
Definition rd_s64 (m : memory) (header : Z) (f : field) : Z := to_s64 (rd m header f).

(** *** Padding ([allocator.h]) *)

Definition calculate_padding_for_pointer (ptr alignment : Z) : outcome Z :=
  _ <- assert ((0 <? alignment) && is_pow_of_2 alignment)
         "alignment > 0 && is_pow_of_2(alignment)" ;;
  Returns (wrap16 (wrap64 (Z.land (wrap64 (ptr + wrap64 (alignment - 1)))
                                  (wrap64 (- alignment)) - ptr))).

Definition calculate_padding_for_pointer_with_header
    (ptr alignment headerSize : Z) : outcome Z :=
  padding <- calculate_padding_for_pointer ptr alignment ;;
  if padding <? headerSize then
    let headerSize := wrap32 (headerSize - padding) in
    if negb (headerSize mod wrap32 alignment =? 0) then
      Returns (wrap16 (padding
                       + wrap32 (alignment * wrap32 (1 + headerSize / wrap32 alignment))))
    else
      Returns (wrap16 (padding
                       + wrap32 (alignment * (headerSize / wrap32 alignment))))
  else Returns padding.

(** *** The program state *)

(** A call made to an allocator function, as the front end makes it. *)
Record allocator_call := mk_call {
  call_function : Z;
  call_mode : allocator_mode;
  call_context : Z;
  call_size : Z;
  call_oldMemory : Z;
  call_oldSize : Z;
  call_result : Z
}.

(** What [Context.Log->write] receives. *)
Inductive log_item :=
| LogText (s : string)
| LogCString (pointer : Z)
| LogDigits (digits : list Z).

(** The fields of the implicit context the front end reads. *)
Record implicit_context := mk_context {
  AllocOptions : Z;
  AllocAlignment : Z;
  LogAllAllocations : bool
}.

Section FrontEnd.

Variable debug : bool.                 (* is DEBUG_MEMORY defined? *)
Variable Context : implicit_context.   (* [::Context] *)

(** The allocator functions of the program: their private state, and what
    a call through a function pointer does: the address it answers, the
    options as it leaves them behind the [u64 *], and its new state.
    Allocator functions keep their bookkeeping out of the blocks they hand
    out: they do not write the memory of the model. *)
Variable allocator_state : Type.
Variable call_allocator :
  Z -> allocator_mode -> Z -> Z -> Z -> Z -> Z -> allocator_state ->
  Z * Z * allocator_state.

Record state := mk_state {
  mem : memory;
  DEBUG_Head : Z;               (* allocator::DEBUG_Head *)
  AllocationCount : Z;          (* allocator::AllocationCount *)
  allocators : allocator_state;
  calls : list allocator_call;  (* the calls made so far, latest first *)
  log : list log_item           (* what was written to Context.Log, latest first *)
}.

Definition set_mem (st : state) (m : memory) : state :=
  {| mem := m; DEBUG_Head := DEBUG_Head st; AllocationCount := AllocationCount st;
     allocators := allocators st; calls := calls st; log := log st |}.

Definition set_DEBUG_Head (st : state) (head : Z) : state :=
  {| mem := mem st; DEBUG_Head := head; AllocationCount := AllocationCount st;
     allocators := allocators st; calls := calls st; log := log st |}.

Definition set_AllocationCount (st : state) (n : Z) : state :=
  {| mem := mem st; DEBUG_Head := DEBUG_Head st; AllocationCount := n;
     allocators := allocators st; calls := calls st; log := log st |}.

Definition Log_write (st : state) (item : log_item) : state :=
  {| mem := mem st; DEBUG_Head := DEBUG_Head st; AllocationCount := AllocationCount st;
     allocators := allocators st; calls := calls st; log := item :: log st |}.

(** [func(mode, context, size, oldMemory, oldSize, &options)]: the answer
    and the options after the call. *)
Definition call (st : state) (func : Z) (mode : allocator_mode)
    (context size oldMemory oldSize options : Z) : Z * Z * state :=
  let '(r, options', a') :=
    call_allocator func mode context size oldMemory oldSize options (allocators st) in
  (r, options',
   {| mem := mem st; DEBUG_Head := DEBUG_Head st; AllocationCount := AllocationCount st;
      allocators := a';
      calls := mk_call func mode context size oldMemory oldSize r :: calls st;
      log := log st |}).

Let H : Z := sizeof_allocation_header debug.

(** *** The debug tracker ([allocator.cpp], lines 12-58) *)

Definition DEBUG_unlink_header (st : state) (header : Z) : outcome state :=
  _ <- assert (negb (header =? 0)) "header" ;;
  _ <- assert (negb (DEBUG_Head st =? 0)) "DEBUG_Head" ;;
  let st1 := if header =? DEBUG_Head st
             then set_DEBUG_Head st (rd (mem st) header f_DEBUG_Next) else st in
  let m1 := mem st1 in
  let m2 := if negb (rd m1 header f_DEBUG_Next =? 0)
            then wr m1 (rd m1 header f_DEBUG_Next) f_DEBUG_Previous
                    (rd m1 header f_DEBUG_Previous)
            else m1 in
  let m3 := if negb (rd m2 header f_DEBUG_Previous =? 0)
            then wr m2 (rd m2 header f_DEBUG_Previous) f_DEBUG_Next
                    (rd m2 header f_DEBUG_Next)
            else m2 in
  Returns (set_mem st1 m3).

Definition DEBUG_add_header (st : state) (header : Z) : state :=
  let m1 := wr (mem st) header f_DEBUG_Next (DEBUG_Head st) in
  let m2 := if negb (DEBUG_Head st =? 0)
            then wr m1 (DEBUG_Head st) f_DEBUG_Previous header else m1 in
  set_DEBUG_Head (set_mem st m2) header.

Definition DEBUG_swap_header (st : state) (oldHeader newHeader : Z) : outcome state :=
  let prev := rd (mem st) oldHeader f_DEBUG_Previous in
  let next := rd (mem st) oldHeader f_DEBUG_Next in
  _ <- assert (negb (DEBUG_Head st =? 0)) "DEBUG_Head" ;;
  let st1 :=
    if negb (prev =? 0)
    then set_mem st (wr (wr (mem st) prev f_DEBUG_Next newHeader)
                        newHeader f_DEBUG_Previous prev)
    else set_DEBUG_Head st newHeader in
  let st2 :=
    if negb (next =? 0)
    then set_mem st1 (wr (wr (mem st1) next f_DEBUG_Previous newHeader)
                         newHeader f_DEBUG_Next next)
    else st1 in
  Returns st2.

(** *** Verification of headers ([allocator.cpp], lines 135-185) *)

Definition verify_header_unlocked (m : memory) (header : Z) : outcome unit :=
  if debug then
    _ <- assert (negb (all_bytes m header (Z.to_nat H) DEAD_LAND_FILL))
           "Trying to access freed memory!" ;;
    _ <- assert (negb (rd m header (f_Alignment debug) =? 0))
           "Alignment is zero. Definitely corrupted." ;;
    _ <- assert (POINTER_SIZE <=? rd m header (f_Alignment debug))
           "Alignment smaller than pointer size. Definitely corrupted." ;;
    _ <- assert (is_pow_of_2 (rd m header (f_Alignment debug)))
           "Alignment not a power of 2. Definitely corrupted." ;;
    _ <- assert (rd m header f_DEBUG_Pointer =? wrap64 (header + H))
           "Debug pointer doesn't match. They should always match." ;;
    let user := wrap64 (header + H) in
    _ <- assert (all_bytes m (wrap64 (user - NO_MANS_LAND_SIZE))
                   (Z.to_nat NO_MANS_LAND_SIZE) NO_MANS_LAND_FILL)
           "No man's land was modified. This means that you wrote before the allocated block." ;;
    assert (all_bytes m (wrap64 (rd m header f_DEBUG_Pointer
                                 + rd_s64 m header (f_Size debug)))
              (Z.to_nat NO_MANS_LAND_SIZE) NO_MANS_LAND_FILL)
      "No man's land was modified. This means that you wrote after the allocated block."
  else Returns tt.

Definition verify_header (st : state) (header : Z) : outcome unit :=
  verify_header_unlocked (mem st) header.

(** [while (it) { verify_header_unlocked(it); it = it->DEBUG_Next; }] *)
Fixpoint verify_list (fuel : nat) (m : memory) (it : Z) : outcome unit :=
  if it =? 0 then Returns tt else
  match fuel with
  | O => OutOfFuel
  | S fuel' =>
      _ <- verify_header_unlocked m it ;;
      verify_list fuel' m (rd m it f_DEBUG_Next)
  end.

Definition verify_heap (fuel : nat) (st : state) : outcome unit :=
  if debug then verify_list fuel (mem st) (DEBUG_Head st) else Returns tt.

(** *** [encode_header] ([allocator.cpp], lines 187-252) *)

Definition encode_header (st : state) (p userSize align f c flags : Z)
  : outcome (Z * state) :=
  padding <- calculate_padding_for_pointer_with_header p (to_s32 align) (wrap32 H) ;;
  let alignmentPadding := wrap32 (padding - H) in
  let result := wrap64 (p + alignmentPadding) in
  let st1 :=
    if debug then
      let m := wr (mem st) result f_DEBUG_Next 0 in
      let m := wr m result f_DEBUG_Previous 0 in
      let m := wr m result f_ID (wrap32 (AllocationCount st)) in
      let m := wr m result f_RID 0 in
      set_AllocationCount (set_mem st m) (to_s64 (AllocationCount st + 1))
    else st in
  let m := wr (mem st1) result (f_Function debug) f in
  let m := wr m result (f_Context debug) c in
  let m := wr m result (f_Size debug) userSize in
  let m := wr m result (f_Alignment debug) align in
  let m := wr m result (f_AlignmentPadding debug) alignmentPadding in
  let m := wr m result (f_Owner debug) 0 in
  let p := wrap64 (result + H) in
  _ <- assert (Z.land p (wrap64 (Z.lnot (to_s64 align - 1))) =? p)
         "Pointer wasn't properly aligned." ;;
  let m :=
    if negb (Z.land flags DO_INIT_0 =? 0) then fill_memory m p 0 userSize
    else if debug then fill_memory m p CLEAN_LAND_FILL userSize
    else m in
  let m :=
    if debug then
      let m := fill_memory m (wrap64 (p - NO_MANS_LAND_SIZE)) NO_MANS_LAND_FILL
                           NO_MANS_LAND_SIZE in
      let m := fill_memory m (wrap64 (p + userSize)) NO_MANS_LAND_FILL
                           NO_MANS_LAND_SIZE in
      let m := wr m result f_DEBUG_Pointer (wrap64 (result + H)) in
      wr m result f_MarkedAsLeak (if Z.land flags LEAK =? 0 then 0 else 1)
    else m in
  Returns (p, set_mem st1 m).

(** *** Logging ([allocator.cpp], lines 254-270) *)

(** [while (line) { *numberP-- = line % 10 + '0'; line /= 10; }]: the digits
    written, most significant first (C++ division truncates). *)
Fixpoint line_digits (fuel : nat) (line : Z) (acc : list Z) : list Z :=
  if line =? 0 then acc else
  match fuel with
  | O => acc
  | S fuel' => line_digits fuel' (Z.quot line 10) (Z.rem line 10 + 48 :: acc)
  end.

Definition log_file_and_line (st : state) (file line : Z) : state :=
  let st := Log_write st (LogCString file) in
  let st := Log_write st (LogText ":") in
  Log_write st (LogDigits (line_digits 20 line [])).

Definition log_allocation (st : state) (what : string) (options fileName fileLine : Z)
  : state :=
  if LogAllAllocations Context && (Z.land options XXX_AVOID_RECURSION =? 0) then
    let st := Log_write st (LogText what) in
    let st := log_file_and_line st fileName fileLine in
    Log_write st (LogText (String (ascii_of_nat 10) EmptyString))
  else st.

(** [sizeof(allocation_header) + alignment + sizeof(allocation_header) % alignment],
    the room asked for besides the user size ([size_t] arithmetic), with
    the bytes after the block with DEBUG_MEMORY. *)
Definition extra_for (alignment : Z) : outcome Z :=
  if alignment =? 0 then Undefined "sizeof(allocation_header) % 0"
  else Returns (wrap64 (alignment + H + H mod alignment)).

Definition guard_bytes : Z := if debug then NO_MANS_LAND_SIZE else 0.

(** *** [allocator::general_allocate] ([allocator.cpp], lines 272-318) *)

Definition general_allocate (fuel : nat) (Function Context_ : Z) (st : state)
    (userSize alignment options fileName fileLine : Z) : outcome (Z * state) :=
  let options := Z.lor options (AllocOptions Context) in
  alignment <-
    (if alignment =? 0 then
       _ <- assert (is_pow_of_2 (AllocAlignment Context)) "is_pow_of_2(contextAlignment)" ;;
       Returns (AllocAlignment Context)
     else Returns alignment) ;;
  let st := log_allocation st ">>> Allocation made at: " options fileName fileLine in
  let alignment := if alignment <? POINTER_SIZE then POINTER_SIZE else alignment in
  _ <- assert (is_pow_of_2 alignment) "is_pow_of_2(alignment)" ;;
  extra <- extra_for alignment ;;
  let required := to_s64 (wrap64 (userSize + extra) + guard_bytes) in
  let '(block, options, st) := call st Function ALLOCATE Context_ required 0 0 options in
  '(result, st) <- encode_header st block userSize alignment Function Context_ options ;;
  let st :=
    if debug then
      let header := wrap64 (result - H) in
      let m := wr (mem st) header f_FileName fileName in
      let m := wr m header f_FileLine fileLine in
      DEBUG_add_header (set_mem st m) header
    else st in
  _ <- verify_heap fuel st ;;
  Returns (result, st).

(** *** [allocator::general_reallocate] ([allocator.cpp], lines 320-425) *)

(** The statements of [general_reallocate] between the early return
    [if (header->Size == newUserSize) return ptr;] (line 326) and the call
    [verify_heap()] that precedes [return p;] (lines 328-421). *)
Definition general_reallocate_resize (st : state)
    (ptr newUserSize options fileName fileLine : Z) : outcome (Z * state) :=
  let options := Z.lor options (AllocOptions Context) in
  let header := wrap64 (ptr - H) in
  let id := rd (mem st) header f_ID in
  let st := log_allocation st ">>> Reallocation made at: " options fileName fileLine in
  extra <- extra_for (rd (mem st) header (f_Alignment debug)) ;;
  let oldUserSize := rd_s64 (mem st) header (f_Size debug) in
  let oldSize := to_s64 (wrap64 (oldUserSize + extra) + guard_bytes) in
  let newSize := to_s64 (wrap64 (newUserSize + extra) + guard_bytes) in
  let func := rd (mem st) header (f_Function debug) in
  let context := rd (mem st) header (f_Context debug) in
  let block := wrap64 (header - rd (mem st) header (f_AlignmentPadding debug)) in
  let '(newBlock, options, st) := call st func RESIZE context newSize block oldSize options in
  '(p, st) <-
    (if newBlock =? 0 then
       (* Memory needs to be moved *)
       let '(newBlock, options, st) := call st func ALLOCATE context newSize 0 0 options in
       '(newPointer, st) <-
         encode_header st newBlock newUserSize
           (rd (mem st) header (f_Alignment debug)) func context options ;;
       let newHeader := wrap64 (newPointer - H) in
       let m := wr (mem st) newHeader (f_Owner debug) (rd (mem st) header (f_Owner debug)) in
       let m := copy_memory m newPointer ptr (rd_s64 m header (f_Size debug)) in
       st <-
         (if debug then
            let m := wr m newHeader f_ID id in
            let m := wr m newHeader f_RID (rd m header f_RID + 1) in
            st <- DEBUG_swap_header (set_mem st m) header newHeader ;;
            let m := fill_memory (mem st) block DEAD_LAND_FILL oldSize in
            let m := wr m newHeader f_FileName fileName in
            let m := wr m newHeader f_FileLine fileLine in
            let m := wr m newHeader f_MarkedAsLeak (rd m header f_MarkedAsLeak) in
            Returns (set_mem st m)
          else Returns (set_mem st m)) ;;
       let '(_, options, st) := call st func FREE context 0 block oldSize options in
       Returns (wrap64 (newHeader + H), options, st)
     else
       (* The block was resized sucessfully and it doesn't need moving *)
       _ <- assert (block =? newBlock) "block == newBlock" ;;
       let m :=
         if debug then
           let m := wr (mem st) header f_RID (rd (mem st) header f_RID + 1) in
           let m := wr m header f_FileName fileName in
           wr m header f_FileLine fileLine
         else mem st in
       let m := wr m header (f_Size debug) newUserSize in
       Returns (wrap64 (header + H), options, set_mem st m)) ;;
  let '(p, options) := p in
  let m := mem st in
  let m :=
    if oldSize <? newSize then
      if negb (Z.land options DO_INIT_0 =? 0)
      then fill_memory m (wrap64 (p + oldUserSize)) 0 (newSize - oldSize)
      else if debug
           then fill_memory m (wrap64 (p + oldUserSize)) CLEAN_LAND_FILL (newSize - oldSize)
           else m
    else if debug
         (* If we are shrinking the memory, fill the old stuff with DEAD_LAND_FILL *)
         then fill_memory m (wrap64 (header + oldSize)) DEAD_LAND_FILL (oldSize - newSize)
         else m in
  let m :=
    if debug
    then fill_memory m (wrap64 (p + newUserSize)) NO_MANS_LAND_FILL NO_MANS_LAND_SIZE
    else m in
  Returns (p, set_mem st m).

(** The body of [general_reallocate] up to, and without, its last statement
    before [return p;], the call [verify_heap()]. *)
Definition general_reallocate_before_verify_heap (st : state)
    (ptr newUserSize options fileName fileLine : Z) : outcome (Z * state) :=
  let header := wrap64 (ptr - H) in
  _ <- verify_header st header ;;
  if rd_s64 (mem st) header (f_Size debug) =? newUserSize then Returns (ptr, st) else
  general_reallocate_resize st ptr newUserSize options fileName fileLine.

(** The whole function.  When the size does not change it returns [ptr] at
    once, after [verify_header] only; otherwise [verify_heap()] runs before
    [return p;]. *)
Definition general_reallocate (fuel : nat) (st : state)
    (ptr newUserSize options fileName fileLine : Z) : outcome (Z * state) :=
  let header := wrap64 (ptr - H) in
  _ <- verify_header st header ;;
  if rd_s64 (mem st) header (f_Size debug) =? newUserSize then Returns (ptr, st) else
  '(p, st) <- general_reallocate_resize st ptr newUserSize options
                fileName fileLine ;;
  _ <- verify_heap fuel st ;;
  Returns (p, st).

(** *** [allocator::general_free] ([allocator.cpp], lines 427-458) *)

Definition general_free (fuel : nat) (st : state) (ptr options : Z) : outcome state :=
  if ptr =? 0 then Returns st else
  let options := Z.lor options (AllocOptions Context) in
  let header := wrap64 (ptr - H) in
  _ <- verify_header st header ;;
  extra <- extra_for (rd (mem st) header (f_Alignment debug)) ;;
  let size := to_s64 (wrap64 (rd_s64 (mem st) header (f_Size debug) + extra)
                      + guard_bytes) in
  let func := rd (mem st) header (f_Function debug) in
  let context := rd (mem st) header (f_Context debug) in
  let block := wrap64 (header - rd (mem st) header (f_AlignmentPadding debug)) in
  st <-
    (if debug then
       st <- DEBUG_unlink_header st header ;;
       Returns (set_mem st (fill_memory (mem st) block DEAD_LAND_FILL size))
     else Returns st) ;;
  let '(_, _, st) := call st func FREE context 0 block size options in
  _ <- verify_heap fuel st ;;
  Returns st.

(** *** [allocator::free_all] ([allocator.cpp], lines 460-465) *)

Definition free_all (Function Context_ : Z) (st : state) (options : Z) : outcome state :=
  let options := Z.lor options (AllocOptions Context) in
  let '(result, _, st) := call st Function FREE_ALL Context_ 0 0 0 options in
  _ <- assert (negb (result =? wrap64 (-1))) "Allocator doesn't support FREE_ALL" ;;
  Returns st.

(** The number of headers linked from [DEBUG_Head]
    ([while (it) { ++count; it = it->DEBUG_Next; }], as DEBUG_report_leaks
    walks the list). *)
Fixpoint count_linked (fuel : nat) (m : memory) (it : Z) : option nat :=
  if it =? 0 then Some O else
  match fuel with
  | O => None
  | S fuel' => option_map S (count_linked fuel' m (rd m it f_DEBUG_Next))
  end.

(** *** A client of the front end

    A program that allocates and frees through the front end: it keeps the
    pointers it was given ([held], latest first), allocates with an
    alignment [2 ^ j], and frees the [k]-th pointer it holds. *)
Inductive request : Type :=
| Allocate (userSize j options fileName fileLine : Z)
| Free (k : nat) (options : Z).

Fixpoint remove_nth (k : nat) (l : list Z) : list Z :=
  match l, k with
  | [], _ => []
  | _ :: rest, O => rest
  | x :: rest, S k' => x :: remove_nth k' rest
  end.

Fixpoint run (fuel : nat) (Function Context_ : Z) (rs : list request)
    (st : state) (held : list Z) : outcome (state * list Z) :=
  match rs with
  | [] => Returns (st, held)
  | Allocate s j o fn fl :: rest =>
      '(p, st) <- general_allocate fuel Function Context_ st s (2 ^ j) o fn fl ;;
      run fuel Function Context_ rest st (p :: held)
  | Free k o :: rest =>
      match nth_error held k with
      | None => run fuel Function Context_ rest st held
      | Some p =>
          st <- general_free fuel st p o ;;
          run fuel Function Context_ rest st (remove_nth k held)
      end
  end.

Definition allocations (rs : list request) : nat :=
  List.length (filter (fun r => match r with Allocate _ _ _ _ _ => true | _ => false end) rs).

Definition frees (rs : list request) : nat :=
  List.length (filter (fun r => match r with Free _ _ => true | _ => false end) rs).

(** Every [Free k] names a pointer the program holds at that time, and every
    [Allocate] asks for a size and an alignment in range. *)
Fixpoint well_formed (rs : list request) (holding : nat) : bool :=
  match rs with
  | [] => true
  | Allocate s j _ _ _ :: rest =>
      (0 <=? s) && (s <? 2 ^ 62) && (3 <=? j) && (j <=? 15)
      && well_formed rest (S holding)
  | Free k _ :: rest =>
      (k <? holding)%nat && well_formed rest (Nat.pred holding)
  end.

End FrontEnd.

Arguments mem {allocator_state} s.
Arguments DEBUG_Head {allocator_state} s.
Arguments AllocationCount {allocator_state} s.
Arguments allocators {allocator_state} s.
Arguments calls {allocator_state} s.
Arguments log {allocator_state} s.

End Lstd.

(** ** An allocator to run the front end with *)

(** Modelled from the spec: the allocators of lstd (the default allocator and
    the temporary allocator of this version) are not among the sources, so
    the front end is run with a bump allocator that follows the protocol of
    [allocator_func_t] as the spec describes it.  ALLOCATE answers the next
    free address and moves it up by the size, or null when the arena is
    used up; RESIZE answers the old block when the block is to shrink and
    the allocator resizes in place ([shrinks_in_place]), and null (the block
    must move) otherwise; FREE does nothing; FREE_ALL takes the arena back
    to its start.  Its state is the next free address. *)
Module Arena.
Import Lstd.

Definition arena_start : Z := 4096.
Definition arena_end : Z := 2 ^ 32.

(** Modelled from the spec: the protocol of [allocator_func_t], followed by
    a bump allocator (see above). *)
Definition arena_allocator (shrinks_in_place : bool) (func : Z)
    (mode : allocator_mode) (context size oldMemory oldSize options : Z)
    (next : Z) : Z * Z * Z :=
  match mode with
  | ALLOCATE =>
      if (0 <=? size) && (next + size <=? arena_end)
      then (next, options, next + size)
      else (0, options, next)
  | RESIZE =>
      if shrinks_in_place && (size <=? oldSize)
      then (oldMemory, options, next)
      else (0, options, next)
  | FREE => (0, options, next)
  | FREE_ALL => (0, options, arena_start)
  end.

(** The implicit context: no option bits, the default alignment of 8, no
    logging of allocations. *)
Definition context : implicit_context := mk_context 0 8 false.

(** The program starts with zeroed memory, an empty tracker list and an
    unused arena. *)
Definition start : state Z := mk_state Z (fun _ => 0) 0 0 arena_start [] [].

(** The address of the allocator function, and the fuel of the list walks. *)
Definition arena_function : Z := 4919.
Definition walk_fuel : nat := 100.

Definition allocate (debug shrinks_in_place : bool) (st : state Z)
    (userSize alignment : Z) : outcome (Z * state Z) :=
  general_allocate debug context Z (arena_allocator shrinks_in_place) walk_fuel
    arena_function 0 st userSize alignment 0 0 0.

Definition reallocate (debug shrinks_in_place : bool) (st : state Z)
    (ptr newUserSize : Z) : outcome (Z * state Z) :=
  general_reallocate debug context Z (arena_allocator shrinks_in_place) walk_fuel
    st ptr newUserSize 0 0 0.

Definition reallocate_before_verify_heap (debug shrinks_in_place : bool)
    (st : state Z) (ptr newUserSize : Z) : outcome (Z * state Z) :=
  general_reallocate_before_verify_heap debug context Z
    (arena_allocator shrinks_in_place) st ptr newUserSize 0 0 0.

Definition free (debug : bool) (st : state Z) (ptr : Z) : outcome (state Z) :=
  general_free debug context Z (arena_allocator false) walk_fuel st ptr 0.

(** The program's first allocation: 1000 bytes aligned to 8. *)
Definition first_allocation (debug : bool) : outcome (Z * state Z) :=
  allocate debug false start 1000 8.

Definition after_first_allocation (debug : bool) : state Z :=
  match first_allocation debug with
  | Returns (_, st) => st
  | _ => start
  end.

(** The user writes eight bytes at the start of an allocation. *)
Definition content : Z := 0x0807060504030201.

Definition write_content (st : state Z) (p : Z) : state Z :=
  set_mem Z st (store (mem st) p 8 content).

(** The program's second allocation: 16 bytes aligned to 16. *)
Definition second_allocation (debug : bool) : outcome (Z * state Z) :=
  allocate debug false (after_first_allocation debug) 16 16.

Definition after_second_allocation (debug : bool) : state Z :=
  match second_allocation debug with
  | Returns (_, st) => st
  | _ => start
  end.

(** A second allocator: another function, with a context of its own, that
    hands out blocks of the same arena.  After an allocation made with it
    the heap holds the blocks of two allocators, and with DEBUG_MEMORY one
    tracker list links the headers of both. *)
Definition other_function : Z := 4920.
Definition other_context : Z := 64.

Definition other_allocation (debug : bool) : outcome (Z * state Z) :=
  general_allocate debug context Z (arena_allocator false) walk_fuel
    other_function other_context (after_first_allocation debug) 16 16 0 0 0.

Definition after_other_allocation (debug : bool) : state Z :=
  match other_allocation debug with
  | Returns (_, st) => st
  | _ => start
  end.

End Arena.

(** ** Arithmetic facts *)

Lemma land_neg_pow2 (x j : Z) :
  0 <= j -> Z.land x (- 2 ^ j) = x - x mod 2 ^ j.
Proof.
  intros Hj.
  replace (- 2 ^ j) with (Z.lnot (Z.ones j)).
  - rewrite <- Z.ldiff_land, Z.ldiff_ones_r by assumption.
    rewrite Z.shiftl_mul_pow2, Z.shiftr_div_pow2 by assumption.
    pose proof (Z.div_mod x (2 ^ j)).
    assert (2 ^ j <> 0) by (apply Z.pow_nonzero; lia). lia.
  - unfold Z.lnot. rewrite Z.ones_equiv. lia.
Qed.


Lemma pow2_le_mono (a b : Z) : 0 <= a <= b -> 2 ^ a <= 2 ^ b.
Proof. intros H. apply Z.pow_le_mono_r; lia. Qed.


(** ** Facts about the byte memory *)

Module MemFacts.

Lemma in_range_true (lo len x : Z) :
  in_range lo len x = true <-> lo <= x < lo + len.
Proof.
  unfold in_range. rewrite andb_true_iff, Z.leb_le, Z.ltb_lt. tauto.
Qed.

Lemma in_range_false (lo len x : Z) :
  in_range lo len x = false <-> x < lo \/ lo + len <= x.
Proof.
  unfold in_range. rewrite andb_false_iff, Z.leb_gt, Z.ltb_ge. tauto.
Qed.

(** Two memories that agree on every address outside [lo, hi). *)
Definition agree_outside (lo hi : Z) (m m' : memory) : Prop :=
  forall x, x < lo \/ hi <= x -> m' x = m x.

Lemma agree_outside_refl (lo hi : Z) (m : memory) : agree_outside lo hi m m.
Proof. intros x _. reflexivity. Qed.

Lemma agree_outside_trans (lo hi : Z) (m1 m2 m3 : memory) :
  agree_outside lo hi m1 m2 -> agree_outside lo hi m2 m3 -> agree_outside lo hi m1 m3.
Proof. intros H12 H23 x Hx. rewrite H23, H12; auto. Qed.

Lemma agree_outside_widen (lo hi lo' hi' : Z) (m m' : memory) :
  agree_outside lo hi m m' -> lo' <= lo -> hi <= hi' -> agree_outside lo' hi' m m'.
Proof. intros Ha Hlo Hhi x Hx. apply Ha. lia. Qed.

Lemma agree_outside_store (lo hi : Z) (m : memory) (addr n v : Z) :
  lo <= addr -> addr + n <= hi -> agree_outside lo hi m (store m addr n v).
Proof.
  intros Hlo Hhi x Hx. unfold store.
  destruct (in_range addr n x) eqn:E; [|reflexivity].
  apply in_range_true in E. lia.
Qed.

Lemma agree_outside_fill (lo hi : Z) (m : memory) (dest value num : Z) :
  lo <= dest -> dest + num <= hi -> agree_outside lo hi m (fill_memory m dest value num).
Proof.
  intros Hlo Hhi x Hx. unfold fill_memory.
  destruct (in_range dest num x) eqn:E; [|reflexivity].
  apply in_range_true in E. lia.
Qed.

Lemma load_bytes_ext (m m' : memory) (n : nat) :
  forall addr,
    (forall x, addr <= x < addr + Z.of_nat n -> m' x = m x) ->
    load_bytes m' addr n = load_bytes m addr n.
Proof.
  induction n as [|k IH]; intros addr Hx; [reflexivity|].
  cbn [load_bytes]. rewrite Hx by lia. rewrite IH; [reflexivity|].
  intros x Hr. apply Hx. lia.
Qed.

Lemma load_ext (m m' : memory) (addr n : Z) :
  (forall x, addr <= x < addr + n -> m' x = m x) ->
  load m' addr n = load m addr n.
Proof.
  intros Hx. unfold load. apply load_bytes_ext.
  intros x Hr. apply Hx. lia.
Qed.

Lemma load_agree (lo hi : Z) (m m' : memory) (addr n : Z) :
  agree_outside lo hi m m' -> addr + n <= lo \/ hi <= addr ->
  load m' addr n = load m addr n.
Proof. intros Ha Hd. apply load_ext. intros x Hx. apply Ha. lia. Qed.

Lemma load_bytes_range (m : memory) (n : nat) :
  forall addr, 0 <= load_bytes m addr n < 2 ^ (8 * Z.of_nat n).
Proof.
  induction n as [|k IH]; intros addr; [cbn; lia|].
  cbn [load_bytes]. specialize (IH (addr + 1)).
  replace (8 * Z.of_nat (S k)) with (8 + 8 * Z.of_nat k) by lia.
  rewrite Z.pow_add_r by lia. change (2 ^ 8) with 256.
  pose proof (Z.mod_pos_bound (m addr) 256 ltac:(lia)). nia.
Qed.

Lemma load_range (m : memory) (addr n : Z) :
  0 <= n -> 0 <= load m addr n < 2 ^ (8 * n).
Proof.
  intros Hn. unfold load. pose proof (load_bytes_range m (Z.to_nat n) addr) as Hr.
  now rewrite Z2Nat.id in Hr by assumption.
Qed.

Lemma load_bytes_store_same (m : memory) (n : nat) :
  forall (k : nat) (addr v : Z),
    load_bytes (store m addr (Z.of_nat k + Z.of_nat n) v) (addr + Z.of_nat k) n
    = (v / 2 ^ (8 * Z.of_nat k)) mod 2 ^ (8 * Z.of_nat n).
Proof.
  induction n as [|j IH]; intros k addr v.
  - cbn [load_bytes]. rewrite Z.mul_0_r, Z.pow_0_r, Z.mod_1_r. reflexivity.
  - cbn [load_bytes]. unfold store at 1.
    assert (E : in_range addr (Z.of_nat k + Z.of_nat (S j)) (addr + Z.of_nat k) = true)
      by (apply in_range_true; lia).
    rewrite E. replace (addr + Z.of_nat k - addr) with (Z.of_nat k) by lia.
    rewrite Z.mod_mod by lia.
    replace (addr + Z.of_nat k + 1) with (addr + Z.of_nat (S k)) by lia.
    replace (Z.of_nat k + Z.of_nat (S j)) with (Z.of_nat (S k) + Z.of_nat j) by lia.
    rewrite IH.
    replace (8 * Z.of_nat (S k)) with (8 * Z.of_nat k + 8) by lia.
    replace (8 * Z.of_nat (S j)) with (8 + 8 * Z.of_nat j) by lia.
    rewrite !Z.pow_add_r by lia. change (2 ^ 8) with 256.
    set (q := v / 2 ^ (8 * Z.of_nat k)).
    rewrite <- Z.div_div by (try apply Z.pow_pos_nonneg; lia). fold q.
    assert (Hp : 0 < 2 ^ (8 * Z.of_nat j)) by (apply Z.pow_pos_nonneg; lia).
    rewrite Z.rem_mul_r by lia. reflexivity.
Qed.

Lemma load_store_same (m : memory) (addr n v : Z) :
  0 <= n -> load (store m addr n v) addr n = v mod 2 ^ (8 * n).
Proof.
  intros Hn. unfold load.
  pose proof (load_bytes_store_same m (Z.to_nat n) 0 addr v) as Hs.
  cbn [Z.of_nat] in Hs. rewrite Z.add_0_l, Z.add_0_r, Z.mul_0_r in Hs.
  rewrite Z.pow_0_r, Z.div_1_r, Z2Nat.id in Hs by assumption. exact Hs.
Qed.

Lemma load_store_other (m : memory) (addr n v addr' n' : Z) :
  addr' + n' <= addr \/ addr + n <= addr' ->
  load (store m addr n v) addr' n' = load m addr' n'.
Proof.
  intros Hd. apply load_ext. intros x Hx. unfold store.
  destruct (in_range addr n x) eqn:E; [|reflexivity].
  apply in_range_true in E. lia.
Qed.

Lemma load_fill_other (m : memory) (dest value num addr' n' : Z) :
  addr' + n' <= dest \/ dest + num <= addr' ->
  load (fill_memory m dest value num) addr' n' = load m addr' n'.
Proof.
  intros Hd. apply load_ext. intros x Hx. unfold fill_memory.
  destruct (in_range dest num x) eqn:E; [|reflexivity].
  apply in_range_true in E. lia.
Qed.

Lemma all_bytes_spec (m : memory) (v : Z) (n : nat) :
  forall addr,
    all_bytes m addr n v = true <->
    (forall x, addr <= x < addr + Z.of_nat n -> (m x) mod 256 = v).
Proof.
  induction n as [|k IH]; intros addr; cbn [all_bytes].
  - split; [intros _ x Hx; lia|reflexivity].
  - rewrite andb_true_iff, Z.eqb_eq, IH. split.
    + intros [H0 Hr] x Hx. destruct (Z.eq_dec x addr) as [->|Hne]; [exact H0|].
      apply Hr. lia.
    + intros Hall. split; [apply Hall; lia|]. intros x Hx. apply Hall. lia.
Qed.

Lemma all_bytes_ext (m m' : memory) (addr v : Z) (n : nat) :
  (forall x, addr <= x < addr + Z.of_nat n -> m' x = m x) ->
  all_bytes m' addr n v = all_bytes m addr n v.
Proof.
  intros Hx. apply eq_true_iff_eq. rewrite !all_bytes_spec.
  split; intros Hall x Hr; [rewrite <- Hx|rewrite Hx]; auto.
Qed.

Lemma all_bytes_agree (lo hi : Z) (m m' : memory) (addr v : Z) (n : nat) :
  agree_outside lo hi m m' -> addr + Z.of_nat n <= lo \/ hi <= addr ->
  all_bytes m' addr n v = all_bytes m addr n v.
Proof. intros Ha Hd. apply all_bytes_ext. intros x Hx. apply Ha. lia. Qed.

Lemma all_bytes_fill (m : memory) (dest value num addr : Z) (n : nat) :
  dest <= addr -> addr + Z.of_nat n <= dest + num -> 0 <= value < 256 ->
  all_bytes (fill_memory m dest value num) addr n value = true.
Proof.
  intros Hlo Hhi Hv. apply all_bytes_spec. intros x Hx. unfold fill_memory.
  assert (E : in_range dest num x = true) by (apply in_range_true; lia).
  rewrite E. rewrite Z.mod_mod by lia. apply Z.mod_small. assumption.
Qed.

(** Bytes that are all [v] read as the number whose every byte is [v]. *)
Lemma load_bytes_all (m : memory) (v : Z) (n : nat) :
  forall addr,
    all_bytes m addr n v = true ->
    load_bytes m addr n = load_bytes (fun _ => v) 0 n.
Proof.
  induction n as [|k IH]; intros addr Hall; [reflexivity|].
  cbn [all_bytes] in Hall. apply andb_true_iff in Hall. destruct Hall as [H0 Hr].
  apply Z.eqb_eq in H0. cbn [load_bytes].
  rewrite (IH _ Hr), H0.
  assert (Hvv : v mod 256 = v) by (rewrite <- H0; apply Z.mod_mod; lia).
  rewrite Hvv. f_equal. f_equal.
  clear. generalize 0 at 1. generalize 1 at 1.
  induction k as [|j IHj]; intros a b; [reflexivity|].
  cbn [load_bytes]. f_equal. f_equal. apply IHj.
Qed.

Lemma all_bytes_sub (m : memory) (v : Z) (n : nat) (addr addr' : Z) (n' : nat) :
  all_bytes m addr n v = true ->
  addr <= addr' -> addr' + Z.of_nat n' <= addr + Z.of_nat n ->
  all_bytes m addr' n' v = true.
Proof.
  rewrite !all_bytes_spec. intros Hall Hlo Hhi x Hx. apply Hall. lia.
Qed.

End MemFacts.

(** ** The memory routines of cpp-utils *)

Module GuMemoryFacts.
Import MemFacts.

(** A memory whose cells hold bytes. *)
Definition byte_memory (m : memory) : Prop := forall x, 0 <= m x < 256.

Lemma CopyMemory_loop_ext (n : nat) :
  forall (m m' : memory) (d s : Z),
    (forall x, m x = m' x) ->
    forall x, CopyMemory_loop m d s n x = CopyMemory_loop m' d s n x.
Proof.
  induction n as [|k IH]; intros m m' d s He x; cbn [CopyMemory_loop]; [apply He|].
  apply IH. intros y. rewrite !He. reflexivity.
Qed.

(** The forward byte loop copies, unless the destination starts inside the
    source. *)
Lemma CopyMemory_loop_spec (n : nat) :
  forall (m : memory) (d s : Z),
    d <= s \/ s + Z.of_nat n <= d ->
    forall x, CopyMemory_loop m d s n x
              = if in_range d (Z.of_nat n) x then m (s + (x - d)) else m x.
Proof.
  induction n as [|k IH]; intros m d s Hd x.
  - cbn [CopyMemory_loop]. destruct (in_range d (Z.of_nat 0) x) eqn:E; [|reflexivity].
    apply in_range_true in E. lia.
  - cbn [CopyMemory_loop]. rewrite IH by lia.
    destruct (in_range (d + 1) (Z.of_nat k) x) eqn:E1;
      destruct (in_range d (Z.of_nat (S k)) x) eqn:E2;
      try apply in_range_true in E1; try apply in_range_false in E1;
      try apply in_range_true in E2; try apply in_range_false in E2; try lia.
    + destruct (s + 1 + (x - (d + 1)) =? d) eqn:E3;
        [apply Z.eqb_eq in E3; lia|].
      f_equal. lia.
    + assert (x = d) as -> by lia. rewrite Z.eqb_refl. f_equal. lia.
    + destruct (x =? d) eqn:E3; [apply Z.eqb_eq in E3; lia|reflexivity].
Qed.

(** The backward byte loop, from the last byte down, copies unless the
    source starts inside the destination. *)
Lemma MoveMemory_backward_spec (n : nat) :
  forall (m : memory) (d s : Z),
    s <= d \/ d + Z.of_nat n <= s ->
    forall x, GuMemory.MoveMemory_backward m (d + (Z.of_nat n - 1))
                (s + (Z.of_nat n - 1)) n x
              = if in_range d (Z.of_nat n) x then m (s + (x - d)) else m x.
Proof.
  induction n as [|k IH]; intros m d s Hd x.
  - cbn [GuMemory.MoveMemory_backward].
    destruct (in_range d (Z.of_nat 0) x) eqn:E; [|reflexivity].
    apply in_range_true in E. lia.
  - cbn [GuMemory.MoveMemory_backward].
    replace (d + (Z.of_nat (S k) - 1) - 1) with (d + (Z.of_nat k - 1)) by lia.
    replace (s + (Z.of_nat (S k) - 1) - 1) with (s + (Z.of_nat k - 1)) by lia.
    rewrite IH by lia.
    destruct (in_range d (Z.of_nat k) x) eqn:E1;
      destruct (in_range d (Z.of_nat (S k)) x) eqn:E2;
      try apply in_range_true in E1; try apply in_range_false in E1;
      try apply in_range_true in E2; try apply in_range_false in E2; try lia.
    + destruct (s + (x - d) =? d + (Z.of_nat (S k) - 1)) eqn:E3;
        [apply Z.eqb_eq in E3; lia|reflexivity].
    + assert (x = d + (Z.of_nat (S k) - 1)) as -> by lia. rewrite Z.eqb_refl.
      f_equal. lia.
    + destruct (x =? d + (Z.of_nat (S k) - 1)) eqn:E3;
        [apply Z.eqb_eq in E3; lia|reflexivity].
Qed.

Lemma load_bytes_split (m : memory) (n : nat) (a : Z) :
  load_bytes m a (S n) mod 256 = (m a) mod 256
  /\ load_bytes m a (S n) / 256 = load_bytes m (a + 1) n.
Proof.
  cbn [load_bytes].
  pose proof (Z.mod_pos_bound (m a) 256 ltac:(lia)) as Hb.
  set (L := load_bytes m (a + 1) n). set (b := m a mod 256) in *.
  replace (b + 256 * L) with (b + L * 256) by lia.
  split.
  - rewrite Z.mod_add by lia. apply Z.mod_small. exact Hb.
  - rewrite Z.div_add by lia. rewrite (Z.div_small b 256) by lia. lia.
Qed.

(** Byte [k] of a little-endian load. *)
Lemma load_bytes_byte (m : memory) :
  forall (k n : nat) (a : Z),
    (k < n)%nat ->
    (load_bytes m a n / 2 ^ (8 * Z.of_nat k)) mod 256 = (m (a + Z.of_nat k)) mod 256.
Proof.
  induction k as [|k IH]; intros n a Hk; (destruct n as [|n]; [lia|]).
  - cbn [Z.of_nat]. rewrite Z.mul_0_r, Z.pow_0_r, Z.div_1_r, Z.add_0_r.
    apply load_bytes_split.
  - replace (8 * Z.of_nat (S k)) with (8 + 8 * Z.of_nat k) by lia.
    rewrite Z.pow_add_r by lia. change (2 ^ 8) with 256.
    rewrite <- Z.div_div by (try apply Z.pow_pos_nonneg; lia).
    rewrite (proj2 (load_bytes_split m n a)).
    rewrite IH by lia. f_equal. f_equal. lia.
Qed.

(** One word step is four byte steps, when no byte read has been written
    by an earlier byte step. *)
Lemma word_step_is_four_byte_steps (m : memory) (d s : Z) :
  byte_memory m -> (d - s) mod 4 = 0 ->
  forall x, store m d 4 (load m s 4) x = CopyMemory_loop m d s 4 x.
Proof.
  intros Hb Hal x. cbn [CopyMemory_loop].
  assert (Hne : forall i j, 0 <= i < 4 -> 0 <= j < 4 -> i <> j -> s + i <> d + j).
  { intros i j Hi Hj Hij E.
    assert (Hd : d - s = i - j) by lia. rewrite Hd in Hal.
    destruct (Z.eq_dec (i - j) 1); [rewrite e in Hal; discriminate|].
    destruct (Z.eq_dec (i - j) 2); [rewrite e in Hal; discriminate|].
    destruct (Z.eq_dec (i - j) 3); [rewrite e in Hal; discriminate|].
    destruct (Z.eq_dec (i - j) (-1)); [rewrite e in Hal; discriminate|].
    destruct (Z.eq_dec (i - j) (-2)); [rewrite e in Hal; discriminate|].
    destruct (Z.eq_dec (i - j) (-3)); [rewrite e in Hal; discriminate|].
    lia. }
  assert (Hbyte : forall k : nat, (k < 4)%nat ->
            (load m s 4 / 2 ^ (8 * Z.of_nat k)) mod 256 = m (s + Z.of_nat k)).
  { intros k Hk. unfold load. change (Z.to_nat 4) with 4%nat.
    rewrite load_bytes_byte by assumption. apply Z.mod_small, Hb. }
  pose proof (Hbyte 0%nat ltac:(lia)) as B0. pose proof (Hbyte 1%nat ltac:(lia)) as B1.
  pose proof (Hbyte 2%nat ltac:(lia)) as B2. pose proof (Hbyte 3%nat ltac:(lia)) as B3.
  cbn [Z.of_nat Pos.of_succ_nat Pos.succ] in B0, B1, B2, B3.
  rewrite Z.add_0_r in B0.
  pose proof (Hne 1 0 ltac:(lia) ltac:(lia) ltac:(lia)) as N10.
  pose proof (Hne 2 0 ltac:(lia) ltac:(lia) ltac:(lia)) as N20.
  pose proof (Hne 2 1 ltac:(lia) ltac:(lia) ltac:(lia)) as N21.
  pose proof (Hne 3 0 ltac:(lia) ltac:(lia) ltac:(lia)) as N30.
  pose proof (Hne 3 1 ltac:(lia) ltac:(lia) ltac:(lia)) as N31.
  pose proof (Hne 3 2 ltac:(lia) ltac:(lia) ltac:(lia)) as N32.
  replace (d + 1 + 1) with (d + 2) by lia. replace (d + 2 + 1) with (d + 3) by lia.
  replace (s + 1 + 1) with (s + 2) by lia. replace (s + 2 + 1) with (s + 3) by lia.
  rewrite <- (Z.add_0_r d) in N10, N20, N30.
  rewrite (proj2 (Z.eqb_neq (s + 1) d)) by lia.
  rewrite (proj2 (Z.eqb_neq (s + 2) (d + 1))) by lia.
  rewrite (proj2 (Z.eqb_neq (s + 2) d)) by lia.
  rewrite (proj2 (Z.eqb_neq (s + 3) (d + 2))) by lia.
  rewrite (proj2 (Z.eqb_neq (s + 3) (d + 1))) by lia.
  rewrite (proj2 (Z.eqb_neq (s + 3) d)) by lia.
  unfold store.
  destruct (x =? d + 3) eqn:E3.
  { apply Z.eqb_eq in E3. subst x.
    assert (E : in_range d 4 (d + 3) = true) by (apply in_range_true; lia).
    rewrite E. replace (d + 3 - d) with 3 by lia. exact B3. }
  destruct (x =? d + 2) eqn:E2.
  { apply Z.eqb_eq in E2. subst x.
    assert (E : in_range d 4 (d + 2) = true) by (apply in_range_true; lia).
    rewrite E. replace (d + 2 - d) with 2 by lia. exact B2. }
  destruct (x =? d + 1) eqn:E1.
  { apply Z.eqb_eq in E1. subst x.
    assert (E : in_range d 4 (d + 1) = true) by (apply in_range_true; lia).
    rewrite E. replace (d + 1 - d) with 1 by lia. exact B1. }
  destruct (x =? d) eqn:E0.
  { apply Z.eqb_eq in E0. subst x.
    assert (E : in_range d 4 d = true) by (apply in_range_true; lia).
    rewrite E. replace (d - d) with 0 by lia. exact B0. }
  apply Z.eqb_neq in E0, E1, E2, E3.
  assert (E : in_range d 4 x = false) by (apply in_range_false; lia).
  rewrite E. reflexivity.
Qed.

Lemma byte_memory_store (m : memory) (d n v : Z) :
  byte_memory m -> byte_memory (store m d n v).
Proof.
  intros Hb x. unfold store. destruct (in_range d n x); [|apply Hb].
  apply Z.mod_pos_bound. lia.
Qed.

Lemma byte_memory_ext (m m' : memory) :
  (forall x, m x = m' x) -> byte_memory m -> byte_memory m'.
Proof. intros He Hb x. rewrite <- He. apply Hb. Qed.

Lemma CopyMemory_loop_add (a : nat) :
  forall (b : nat) (m : memory) (d s : Z) (x : Z),
    CopyMemory_loop m d s (a + b) x
    = CopyMemory_loop (CopyMemory_loop m d s a) (d + Z.of_nat a) (s + Z.of_nat a) b x.
Proof.
  induction a as [|a IH]; intros b m d s x.
  - cbn [CopyMemory_loop Nat.add Z.of_nat]. rewrite !Z.add_0_r. reflexivity.
  - cbn [CopyMemory_loop Nat.add]. rewrite IH.
    replace (d + 1 + Z.of_nat a) with (d + Z.of_nat (S a)) by lia.
    replace (s + 1 + Z.of_nat a) with (s + Z.of_nat (S a)) by lia.
    reflexivity.
Qed.

(** The word loop and the byte loop leave the same memory. *)
Lemma CopyMemory_u32_loop_bytes (n : nat) :
  forall (m m' : memory) (d s : Z),
    (forall x, m x = m' x) -> byte_memory m -> (d - s) mod 4 = 0 ->
    forall x, GuMemory.CopyMemory_u32_loop m d s n x
              = CopyMemory_loop m' d s (4 * n) x.
Proof.
  induction n as [|k IH]; intros m m' d s He Hb Hal x.
  - cbn. apply He.
  - cbn [GuMemory.CopyMemory_u32_loop].
    replace (4 * S k)%nat with (4 + 4 * k)%nat by lia.
    rewrite CopyMemory_loop_add. change (Z.of_nat 4) with 4.
    apply IH.
    + intros y. rewrite word_step_is_four_byte_steps by assumption.
      apply CopyMemory_loop_ext. exact He.
    + apply byte_memory_store. exact Hb.
    + replace (d + 4 - (s + 4)) with (d - s) by lia. exact Hal.
Qed.

(** X10.  On a memory of bytes, [CopyMemory] leaves the memory the plain
    byte loop [for (i = 0; i < num; i++) d[i] = s[i];] leaves, whether it
    takes the word-at-a-time path or not, and however the two regions
    overlap. *)
Theorem CopyMemory_is_the_byte_loop (m : memory) (dest src num : Z) :
  byte_memory m -> 0 <= num ->
  forall x, GuMemory.CopyMemory m dest src num x = CopyMemory m dest src num x.
Proof.
  intros Hb Hn x. unfold GuMemory.CopyMemory, CopyMemory.
  destruct ((dest mod 4 =? 0) && (src mod 4 =? 0) && (num mod 4 =? 0)) eqn:E;
    [|reflexivity].
  apply andb_prop in E. destruct E as [E E3]. apply andb_prop in E.
  destruct E as [E1 E2]. apply Z.eqb_eq in E1, E2, E3.
  rewrite (CopyMemory_u32_loop_bytes _ m m dest src (fun _ => eq_refl) Hb).
  - f_equal. pose proof (Z.div_mod num 4 ltac:(lia)) as Hd.
    assert (Hq : 0 <= num / 4) by (apply Z.div_pos; lia).
    lia.
  - rewrite Zminus_mod, E1, E2. reflexivity.
Qed.

(** X11.  [CopyMemory] copies: when the destination does not start inside
    the source ([dest <= src], or the source ends at or before [dest]), the
    [num] bytes at [dest] are afterwards the bytes the source held before
    the call, and no other byte changes. *)
Theorem CopyMemory_copies (m : memory) (dest src num : Z) :
  byte_memory m -> 0 <= num ->
  dest <= src \/ src + num <= dest ->
  (forall i, 0 <= i < num -> GuMemory.CopyMemory m dest src num (dest + i) = m (src + i))
  /\ (forall x, x < dest \/ dest + num <= x -> GuMemory.CopyMemory m dest src num x = m x).
Proof.
  intros Hb Hn Hd.
  assert (E : forall x, GuMemory.CopyMemory m dest src num x
                        = if in_range dest num x then m (src + (x - dest)) else m x).
  { intros x. unfold GuMemory.CopyMemory.
    assert (Es : CopyMemory_loop m dest src (Z.to_nat num) x
                 = if in_range dest num x then m (src + (x - dest)) else m x).
    { rewrite CopyMemory_loop_spec by lia. rewrite Z2Nat.id by lia. reflexivity. }
    destruct ((dest mod 4 =? 0) && (src mod 4 =? 0) && (num mod 4 =? 0)) eqn:E;
      [|exact Es].
    apply andb_prop in E. destruct E as [E E3]. apply andb_prop in E.
    destruct E as [E1 E2]. apply Z.eqb_eq in E1, E2, E3.
    rewrite (CopyMemory_u32_loop_bytes _ m m dest src (fun _ => eq_refl) Hb)
      by (rewrite Zminus_mod, E1, E2; reflexivity).
    rewrite <- Es. f_equal.
    pose proof (Z.div_mod num 4 ltac:(lia)) as Hdm.
    assert (Hq : 0 <= num / 4) by (apply Z.div_pos; lia). lia. }
  split.
  - intros i Hi. rewrite E.
    assert (Er : in_range dest num (dest + i) = true) by (apply in_range_true; lia).
    rewrite Er. f_equal. lia.
  - intros x Hx. rewrite E.
    assert (Er : in_range dest num x = false) by (apply in_range_false; lia).
    rewrite Er. reflexivity.
Qed.

(** X12.  [MoveMemory] copies however the two regions overlap: the [num]
    bytes at [dest] are afterwards the bytes the source held before the
    call, and no other byte changes. *)
Theorem MoveMemory_copies_overlapping_regions (m : memory) (dest src num : Z) :
  0 <= num ->
  (forall i, 0 <= i < num -> GuMemory.MoveMemory m dest src num (dest + i) = m (src + i))
  /\ (forall x, x < dest \/ dest + num <= x -> GuMemory.MoveMemory m dest src num x = m x).
Proof.
  intros Hn.
  assert (E : forall x, GuMemory.MoveMemory m dest src num x
                        = if in_range dest num x then m (src + (x - dest)) else m x).
  { intros x. unfold GuMemory.MoveMemory.
    destruct ((dest <=? src) || (dest >=? src + num)) eqn:Ec.
    - apply orb_prop in Ec.
      rewrite CopyMemory_loop_spec.
      + rewrite Z2Nat.id by lia. reflexivity.
      + rewrite Z2Nat.id by lia. destruct Ec as [Ec|Ec];
          [apply Z.leb_le in Ec|apply Z.geb_le in Ec]; lia.
    - apply orb_false_elim in Ec. destruct Ec as [Ec1 Ec2].
      apply Z.leb_gt in Ec1.
      pose proof (MoveMemory_backward_spec (Z.to_nat num) m dest src) as Hs.
      rewrite Z2Nat.id in Hs by lia. apply Hs. lia. }
  split.
  - intros i Hi. rewrite E.
    assert (Er : in_range dest num (dest + i) = true) by (apply in_range_true; lia).
    rewrite Er. f_equal. lia.
  - intros x Hx. rewrite E.
    assert (Er : in_range dest num x = false) by (apply in_range_false; lia).
    rewrite Er. reflexivity.
Qed.

Lemma FillMemory_loop_spec (n : nat) :
  forall (m : memory) (p v x : Z),
    GuMemory.FillMemory_loop m p v n x
    = if in_range p (Z.of_nat n) x then v mod 256 else m x.
Proof.
  induction n as [|k IH]; intros m p v x.
  - cbn [GuMemory.FillMemory_loop].
    destruct (in_range p (Z.of_nat 0) x) eqn:E; [|reflexivity].
    apply in_range_true in E. lia.
  - cbn [GuMemory.FillMemory_loop]. rewrite IH.
    destruct (in_range (p + 1) (Z.of_nat k) x) eqn:E1;
      destruct (in_range p (Z.of_nat (S k)) x) eqn:E2;
      try apply in_range_true in E1; try apply in_range_false in E1;
      try apply in_range_true in E2; try apply in_range_false in E2; try lia.
    + assert (x = p) as -> by lia. rewrite Z.eqb_refl. reflexivity.
    + destruct (x =? p) eqn:E3; [apply Z.eqb_eq in E3; lia|reflexivity].
Qed.

(** X13.  [FillMemory] sets each of the [num] bytes at [dest] to the low
    eight bits of [value], leaves a memory of bytes a memory of bytes, and
    changes no other byte. *)
Theorem FillMemory_fills (m : memory) (dest value num : Z) :
  0 <= num ->
  (forall i, 0 <= i < num -> GuMemory.FillMemory m dest value num (dest + i) = value mod 256)
  /\ (forall x, x < dest \/ dest + num <= x -> GuMemory.FillMemory m dest value num x = m x)
  /\ (byte_memory m -> byte_memory (GuMemory.FillMemory m dest value num)).
Proof.
  intros Hn. unfold GuMemory.FillMemory.
  split; [|split].
  - intros i Hi. rewrite FillMemory_loop_spec, Z2Nat.id by lia.
    assert (Er : in_range dest num (dest + i) = true) by (apply in_range_true; lia).
    rewrite Er. reflexivity.
  - intros x Hx. rewrite FillMemory_loop_spec, Z2Nat.id by lia.
    assert (Er : in_range dest num x = false) by (apply in_range_false; lia).
    rewrite Er. reflexivity.
  - intros Hb x. rewrite FillMemory_loop_spec.
    destruct (in_range dest (Z.of_nat (Z.to_nat num)) x); [|apply Hb].
    apply Z.mod_pos_bound. lia.
Qed.

(** A memory of bytes to run the routines on: the cell at [x] holds
    [x mod 256]. *)
Definition counting_memory : memory := fun x => x mod 256.

Lemma counting_memory_bytes : byte_memory counting_memory.
Proof. intros x. unfold counting_memory. apply Z.mod_pos_bound. lia. Qed.

Lemma CopyMemory_is_the_byte_loop_witness :
  GuMemory.CopyMemory counting_memory 8 4 8 13 = CopyMemory counting_memory 8 4 8 13.
Proof.
  apply (CopyMemory_is_the_byte_loop counting_memory 8 4 8 counting_memory_bytes
           ltac:(lia) 13).
Defined.

Lemma CopyMemory_copies_witness :
  (forall i, 0 <= i < 8 ->
     GuMemory.CopyMemory counting_memory 4 8 8 (4 + i) = counting_memory (8 + i))
  /\ (forall x, x < 4 \/ 4 + 8 <= x ->
        GuMemory.CopyMemory counting_memory 4 8 8 x = counting_memory x).
Proof.
  apply (CopyMemory_copies counting_memory 4 8 8 counting_memory_bytes); lia.
Defined.

Lemma MoveMemory_copies_overlapping_regions_witness :
  (forall i, 0 <= i < 8 ->
     GuMemory.MoveMemory counting_memory 8 4 8 (8 + i) = counting_memory (4 + i))
  /\ (forall x, x < 8 \/ 8 + 8 <= x ->
        GuMemory.MoveMemory counting_memory 8 4 8 x = counting_memory x).
Proof.
  apply (MoveMemory_copies_overlapping_regions counting_memory 8 4 8). lia.
Defined.

Lemma FillMemory_fills_witness :
  (forall i, 0 <= i < 8 ->
     GuMemory.FillMemory counting_memory 8 (-1) 8 (8 + i) = (-1) mod 256)
  /\ (forall x, x < 8 \/ 8 + 8 <= x ->
        GuMemory.FillMemory counting_memory 8 (-1) 8 x = counting_memory x)
  /\ (byte_memory counting_memory ->
      byte_memory (GuMemory.FillMemory counting_memory 8 (-1) 8)).
Proof.
  apply (FillMemory_fills counting_memory 8 (-1) 8). lia.
Defined.

End GuMemoryFacts.

(** ** Properties of the pool *)

Module GuPoolFacts.
Import GuPool.

Lemma double_until_returns (size : Z) :
  size <= 2 ^ 63 ->
  forall (fuel : nat) (bs : Z),
    0 < bs < 2 ^ 64 -> size <= bs * 2 ^ Z.of_nat fuel ->
    exists r, double_until fuel bs size = Some r /\ size <= r /\ bs <= r < 2 ^ 64.
Proof.
  intros Hsz fuel; induction fuel as [|f IH]; intros bs Hbs Hle.
  - simpl in *. destruct (bs <? size) eqn:E.
    + apply Z.ltb_lt in E. lia.
    + apply Z.ltb_ge in E. exists bs. repeat split; lia.
  - cbn [double_until]. destruct (bs <? size) eqn:E.
    + apply Z.ltb_lt in E.
      assert (Hw : wrap64 (bs * 2) = bs * 2).
      { unfold wrap64. apply Z.mod_small. lia. }
      rewrite Hw.
      destruct (IH (bs * 2)) as (r & Hr & H1 & H2).
      * lia.
      * rewrite Nat2Z.inj_succ, Z.pow_succ_r in Hle by lia. lia.
      * exists r. repeat split; try assumption; lia.
    + apply Z.ltb_ge in E. exists bs. repeat split; lia.
Qed.

Lemma In_reserved_Delete_all (ps : list Z) :
  forall (h : raw_source) (x : Z),
    In x (reserved (Delete_all ps h)) <-> In x (reserved h) /\ ~ In x ps.
Proof.
  induction ps as [|p ps IH]; intros h x; simpl.
  - tauto.
  - unfold Delete_all in *. simpl. rewrite IH. unfold Delete. simpl.
    split.
    + intros [Hin Hn]. apply in_remove in Hin. destruct Hin as [Hin Hne].
      split; [assumption|]. intros [->|Hp]; [congruence|contradiction].
    + intros [Hin Hn]. split.
      * apply in_in_remove; [|assumption]. intros ->. apply Hn. now left.
      * intros Hp. apply Hn. now right.
Qed.

Lemma brk_Delete_all (ps : list Z) :
  forall h : raw_source, brk (Delete_all ps h) = brk h.
Proof.
  induction ps as [|p ps IH]; intros h; simpl; [reflexivity|].
  unfold Delete_all in *. simpl. now rewrite IH.
Qed.

Lemma NoDup_reserved_Delete_all (ps : list Z) :
  forall h : raw_source, NoDup (reserved h) -> NoDup (reserved (Delete_all ps h)).
Proof.
  induction ps as [|p ps IH]; intros h Hnd; simpl; [assumption|].
  unfold Delete_all in *. simpl. apply IH. unfold Delete; simpl.
  clear IH. induction (reserved h) as [|a l IHl]; simpl; [constructor|].
  inversion Hnd; subst. destruct (Z.eq_dec p a).
  - now apply IHl.
  - constructor; [|now apply IHl].
    intros Hin. apply in_remove in Hin. tauto.
Qed.

(** *** RESIZE of the pool allocator *)

(** A pool whose current block starts at 4096 and has served 16 bytes. *)
Definition pool_in_use : Pool :=
  {| BlockSize := 64; Alignment := 8;
     UnusedMemblocks := []; UsedMemblocks := []; ObsoletedMemblocks := [];
     CurrentMemblock := 4096; CurrentPosition := 4112; BytesLeft := 48 |}.

Definition source_in_use : raw_source := {| brk := 4160; reserved := [4096] |}.


(** The size [get] really takes from the block: the request plus its
    padding, in [size_t] arithmetic. *)
Definition padded_size (pool : Pool) (size : Z) : Z :=
  wrap64 (size + wrap64 (Alignment pool - size mod Alignment pool)).

(** The padding [get] adds to a request. *)
Definition extra_of (pool : Pool) (s : Z) : Z := Alignment pool - s mod Alignment pool.

Lemma padded_size_no_wrap (pool : Pool) (s : Z) :
  0 < Alignment pool -> 0 <= s -> s + Alignment pool < 2 ^ 64 ->
  padded_size pool s = s + extra_of pool s
  /\ 1 <= extra_of pool s <= Alignment pool
  /\ (s + extra_of pool s) mod Alignment pool = 0
  /\ (s mod Alignment pool = 0 -> extra_of pool s = Alignment pool).
Proof.
  intros HA Hs Hlt. unfold padded_size, extra_of, wrap64.
  pose proof (Z.mod_pos_bound s (Alignment pool) HA) as Hm.
  rewrite (Z.mod_small (Alignment pool - s mod Alignment pool)) by lia.
  rewrite Z.mod_small by lia.
  repeat split; try lia.
  replace (s + (Alignment pool - s mod Alignment pool))
    with (s - s mod Alignment pool + 1 * Alignment pool) by lia.
  rewrite Z.mod_add by lia.
  rewrite Zminus_mod_idemp_r. now rewrite Z.sub_diag, Z.mod_0_l by lia.
Qed.


(** The answer of RESIZE can happen to be null, or the old block: a fresh
    pool answers its null cursor when the padded request wraps to 0, and
    after a reset the pool hands out its first block again. *)
Lemma pool_resize_may_answer_null_or_the_old_block :
  (exists pool1 h1 m1,
     pool_allocator RESIZE (fresh_pool 16 8) source_in_use (fun _ => 0)
       (2 ^ 64 - 8) 4096 16 = Some (0, pool1, h1, m1))
  /\ (exists pool1 h1 m1,
        pool_allocator RESIZE (fst (reset pool_in_use source_in_use))
          (snd (reset pool_in_use source_in_use)) (fun _ => 0) 24 4096 16
        = Some (4096, pool1, h1, m1)).
Proof.
  split; eexists _, _, _; vm_compute; reflexivity.
Qed.


(** *** Ten bytes, then twenty, from a fresh pool of 16-byte blocks *)

(** The two calls in sequence: both answers and the pool after each. *)
Definition get_10_then_20 (h : raw_source)
  : option ((Z * Pool * raw_source) * (Z * Pool * raw_source)) :=
  match get (fresh_pool 16 8) h 10 with
  | None => None
  | Some (p1, pool1, h1) =>
      match get pool1 h1 20 with
      | None => None
      | Some r2 => Some ((p1, pool1, h1), r2)
      end
  end.

(** C5, counterexample: with the raw source handing out blocks from 4096,
    the first call leaves the nominal block size at 16, and the second call
    is not served from the block of the first: that block is demoted to
    Obsolete and a second raw block becomes current. *)
Lemma get_10_then_20_cycles_a_block :
  exists pool1 h1 pool2 h2,
    get_10_then_20 {| brk := 4096; reserved := [] |}
      = Some ((4096, pool1, h1), (4112, pool2, h2))
    /\ BlockSize pool1 = 16
    /\ CurrentMemblock pool1 = 4096 /\ BytesLeft pool1 = 0
    /\ CurrentMemblock pool2 = 4112
    /\ ObsoletedMemblocks pool2 = [4096]
    /\ reserved h2 = [4112; 4096].
Proof.
  eexists _, _, _, _. split; [reflexivity|]. cbn. repeat split.
Qed.

(** C5, as amended: from a fresh pool with nominal block size 16 and
    alignment 8 (over a raw source that never hands out the null block),
    [get] of 10 bytes takes 10 + 6 = 16 bytes: it keeps the nominal size at
    16, obsoletes nothing, reserves the first raw block and uses it up.
    [get] of 20 bytes then takes 24 bytes, which the exhausted block cannot
    serve: the nominal size doubles to 32, the first block is demoted to
    Obsolete, a second raw block is reserved and becomes current, and the
    answer is the start of that block, with 8 bytes left in it. *)
Theorem get_10_then_20_from_fresh_pool :
  forall h : raw_source,
    brk h <> 0 ->
    exists pool1 h1 pool2 h2 b2,
      get_10_then_20 h = Some ((brk h, pool1, h1), (b2, pool2, h2))
      /\ (BlockSize pool1 = 16 /\ ObsoletedMemblocks pool1 = []
          /\ CurrentMemblock pool1 = brk h /\ BytesLeft pool1 = 0
          /\ reserved h1 = brk h :: reserved h)
      /\ (BlockSize pool2 = 32 /\ ObsoletedMemblocks pool2 = [brk h]
          /\ UsedMemblocks pool2 = []
          /\ CurrentMemblock pool2 = b2 /\ b2 = brk h1 /\ b2 <> brk h
          /\ BytesLeft pool2 = 8
          /\ reserved h2 = b2 :: brk h :: reserved h).
Proof.
  intros h Hnz. unfold get_10_then_20.
  assert (G1 : get (fresh_pool 16 8) h 10 =
    Some (brk h, {| BlockSize := 16; Alignment := 8; UnusedMemblocks := [];
                    UsedMemblocks := []; ObsoletedMemblocks := [];
                    CurrentMemblock := brk h;
                    CurrentPosition := wrap64 (brk h + 16); BytesLeft := 0 |},
          {| brk := brk h + 16; reserved := brk h :: reserved h |})).
  { reflexivity. }
  rewrite G1. clear G1.
  unfold get. cbv beta iota zeta delta [Alignment BytesLeft BlockSize].
  change (8 =? 0) with false. cbv iota.
  change (wrap64 (20 + wrap64 (8 - 20 mod 8))) with 24.
  change (0 <? 24) with true. cbv iota.
  unfold ensure_memory_exists. cbv beta iota zeta delta [BlockSize].
  change (double_until 65 16 24) with (Some 32).
  cbv iota beta. change (16 <? 32) with true. cbv iota.
  unfold resize_blocks, cycle_new_block. cbn [CurrentMemblock UsedMemblocks UnusedMemblocks ObsoletedMemblocks BlockSize Alignment CurrentPosition BytesLeft rev app New_u8 brk reserved].
  change (0 =? 0) with true. cbv iota.
  destruct (brk h =? 0) eqn:E; [apply Z.eqb_eq in E; contradiction|].
  cbn [app].
  eexists _, _, _, _, _. split; [reflexivity|].
  cbn [CurrentMemblock UsedMemblocks UnusedMemblocks ObsoletedMemblocks BlockSize Alignment CurrentPosition BytesLeft rev app New_u8 brk reserved].
  change (wrap64 (32 - 24)) with 8.
  repeat split; try reflexivity; lia.
Qed.

Lemma get_10_then_20_from_fresh_pool_witness :
  brk {| brk := 4096; reserved := [] |} <> 0
  /\ exists pool1 h1 pool2 h2 b2,
      get_10_then_20 {| brk := 4096; reserved := [] |}
        = Some ((4096, pool1, h1), (b2, pool2, h2))
      /\ (BlockSize pool1 = 16 /\ ObsoletedMemblocks pool1 = []
          /\ CurrentMemblock pool1 = 4096 /\ BytesLeft pool1 = 0
          /\ reserved h1 = [4096])
      /\ (BlockSize pool2 = 32 /\ ObsoletedMemblocks pool2 = [4096]
          /\ UsedMemblocks pool2 = []
          /\ CurrentMemblock pool2 = b2 /\ b2 = brk h1 /\ b2 <> 4096
          /\ BytesLeft pool2 = 8
          /\ reserved h2 = [b2; 4096]).
Proof.
  split; [discriminate|].
  apply (get_10_then_20_from_fresh_pool {| brk := 4096; reserved := [] |}).
  discriminate.
Defined.

(** *** What [get] consumes *)

Lemma double_until_result (size : Z) :
  forall (fuel : nat) (bs r : Z),
    double_until fuel bs size = Some r ->
    size <= r /\ (r = bs \/ (bs < size /\ 0 <= r < 2 ^ 64)).
Proof.
  induction fuel as [|f IH]; intros bs r; cbn [double_until];
    destruct (bs <? size) eqn:E; intros Hr; try discriminate.
  - injection Hr as <-. apply Z.ltb_ge in E. auto.
  - apply Z.ltb_lt in E. apply IH in Hr. destruct Hr as [H1 H2]. split; [assumption|].
    right. split; [assumption|]. destruct H2 as [H2|[_ H2]]; [|assumption].
    subst r. unfold wrap64. apply Z.mod_pos_bound. lia.
  - injection Hr as <-. apply Z.ltb_ge in E. auto.
Qed.

Lemma cycle_new_block_cursor (pool : Pool) (h : raw_source) :
  let '(pool1, h1) := cycle_new_block pool h in
  CurrentPosition pool1 = CurrentMemblock pool1
  /\ BytesLeft pool1 = BlockSize pool
  /\ BlockSize pool1 = BlockSize pool
  /\ Alignment pool1 = Alignment pool.
Proof.
  unfold cycle_new_block.
  destruct (rev (UnusedMemblocks pool)) as [|b l]; cbn; auto.
Qed.

(** C8, counterexample: in [size_t] arithmetic a request of [2^64 - 8] bytes
    plus its 8 bytes of padding is 0: [get] returns the cursor and consumes
    nothing, which is not a positive multiple of the alignment.  And [get]
    consumes nothing because it does not return, the doubling of the block
    size never reaching the request, for 10 bytes from a pool whose block
    size is 0, and for [2^63] bytes from a pool with blocks of 64 bytes
    (64 doubles up to [2^63], which is below the padded request, and then
    to 0). *)
Lemma get_consumes_nothing_or_does_not_return :
  (exists pool1 h1,
     get pool_in_use source_in_use (2 ^ 64 - 8) = Some (4112, pool1, h1)
     /\ CurrentPosition pool1 = CurrentPosition pool_in_use
     /\ BytesLeft pool1 = BytesLeft pool_in_use
     /\ padded_size pool_in_use (2 ^ 64 - 8) = 0)
  /\ (10 + Alignment (fresh_pool 0 8) < 2 ^ 64
      /\ get (fresh_pool 0 8) source_in_use 10 = None)
  /\ (2 ^ 63 + Alignment pool_in_use < 2 ^ 64
      /\ BlockSize pool_in_use = 64
      /\ get pool_in_use source_in_use (2 ^ 63) = None).
Proof.
  split; [|split].
  - eexists _, _. split; [reflexivity|]. cbn. repeat split.
  - split; [cbn; lia|]. vm_compute. reflexivity.
  - split; [cbn; lia|]. split; [reflexivity|]. vm_compute. reflexivity.
Qed.

(** C8, as amended: for a pool with a positive alignment (its counters in
    [size_t] range) and a request [s] with [s + Alignment <= 2^64 - 1], the
    padding is [extra = Alignment - s mod Alignment], between 1 and
    [Alignment] and a full [Alignment] when [s] is already a multiple.
    [get] returns when the padded request fits the bytes left of the
    current block, and when the block size is positive and
    [s + Alignment <= 2^63]; and whenever it returns, it advances the
    cursor by [s + extra], a positive multiple of [Alignment], takes that
    amount from the bytes left (of the current block, or of the block it
    cycled in), and the address returned is at a multiple of [Alignment]
    from the start of its block whenever the cursor was, and so is the new
    cursor. *)
Theorem get_consumes_padded_size :
  forall pool h s,
    0 < Alignment pool ->
    0 <= BlockSize pool < 2 ^ 64 -> 0 <= BytesLeft pool < 2 ^ 64 ->
    0 <= s -> s + Alignment pool < 2 ^ 64 ->
    let A := Alignment pool in
    let extra := A - s mod A in
    (1 <= extra <= A /\ (s mod A = 0 -> extra = A)
     /\ 0 < s + extra /\ (s + extra) mod A = 0)
    /\ (s + extra <= BytesLeft pool \/ (0 < BlockSize pool /\ s + A <= 2 ^ 63) ->
        exists r, get pool h s = Some r)
    /\ (forall p pool1 h1,
          get pool h s = Some (p, pool1, h1) ->
          CurrentPosition pool1 = wrap64 (p + (s + extra))
          /\ (exists avail,
                s + extra <= avail
                /\ BytesLeft pool1 = avail - (s + extra)
                /\ ((avail = BytesLeft pool /\ p = CurrentPosition pool
                     /\ CurrentMemblock pool1 = CurrentMemblock pool)
                    \/ (avail = BlockSize pool1 /\ p = CurrentMemblock pool1)))
          /\ ((CurrentPosition pool - CurrentMemblock pool) mod A = 0 ->
              (p - CurrentMemblock pool1) mod A = 0
              /\ (p + (s + extra) < 2 ^ 64 -> 0 <= p ->
                  (CurrentPosition pool1 - CurrentMemblock pool1) mod A = 0))).
Proof.
  intros pool h s HA HB HL Hs Hlt A extra. subst A extra.
  destruct (padded_size_no_wrap pool s HA Hs Hlt) as (Hp & He & Hm & Hfull).
  unfold extra_of in *.
  set (extra := Alignment pool - s mod Alignment pool) in *.
  split; [repeat split; try tauto; lia|].
  assert (HA0 : (Alignment pool =? 0) = false) by (apply Z.eqb_neq; lia).
  split.
  - intros Hret. unfold get. rewrite HA0.
    fold (padded_size pool s). rewrite Hp.
    destruct (BytesLeft pool <? s + extra) eqn:Efit; [|eauto].
    apply Z.ltb_lt in Efit.
    destruct Hret as [Hfit|[HB0 H63]]; [lia|].
    unfold ensure_memory_exists.
    destruct (double_until_returns (s + extra) ltac:(lia) 65 (BlockSize pool))
      as (r & Hr & _); [lia| |].
    + change (2 ^ Z.of_nat 65) with (2 ^ 65). lia.
    + rewrite Hr.
      destruct (cycle_new_block _ h) as [pool2 h2]. eauto.
  - intros p pool1 h1 G. unfold get in G. rewrite HA0 in G.
    fold (padded_size pool s) in G. rewrite Hp in G.
    destruct (BytesLeft pool <? s + extra) eqn:E.
    + unfold ensure_memory_exists in G.
      destruct (double_until 65 (BlockSize pool) (s + extra)) as [bs|] eqn:D;
        [|discriminate].
      apply double_until_result in D. destruct D as [D1 D2].
      set (poolr := if BlockSize pool <? bs then resize_blocks pool bs else pool) in G.
      assert (Hbs : BlockSize poolr = bs /\ Alignment poolr = Alignment pool).
      { unfold poolr. destruct (BlockSize pool <? bs) eqn:Eb; cbn; [auto|].
        apply Z.ltb_ge in Eb. split; [|reflexivity]. lia. }
      assert (Hbr : 0 <= bs < 2 ^ 64) by lia.
      pose proof (cycle_new_block_cursor poolr h) as C.
      destruct (cycle_new_block poolr h) as [pool2 h2].
      destruct C as (C1 & C2 & C3 & C4). destruct Hbs as [Hbs HAr].
      injection G as <- <- <-. cbn.
      split; [reflexivity|]. split.
      * exists bs. split; [lia|]. split.
        -- rewrite C2, Hbs. unfold wrap64. apply Z.mod_small. lia.
        -- right. split; congruence.
      * intros _. rewrite C1, Z.sub_diag. split; [apply Z.mod_0_l; lia|].
        intros Hnw Hp0. unfold wrap64. rewrite (Z.mod_small (_ + _) (2 ^ 64)) by lia.
        replace (CurrentMemblock pool2 + (s + extra) - CurrentMemblock pool2)
          with (s + extra) by lia. exact Hm.
    + apply Z.ltb_ge in E. injection G as <- <- <-. cbn.
      split; [reflexivity|]. split.
      * exists (BytesLeft pool). split; [lia|]. split.
        -- unfold wrap64. apply Z.mod_small. lia.
        -- left. auto.
      * intros Hal. split; [exact Hal|].
        intros Hnw Hp0. unfold wrap64. rewrite (Z.mod_small (_ + _) (2 ^ 64)) by lia.
        replace (CurrentPosition pool + (s + extra) - CurrentMemblock pool)
          with ((CurrentPosition pool - CurrentMemblock pool) + (s + extra)) by lia.
        rewrite Z.add_mod, Hal, Hm by lia. reflexivity.
Qed.

Lemma get_consumes_padded_size_witness :
  (0 < Alignment pool_in_use
   /\ 0 <= BlockSize pool_in_use < 2 ^ 64 /\ 0 <= BytesLeft pool_in_use < 2 ^ 64
   /\ 0 <= 10 /\ 10 + Alignment pool_in_use < 2 ^ 64)
  /\ exists p pool1 h1,
       get pool_in_use source_in_use 10 = Some (p, pool1, h1)
       /\ CurrentPosition pool1 = wrap64 (p + (10 + (8 - 10 mod 8)))
       /\ (p - CurrentMemblock pool1) mod 8 = 0.
Proof.
  assert (H1 : 0 < Alignment pool_in_use) by (cbn; lia).
  assert (H2 : 0 <= BlockSize pool_in_use < 2 ^ 64) by (cbn; lia).
  assert (H3 : 0 <= BytesLeft pool_in_use < 2 ^ 64) by (cbn; lia).
  assert (H4 : 10 + Alignment pool_in_use < 2 ^ 64) by (cbn; lia).
  split; [repeat split; try apply H1; try apply H2; try apply H3; try apply H4; lia|].
  destruct (get_consumes_padded_size pool_in_use source_in_use 10 H1 H2 H3
              ltac:(lia) H4) as (_ & Hret & Hall).
  destruct Hret as ([[p pool1] h1] & G); [left; cbn; lia|].
  exists p, pool1, h1. split; [exact G|].
  destruct (Hall p pool1 h1 G) as (Hc & _ & Hal).
  split; [exact Hc|]. apply Hal. reflexivity.
Defined.

(** *** What [release] leaves behind *)

(** The raw blocks a pool refers to. *)
Definition pool_blocks (pool : Pool) : list Z :=
  (if CurrentMemblock pool =? 0 then [] else [CurrentMemblock pool])
  ++ UsedMemblocks pool ++ UnusedMemblocks pool ++ ObsoletedMemblocks pool.

(** The pool is the only client of its raw source: the reserved blocks are
    the pool's blocks, each listed once, none null, all below the break. *)
Definition pool_owns (pool : Pool) (h : raw_source) : Prop :=
  NoDup (pool_blocks pool)
  /\ ~ In 0 (pool_blocks pool)
  /\ NoDup (reserved h)
  /\ (forall b, In b (reserved h) <-> In b (pool_blocks pool))
  /\ (forall b, In b (reserved h) -> b < brk h)
  /\ 0 < brk h.

(** The blocks [reset] moves to Unused before it cycles one back in. *)
Definition kept_blocks (pool : Pool) : list Z :=
  (if CurrentMemblock pool =? 0 then UnusedMemblocks pool
   else UnusedMemblocks pool ++ [CurrentMemblock pool]) ++ UsedMemblocks pool.

Lemma pool_blocks_perm (pool : Pool) :
  Permutation (pool_blocks pool) (kept_blocks pool ++ ObsoletedMemblocks pool).
Proof.
  unfold pool_blocks, kept_blocks.
  destruct (CurrentMemblock pool =? 0); cbn [app].
  - rewrite !app_assoc. apply Permutation_app_tail. apply Permutation_app_comm.
  - rewrite <- !app_assoc. cbn [app].
    rewrite (app_assoc (UsedMemblocks pool)).
    etransitivity; [apply perm_skip, Permutation_app_tail, Permutation_app_comm|].
    rewrite <- app_assoc. apply Permutation_middle.
Qed.

Lemma NoDup_singleton_eq (l : list Z) (c : Z) :
  NoDup l -> (forall b, In b l <-> b = c) -> l = [c].
Proof.
  intros Hnd Hin. destruct l as [|a l].
  - exfalso. apply (proj2 (Hin c)). reflexivity.
  - assert (a = c) by (apply Hin; now left). subst a.
    destruct l as [|b l]; [reflexivity|].
    exfalso. inversion Hnd as [|? ? Hn _]; subst.
    assert (b = c) by (apply Hin; right; now left). subst b.
    apply Hn. now left.
Qed.

(** C9: [release] does not empty the pool.  For a pool that owns its raw
    blocks, the [reset] inside cycles a current block back in (the last of
    the blocks it kept, or a new raw block when it kept none); [release]
    then frees the blocks left in Unused and nothing else: afterwards the
    current block is the one block still reserved, and the Unused list is
    not cleared: it still lists the kept blocks but the last, every one of
    them reserved before and released now. *)
Theorem release_keeps_current_block :
  forall pool h,
    pool_owns pool h ->
    let '(pool1, h1) := release pool h in
    CurrentMemblock pool1 <> 0
    /\ reserved h1 = [CurrentMemblock pool1]
    /\ UsedMemblocks pool1 = [] /\ ObsoletedMemblocks pool1 = []
    /\ UnusedMemblocks pool1 = removelast (kept_blocks pool)
    /\ CurrentMemblock pool1 = last (kept_blocks pool) (brk h)
    /\ (forall b, In b (UnusedMemblocks pool1) ->
          In b (reserved h) /\ ~ In b (reserved h1)).
Proof.
  intros pool h (Hnd & Hnz & Hndr & Hres & Hbrk & Hpos).
  pose proof (pool_blocks_perm pool) as Hperm.
  assert (Hnd2 : NoDup (kept_blocks pool ++ ObsoletedMemblocks pool)).
  { eapply Permutation_NoDup; eassumption. }
  assert (Hin2 : forall b, In b (reserved h) <->
                           In b (kept_blocks pool) \/ In b (ObsoletedMemblocks pool)).
  { intros b. rewrite Hres. rewrite <- in_app_iff.
    split; apply Permutation_in; [assumption|now apply Permutation_sym]. }
  assert (Hnz2 : ~ In 0 (kept_blocks pool)).
  { intros H0. apply Hnz. eapply Permutation_in; [apply Permutation_sym, Hperm|].
    apply in_or_app. now left. }
  unfold release, reset. fold (kept_blocks pool).
  set (h0 := Delete_all (ObsoletedMemblocks pool) h).
  assert (Hin0 : forall b, In b (reserved h0) <-> In b (kept_blocks pool)).
  { intros b. unfold h0. rewrite In_reserved_Delete_all, Hin2.
    split.
    - tauto.
    - intros Hk. split; [now left|]. intros Ho.
      revert Hk Ho. clear - Hnd2. revert Hnd2.
      induction (kept_blocks pool) as [|a l IH]; cbn; [tauto|].
      intros Hnd [->|Hk] Ho; inversion Hnd; subst.
      + match goal with H : ~ In _ _ |- _ => apply H end. apply in_or_app. now right.
      + now apply IH. }
  assert (Hnd0 : NoDup (reserved h0)) by now apply NoDup_reserved_Delete_all.
  assert (Hndk : NoDup (kept_blocks pool)) by (eapply NoDup_app_remove_r; eassumption).
  unfold cycle_new_block. cbn [UnusedMemblocks CurrentMemblock UsedMemblocks BlockSize
                               Alignment ObsoletedMemblocks].
  change (0 =? 0) with true. cbv iota.
  destruct (rev (kept_blocks pool)) as [|l o] eqn:R.
  - assert (Hk : kept_blocks pool = []).
    { rewrite <- (rev_involutive (kept_blocks pool)), R. reflexivity. }
    rewrite Hk in *. cbn.
    assert (Hbrk0 : brk h0 = brk h) by apply brk_Delete_all.
    assert (He : reserved h0 = []).
    { destruct (reserved h0) as [|a r]; [reflexivity|].
      exfalso. apply (proj1 (Hin0 a)). now left. }
    rewrite He, Hbrk0. repeat split; try reflexivity; try lia; contradiction.
  - assert (Hk : kept_blocks pool = rev o ++ [l]).
    { rewrite <- (rev_involutive (kept_blocks pool)), R. reflexivity. }
    rewrite Hk in *. cbn [fst snd CurrentMemblock UnusedMemblocks UsedMemblocks
                           ObsoletedMemblocks].
    rewrite removelast_last, last_last.
    assert (Hl : ~ In l (rev o)).
    { apply NoDup_remove_2 in Hndk. now rewrite app_nil_r in Hndk. }
    assert (Hfin : forall b, In b (reserved (Delete_all (rev o) h0)) <-> b = l).
    { intros b. rewrite In_reserved_Delete_all, Hin0, in_app_iff. cbn.
      split.
      - intros [[H1|[H1|[]]] H2]; [contradiction|auto].
      - intros ->. split; [right; now left|assumption]. }
    split; [intros ->; apply Hnz2, in_or_app; right; now left|].
    split; [apply NoDup_singleton_eq; [now apply NoDup_reserved_Delete_all|assumption]|].
    repeat split; try reflexivity.
    + apply Hin2. left. apply in_or_app. now left.
    + rewrite Hfin. intros ->. contradiction.
Qed.

(** A pool with one block in each state. *)
Definition pool_four_blocks : Pool :=
  {| BlockSize := 64; Alignment := 8;
     UnusedMemblocks := [4000]; UsedMemblocks := [4100];
     ObsoletedMemblocks := [3900];
     CurrentMemblock := 4200; CurrentPosition := 4216; BytesLeft := 48 |}.

Definition source_four_blocks : raw_source :=
  {| brk := 5000; reserved := [4200; 4100; 4000; 3900] |}.

Lemma pool_four_blocks_owned : pool_owns pool_four_blocks source_four_blocks.
Proof.
  unfold pool_owns, pool_blocks. cbn.
  split; [repeat constructor; cbn; intuition lia|].
  split; [intuition lia|].
  split; [repeat constructor; cbn; intuition lia|].
  split; [intros b; tauto|].
  split; [intros b; intuition lia|lia].
Defined.

Lemma release_keeps_current_block_witness :
  pool_owns pool_four_blocks source_four_blocks
  /\ let '(pool1, h1) := release pool_four_blocks source_four_blocks in
     CurrentMemblock pool1 <> 0
     /\ reserved h1 = [CurrentMemblock pool1]
     /\ UsedMemblocks pool1 = [] /\ ObsoletedMemblocks pool1 = []
     /\ UnusedMemblocks pool1 = removelast (kept_blocks pool_four_blocks)
     /\ CurrentMemblock pool1 = last (kept_blocks pool_four_blocks) 5000
     /\ (forall b, In b (UnusedMemblocks pool1) ->
           In b (reserved source_four_blocks) /\ ~ In b (reserved h1)).
Proof.
  split; [exact pool_four_blocks_owned|].
  exact (release_keeps_current_block pool_four_blocks source_four_blocks
           pool_four_blocks_owned).
Defined.

(** The same release, computed: 4100 stays reserved and current, while 4000
    and 4200 are released and still listed as Unused. *)
Example release_four_blocks :
  exists pool1,
    release pool_four_blocks source_four_blocks
      = (pool1, {| brk := 5000; reserved := [4100] |})
    /\ CurrentMemblock pool1 = 4100
    /\ UnusedMemblocks pool1 = [4000; 4200].
Proof. eexists. split; [reflexivity|]. split; reflexivity. Qed.

(** *** The pool and its raw blocks *)

Lemma pool_owns_perm (pool pool' : Pool) (h : raw_source) :
  Permutation (pool_blocks pool) (pool_blocks pool') ->
  pool_owns pool h -> pool_owns pool' h.
Proof.
  intros HP (Hnd & Hnz & Hndr & Hres & Hbrk & Hpos).
  split; [eapply Permutation_NoDup; eassumption|].
  split; [intros H0; apply Hnz; eapply Permutation_in;
          [apply Permutation_sym; exact HP|exact H0]|].
  split; [exact Hndr|]. split; [|split; assumption].
  intros b. rewrite Hres. split; apply Permutation_in;
    [exact HP|apply Permutation_sym; exact HP].
Qed.

Lemma resize_blocks_perm (pool : Pool) (blockSize : Z) :
  Permutation (pool_blocks pool) (pool_blocks (resize_blocks pool blockSize)).
Proof.
  unfold pool_blocks, resize_blocks.
  cbn [CurrentMemblock UsedMemblocks UnusedMemblocks ObsoletedMemblocks].
  change (0 =? 0) with true. cbv iota.
  apply (Permutation_count_occ Z.eq_dec). intros x.
  destruct (CurrentMemblock pool =? 0);
    rewrite ?count_occ_app; cbn [count_occ app];
    try destruct (Z.eq_dec (CurrentMemblock pool) x); lia.
Qed.

(** [cycle_new_block] keeps the pool the owner of its raw blocks: the block
    it makes current comes from the Unused list, or is a new raw block. *)
Lemma cycle_new_block_owns (pool : Pool) (h : raw_source) :
  pool_owns pool h ->
  pool_owns (fst (cycle_new_block pool h)) (snd (cycle_new_block pool h))
  /\ CurrentMemblock (fst (cycle_new_block pool h)) <> 0
  /\ ObsoletedMemblocks (fst (cycle_new_block pool h)) = ObsoletedMemblocks pool
  /\ (forall b, In b (reserved (snd (cycle_new_block pool h))) <->
                In b (reserved h)
                \/ (UnusedMemblocks pool = [] /\ b = brk h)).
Proof.
  intros Hown. pose proof Hown as (Hnd & Hnz & Hndr & Hres & Hbrk & Hpos).
  unfold cycle_new_block.
  destruct (rev (UnusedMemblocks pool)) as [|l o] eqn:R.
  - assert (HN : UnusedMemblocks pool = []).
    { rewrite <- (rev_involutive (UnusedMemblocks pool)), R. reflexivity. }
    unfold New_u8, raw_reserve. cbn [fst snd].
    assert (Hfresh : ~ In (brk h) (reserved h)).
    { intros Hin. specialize (Hbrk _ Hin). lia. }
    assert (Hb0 : (brk h =? 0) = false) by (apply Z.eqb_neq; lia).
    split; [|split; [cbn; lia|split; [reflexivity|]]].
    + unfold pool_owns, pool_blocks in *.
      cbn [CurrentMemblock UsedMemblocks UnusedMemblocks ObsoletedMemblocks brk reserved].
      rewrite Hb0. rewrite HN in *. cbn [app] in *.
      assert (HP : Permutation
                     ((if CurrentMemblock pool =? 0 then [] else [CurrentMemblock pool])
                      ++ UsedMemblocks pool ++ ObsoletedMemblocks pool)
                     ((if CurrentMemblock pool =? 0 then UsedMemblocks pool
                       else UsedMemblocks pool ++ [CurrentMemblock pool])
                      ++ ObsoletedMemblocks pool)).
      { apply (Permutation_count_occ Z.eq_dec). intros x.
        destruct (CurrentMemblock pool =? 0);
          rewrite ?count_occ_app; cbn [count_occ app];
          try destruct (Z.eq_dec (CurrentMemblock pool) x); lia. }
      assert (Hin : forall b, In b (reserved h) <->
                In b ((if CurrentMemblock pool =? 0 then UsedMemblocks pool
                       else UsedMemblocks pool ++ [CurrentMemblock pool])
                      ++ ObsoletedMemblocks pool)).
      { intros b. rewrite Hres. split; apply Permutation_in;
          [exact HP|apply Permutation_sym; exact HP]. }
      split.
      { constructor; [rewrite <- Hin; exact Hfresh|].
        eapply Permutation_NoDup; eassumption. }
      split.
      { intros [E|H0]; [lia|]. apply Hnz. eapply Permutation_in;
          [apply Permutation_sym; exact HP|exact H0]. }
      split; [constructor; assumption|].
      split; [intros b; cbn [In]; rewrite Hin; reflexivity|].
      split; [|lia].
      intros b [<-|Hb]; [lia|]. specialize (Hbrk b Hb). lia.
    + intros b. cbn [reserved In]. split.
      * intros [<-|Hb]; [right; split; [assumption|reflexivity]|now left].
      * intros [Hb|[_ ->]]; [now right|now left].
  - assert (HN : UnusedMemblocks pool = rev o ++ [l]).
    { rewrite <- (rev_involutive (UnusedMemblocks pool)), R. reflexivity. }
    cbn [fst snd].
    assert (Hl0 : l <> 0).
    { intros ->. apply Hnz. unfold pool_blocks. rewrite HN.
      rewrite !in_app_iff. right. right. left. right. now left. }
    split; [|split; [exact Hl0|split; [reflexivity|]]].
    + apply (pool_owns_perm pool); [|exact Hown].
      unfold pool_blocks.
      cbn [CurrentMemblock UsedMemblocks UnusedMemblocks ObsoletedMemblocks].
      rewrite HN. rewrite (proj2 (Z.eqb_neq l 0) Hl0).
      apply (Permutation_count_occ Z.eq_dec). intros x.
      destruct (CurrentMemblock pool =? 0);
        rewrite ?count_occ_app; cbn [count_occ app];
        try destruct (Z.eq_dec (CurrentMemblock pool) x);
        destruct (Z.eq_dec l x); lia.
    + intros b. rewrite HN. split; [now left|].
      intros [Hb|[E _]]; [exact Hb|].
      destruct (rev o); discriminate E.
Qed.

(** X14.  For a pool that owns its raw blocks (the blocks reserved from the
    raw source are the pool's blocks, each listed once), a call of [get]
    that returns keeps it so: it releases no raw block, reserves at most
    one (then it is the new current block), and leaves a current block. *)
Theorem get_keeps_the_pool_owner_of_its_blocks (pool : Pool) (h : raw_source)
    (size p : Z) (pool1 : Pool) (h1 : raw_source) :
  pool_owns pool h ->
  get pool h size = Some (p, pool1, h1) ->
  pool_owns pool1 h1
  /\ (forall b, In b (reserved h) -> In b (reserved h1))
  /\ (forall b, In b (reserved h1) -> In b (reserved h) \/ b = CurrentMemblock pool1)
  /\ (CurrentMemblock pool <> 0 \/ BytesLeft pool < padded_size pool size ->
      CurrentMemblock pool1 <> 0).
Proof.
  intros Hown G. unfold get in G.
  destruct (Alignment pool =? 0); [discriminate|].
  fold (padded_size pool size) in G.
  assert (Hsame : forall q : Pool,
            pool_blocks
              {| BlockSize := BlockSize q; Alignment := Alignment q;
                 UnusedMemblocks := UnusedMemblocks q;
                 UsedMemblocks := UsedMemblocks q;
                 ObsoletedMemblocks := ObsoletedMemblocks q;
                 CurrentMemblock := CurrentMemblock q;
                 CurrentPosition := wrap64 (CurrentPosition q + padded_size pool size);
                 BytesLeft := wrap64 (BytesLeft q - padded_size pool size) |}
            = pool_blocks q) by reflexivity.
  destruct (BytesLeft pool <? padded_size pool size) eqn:Efit.
  - unfold ensure_memory_exists in G.
    destruct (double_until 65 (BlockSize pool) (padded_size pool size)) as [bs|];
      [|discriminate].
    set (pool0 := if BlockSize pool <? bs then resize_blocks pool bs else pool) in *.
    assert (Hown0 : pool_owns pool0 h).
    { unfold pool0. destruct (BlockSize pool <? bs); [|exact Hown].
      apply (pool_owns_perm pool); [apply resize_blocks_perm|exact Hown]. }
    destruct (cycle_new_block_owns pool0 h Hown0) as (Hc1 & Hc2 & _ & Hc3).
    destruct (cycle_new_block pool0 h) as [pool2 h2] eqn:Ec.
    cbn [fst snd] in *. injection G as <- <- <-.
    split; [apply (pool_owns_perm pool2); [now rewrite Hsame|exact Hc1]|].
    split; [intros b Hb; apply Hc3; now left|].
    split; [|intros _; exact Hc2].
    intros b Hb. apply Hc3 in Hb. destruct Hb as [Hb|[HN ->]]; [now left|right].
    cbn [CurrentMemblock]. unfold cycle_new_block in Ec. rewrite HN in Ec.
    cbn in Ec. injection Ec as <- _. reflexivity.
  - injection G as <- <- <-.
    split; [apply (pool_owns_perm pool); [now rewrite Hsame|exact Hown]|].
    split; [auto|]. split; [auto|].
    apply Z.ltb_ge in Efit. intros [Hc|Hlt]; [exact Hc|lia].
Qed.

(** X15.  For a pool that owns its raw blocks, [reset] releases exactly the
    obsoleted blocks to the raw source and keeps every other block: the
    pool still owns its raw blocks, has a current block, and no used or
    obsoleted block. *)
Theorem reset_releases_the_obsoleted_blocks (pool : Pool) (h : raw_source) :
  pool_owns pool h ->
  let pool1 := fst (reset pool h) in
  let h1 := snd (reset pool h) in
  pool_owns pool1 h1
  /\ CurrentMemblock pool1 <> 0
  /\ UsedMemblocks pool1 = [] /\ ObsoletedMemblocks pool1 = []
  /\ (forall b, In b (ObsoletedMemblocks pool) -> ~ In b (reserved h1))
  /\ (forall b, In b (kept_blocks pool) -> In b (reserved h1)).
Proof.
  intros Hown pool1 h1.
  pose proof Hown as (Hnd & Hnz & Hndr & Hres & Hbrk & Hpos).
  pose proof (pool_blocks_perm pool) as Hperm.
  assert (Hnd2 : NoDup (kept_blocks pool ++ ObsoletedMemblocks pool))
    by (eapply Permutation_NoDup; eassumption).
  assert (Hin2 : forall b, In b (reserved h) <->
                           In b (kept_blocks pool) \/ In b (ObsoletedMemblocks pool)).
  { intros b. rewrite Hres. rewrite <- in_app_iff.
    split; apply Permutation_in; [assumption|now apply Permutation_sym]. }
  assert (Hapart : forall b, In b (kept_blocks pool) ->
                             ~ In b (ObsoletedMemblocks pool)).
  { intros b Hk Ho. revert Hk Ho. clear - Hnd2. revert Hnd2.
    induction (kept_blocks pool) as [|a l IH]; cbn; [tauto|].
    intros Hnd [->|Hk] Ho; inversion Hnd; subst.
    - match goal with H : ~ In _ _ |- _ => apply H end. apply in_or_app. now right.
    - now apply IH. }
  set (h0 := Delete_all (ObsoletedMemblocks pool) h).
  set (pool0 := {| BlockSize := BlockSize pool; Alignment := Alignment pool;
                   UnusedMemblocks := kept_blocks pool;
                   UsedMemblocks := []; ObsoletedMemblocks := [];
                   CurrentMemblock := 0;
                   CurrentPosition := CurrentPosition pool;
                   BytesLeft := BytesLeft pool |}).
  assert (Hreset : reset pool h = cycle_new_block pool0 h0) by reflexivity.
  assert (Hin0 : forall b, In b (reserved h0) <-> In b (kept_blocks pool)).
  { intros b. unfold h0. rewrite In_reserved_Delete_all, Hin2. split.
    - intros [[Hk|Ho] Hn]; [exact Hk|contradiction].
    - intros Hk. split; [now left|now apply Hapart]. }
  assert (Hown0 : pool_owns pool0 h0).
  { unfold pool_owns, pool_blocks, pool0.
    cbn [CurrentMemblock UsedMemblocks UnusedMemblocks ObsoletedMemblocks].
    change (0 =? 0) with true. cbv iota. cbn [app]. rewrite app_nil_r.
    split; [eapply NoDup_app_remove_r; eassumption|].
    split.
    { intros H0. apply Hnz. eapply Permutation_in;
        [apply Permutation_sym; exact Hperm|]. apply in_or_app. now left. }
    split; [now apply NoDup_reserved_Delete_all|].
    split; [exact Hin0|].
    unfold h0. rewrite brk_Delete_all. split; [|exact Hpos].
    intros b Hb. apply Hbrk. apply In_reserved_Delete_all in Hb. tauto. }
  destruct (cycle_new_block_owns pool0 h0 Hown0) as (Hc1 & Hc2 & Hc3 & Hc4).
  unfold pool1, h1. rewrite Hreset.
  split; [exact Hc1|]. split; [exact Hc2|].
  split; [unfold cycle_new_block; destruct (rev (UnusedMemblocks pool0)); reflexivity|].
  split; [exact Hc3|].
  split.
  - intros b Ho Hin. apply Hc4 in Hin. destruct Hin as [Hin|[_ ->]].
    + apply Hin0 in Hin. exact (Hapart b Hin Ho).
    + assert (Hb : In (brk h0) (reserved h)) by (apply Hin2; now right).
      specialize (Hbrk _ Hb). unfold h0 in Hbrk. rewrite brk_Delete_all in Hbrk. lia.
  - intros b Hk. apply Hc4. left. now apply Hin0.
Qed.

Lemma get_keeps_the_pool_owner_of_its_blocks_witness :
  exists p pool1 h1,
    get pool_four_blocks source_four_blocks 100 = Some (p, pool1, h1)
    /\ pool_owns pool1 h1
    /\ (forall b, In b (reserved source_four_blocks) -> In b (reserved h1))
    /\ (forall b, In b (reserved h1) ->
                  In b (reserved source_four_blocks) \/ b = CurrentMemblock pool1)
    /\ (CurrentMemblock pool_four_blocks <> 0
        \/ BytesLeft pool_four_blocks < padded_size pool_four_blocks 100 ->
        CurrentMemblock pool1 <> 0).
Proof.
  eexists _, _, _. split; [reflexivity|].
  eapply (get_keeps_the_pool_owner_of_its_blocks pool_four_blocks source_four_blocks 100).
  - exact pool_four_blocks_owned.
  - reflexivity.
Defined.

Lemma reset_releases_the_obsoleted_blocks_witness :
  pool_owns (fst (reset pool_four_blocks source_four_blocks))
    (snd (reset pool_four_blocks source_four_blocks))
  /\ CurrentMemblock (fst (reset pool_four_blocks source_four_blocks)) <> 0
  /\ UsedMemblocks (fst (reset pool_four_blocks source_four_blocks)) = []
  /\ ObsoletedMemblocks (fst (reset pool_four_blocks source_four_blocks)) = []
  /\ (forall b, In b (ObsoletedMemblocks pool_four_blocks) ->
                ~ In b (reserved (snd (reset pool_four_blocks source_four_blocks))))
  /\ (forall b, In b (kept_blocks pool_four_blocks) ->
                In b (reserved (snd (reset pool_four_blocks source_four_blocks)))).
Proof.
  exact (reset_releases_the_obsoleted_blocks pool_four_blocks source_four_blocks
           pool_four_blocks_owned).
Defined.

End GuPoolFacts.

(** ** Properties of the temporary allocator *)

Module TempAllocFacts.
Import TempAlloc.

Lemma ceil_pow_of_2_is_pow2 (v : Z) :
  0 <= v <= 2 ^ 62 ->
  exists k, 0 <= k <= 62 /\ ceil_pow_of_2 v = 2 ^ k /\ v <= 2 ^ k.
Proof.
  intros Hv. unfold ceil_pow_of_2. destruct (v <=? 1) eqn:E.
  - apply Z.leb_le in E. exists 0. cbn. lia.
  - apply Z.leb_gt in E. exists (Z.log2_up v).
    assert (Hk : Z.log2_up v <= 62) by (apply Z.log2_up_le_pow2; lia).
    pose proof (Z.log2_up_nonneg v).
    pose proof (Z.log2_up_spec v E) as [_ Hs].
    assert (2 ^ Z.log2_up v <= 2 ^ 62) by (apply pow2_le_mono; lia).
    repeat split; try lia.
    unfold wrap64. apply Z.mod_small. lia.
Qed.


Section Scenario.

Variable loggedSize_of : Z -> Z.


End Scenario.

(** The value the heuristic takes for an 8 KiB page:
    [ceil(8192 * (log2(81920) / 3)) = 44570]. *)
Definition loggedSize_8_KiB : Z -> Z := fun _ => 44570.

Definition base_8_KiB : temporary_allocator_data :=
  {| Base := {| Storage := 4096; Reserved := 8192; Used := 0 |};
     Overflow := []; TotalUsed := 0 |}.


(** With that value the overflow page is 64 KiB and the base page grows to
    72 KiB. *)
Example ten_KiB_on_8_KiB_base_computed :
  exists h1 m1 h2 m2,
    temporary_allocator loggedSize_8_KiB ALLOCATE base_8_KiB 10240 0 0
      (mk_raw 20000 [4096]) (fun _ => 0)
    = (20032,
       {| Base := {| Storage := 4096; Reserved := 8192; Used := 0 |};
          Overflow := [(20000, {| Storage := 20032; Reserved := 65536;
                                  Used := 10240 |})];
          TotalUsed := 10240 |}, h1, m1)
    /\ temporary_allocator loggedSize_8_KiB FREE_ALL
         {| Base := {| Storage := 4096; Reserved := 8192; Used := 0 |};
            Overflow := [(20000, {| Storage := 20032; Reserved := 65536;
                                    Used := 10240 |})];
            TotalUsed := 10240 |} 0 0 0 h1 m1
       = (0, {| Base := {| Storage := 85568; Reserved := 73728; Used := 0 |};
                Overflow := []; TotalUsed := 0 |}, h2, m2).
Proof. eexists _, _, _, _. split; reflexivity. Qed.

(** *** Pages, first fit and the raw blocks *)

(** The pages of the allocator, the base page first. *)
Definition pages (data : temporary_allocator_data) : list page :=
  Base data :: map snd (Overflow data).

(** The test ALLOCATE makes on a page, [p->Used + size < p->Reserved] in
    [size_t], failing. *)
Definition no_room (size : Z) (p : page) : Prop :=
  Reserved p <= wrap64 (Used p + size).

(** A page whose counters are sound: no more used than reserved, and a
    capacity [size_t] arithmetic can add a request to. *)
Definition page_ok (p : page) : Prop :=
  0 <= Used p <= Reserved p /\ Reserved p <= 2 ^ 63.

(** The raw blocks the allocator holds: the storage of the base page once
    it has a capacity, and the storage and the node of each overflow page. *)
Definition temp_blocks (data : temporary_allocator_data) : list Z :=
  (if Reserved (Base data) =? 0 then [] else [Storage (Base data)])
  ++ map (fun np => Storage (snd np)) (Overflow data)
  ++ map fst (Overflow data).

(** The allocator is the only client of its raw source. *)
Definition temp_owns (data : temporary_allocator_data) (h : raw_source) : Prop :=
  NoDup (temp_blocks data)
  /\ NoDup (reserved h)
  /\ (forall b, In b (reserved h) <-> In b (temp_blocks data))
  /\ (forall b, In b (reserved h) -> b < brk h).

Definition sum_reserved (ps : list page) : Z :=
  fold_right (fun p acc => Reserved p + acc) 0 ps.

Lemma round_up_8_KiB_bounds (x : Z) :
  0 <= x -> x + 8191 < 2 ^ 64 ->
  x <= round_up_8_KiB x <= x + 8191 /\ round_up_8_KiB x mod 8192 = 0.
Proof.
  intros H0 H1. unfold round_up_8_KiB, KiB_8.
  unfold wrap64. rewrite Z.mod_small by lia.
  change (Z.opp 8192) with (- 2 ^ 13). rewrite land_neg_pow2 by lia.
  change (2 ^ 13) with 8192.
  pose proof (Z.mod_pos_bound (x + 8192 - 1) 8192 ltac:(lia)) as Hm.
  split; [lia|].
  rewrite Zminus_mod_idemp_r, Z.sub_diag. reflexivity.
Qed.

Section Pages.

Variable loggedSize_of : Z -> Z.

(** What the scan of ALLOCATE does: it bumps the first page that has room
    and touches nothing else, or, when no page has room, appends a page
    reserved from the raw source (the node, then the storage) and serves
    the request from its start. *)
Lemma allocate_from_cases (size : Z) (h : raw_source) :
  forall (rest : list (Z * page)) (p : page),
    let '(r, p', rest', h') := allocate_from loggedSize_of p rest size h in
    (exists l1 q l2,
        p :: map snd rest = l1 ++ q :: l2
        /\ Forall (no_room size) l1
        /\ wrap64 (Used q + size) < Reserved q
        /\ p' :: map snd rest' = l1 ++ bump q size :: l2
        /\ map fst rest' = map fst rest
        /\ r = wrap64 (Storage q + Used q)
        /\ h' = h)
    \/ (Forall (no_room size) (p :: map snd rest)
        /\ p' = p
        /\ rest' = rest
                   ++ [(brk h,
                        bump {| Storage := brk h + 32;
                                Reserved := reserveTarget loggedSize_of
                                              (Reserved (last (map snd rest) p)) size;
                                Used := 0 |} size)]
        /\ r = wrap64 (brk h + 32 + 0)
        /\ h' = snd (raw_reserve
                       (reserveTarget loggedSize_of
                          (Reserved (last (map snd rest) p)) size)
                       (snd (raw_reserve sizeof_page h)))).
Proof.
  induction rest as [|[node q] rest IH]; intros p.
  - cbn [allocate_from].
    destruct (wrap64 (Used p + size) >=? Reserved p) eqn:E.
    + apply Z.geb_le in E. right. cbn [map last app].
      unfold raw_reserve, sizeof_page. cbn [fst snd brk reserved Storage Used].
      change (Z.max 32 1) with 32.
      split; [constructor; [exact E|constructor]|].
      repeat split; reflexivity.
    + left. exists [], p, []. cbn [map app].
      assert (Hlt : wrap64 (Used p + size) < Reserved p).
      { destruct (Z.lt_ge_cases (wrap64 (Used p + size)) (Reserved p)) as [|Hge];
          [assumption|]. apply Z.geb_le in Hge. congruence. }
      repeat split; try reflexivity; [constructor|exact Hlt].
  - cbn [allocate_from].
    destruct (wrap64 (Used p + size) <? Reserved p) eqn:E.
    + apply Z.ltb_lt in E. left. exists [], p, (map snd ((node, q) :: rest)).
      cbn [map app]. repeat split; try reflexivity; [constructor|exact E].
    + apply Z.ltb_ge in E. specialize (IH q).
      destruct (allocate_from loggedSize_of q rest size h) as [[[r q'] rest''] h'].
      destruct IH as [(l1 & q0 & l2 & E1 & Hl1 & Hq0 & E2 & E3 & Er & Eh)
                     |(Hall & Eq & Erest & Er & Eh)].
      * left. exists (p :: l1), q0, l2. cbn [map app fst snd].
        rewrite E1, E2, E3.
        repeat split; try reflexivity; try assumption.
        constructor; assumption.
      * right. cbn [map app fst snd last]. subst q'.
        split; [constructor; assumption|].
        split; [reflexivity|].
        assert (El : last (map snd rest) q
                     = match map snd rest with
                       | [] => q
                       | _ :: _ => last (map snd rest) p
                       end).
        { destruct (map snd rest) as [|a l]; [reflexivity|].
          clear. revert a. induction l as [|b l IHl]; intros a; [reflexivity|].
          change (last (a :: b :: l) q) with (last (b :: l) q).
          change (last (a :: b :: l) p) with (last (b :: l) p). apply IHl. }
        rewrite El in Erest, Eh.
        split; [rewrite Erest; reflexivity|]. split; [exact Er|exact Eh].
Qed.

Lemma reserveTarget_bounds (lastReserved size : Z) :
  0 <= size <= 2 ^ 61 -> 0 <= loggedSize_of lastReserved <= 2 ^ 62 ->
  let target := reserveTarget loggedSize_of lastReserved size in
  2 * size <= target /\ 8192 <= target <= 2 ^ 63 /\ target mod 8192 = 0.
Proof.
  intros Hs HL target. unfold target, reserveTarget.
  assert (Hw : wrap64 (size * 2) = size * 2)
    by (unfold wrap64; apply Z.mod_small; lia).
  rewrite Hw.
  destruct (ceil_pow_of_2_is_pow2 (size * 2) ltac:(lia)) as (k1 & Hk1 & E1 & H1).
  destruct (ceil_pow_of_2_is_pow2 _ HL) as (k2 & Hk2 & E2 & H2).
  rewrite E1, E2.
  assert (Hp1 : 1 <= 2 ^ k1 <= 2 ^ 62).
  { split; [change 1 with (2 ^ 0)|]; apply pow2_le_mono; lia. }
  assert (Hp2 : 1 <= 2 ^ k2 <= 2 ^ 62).
  { split; [change 1 with (2 ^ 0)|]; apply pow2_le_mono; lia. }
  destruct (round_up_8_KiB_bounds (Z.max (2 ^ k1) (2 ^ k2)) ltac:(lia) ltac:(lia))
    as (Hb & Hm).
  set (t := round_up_8_KiB (Z.max (2 ^ k1) (2 ^ k2))) in *.
  split; [lia|]. split; [|exact Hm].
  split; [|lia].
  assert (Ht : t = 8192 * (t / 8192)).
  { pose proof (Z.div_mod t 8192 ltac:(lia)). lia. }
  assert (0 < t / 8192); [|lia].
  destruct (Z.lt_ge_cases 0 (t / 8192)) as [|Hle]; [assumption|]. lia.
Qed.

(** X16.  First fit.  On pages with sound counters, and for a request of at
    most [2^61] bytes, ALLOCATE of an initialised allocator serves the
    request from the first page that has more than [size] bytes free and
    advances only that page's [Used], by [size]; when no page has, it
    appends one overflow page, whose capacity is a multiple of 8 KiB, at
    least 8 KiB and at least twice the request, and serves the request
    from its start.  Either way [TotalUsed] grows by [size], the counters
    stay sound and memory is not written. *)
Theorem ALLOCATE_is_first_fit (data : temporary_allocator_data)
    (size oldMemory oldSize : Z) (h : raw_source) (m : memory) :
  (forall r, 0 <= loggedSize_of r <= 2 ^ 62) ->
  Forall page_ok (pages data) -> Reserved (Base data) <> 0 ->
  0 <= size <= 2 ^ 61 ->
  let '(r, data', h', m') :=
    temporary_allocator loggedSize_of ALLOCATE data size oldMemory oldSize h m in
  m' = m
  /\ TotalUsed data' = wrap64 (TotalUsed data + size)
  /\ Forall page_ok (pages data')
  /\ ((exists l1 q l2,
          pages data = l1 ++ q :: l2
          /\ Forall (fun p => Reserved p <= Used p + size) l1
          /\ Used q + size < Reserved q
          /\ pages data'
             = l1 ++ {| Storage := Storage q; Reserved := Reserved q;
                        Used := Used q + size |} :: l2
          /\ r = wrap64 (Storage q + Used q)
          /\ h' = h)
      \/ (Forall (fun p => Reserved p <= Used p + size) (pages data)
          /\ exists q,
               pages data' = pages data ++ [q]
               /\ Used q = size /\ r = wrap64 (Storage q)
               /\ 2 * size <= Reserved q /\ 8192 <= Reserved q
               /\ Reserved q mod 8192 = 0
               /\ In (Storage q) (reserved h'))).
Proof.
  intros HL Hok Hinit Hs.
  unfold temporary_allocator, ensure_initialized.
  rewrite (proj2 (Z.eqb_neq _ _) Hinit).
  unfold allocate.
  pose proof (allocate_from_cases size h (Overflow data) (Base data)) as Hc.
  destruct (allocate_from loggedSize_of (Base data) (Overflow data) size h)
    as [[[r p'] rest'] h'].
  cbn [TotalUsed]. split; [reflexivity|]. split; [reflexivity|].
  unfold pages in *. cbn [Base Overflow].
  assert (Hnw : forall p, page_ok p -> wrap64 (Used p + size) = Used p + size).
  { intros p (Hu & Hr). unfold wrap64. apply Z.mod_small. lia. }
  assert (Hnr : forall l, Forall page_ok l -> Forall (no_room size) l ->
                          Forall (fun p => Reserved p <= Used p + size) l).
  { intros l H1 H2. rewrite Forall_forall in *. intros p Hp.
    specialize (H2 p Hp). unfold no_room in H2. rewrite Hnw in H2 by auto. exact H2. }
  destruct Hc as [(l1 & q & l2 & E1 & Hl1 & Hq & E2 & E3 & Er & Eh)
                 |(Hall & Ep & Erest & Er & Eh)].
  - rewrite E1 in Hok. pose proof Hok as Hok'.
    apply Forall_app in Hok'. destruct Hok' as [Hok1 Hok2].
    inversion Hok2 as [|? ? Hokq Hok3]; subst.
    rewrite (Hnw q Hokq) in Hq.
    assert (Eb : bump q size = {| Storage := Storage q; Reserved := Reserved q;
                                  Used := Used q + size |}).
    { unfold bump. rewrite (Hnw q Hokq). reflexivity. }
    rewrite Eb in E2. split.
    + rewrite E2. apply Forall_app. split; [exact Hok1|].
      constructor; [|exact Hok3].
      destruct Hokq as (Hu & Hr). split; cbn [Used Reserved]; lia.
    + left. exists l1, q, l2. rewrite E1.
      repeat split; try assumption. now apply Hnr.
  - subst p'.
    set (target := reserveTarget loggedSize_of
                     (Reserved (last (map snd (Overflow data)) (Base data))) size) in *.
    destruct (reserveTarget_bounds
                (Reserved (last (map snd (Overflow data)) (Base data))) size Hs
                (HL _)) as (Ht1 & Ht2 & Ht3).
    fold target in Ht1, Ht2, Ht3.
    assert (Eb : bump {| Storage := brk h + 32; Reserved := target; Used := 0 |} size
                 = {| Storage := brk h + 32; Reserved := target; Used := size |}).
    { unfold bump. cbn [Storage Reserved Used]. f_equal.
      unfold wrap64. apply Z.mod_small. lia. }
    rewrite Eb in Erest. rewrite Erest, map_app. cbn [map snd].
    split.
    + rewrite app_comm_cons. apply Forall_app. split; [exact Hok|].
      constructor; [|constructor]. split; cbn [Used Reserved]; lia.
    + right. split; [now apply Hnr|].
      eexists. split; [rewrite app_comm_cons; reflexivity|].
      cbn [Used Storage Reserved]. rewrite Z.add_0_r in Er.
      repeat split; try assumption; try lia.
      rewrite Eh. unfold raw_reserve. cbn [snd reserved brk]. left.
      unfold sizeof_page. reflexivity.
Qed.

Lemma In_reserved_free_overflow (ps : list (Z * page)) :
  forall (h : raw_source) (x : Z),
    In x (reserved (free_overflow ps h))
    <-> In x (reserved h)
        /\ ~ In x (map (fun np => Storage (snd np)) ps ++ map fst ps).
Proof.
  induction ps as [|[node q] ps IH]; intros h x.
  - cbn. tauto.
  - unfold free_overflow in *. cbn [fold_left]. rewrite IH.
    unfold raw_release. cbn [reserved fst snd map]. rewrite !in_app_iff.
    cbn [In]. split.
    + intros [Hin Hn]. apply in_remove in Hin. destruct Hin as [Hin Hne1].
      apply in_remove in Hin. destruct Hin as [Hin Hne2].
      split; [exact Hin|]. intros [[E|H1]|[E|H2]]; try congruence;
        apply Hn; [left|right]; assumption.
    + intros [Hin Hn]. split.
      * apply in_in_remove; [intros ->; apply Hn; right; now left|].
        apply in_in_remove; [intros ->; apply Hn; left; now left|exact Hin].
      * intros [H1|H2]; apply Hn; [left; now right|right; now right].
Qed.

Lemma NoDup_remove_all (p : Z) (l : list Z) : NoDup l -> NoDup (remove Z.eq_dec p l).
Proof.
  induction l as [|a l IH]; intros Hnd; cbn [remove]; [constructor|].
  inversion Hnd; subst. destruct (Z.eq_dec p a); [now apply IH|].
  constructor; [|now apply IH]. intros Hin. apply in_remove in Hin. tauto.
Qed.

Lemma free_overflow_keeps (ps : list (Z * page)) :
  forall h : raw_source,
    brk (free_overflow ps h) = brk h
    /\ (NoDup (reserved h) -> NoDup (reserved (free_overflow ps h))).
Proof.
  induction ps as [|[node q] ps IH]; intros h; [cbn; tauto|].
  unfold free_overflow in *. cbn [fold_left].
  destruct (IH (raw_release node (raw_release (Storage q) h))) as [Hb Hn].
  cbn [fst snd]. split; [rewrite Hb; reflexivity|].
  intros Hnd. apply Hn. unfold raw_release. cbn [reserved].
  now apply NoDup_remove_all, NoDup_remove_all.
Qed.

Lemma fold_reserved_sum (ps : list (Z * page)) :
  forall acc : Z,
    0 <= acc -> Forall (fun p => 0 <= Reserved p) (map snd ps) ->
    acc + sum_reserved (map snd ps) < 2 ^ 64 ->
    fold_left (fun acc np => wrap64 (acc + Reserved (snd np))) ps acc
    = acc + sum_reserved (map snd ps).
Proof.
  induction ps as [|[node q] ps IH]; intros acc Hacc Hall Hsum.
  - cbn [map sum_reserved fold_right fold_left]. lia.
  - cbn [map snd sum_reserved fold_right fold_left] in *.
    inversion Hall as [|? ? Hq Hrest]; subst.
    assert (Hnn : 0 <= sum_reserved (map snd ps)).
    { clear - Hrest. unfold sum_reserved. induction Hrest; cbn; lia. }
    fold (sum_reserved (map snd ps)) in Hsum |- *.
    assert (Hw : wrap64 (acc + Reserved q) = acc + Reserved q)
      by (unfold wrap64; apply Z.mod_small; lia).
    rewrite Hw, IH; try assumption; lia.
Qed.

Lemma total_reserved_sum (data : temporary_allocator_data) :
  Forall (fun p => 0 <= Reserved p) (pages data) ->
  sum_reserved (pages data) < 2 ^ 64 ->
  total_reserved data = sum_reserved (pages data).
Proof.
  unfold total_reserved, pages. intros Hall Hsum.
  inversion Hall as [|? ? Hb Hrest]; subst.
  cbn [sum_reserved fold_right] in *. fold (sum_reserved (map snd (Overflow data))) in *.
  apply fold_reserved_sum; assumption.
Qed.

Lemma one_reserved (l : list Z) (c : Z) :
  NoDup l -> (forall b, In b l <-> b = c) -> l = [c].
Proof.
  intros Hnd Hin. destruct l as [|a l].
  - exfalso. apply (proj2 (Hin c)). reflexivity.
  - assert (a = c) by (apply Hin; now left). subst a.
    destruct l as [|b l]; [reflexivity|].
    exfalso. inversion Hnd as [|? ? Hn _]; subst.
    assert (b = c) by (apply Hin; right; now left). subst b.
    apply Hn. now left.
Qed.

(** X17.  No leak on FREE_ALL.  For an initialised allocator that is the
    only client of its raw source, with page capacities that are not
    negative and sum to less than [2^64], FREE_ALL releases the storage and
    the node of every overflow page: afterwards there is no overflow page,
    nothing is used, the base page has the summed capacity of all the
    pages, and its storage is the one raw block still reserved. *)
Theorem FREE_ALL_keeps_one_raw_block (data : temporary_allocator_data)
    (size oldMemory oldSize : Z) (h : raw_source) (m : memory) :
  temp_owns data h -> Reserved (Base data) <> 0 ->
  Forall (fun p => 0 <= Reserved p) (pages data) ->
  sum_reserved (pages data) < 2 ^ 64 ->
  let '(r, data', h', m') :=
    temporary_allocator loggedSize_of FREE_ALL data size oldMemory oldSize h m in
  r = 0 /\ m' = m
  /\ Overflow data' = [] /\ Used (Base data') = 0 /\ TotalUsed data' = 0
  /\ Reserved (Base data') = sum_reserved (pages data)
  /\ reserved h' = [Storage (Base data')]
  /\ temp_owns data' h'.
Proof.
  intros (Hnd & Hndr & Hres & Hbrk) Hinit Hnn Hsum.
  unfold temporary_allocator, ensure_initialized.
  rewrite (proj2 (Z.eqb_neq _ _) Hinit).
  unfold free_all. rewrite (total_reserved_sum data Hnn Hsum).
  set (h1 := free_overflow (Overflow data) h).
  destruct (free_overflow_keeps (Overflow data) h) as [Hb1 Hn1].
  fold h1 in Hb1, Hn1. specialize (Hn1 Hndr).
  unfold temp_blocks in Hnd, Hres.
  rewrite (proj2 (Z.eqb_neq _ _) Hinit) in Hnd, Hres.
  set (ov := map (fun np => Storage (snd np)) (Overflow data) ++ map fst (Overflow data))
    in *.
  assert (Hin1 : forall b, In b (reserved h1) <-> b = Storage (Base data)).
  { intros b. unfold h1. rewrite In_reserved_free_overflow. fold ov.
    rewrite Hres. cbn [app In]. inversion Hnd as [|? ? Hn _]; subst.
    split.
    - intros [[E|Ho] Hno]; [congruence|contradiction].
    - intros ->. split; [now left|exact Hn]. }
  assert (Hone : reserved h1 = [Storage (Base data)])
    by (apply one_reserved; assumption).
  assert (Hpos : 0 < sum_reserved (pages data)).
  { unfold pages in *. cbn [sum_reserved fold_right].
    inversion Hnn as [|? ? H0 Hrest]; subst.
    assert (0 <= fold_right (fun p acc => Reserved p + acc) 0
                    (map snd (Overflow data))).
    { clear - Hrest. induction Hrest; cbn; lia. }
    lia. }
  assert (Hbase : Storage (Base data) < brk h).
  { apply Hbrk, Hres. now left. }
  destruct (sum_reserved (pages data) =? Reserved (Base data)) eqn:Et.
  - apply Z.eqb_eq in Et.
    cbn [Base Overflow TotalUsed Used Reserved Storage].
    repeat split; try reflexivity; try assumption; try (symmetry; exact Et).
    + unfold temp_blocks. cbn [Base Overflow Reserved Storage map app].
      rewrite (proj2 (Z.eqb_neq _ _) Hinit). repeat constructor. intros [].
    + intros Hb. unfold temp_blocks. cbn [Base Overflow Reserved Storage map app].
      rewrite (proj2 (Z.eqb_neq _ _) Hinit). rewrite Hone in Hb. exact Hb.
    + intros Hb. unfold temp_blocks in Hb.
      cbn [Base Overflow Reserved Storage map app] in Hb.
      rewrite (proj2 (Z.eqb_neq _ _) Hinit) in Hb. rewrite Hone. exact Hb.
    + intros b Hb. rewrite Hb1. apply Hin1 in Hb. subst b. exact Hbase.
  - apply Z.eqb_neq in Et.
    unfold raw_reserve, raw_release. cbn [brk reserved fst snd].
    cbn [Base Overflow TotalUsed Used Reserved Storage].
    rewrite Hone. cbn [remove].
    destruct (Z.eq_dec (Storage (Base data)) (Storage (Base data))) as [_|Hne];
      [|congruence].
    assert (E0 : (sum_reserved (pages data) =? 0) = false) by (apply Z.eqb_neq; lia).
    repeat split; try reflexivity.
    + unfold temp_blocks. cbn [Base Overflow Reserved Storage map app].
      rewrite E0. repeat constructor. intros [].
    + repeat constructor. intros [].
    + unfold temp_blocks. cbn [Base Overflow Reserved Storage map app].
      rewrite E0. tauto.
    + unfold temp_blocks. cbn [Base Overflow Reserved Storage map app].
      rewrite E0. tauto.
    + intros b [<-|[]]. cbn [brk]. lia.
Qed.

(** X18.  ALLOCATE keeps the allocator the only client of its raw source,
    also when it has to reserve the base page first (for a request of 1 up
    to [2^61] bytes) or an overflow page: it releases no raw block, and
    every raw block it reserves is one the allocator then holds. *)
Theorem ALLOCATE_keeps_the_raw_blocks (data : temporary_allocator_data)
    (size oldMemory oldSize : Z) (h : raw_source) (m : memory) :
  temp_owns data h ->
  Reserved (Base data) <> 0 \/ 0 < size <= 2 ^ 61 ->
  let '(r, data', h', m') :=
    temporary_allocator loggedSize_of ALLOCATE data size oldMemory oldSize h m in
  temp_owns data' h' /\ Reserved (Base data') <> 0
  /\ forall b, In b (reserved h) -> In b (reserved h').
Proof.
  intros Hown Hinit.
  unfold temporary_allocator.
  assert (H0 : let '(data0, h0) := ensure_initialized data size h in
               temp_owns data0 h0 /\ Reserved (Base data0) <> 0
               /\ Overflow data0 = Overflow data
               /\ forall b, In b (reserved h) -> In b (reserved h0)).
  { unfold ensure_initialized.
    destruct (Reserved (Base data) =? 0) eqn:E0.
    - apply Z.eqb_eq in E0. destruct Hinit as [Hinit|Hsz]; [congruence|].
      unfold raw_reserve. cbn [fst snd brk reserved].
      assert (Hw : wrap64 (size * 2) = size * 2)
        by (unfold wrap64; apply Z.mod_small; lia).
      rewrite Hw.
      destruct (round_up_8_KiB_bounds (size * 2) ltac:(lia) ltac:(lia)) as (Hup & _).
      destruct Hown as (Hnd & Hndr & Hres & Hbrk).
      unfold temp_blocks in Hnd, Hres.
      rewrite (proj2 (Z.eqb_eq _ _) E0) in Hnd, Hres. cbn [app] in Hnd, Hres.
      assert (Hfresh : ~ In (brk h) (reserved h)).
      { intros Hin. specialize (Hbrk _ Hin). lia. }
      assert (En : (round_up_8_KiB (size * 2) =? 0) = false)
        by (apply Z.eqb_neq; lia).
      split; [|split; [cbn [Base Reserved]; lia|split; [reflexivity|]]].
      + unfold temp_owns, temp_blocks. cbn [Base Overflow Reserved Storage brk reserved].
        rewrite En. cbn [app].
        split; [constructor; [rewrite <- Hres; exact Hfresh|exact Hnd]|].
        split; [constructor; assumption|].
        split; [intros b; cbn [In]; rewrite Hres; reflexivity|].
        intros b [<-|Hb]; [lia|]. specialize (Hbrk b Hb). lia.
      + intros b Hb. now right.
    - apply Z.eqb_neq in E0. repeat split; try assumption; try apply Hown.
      intros; assumption. }
  destruct (ensure_initialized data size h) as [data0 h0].
  destruct H0 as (Hown0 & Hinit0 & Eov & Hsub0).
  unfold allocate.
  pose proof (allocate_from_cases size h0 (Overflow data0) (Base data0)) as Hc.
  destruct (allocate_from loggedSize_of (Base data0) (Overflow data0) size h0)
    as [[[r p'] rest'] h'].
  destruct Hown0 as (Hnd & Hndr & Hres & Hbrk).
  destruct Hc as [(l1 & q & l2 & E1 & Hl1 & Hq & E2 & E3 & Er & Eh)
                 |(Hall & Ep & Erest & Er & Eh)].
  - subst h'.
    assert (Est : map Storage (p' :: map snd rest')
                  = map Storage (Base data0 :: map snd (Overflow data0))).
    { rewrite E1, E2, !map_app. reflexivity. }
    assert (Ers : map Reserved (p' :: map snd rest')
                  = map Reserved (Base data0 :: map snd (Overflow data0))).
    { rewrite E1, E2, !map_app. reflexivity. }
    cbn [map] in Est, Ers. injection Est as Es1 Es2. injection Ers as Er1 _.
    assert (Eblocks : temp_blocks {| Base := p'; Overflow := rest';
                                     TotalUsed := wrap64 (TotalUsed data0 + size) |}
                      = temp_blocks data0).
    { unfold temp_blocks. cbn [Base Overflow]. rewrite Er1, Es1, E3.
      rewrite <- !map_map with (f := snd) (g := Storage), Es2. reflexivity. }
    split; [|split; [cbn [Base]; congruence|exact Hsub0]].
    unfold temp_owns. rewrite Eblocks. repeat split; try assumption; apply Hres.
  - subst p'. rewrite Eh, Erest.
    set (target := reserveTarget loggedSize_of
                     (Reserved (last (map snd (Overflow data0)) (Base data0))) size).
    unfold raw_reserve, sizeof_page. cbn [fst snd brk reserved].
    change (Z.max 32 1) with 32.
    assert (Hf1 : ~ In (brk h0) (reserved h0)).
    { intros Hin. specialize (Hbrk _ Hin). lia. }
    assert (Hf2 : ~ In (brk h0 + 32) (reserved h0)).
    { intros Hin. specialize (Hbrk _ Hin). lia. }
    assert (HP : Permutation
                   (temp_blocks {| Base := Base data0;
                                   Overflow := Overflow data0
                                     ++ [(brk h0,
                                          bump {| Storage := brk h0 + 32;
                                                  Reserved := target; Used := 0 |}
                                            size)];
                                   TotalUsed := wrap64 (TotalUsed data0 + size) |})
                   ((brk h0 + 32) :: brk h0 :: temp_blocks data0)).
    { unfold temp_blocks. cbn [Base Overflow]. rewrite !map_app.
      cbn [map fst snd bump Storage].
      apply (Permutation_count_occ Z.eq_dec). intros x.
      rewrite ?count_occ_app. cbn [count_occ].
      rewrite ?count_occ_app. cbn [count_occ].
      destruct (Z.eq_dec (brk h0 + 32) x); destruct (Z.eq_dec (brk h0) x); lia. }
    split; [|split; [exact Hinit0|intros b Hb; right; right; now apply Hsub0]].
    unfold temp_owns. cbn [reserved brk].
    split.
    { eapply Permutation_NoDup; [apply Permutation_sym; exact HP|].
      constructor.
      - intros [E|Hin]; [lia|]. apply Hf2, Hres, Hin.
      - constructor; [intros Hin; apply Hf1, Hres, Hin|exact Hnd]. }
    split.
    { constructor; [intros [E|Hin]; [lia|contradiction]|].
      constructor; assumption. }
    split.
    { intros b. split.
      - intros Hb. eapply Permutation_in; [apply Permutation_sym; exact HP|].
        cbn [In] in *. rewrite <- Hres. exact Hb.
      - intros Hb. eapply Permutation_in in Hb; [|exact HP].
        cbn [In] in *. rewrite Hres. exact Hb. }
    intros b [<-|[<-|Hb]]; [lia|lia|]. specialize (Hbrk b Hb). lia.
Qed.

End Pages.

(** An allocator with one overflow page, as the 10 KiB request leaves it. *)
Definition data_with_overflow : temporary_allocator_data :=
  {| Base := {| Storage := 4096; Reserved := 8192; Used := 0 |};
     Overflow := [(20000, {| Storage := 20032; Reserved := 65536; Used := 10240 |})];
     TotalUsed := 10240 |}.

Definition source_with_overflow : raw_source :=
  {| brk := 85568; reserved := [20032; 20000; 4096] |}.

Lemma data_with_overflow_owned : temp_owns data_with_overflow source_with_overflow.
Proof.
  unfold temp_owns, temp_blocks. cbn.
  split; [repeat constructor; cbn; intuition lia|].
  split; [repeat constructor; cbn; intuition lia|].
  split; [intros b; tauto|].
  intros b; intuition lia.
Qed.

Lemma base_8_KiB_owned : temp_owns base_8_KiB (mk_raw 20000 [4096]).
Proof.
  unfold temp_owns, temp_blocks. cbn.
  split; [repeat constructor; cbn; intuition lia|].
  split; [repeat constructor; cbn; intuition lia|].
  split; [intros b; tauto|].
  intros b; intuition lia.
Qed.

Lemma loggedSize_8_KiB_range : forall r, 0 <= loggedSize_8_KiB r <= 2 ^ 62.
Proof. intros r. unfold loggedSize_8_KiB. lia. Qed.

Lemma ALLOCATE_is_first_fit_witness :
  let '(r, data', h', m') :=
    temporary_allocator loggedSize_8_KiB ALLOCATE data_with_overflow 9000 0 0
      source_with_overflow (fun _ => 0) in
  m' = (fun _ => 0)
  /\ TotalUsed data' = wrap64 (TotalUsed data_with_overflow + 9000)
  /\ Forall page_ok (pages data')
  /\ ((exists l1 q l2,
          pages data_with_overflow = l1 ++ q :: l2
          /\ Forall (fun p => Reserved p <= Used p + 9000) l1
          /\ Used q + 9000 < Reserved q
          /\ pages data'
             = l1 ++ {| Storage := Storage q; Reserved := Reserved q;
                        Used := Used q + 9000 |} :: l2
          /\ r = wrap64 (Storage q + Used q)
          /\ h' = source_with_overflow)
      \/ (Forall (fun p => Reserved p <= Used p + 9000) (pages data_with_overflow)
          /\ exists q,
               pages data' = pages data_with_overflow ++ [q]
               /\ Used q = 9000 /\ r = wrap64 (Storage q)
               /\ 2 * 9000 <= Reserved q /\ 8192 <= Reserved q
               /\ Reserved q mod 8192 = 0
               /\ In (Storage q) (reserved h'))).
Proof.
  apply (ALLOCATE_is_first_fit loggedSize_8_KiB data_with_overflow 9000 0 0
           source_with_overflow (fun _ => 0) loggedSize_8_KiB_range).
  - unfold pages, page_ok. cbn. repeat constructor; cbn; lia.
  - cbn. lia.
  - lia.
Defined.

Lemma FREE_ALL_keeps_one_raw_block_witness :
  let '(r, data', h', m') :=
    temporary_allocator loggedSize_8_KiB FREE_ALL data_with_overflow 0 0 0
      source_with_overflow (fun _ => 0) in
  r = 0 /\ m' = (fun _ => 0)
  /\ Overflow data' = [] /\ Used (Base data') = 0 /\ TotalUsed data' = 0
  /\ Reserved (Base data') = sum_reserved (pages data_with_overflow)
  /\ reserved h' = [Storage (Base data')]
  /\ temp_owns data' h'.
Proof.
  apply (FREE_ALL_keeps_one_raw_block loggedSize_8_KiB data_with_overflow 0 0 0
           source_with_overflow (fun _ => 0) data_with_overflow_owned).
  - cbn. lia.
  - unfold pages. cbn. repeat constructor; cbn; lia.
  - cbn. lia.
Defined.

Lemma ALLOCATE_keeps_the_raw_blocks_witness :
  let '(r, data', h', m') :=
    temporary_allocator loggedSize_8_KiB ALLOCATE base_8_KiB 10240 0 0
      (mk_raw 20000 [4096]) (fun _ => 0) in
  temp_owns data' h' /\ Reserved (Base data') <> 0
  /\ forall b, In b (reserved (mk_raw 20000 [4096])) -> In b (reserved h').
Proof.
  apply (ALLOCATE_keeps_the_raw_blocks loggedSize_8_KiB base_8_KiB 10240 0 0
           (mk_raw 20000 [4096]) (fun _ => 0) base_8_KiB_owned).
  left. cbn. lia.
Defined.

Section Reallocate.

Variable loggedSize_of : Z -> Z.



End Reallocate.


End TempAllocFacts.

(** ** The fixed-size temporary allocator *)

Module TempStorageFacts.
Import TempStorage.

Section Requests.

Variable temporary_allocator_address : Z.
Variable MALLOC : allocator_closure.
Variable malloc_state : Type.
Variable g_DefaultAllocator :
  allocator_mode -> Z -> Z -> Z -> Z -> malloc_state -> memory -> Z * malloc_state * memory.

(** ALLOCATE, as a client calls it. *)
Definition allocate (allocatorData : Z) (storage : temporary_storage) (size : Z)
    (pr : process) (ms : malloc_state) (m : memory)
  : Z * temporary_storage * process * malloc_state * memory :=
  temporary_allocator temporary_allocator_address MALLOC malloc_state g_DefaultAllocator
    ALLOCATE allocatorData storage size 0 0 pr ms m.

(** A client allocates the sizes of a list, one after the other; the
    answer is the list of the addresses and the state after the last. *)
Fixpoint allocate_all (allocatorData : Z) (storage : temporary_storage)
    (sizes : list Z) (pr : process) (ms : malloc_state) (m : memory)
  : list Z * temporary_storage * process * malloc_state * memory :=
  match sizes with
  | [] => ([], storage, pr, ms, m)
  | size :: rest =>
      let '(block, storage1, pr1, ms1, m1) :=
        allocate allocatorData storage size pr ms m in
      let '(blocks, storage2, pr2, ms2, m2) :=
        allocate_all allocatorData storage1 rest pr1 ms1 m1 in
      (block :: blocks, storage2, pr2, ms2, m2)
  end.

Definition sum_sizes (sizes : list Z) : Z := fold_right Z.add 0 sizes.

(** The addresses of consecutive regions that start at [first]. *)
Fixpoint consecutive (first : Z) (sizes : list Z) : list Z :=
  match sizes with
  | [] => []
  | size :: rest => first :: consecutive (first + size) rest
  end.

(** The buffer, and the address one past its end, are in the address space,
    the cursor is inside the buffer, and [HighestUsed] is not behind it. *)
Definition storage_ok (storage : temporary_storage) : Prop :=
  0 <= Data storage /\ Data storage + Size storage < 2 ^ 64
  /\ 0 <= Occupied storage <= Size storage
  /\ Occupied storage <= HighestUsed storage.

Lemma allocate_fits (allocatorData : Z) (storage : temporary_storage) (size : Z)
    (pr : process) (ms : malloc_state) (m : memory) :
  storage_ok storage -> 0 <= size -> Occupied storage + size <= Size storage ->
  allocate allocatorData storage size pr ms m
  = (Data storage + Occupied storage,
     {| Data := Data storage; Size := Size storage;
        Occupied := Occupied storage + size;
        HighestUsed := Z.max (HighestUsed storage) (Occupied storage + size) |},
     pr, ms, m).
Proof.
  intros (HD & HS & HO & HH) Hs Hfit. unfold allocate, temporary_allocator.
  assert (Hw : wrap64 (Occupied storage + size) = Occupied storage + size)
    by (unfold wrap64; apply Z.mod_small; lia).
  assert (Hb : wrap64 (Data storage + Occupied storage) = Data storage + Occupied storage).
  { unfold wrap64. apply Z.mod_small. lia. }
  rewrite Hw.
  destruct (Occupied storage + size >? Size storage) eqn:E.
  - apply Z.gtb_lt in E. lia.
  - rewrite Hb. reflexivity.
Qed.

(** X20.  While the requests fit, the allocator bumps: for a storage whose
    cursor is inside its buffer and requests (each at least 0 bytes) whose
    sizes sum to no more than the free space, consecutive ALLOCATE calls
    return consecutive regions that start at the cursor, so they lie inside
    the buffer and do not overlap; the cursor ends after the last region,
    [HighestUsed] is the larger of its old value and the new cursor, and
    neither the globals, nor the default allocator, nor memory is touched. *)
Theorem allocate_all_bumps (allocatorData : Z) (sizes : list Z) :
  forall (storage : temporary_storage) (pr : process) (ms : malloc_state) (m : memory),
    storage_ok storage -> Forall (fun size => 0 <= size) sizes ->
    Occupied storage + sum_sizes sizes <= Size storage ->
    allocate_all allocatorData storage sizes pr ms m
    = (consecutive (Data storage + Occupied storage) sizes,
       {| Data := Data storage; Size := Size storage;
          Occupied := Occupied storage + sum_sizes sizes;
          HighestUsed := Z.max (HighestUsed storage)
                               (Occupied storage + sum_sizes sizes) |},
       pr, ms, m).
Proof.
  induction sizes as [|size rest IH]; intros storage pr ms m Hok Hall Hfit.
  - cbn [allocate_all consecutive sum_sizes fold_right].
    destruct Hok as (HD & HS & HO & HH).
    rewrite Z.add_0_r, Z.max_l by lia. destruct storage; reflexivity.
  - inversion Hall as [|? ? Hs Hrest]; subst.
    cbn [sum_sizes fold_right] in Hfit. fold (sum_sizes rest) in Hfit.
    assert (Hnn : 0 <= sum_sizes rest).
    { clear - Hrest. unfold sum_sizes. induction Hrest; cbn; lia. }
    cbn [allocate_all]. rewrite (allocate_fits _ _ _ _ _ _ Hok Hs) by lia.
    set (storage1 := {| Data := Data storage; Size := Size storage;
                        Occupied := Occupied storage + size;
                        HighestUsed := Z.max (HighestUsed storage)
                                             (Occupied storage + size) |}).
    assert (Hok1 : storage_ok storage1).
    { destruct Hok as (HD & HS & HO & HH). unfold storage_ok, storage1. cbn. lia. }
    rewrite (IH storage1 pr ms m Hok1 Hrest)
      by (unfold storage1; cbn [Occupied Size]; lia).
    unfold storage1.
    cbn [Data Size Occupied HighestUsed consecutive sum_sizes fold_right].
    fold (sum_sizes rest).
    replace (Data storage + (Occupied storage + size))
      with (Data storage + Occupied storage + size) by lia.
    replace (Occupied storage + size + sum_sizes rest)
      with (Occupied storage + (size + sum_sizes rest)) by lia.
    f_equal. f_equal. f_equal. f_equal. f_equal. lia.
Qed.

(** X21.  A mark scope gives the memory back.  A client takes the mark,
    allocates (requests that fit) and sets the mark again: the cursor is
    where it was, so the next ALLOCATE that fits returns the address the
    first one of the scope had returned; [HighestUsed] remembers the peak
    of the scope.  [temporary_storage_reset] and FREE_ALL are the scope of
    everything: the cursor is 0 and the next ALLOCATE returns the start of
    the buffer. *)
Theorem mark_scope_gives_the_memory_back (allocatorData : Z) (sizes : list Z)
    (storage : temporary_storage) (size' : Z)
    (pr : process) (ms : malloc_state) (m : memory) :
  storage_ok storage -> Forall (fun size => 0 <= size) sizes ->
  Occupied storage + sum_sizes sizes <= Size storage ->
  0 <= size' -> Occupied storage + size' <= Size storage ->
  let mark := temporary_storage_get_mark storage in
  let '(blocks, storage1, pr1, ms1, m1) :=
    allocate_all allocatorData storage sizes pr ms m in
  let storage2 := temporary_storage_set_mark storage1 mark in
  Occupied storage2 = Occupied storage
  /\ HighestUsed storage2
     = Z.max (HighestUsed storage) (Occupied storage + sum_sizes sizes)
  /\ storage_ok storage2
  /\ fst (fst (fst (fst (allocate allocatorData storage2 size' pr1 ms1 m1))))
     = Data storage + mark
  /\ hd (Data storage + mark) blocks = Data storage + mark
  /\ fst (fst (fst (fst (allocate allocatorData
                           (temporary_storage_reset storage1) size' pr1 ms1 m1))))
     = Data storage
  /\ temporary_allocator temporary_allocator_address MALLOC malloc_state
       g_DefaultAllocator FREE_ALL allocatorData storage1 0 0 0 pr1 ms1 m1
     = (0, temporary_storage_reset storage1, pr1, ms1, m1).
Proof.
  intros Hok Hall Hfit Hs' Hfit' mark.
  rewrite (allocate_all_bumps allocatorData sizes storage pr ms m Hok Hall Hfit).
  cbv zeta.
  assert (Hnn : 0 <= sum_sizes sizes).
  { clear - Hall. unfold sum_sizes. induction Hall; cbn; lia. }
  destruct Hok as (HD & HS & HO & HH).
  subst mark.
  unfold temporary_storage_set_mark, temporary_storage_reset,
    temporary_storage_get_mark.
  cbn [Data Size Occupied HighestUsed].
  split; [reflexivity|]. split; [reflexivity|].
  split; [unfold storage_ok; cbn [Data Size Occupied HighestUsed]; lia|].
  split.
  { rewrite allocate_fits;
      [reflexivity|unfold storage_ok; cbn [Data Size Occupied HighestUsed]; lia
      |exact Hs'|cbn [Occupied Size]; lia]. }
  split; [destruct sizes; reflexivity|].
  split; [|reflexivity].
  rewrite allocate_fits;
    [cbn [fst Data Occupied]; lia
    |unfold storage_ok; cbn [Data Size Occupied HighestUsed]; lia
    |exact Hs'|cbn [Occupied Size]; lia].
Qed.

End Requests.

(** A storage of 100 bytes at 4096, a default allocator that answers null,
    and a context that uses another allocator. *)
Definition storage_100 : temporary_storage :=
  {| Data := 4096; Size := 100; Occupied := 0; HighestUsed := 0 |}.

Definition no_malloc (mode : allocator_mode) (allocatorData size oldMemory oldSize : Z)
    (ms : unit) (m : memory) : Z * unit * memory := (0, ms, m).

Definition idle_process : process :=
  {| ContextAllocator := mk_closure 3 0; g_TemporaryAllocatorData := 8000;
     printed := [] |}.

Lemma storage_100_ok : storage_ok storage_100.
Proof. unfold storage_ok, storage_100. cbn. lia. Qed.

Lemma allocate_all_bumps_witness :
  allocate_all 1 (mk_closure 2 0) unit no_malloc 8000 storage_100 [10; 20; 30]
    idle_process tt (fun _ => 0)
  = (consecutive (Data storage_100 + Occupied storage_100) [10; 20; 30],
     {| Data := Data storage_100; Size := Size storage_100;
        Occupied := Occupied storage_100 + sum_sizes [10; 20; 30];
        HighestUsed := Z.max (HighestUsed storage_100)
                             (Occupied storage_100 + sum_sizes [10; 20; 30]) |},
     idle_process, tt, (fun _ => 0)).
Proof.
  apply (allocate_all_bumps 1 (mk_closure 2 0) unit no_malloc 8000 [10; 20; 30]
           storage_100 idle_process tt (fun _ => 0) storage_100_ok).
  - repeat constructor; lia.
  - cbn. lia.
Defined.

Lemma mark_scope_gives_the_memory_back_witness :
  let '(blocks, storage1, pr1, ms1, m1) :=
    allocate_all 1 (mk_closure 2 0) unit no_malloc 8000 storage_100 [10; 20; 30]
      idle_process tt (fun _ => 0) in
  Occupied (temporary_storage_set_mark storage1 (temporary_storage_get_mark storage_100))
  = Occupied storage_100
  /\ HighestUsed (temporary_storage_set_mark storage1
                    (temporary_storage_get_mark storage_100))
     = Z.max (HighestUsed storage_100) (Occupied storage_100 + sum_sizes [10; 20; 30])
  /\ storage_ok (temporary_storage_set_mark storage1
                   (temporary_storage_get_mark storage_100))
  /\ fst (fst (fst (fst (allocate 1 (mk_closure 2 0) unit no_malloc 8000
                           (temporary_storage_set_mark storage1
                              (temporary_storage_get_mark storage_100))
                           40 pr1 ms1 m1))))
     = Data storage_100 + temporary_storage_get_mark storage_100
  /\ hd (Data storage_100 + temporary_storage_get_mark storage_100) blocks
     = Data storage_100 + temporary_storage_get_mark storage_100
  /\ fst (fst (fst (fst (allocate 1 (mk_closure 2 0) unit no_malloc 8000
                           (temporary_storage_reset storage1) 40 pr1 ms1 m1))))
     = Data storage_100
  /\ temporary_allocator 1 (mk_closure 2 0) unit no_malloc FREE_ALL 8000 storage1
       0 0 0 pr1 ms1 m1
     = (0, temporary_storage_reset storage1, pr1, ms1, m1).
Proof.
  apply (mark_scope_gives_the_memory_back 1 (mk_closure 2 0) unit no_malloc 8000
           [10; 20; 30] storage_100 40 idle_process tt (fun _ => 0) storage_100_ok).
  - repeat constructor; lia.
  - cbn. lia.
  - lia.
  - cbn. lia.
Defined.

End TempStorageFacts.

(** ** The front end of lstd: header codec, tracker list, allocate, free and
    reallocate *)

Module LstdFacts.
Import Lstd MemFacts.
Local Open Scope bool_scope.
Local Open Scope Z_scope.

Lemma wrap64_small (x : Z) : 0 <= x < 2 ^ 64 -> wrap64 x = x.
Proof. apply Z.mod_small. Qed.

Lemma wrap32_small (x : Z) : 0 <= x < 2 ^ 32 -> wrap32 x = x.
Proof. apply Z.mod_small. Qed.

Lemma wrap16_small (x : Z) : 0 <= x < 2 ^ 16 -> wrap16 x = x.
Proof. apply Z.mod_small. Qed.

Lemma to_s64_small (x : Z) : 0 <= x < 2 ^ 63 -> to_s64 x = x.
Proof.
  intros Hx. unfold to_s64. rewrite wrap64_small by lia.
  destruct (x <? 2 ^ 63) eqn:E; [reflexivity|]. apply Z.ltb_ge in E. lia.
Qed.

Lemma to_s32_small (x : Z) : 0 <= x < 2 ^ 31 -> to_s32 x = x.
Proof.
  intros Hx. unfold to_s32. rewrite wrap32_small by lia.
  destruct (x <? 2 ^ 31) eqn:E; [reflexivity|]. apply Z.ltb_ge in E. lia.
Qed.

Lemma is_pow_of_2_pow2 (j : Z) : 0 <= j -> is_pow_of_2 (2 ^ j) = true.
Proof.
  intros Hj. unfold is_pow_of_2.
  assert (0 < 2 ^ j) by (apply Z.pow_pos_nonneg; lia).
  apply andb_true_iff. split; [apply Z.ltb_lt; assumption|].
  apply Z.eqb_eq. replace (2 ^ j - 1) with (Z.ones j) by (rewrite Z.ones_equiv; lia).
  rewrite Z.land_ones by assumption. apply Z.mod_same. lia.
Qed.

(** The mask [-alignment], taken as a [u64], clears the low bits. *)
Lemma land_mask_u64 (x j : Z) :
  0 <= x < 2 ^ 64 -> 0 <= j < 64 ->
  Z.land x (wrap64 (- 2 ^ j)) = x - x mod 2 ^ j.
Proof.
  intros Hx Hj. unfold wrap64.
  rewrite <- Z.land_ones by lia.
  rewrite (Z.land_comm (- 2 ^ j)), Z.land_assoc.
  rewrite (Z.land_ones x) by lia. rewrite Z.mod_small by assumption.
  apply land_neg_pow2. lia.
Qed.

Lemma lnot_mask_u64 (x j : Z) :
  0 <= x < 2 ^ 64 -> 0 <= j < 63 ->
  Z.land x (wrap64 (Z.lnot (to_s64 (2 ^ j) - 1))) = x - x mod 2 ^ j.
Proof.
  intros Hx Hj.
  assert (0 < 2 ^ j < 2 ^ 63).
  { split; [apply Z.pow_pos_nonneg; lia|apply Z.pow_lt_mono_r; lia]. }
  rewrite to_s64_small by lia.
  replace (Z.lnot (2 ^ j - 1)) with (- 2 ^ j) by (unfold Z.lnot; lia).
  apply land_mask_u64; lia.
Qed.

Lemma padding_for_pointer (b j : Z) :
  0 <= j <= 15 -> 0 <= b -> b + 2 ^ j <= 2 ^ 64 ->
  exists pad0,
    calculate_padding_for_pointer b (to_s32 (2 ^ j)) = Returns pad0
    /\ 0 <= pad0 < 2 ^ j /\ (b + pad0) mod 2 ^ j = 0.
Proof.
  intros Hj Hb Hlim.
  assert (Ha : 0 < 2 ^ j <= 2 ^ 15).
  { split; [apply Z.pow_pos_nonneg; lia|apply pow2_le_mono; lia]. }
  set (a := 2 ^ j) in *.
  unfold calculate_padding_for_pointer.
  rewrite to_s32_small by lia.
  assert (Hpos : (0 <? a) = true) by (apply Z.ltb_lt; lia).
  rewrite Hpos. unfold a at 1. rewrite is_pow_of_2_pow2 by lia. cbn [andb assert bind].
  rewrite (wrap64_small (a - 1)) by lia.
  rewrite (wrap64_small (b + (a - 1))) by lia.
  unfold a at 2. rewrite land_mask_u64 by lia. fold a.
  pose proof (Z.mod_pos_bound (b + (a - 1)) a ltac:(lia)) as Hm.
  set (r := (b + (a - 1)) mod a) in *.
  replace (b + (a - 1) - r - b) with (a - 1 - r) by lia.
  rewrite wrap64_small, wrap16_small by lia.
  eexists. split; [reflexivity|]. split; [lia|].
  replace (b + (a - 1 - r)) with (b + (a - 1) - r) by lia.
  unfold r. rewrite Zminus_mod_idemp_r, Z.sub_diag. apply Z.mod_0_l. lia.
Qed.

Lemma padding_for_pointer_with_header (b j Hs : Z) :
  3 <= j <= 15 -> 0 <= b -> b + 2 ^ j <= 2 ^ 64 -> 0 < Hs <= 2 ^ 15 ->
  exists pad,
    calculate_padding_for_pointer_with_header b (to_s32 (2 ^ j)) (wrap32 Hs)
      = Returns pad
    /\ Hs <= pad < Hs + 2 ^ j /\ (b + pad) mod 2 ^ j = 0.
Proof.
  intros Hj Hb Hlim HHs.
  destruct (padding_for_pointer b j ltac:(lia) Hb Hlim) as (pad0 & E0 & Hr0 & Hm0).
  assert (Ha : 2 ^ 3 <= 2 ^ j <= 2 ^ 15) by (split; apply pow2_le_mono; lia).
  unfold calculate_padding_for_pointer_with_header. rewrite E0. cbn [bind].
  rewrite to_s32_small by lia. set (a := 2 ^ j) in *.
  rewrite (wrap32_small Hs) by lia. rewrite (wrap32_small a) by lia.
  destruct (pad0 <? Hs) eqn:E.
  - apply Z.ltb_lt in E. rewrite (wrap32_small (Hs - pad0)) by lia.
    pose proof (Z.div_mod (Hs - pad0) a ltac:(lia)) as Hdm.
    pose proof (Z.mod_pos_bound (Hs - pad0) a ltac:(lia)) as Hmb.
    assert (Hq : 0 <= (Hs - pad0) / a) by (apply Z.div_pos; lia).
    assert (Hq2 : a * ((Hs - pad0) / a) <= Hs - pad0) by lia.
    destruct ((Hs - pad0) mod a =? 0) eqn:Ez; cbn [negb].
    + apply Z.eqb_eq in Ez.
      rewrite (wrap32_small (a * _)) by lia. rewrite wrap16_small by lia.
      eexists. split; [reflexivity|]. split; [lia|].
      rewrite Z.add_assoc, Z.mul_comm, Z.mod_add by lia. exact Hm0.
    + apply Z.eqb_neq in Ez.
      rewrite (wrap32_small (1 + _)) by nia.
      rewrite (wrap32_small (a * _)) by nia. rewrite wrap16_small by nia.
      eexists. split; [reflexivity|]. split; [nia|].
      rewrite Z.add_assoc, Z.mul_comm, Z.mod_add by lia. exact Hm0.
  - apply Z.ltb_ge in E. eexists. split; [reflexivity|]. split; [lia|exact Hm0].
Qed.

(** *** The padding of a block *)

(** X3.  [calculate_padding_for_pointer_with_header], for an alignment [2^j] up
    to 32768 and a header of up to 32768 bytes: the padding leaves room for
    the header, makes the pointer a multiple of the alignment, and is the
    least offset that does both. *)
Theorem padding_is_the_least_aligned_offset_with_room (b j Hs : Z) :
  0 <= j <= 15 -> 0 <= b -> b + 2 ^ j <= 2 ^ 64 -> 0 < Hs <= 2 ^ 15 ->
  exists pad,
    calculate_padding_for_pointer_with_header b (to_s32 (2 ^ j)) (wrap32 Hs)
      = Returns pad
    /\ Hs <= pad < Hs + 2 ^ j
    /\ (b + pad) mod 2 ^ j = 0
    /\ forall x, Hs <= x -> (b + x) mod 2 ^ j = 0 -> pad <= x.
Proof.
  intros Hj Hb Hlim HHs.
  destruct (padding_for_pointer b j Hj Hb Hlim) as (pad0 & E0 & Hr0 & Hm0).
  assert (Ha : 0 < 2 ^ j <= 2 ^ 15).
  { split; [apply Z.pow_pos_nonneg; lia|apply pow2_le_mono; lia]. }
  assert (Hleast : forall pad, Hs <= pad < Hs + 2 ^ j -> (b + pad) mod 2 ^ j = 0 ->
            forall x, Hs <= x -> (b + x) mod 2 ^ j = 0 -> pad <= x).
  { intros pad Hp Hpm x Hx Hxm.
    destruct (Z.le_gt_cases pad x) as [|Hlt]; [assumption|exfalso].
    assert (Hd : (pad - x) mod 2 ^ j = 0).
    { replace (pad - x) with ((b + pad) - (b + x)) by lia.
      rewrite Zminus_mod, Hpm, Hxm. reflexivity. }
    rewrite Z.mod_small in Hd by lia. lia. }
  unfold calculate_padding_for_pointer_with_header. rewrite E0. cbn [bind].
  rewrite to_s32_small by lia. set (a := 2 ^ j) in *.
  rewrite (wrap32_small Hs) by lia. rewrite (wrap32_small a) by lia.
  destruct (pad0 <? Hs) eqn:E.
  - apply Z.ltb_lt in E. rewrite (wrap32_small (Hs - pad0)) by lia.
    pose proof (Z.div_mod (Hs - pad0) a ltac:(lia)) as Hdm.
    pose proof (Z.mod_pos_bound (Hs - pad0) a ltac:(lia)) as Hmb.
    assert (Hq : 0 <= (Hs - pad0) / a) by (apply Z.div_pos; lia).
    assert (Hq2 : a * ((Hs - pad0) / a) <= Hs - pad0) by lia.
    destruct ((Hs - pad0) mod a =? 0) eqn:Ez; cbn [negb].
    + apply Z.eqb_eq in Ez.
      rewrite (wrap32_small (a * _)) by lia. rewrite wrap16_small by lia.
      eexists. split; [reflexivity|].
      assert (Hm : (b + (pad0 + a * ((Hs - pad0) / a))) mod a = 0)
        by (rewrite Z.add_assoc, Z.mul_comm, Z.mod_add by lia; exact Hm0).
      split; [lia|]. split; [exact Hm|]. apply Hleast; [lia|exact Hm].
    + apply Z.eqb_neq in Ez.
      rewrite (wrap32_small (1 + _)) by nia.
      rewrite (wrap32_small (a * _)) by nia. rewrite wrap16_small by nia.
      eexists. split; [reflexivity|].
      assert (Hm : (b + (pad0 + a * (1 + (Hs - pad0) / a))) mod a = 0)
        by (rewrite Z.add_assoc, Z.mul_comm, Z.mod_add by lia; exact Hm0).
      split; [nia|]. split; [exact Hm|]. apply Hleast; [nia|exact Hm].
  - apply Z.ltb_ge in E. eexists. split; [reflexivity|].
    split; [lia|]. split; [exact Hm0|]. apply Hleast; [lia|exact Hm0].
Qed.

Lemma padding_is_the_least_aligned_offset_with_room_witness :
  exists pad,
    calculate_padding_for_pointer_with_header 4100 (to_s32 (2 ^ 4)) (wrap32 104)
      = Returns pad
    /\ 104 <= pad < 104 + 2 ^ 4
    /\ (4100 + pad) mod 2 ^ 4 = 0
    /\ forall x, 104 <= x -> (4100 + x) mod 2 ^ 4 = 0 -> pad <= x.
Proof.
  apply (padding_is_the_least_aligned_offset_with_room 4100 4 104); lia.
Defined.

Lemma all_bytes_store_other (m : memory) (addr n v addr' v' : Z) (n' : nat) :
  addr' + Z.of_nat n' <= addr \/ addr + n <= addr' ->
  all_bytes (store m addr n v) addr' n' v' = all_bytes m addr' n' v'.
Proof.
  intros Hd. apply all_bytes_ext. intros x Hx. unfold store.
  destruct (in_range addr n x) eqn:E; [|reflexivity].
  apply in_range_true in E. lia.
Qed.

Lemma all_bytes_fill_other (m : memory) (dest value num addr' v' : Z) (n' : nat) :
  addr' + Z.of_nat n' <= dest \/ dest + num <= addr' ->
  all_bytes (fill_memory m dest value num) addr' n' v' = all_bytes m addr' n' v'.
Proof.
  intros Hd. apply all_bytes_ext. intros x Hx. unfold fill_memory.
  destruct (in_range dest num x) eqn:E; [|reflexivity].
  apply in_range_true in E. lia.
Qed.

Ltac unfold_fields :=
  unfold rd_s64, rd, wr, f_DEBUG_Next, f_DEBUG_Previous, f_ID, f_RID, f_FileName,
    f_FileLine, f_DEBUG_Pointer, f_MarkedAsLeak, f_Function, f_Context, f_Size,
    f_Owner, f_Alignment, f_AlignmentPadding in *;
  cbn [fst snd] in *.

Ltac rd_simpl :=
  repeat first
    [ rewrite load_store_same by lia
    | rewrite load_store_other by lia
    | rewrite load_fill_other by lia
    | rewrite all_bytes_store_other by (cbn; lia)
    | rewrite all_bytes_fill_other by (cbn; lia) ].

(** What the header codec leaves in memory for a block: the fields of the
    header at [h] describe a user region of [s] bytes aligned to [a], in a
    raw block starting at [b], owned by the allocator function [f] with
    context [c]; with DEBUG_MEMORY the debug pointer and both guards are in
    place. *)
Definition header_at (debug : bool) (m : memory) (h b s a f c : Z) : Prop :=
  rd m h (f_Function debug) = f
  /\ rd m h (f_Context debug) = c
  /\ rd m h (f_Size debug) = s
  /\ rd m h (f_Alignment debug) = a
  /\ rd m h (f_AlignmentPadding debug) = h - b
  /\ (debug = true ->
      rd m h f_DEBUG_Pointer = h + 104
      /\ all_bytes m (h + 100) 4 NO_MANS_LAND_FILL = true
      /\ all_bytes m (h + 104 + s) 4 NO_MANS_LAND_FILL = true).

(** The bytes [header_at] speaks of: from the first field both layouts have
    (with DEBUG_MEMORY the links, the ids and the source location come
    before it) to the guard after the user region. *)
Definition header_lo (debug : bool) (h : Z) : Z := if debug then h + 48 else h.
Definition header_hi (debug : bool) (h s : Z) : Z :=
  h + sizeof_allocation_header debug + s + (if debug then NO_MANS_LAND_SIZE else 0).

Lemma header_at_frame (debug : bool) (m m' : memory) (h b s a f c : Z) :
  0 <= s ->
  (forall x, header_lo debug h <= x < header_hi debug h s -> m' x = m x) ->
  header_at debug m h b s a f c -> header_at debug m' h b s a f c.
Proof.
  intros Hs Hagree (H1 & H2 & H3 & H4 & H5 & H6).
  unfold header_lo, header_hi, sizeof_allocation_header, NO_MANS_LAND_SIZE in Hagree.
  unfold header_at. destruct debug; unfold_fields.
  - specialize (H6 eq_refl). destruct H6 as (H6 & H7 & H8).
    rewrite !(load_ext m m') by (intros; apply Hagree; lia).
    rewrite !(all_bytes_ext m m') by (intros; apply Hagree; cbn in *; lia).
    repeat split; auto.
  - rewrite !(load_ext m m') by (intros; apply Hagree; lia).
    repeat split; auto; discriminate.
Qed.

Lemma encode_header_spec (debug : bool) (A : Type) (st : state A)
    (b s j f c flags : Z) :
  3 <= j <= 15 -> 0 < b -> 0 <= s < 2 ^ 63 ->
  b + s + 2 ^ j + sizeof_allocation_header debug
    + (if debug then NO_MANS_LAND_SIZE else 0) <= 2 ^ 64 ->
  0 <= f < 2 ^ 64 -> 0 <= c < 2 ^ 64 ->
  exists p st',
    encode_header debug A st b s (2 ^ j) f c flags = Returns (p, st')
    /\ DEBUG_Head st' = DEBUG_Head st
    /\ allocators st' = allocators st
    /\ calls st' = calls st
    /\ log st' = log st
    /\ AllocationCount st'
       = (if debug then to_s64 (AllocationCount st + 1) else AllocationCount st)
    /\ p mod 2 ^ j = 0
    /\ b <= p - sizeof_allocation_header debug
    /\ p - sizeof_allocation_header debug - b < 2 ^ j
    /\ agree_outside (p - sizeof_allocation_header debug)
         (header_hi debug (p - sizeof_allocation_header debug) s) (mem st) (mem st')
    /\ header_at debug (mem st') (p - sizeof_allocation_header debug) b s (2 ^ j) f c
    /\ (debug = true ->
        rd (mem st') (p - 104) f_DEBUG_Next = 0
        /\ rd (mem st') (p - 104) f_DEBUG_Previous = 0).
Proof.
  intros Hj Hb Hs Hlim Hf Hc.
  assert (Ha : 2 ^ 3 <= 2 ^ j <= 2 ^ 15) by (split; apply pow2_le_mono; lia).
  assert (HH : 0 < sizeof_allocation_header debug <= 2 ^ 15)
    by (destruct debug; cbn; lia).
  assert (Hb2 : b + 2 ^ j <= 2 ^ 64).
  { destruct debug; unfold sizeof_allocation_header, NO_MANS_LAND_SIZE in Hlim; lia. }
  destruct (padding_for_pointer_with_header b j (sizeof_allocation_header debug)
              Hj ltac:(lia) Hb2 HH)
    as (pad & Epad & Hpad & Hmod).
  unfold encode_header. rewrite Epad. cbn [bind].
  set (a := 2 ^ j) in *.
  assert (Ha16 : a mod 2 ^ (8 * 2) = a) by (apply Z.mod_small; lia).
  assert (Hs64 : s mod 2 ^ (8 * 8) = s) by (apply Z.mod_small; lia).
  assert (Hf64 : f mod 2 ^ (8 * 8) = f) by (apply Z.mod_small; lia).
  assert (Hc64 : c mod 2 ^ (8 * 8) = c) by (apply Z.mod_small; lia).
  destruct debug; unfold header_hi, sizeof_allocation_header, NO_MANS_LAND_SIZE in *;
    cbv zeta.
  - (* DEBUG_MEMORY *)
    rewrite (wrap32_small (pad - 104)) by lia.
    rewrite (wrap64_small (b + (pad - 104))) by lia.
    set (r := b + (pad - 104)) in *.
    rewrite !(wrap64_small (r + 104)) by lia.
    rewrite (wrap64_small (r + 104 - 4)) by lia.
    rewrite (wrap64_small (r + 104 + s)) by lia.
    assert (Hal : (r + 104) mod a = 0).
    { unfold r. replace (b + (pad - 104) + 104) with (b + pad) by lia. exact Hmod. }
    assert (Emask : (Z.land (r + 104) (wrap64 (Z.lnot (to_s64 a - 1))) =? r + 104) = true).
    { apply Z.eqb_eq. unfold a. rewrite lnot_mask_u64 by lia. fold a. lia. }
    rewrite Emask. cbn [assert bind].
    assert (Hap16 : (pad - 104) mod 2 ^ (8 * 2) = r - b)
      by (unfold r; rewrite Z.mod_small by lia; lia).
    assert (Hp64 : (r + 104) mod 2 ^ (8 * 8) = r + 104) by (apply Z.mod_small; lia).
    eexists _, _. split; [reflexivity|].
    cbn [mem DEBUG_Head AllocationCount allocators calls log set_mem
         set_AllocationCount].
    replace (r + 104 - 104) with r by lia.
    split; [reflexivity|]. split; [reflexivity|]. split; [reflexivity|].
    split; [reflexivity|]. split; [reflexivity|].
    split; [exact Hal|]. split; [lia|]. split; [lia|].
    split.
    + destruct (negb (Z.land flags DO_INIT_0 =? 0)); unfold_fields;
        repeat first [ eapply agree_outside_trans;
                       [|apply agree_outside_store; lia]
                     | eapply agree_outside_trans;
                       [|apply agree_outside_fill; lia] ];
        apply agree_outside_refl.
    + split.
      * unfold header_at.
        destruct (negb (Z.land flags DO_INIT_0 =? 0)); unfold_fields; rd_simpl;
          (repeat split; try assumption; try reflexivity);
          unfold NO_MANS_LAND_FILL; apply all_bytes_fill; cbn; lia.
      * intros _.
        destruct (negb (Z.land flags DO_INIT_0 =? 0)); unfold_fields; rd_simpl;
          split; reflexivity.
  - (* without DEBUG_MEMORY *)
    rewrite (wrap32_small (pad - 40)) by lia.
    rewrite (wrap64_small (b + (pad - 40))) by lia.
    set (r := b + (pad - 40)) in *.
    rewrite !(wrap64_small (r + 40)) by lia.
    assert (Hal : (r + 40) mod a = 0).
    { unfold r. replace (b + (pad - 40) + 40) with (b + pad) by lia. exact Hmod. }
    assert (Emask : (Z.land (r + 40) (wrap64 (Z.lnot (to_s64 a - 1))) =? r + 40) = true).
    { apply Z.eqb_eq. unfold a. rewrite lnot_mask_u64 by lia. fold a. lia. }
    rewrite Emask. cbn [assert bind].
    assert (Hap16 : (pad - 40) mod 2 ^ (8 * 2) = r - b)
      by (unfold r; rewrite Z.mod_small by lia; lia).
    eexists _, _. split; [reflexivity|].
    cbn [mem DEBUG_Head AllocationCount allocators calls log set_mem
         set_AllocationCount].
    replace (r + 40 - 40) with r by lia.
    split; [reflexivity|]. split; [reflexivity|]. split; [reflexivity|].
    split; [reflexivity|]. split; [reflexivity|].
    split; [exact Hal|]. split; [lia|]. split; [lia|].
    split.
    + destruct (negb (Z.land flags DO_INIT_0 =? 0)); unfold_fields;
        repeat first [ eapply agree_outside_trans;
                       [|apply agree_outside_store; lia]
                     | eapply agree_outside_trans;
                       [|apply agree_outside_fill; lia] ];
        apply agree_outside_refl.
    + split; [|discriminate].
      unfold header_at.
      destruct (negb (Z.land flags DO_INIT_0 =? 0)); unfold_fields; rd_simpl;
        (repeat split; try assumption; try reflexivity); discriminate.
Qed.

(** *** The heap invariant *)

(** A live allocation: where its header and its raw block are, the size the
    user asked for, the alignment it was made with, and the allocator
    (function and context) that owns the block.  A heap may hold the
    allocations of several allocators. *)
Record live := mk_live {
  l_header : Z;
  l_block : Z;
  l_size : Z;
  l_align : Z;
  l_function : Z;
  l_context : Z
}.

(** The size [general_allocate] asks the allocator for. *)
Definition required (debug : bool) (s a : Z) : Z :=
  s + (a + sizeof_allocation_header debug + sizeof_allocation_header debug mod a)
  + (if debug then NO_MANS_LAND_SIZE else 0).

Definition block_of (debug : bool) (lb : live) : Z * Z :=
  (l_block lb, required debug (l_size lb) (l_align lb)).

Definition disjoint (x y : Z * Z) : Prop :=
  fst x + snd x <= fst y \/ fst y + snd y <= fst x.

Fixpoint pairwise_disjoint (B : list (Z * Z)) : Prop :=
  match B with
  | [] => True
  | x :: rest => (forall y, In y rest -> disjoint x y) /\ pairwise_disjoint rest
  end.

(** The doubly-linked list of headers that starts at [cur], whose first
    header has [prev] for its predecessor. *)
Fixpoint dll (m : memory) (prev cur : Z) (L : list Z) : Prop :=
  match L with
  | [] => cur = 0
  | h :: rest =>
      cur = h /\ h <> 0
      /\ rd m h f_DEBUG_Previous = prev
      /\ dll m h (rd m h f_DEBUG_Next) rest
  end.

Section Invariant.

Variable debug : bool.

Definition live_ok (m : memory) (lb : live) : Prop :=
  (exists j, 3 <= j <= 15 /\ l_align lb = 2 ^ j)
  /\ 0 <= l_size lb
  /\ 0 < l_block lb
  /\ required debug (l_size lb) (l_align lb) < 2 ^ 63
  /\ l_block lb + required debug (l_size lb) (l_align lb) <= 2 ^ 64
  /\ l_block lb <= l_header lb
  /\ l_header lb - l_block lb < l_align lb
  /\ header_at debug m (l_header lb) (l_block lb) (l_size lb) (l_align lb)
       (l_function lb) (l_context lb).

End Invariant.

Lemma pairwise_disjoint_app (B1 B2 : list (Z * Z)) (x : Z * Z) :
  pairwise_disjoint (B1 ++ x :: B2) <->
  pairwise_disjoint (B1 ++ B2) /\ (forall y, In y (B1 ++ B2) -> disjoint x y).
Proof.
  induction B1 as [|z B1 IH]; cbn [app pairwise_disjoint].
  - tauto.
  - rewrite IH. split.
    + intros (Hz & Hp & Hx). split; [split|].
      * intros y Hy. apply Hz. apply in_app_iff in Hy. apply in_app_iff.
        destruct Hy; [now left|right; now right].
      * exact Hp.
      * intros y [<-|Hy]; [|now apply Hx].
        assert (Hd : disjoint z x) by (apply Hz, in_app_iff; right; now left).
        unfold disjoint in *. lia.
    + intros ((Hz & Hp) & Hx). split; [|split].
      * intros y Hy. apply in_app_iff in Hy. destruct Hy as [Hy|[<-|Hy]].
        -- apply Hz, in_app_iff. now left.
        -- assert (Hd : disjoint x z) by (apply Hx; now left).
           unfold disjoint in *. lia.
        -- apply Hz, in_app_iff. now right.
      * exact Hp.
      * intros y Hy. apply Hx. now right.
Qed.

Lemma dll_frame (m m' : memory) (L : list Z) :
  forall prev cur,
    (forall h x, In h L -> h <= x < h + 16 -> m' x = m x) ->
    dll m prev cur L -> dll m' prev cur L.
Proof.
  induction L as [|h rest IH]; intros prev cur Hsame Hd; [exact Hd|].
  cbn [dll] in *. destruct Hd as (-> & Hnz & Hp & Hn).
  assert (E1 : rd m' h f_DEBUG_Previous = rd m h f_DEBUG_Previous).
  { unfold_fields. apply load_ext. intros x Hx. apply (Hsame h); [now left|lia]. }
  assert (E2 : rd m' h f_DEBUG_Next = rd m h f_DEBUG_Next).
  { unfold_fields. apply load_ext. intros x Hx. apply (Hsame h); [now left|lia]. }
  rewrite E1, E2. repeat split; try assumption.
  apply IH; [|assumption]. intros h' x Hin. apply Hsame. now right.
Qed.

Lemma dll_nonzero (m : memory) (L : list Z) :
  forall prev cur, dll m prev cur L -> ~ In 0 L.
Proof.
  induction L as [|h rest IH]; intros prev cur Hd; [tauto|].
  cbn [dll] in Hd. destruct Hd as (_ & Hnz & _ & Hn).
  intros [E|Hin]; [congruence|]. eapply IH; eassumption.
Qed.

Lemma dll_head (m : memory) (L : list Z) (prev cur : Z) :
  dll m prev cur L -> cur = hd 0 L.
Proof. destruct L; cbn; tauto. Qed.

(** The bytes of a header that is not freed are not all [0xDD]: its
    alignment field would read [0xDDDD]. *)
Lemma all_dead_alignment (m : memory) (h : Z) :
  all_bytes m h (Z.to_nat 104) DEAD_LAND_FILL = true ->
  rd m h (f_Alignment true) = 56797.
Proof.
  intros Hall. unfold_fields. unfold load.
  rewrite (load_bytes_all m DEAD_LAND_FILL).
  - reflexivity.
  - eapply all_bytes_sub; [exact Hall| |]; cbn; lia.
Qed.

Lemma verify_header_live (m : memory) (lb : live) :
  live_ok true m lb ->
  verify_header_unlocked true m (l_header lb) = Returns tt.
Proof.
  intros ((j & Hj & Ea) & Hs & Hb & Hr63 & Hlim & Hle & Hap & Hat).
  destruct Hat as (_ & _ & HS & HA & _ & HD). specialize (HD eq_refl).
  destruct HD as (HP & Hg1 & Hg2).
  assert (Ha : 2 ^ 3 <= 2 ^ j <= 2 ^ 15) by (split; apply pow2_le_mono; lia).
  unfold required, sizeof_allocation_header, NO_MANS_LAND_SIZE in *.
  rewrite Ea in *.
  pose proof (Z.mod_pos_bound 104 (2 ^ j) ltac:(lia)) as Hm.
  unfold verify_header_unlocked. cbv zeta.
  change (sizeof_allocation_header true) with 104.
  destruct (all_bytes m (l_header lb) (Z.to_nat 104) DEAD_LAND_FILL) eqn:Edead.
  { apply all_dead_alignment in Edead. rewrite HA in Edead. lia. }
  cbn [negb assert bind]. rewrite HA, HP.
  assert (E1 : (2 ^ j =? 0) = false) by (apply Z.eqb_neq; lia).
  assert (E2 : (POINTER_SIZE <=? 2 ^ j) = true) by (apply Z.leb_le; unfold POINTER_SIZE; lia).
  rewrite E1, E2, is_pow_of_2_pow2 by lia. cbn [negb assert bind].
  rewrite (wrap64_small (l_header lb + 104)) by lia.
  rewrite Z.eqb_refl. cbn [assert bind].
  unfold NO_MANS_LAND_SIZE. change (Z.to_nat 4) with 4%nat.
  rewrite (wrap64_small (l_header lb + 104 - 4)) by lia.
  replace (l_header lb + 104 - 4) with (l_header lb + 100) by lia.
  rewrite Hg1. cbn [assert bind].
  unfold rd_s64. rewrite HS, to_s64_small by lia.
  rewrite wrap64_small by lia. rewrite Hg2. reflexivity.
Qed.

Lemma verify_list_live (m : memory) (G : list live) :
  forall (fuel : nat) (prev cur : Z),
    Forall (live_ok true m) G ->
    dll m prev cur (map l_header G) ->
    (List.length G <= fuel)%nat ->
    verify_list true fuel m cur = Returns tt.
Proof.
  induction G as [|lb G IH]; intros fuel prev cur Hall Hd Hf.
  - cbn in Hd. subst cur. destruct fuel; reflexivity.
  - cbn [map dll] in Hd. destruct Hd as (-> & Hnz & _ & Hn).
    inversion Hall as [|? ? Hlb Hrest]; subst.
    destruct fuel as [|fuel]; [cbn in Hf; lia|].
    cbn [verify_list]. apply Z.eqb_neq in Hnz. rewrite Hnz.
    rewrite (verify_header_live _ _ Hlb). cbn [bind].
    eapply IH; [eassumption|eassumption|cbn in Hf; lia].
Qed.

Lemma live_ok_within (debug : bool) (m : memory) (lb : live) :
  live_ok debug m lb ->
  l_block lb <= l_header lb
  /\ header_hi debug (l_header lb) (l_size lb)
     <= l_block lb + snd (block_of debug lb)
  /\ 0 < l_header lb /\ 0 <= l_size lb
  /\ l_header lb + sizeof_allocation_header debug <= 2 ^ 64.
Proof.
  intros ((j & Hj & Ea) & Hs & Hb & Hr63 & Hlim & Hle & Hap & _).
  assert (Ha : 2 ^ 3 <= 2 ^ j <= 2 ^ 15) by (split; apply pow2_le_mono; lia).
  unfold header_hi, block_of, required in *. cbn [snd]. rewrite Ea in *.
  pose proof (Z.mod_pos_bound (sizeof_allocation_header debug) (2 ^ j) ltac:(lia)).
  destruct debug; unfold sizeof_allocation_header, NO_MANS_LAND_SIZE in *; lia.
Qed.

Lemma live_ok_frame (debug : bool) (m m' : memory) (lb : live) :
  (forall x, header_lo debug (l_header lb) <= x
             < header_hi debug (l_header lb) (l_size lb) -> m' x = m x) ->
  live_ok debug m lb -> live_ok debug m' lb.
Proof.
  intros Hsame (Hj & Hs & Hb & Hr63 & Hlim & Hle & Hap & Hat).
  do 7 (split; [assumption|]).
  eapply header_at_frame; eassumption.
Qed.

Ltac other_stores :=
  unfold_fields; unfold store, fill_memory;
  repeat match goal with
         | |- context [in_range ?a ?n ?x] =>
             let E := fresh "E" in
             destruct (in_range a n x) eqn:E;
             [apply in_range_true in E; try lia | apply in_range_false in E]
         end.

(** The memory [DEBUG_add_header] leaves, after the source location was
    stored in the new header [h]. *)
Definition linked_memory (m3 : memory) (head h fileName fileLine : Z) : memory :=
  let m1 := wr (wr (wr m3 h f_FileName fileName) h f_FileLine fileLine)
               h f_DEBUG_Next head in
  if negb (head =? 0) then wr m1 head f_DEBUG_Previous h else m1.

Lemma tracker_add (m m3 : memory) (G : list live)
    (head h block s a fileName fileLine : Z) :
  Forall (live_ok true m) G ->
  pairwise_disjoint (map (block_of true) G) ->
  dll m 0 head (map l_header G) ->
  (forall y, In y (map (block_of true) G) -> disjoint (block, required true s a) y) ->
  0 < block -> block <= h -> 0 <= s ->
  header_hi true h s <= block + required true s a ->
  h + 104 <= 2 ^ 64 ->
  agree_outside h (header_hi true h s) m m3 ->
  rd m3 h f_DEBUG_Previous = 0 ->
  let m4 := linked_memory m3 head h fileName fileLine in
  Forall (live_ok true m4) G
  /\ dll m4 0 h (h :: map l_header G)
  /\ (forall x, h + 48 <= x < header_hi true h s -> m4 x = m3 x).
Proof.
  intros Hall Hpd Hdll Hfresh Hb Hle Hs Hhi Hlim Hagree Hprev m4.
  assert (Hfacts : forall lb, In lb G ->
            l_block lb <= l_header lb
            /\ header_hi true (l_header lb) (l_size lb)
               <= l_block lb + required true (l_size lb) (l_align lb)
            /\ 0 < l_header lb /\ 0 <= l_size lb
            /\ l_header lb + 104 <= 2 ^ 64
            /\ (block + required true s a <= l_block lb
                \/ l_block lb + required true (l_size lb) (l_align lb) <= block)).
  { intros lb Hin. rewrite Forall_forall in Hall.
    destruct (live_ok_within _ _ _ (Hall lb Hin)) as (W1 & W2 & W3 & W4 & W6).
    cbn in W2, W6. repeat split; try assumption.
    specialize (Hfresh (block_of true lb) (in_map _ _ _ Hin)).
    unfold disjoint, block_of in Hfresh. cbn in Hfresh. lia. }
  unfold header_hi, sizeof_allocation_header, NO_MANS_LAND_SIZE in *.
  destruct G as [|lb0 G'].
  - cbn in Hdll. subst head. unfold m4, linked_memory. cbn [Z.eqb negb].
    split; [constructor|]. split.
    + cbn [map dll]. split; [reflexivity|]. split; [lia|].
      split; [unfold_fields; rd_simpl; exact Hprev|].
      unfold_fields; rd_simpl. reflexivity.
    + intros x Hx. other_stores. reflexivity.
  - cbn [map dll] in Hdll. destruct Hdll as (-> & Hnz & Hp0 & Hnext).
    unfold m4, linked_memory. apply Z.eqb_neq in Hnz as Enz. rewrite Enz. cbn [negb].
    destruct (Hfacts lb0 ltac:(now left)) as (W1 & W2 & W3 & W4 & W6 & W5).
    cbn [map pairwise_disjoint] in Hpd. destruct Hpd as [Hpd0 Hpd'].
    assert (Hsame : forall lb x, In lb (lb0 :: G') ->
              (l_header lb + 48 <= x < l_header lb + 104 + l_size lb + 4
               \/ (lb <> lb0 /\ l_header lb <= x < l_header lb + 16)
               \/ (lb = lb0 /\ l_header lb <= x < l_header lb + 8)) ->
              wr (wr (wr (wr m3 h f_FileName fileName) h f_FileLine fileLine)
                     h f_DEBUG_Next (l_header lb0))
                 (l_header lb0) f_DEBUG_Previous h x = m x).
    { intros lb x Hin Hx.
      destruct (Hfacts lb Hin) as (V1 & V2 & V3 & V4 & V6 & V5).
      assert (Hother : lb = lb0 \/
                (l_block lb0 + required true (l_size lb0) (l_align lb0) <= l_block lb
                 \/ l_block lb + required true (l_size lb) (l_align lb) <= l_block lb0)).
      { destruct Hin as [->|Hin]; [now left|right].
        specialize (Hpd0 (block_of true lb) (in_map _ _ _ Hin)).
        unfold disjoint, block_of in Hpd0. cbn in Hpd0. lia. }
      destruct Hother as [->|Hother];
        destruct Hx as [Hx|[[Hne Hx]|[He Hx]]]; try congruence;
        other_stores; try lia; apply Hagree; lia. }
    split; [|split].
    + rewrite Forall_forall in *. intros lb Hin.
      apply (live_ok_frame true m); [|now apply Hall].
      intros x Hx. unfold header_lo, header_hi, sizeof_allocation_header,
                     NO_MANS_LAND_SIZE in Hx.
      apply (Hsame lb); [assumption|lia].
    + cbn [dll]. split; [reflexivity|]. split; [lia|].
      split; [unfold_fields; rd_simpl; exact Hprev|].
      assert (En : rd (wr (wr (wr (wr m3 h f_FileName fileName) h f_FileLine fileLine)
                              h f_DEBUG_Next (l_header lb0))
                          (l_header lb0) f_DEBUG_Previous h) h f_DEBUG_Next
                   = l_header lb0).
      { unfold_fields; rd_simpl. apply Z.mod_small. lia. }
      rewrite En. split; [reflexivity|]. split; [assumption|].
      split; [unfold_fields; rd_simpl; apply Z.mod_small; lia|].
      assert (En0 : rd (wr (wr (wr (wr m3 h f_FileName fileName) h f_FileLine fileLine)
                               h f_DEBUG_Next (l_header lb0))
                           (l_header lb0) f_DEBUG_Previous h) (l_header lb0) f_DEBUG_Next
                    = rd m (l_header lb0) f_DEBUG_Next).
      { unfold rd. apply load_ext. intros x Hx. cbn [fst snd f_DEBUG_Next] in Hx.
        apply (Hsame lb0); [now left|]. right. right. split; [reflexivity|lia]. }
      rewrite En0. eapply dll_frame; [|exact Hnext].
      intros h' x Hin Hx. apply in_map_iff in Hin. destruct Hin as (lb & <- & Hin).
      apply (Hsame lb); [now right|]. right. left. split; [|assumption].
      intros ->. 
      specialize (Hpd0 (block_of true lb0) (in_map _ _ _ Hin)).
      destruct (Hfacts lb0 ltac:(now left)) as (_ & U2 & _ & U4 & _ & _).
      unfold disjoint, block_of in Hpd0. cbn in Hpd0. 
      unfold header_hi, sizeof_allocation_header, NO_MANS_LAND_SIZE in U2. lia.
    + intros x Hx. other_stores. reflexivity.
Qed.

(** *** Unlinking a header *)

(** A segment of the list: from [cur] through the headers [L], the last of
    which points on to [nxt]. *)
Fixpoint dlseg (m : memory) (prev cur : Z) (L : list Z) (nxt : Z) : Prop :=
  match L with
  | [] => cur = nxt
  | h :: rest =>
      cur = h /\ h <> 0
      /\ rd m h f_DEBUG_Previous = prev
      /\ dlseg m h (rd m h f_DEBUG_Next) rest nxt
  end.

Lemma last_cons_default (L : list Z) :
  forall y d, last (y :: L) d = last L y.
Proof.
  induction L as [|z L IH]; intros y d; [reflexivity|].
  change (last (y :: z :: L) d) with (last (z :: L) d).
  rewrite (IH z d), (IH z y). reflexivity.
Qed.

Lemma last_In (L : list Z) :
  forall y d, In (last (y :: L) d) (y :: L).
Proof.
  induction L as [|z L IH]; intros y d; [now left|].
  right. change (last (y :: z :: L) d) with (last (z :: L) d). apply IH.
Qed.

Lemma dll_split (m : memory) (h : Z) (L2 : list Z) :
  forall (L1 : list Z) (prev cur : Z),
    dll m prev cur (L1 ++ h :: L2) ->
    dlseg m prev cur L1 h /\ h <> 0
    /\ rd m h f_DEBUG_Previous = last L1 prev
    /\ dll m h (rd m h f_DEBUG_Next) L2.
Proof.
  induction L1 as [|y L1 IH]; intros prev cur Hd.
  - cbn in Hd. destruct Hd as (-> & Hnz & Hp & Hn). cbn. auto.
  - cbn [app dll] in Hd. destruct Hd as (-> & Hnz & Hp & Hn).
    destruct (IH _ _ Hn) as (S1 & S2 & S3 & S4).
    cbn [dlseg]. repeat split; try assumption.
    rewrite S3. symmetry. apply last_cons_default.
Qed.

Lemma dll_join (m : memory) (L2 : list Z) (mid : Z) :
  forall (L1 : list Z) (prev cur : Z),
    dlseg m prev cur L1 mid -> dll m (last L1 prev) mid L2 ->
    dll m prev cur (L1 ++ L2).
Proof.
  induction L1 as [|y L1 IH]; intros prev cur Hs Hd.
  - cbn in *. now subst.
  - cbn [dlseg] in Hs. destruct Hs as (-> & Hnz & Hp & Hn).
    cbn [app dll]. repeat split; try assumption.
    apply IH; [assumption|].
    rewrite <- (last_cons_default L1 y prev). assumption.
Qed.

Lemma dlseg_retarget (m m' : memory) (new : Z) :
  forall (L : list Z) (prev cur old : Z),
    L <> [] ->
    dlseg m prev cur L old ->
    (forall y, In y L -> rd m' y f_DEBUG_Previous = rd m y f_DEBUG_Previous) ->
    (forall y, In y (removelast L) -> rd m' y f_DEBUG_Next = rd m y f_DEBUG_Next) ->
    rd m' (last L 0) f_DEBUG_Next = new ->
    dlseg m' prev cur L new.
Proof.
  induction L as [|y L IH]; intros prev cur old Hne Hs HP HN Hlast; [congruence|].
  cbn [dlseg] in *. destruct Hs as (-> & Hnz & Hp & Hn).
  split; [reflexivity|]. split; [assumption|].
  split; [rewrite HP by (now left); assumption|].
  destruct L as [|z L].
  - cbn in *. exact Hlast.
  - rewrite HN by (cbn; now left).
    eapply IH; try eassumption; try discriminate.
    + intros y' Hy'. apply HP. now right.
    + intros y' Hy'. apply HN. cbn [removelast]. now right.
Qed.

Lemma dlseg_In_nonzero (m : memory) :
  forall (L : list Z) (prev cur nxt : Z), dlseg m prev cur L nxt -> ~ In 0 L.
Proof.
  induction L as [|y L IH]; intros prev cur nxt Hs; [tauto|].
  cbn [dlseg] in Hs. destruct Hs as (_ & Hnz & _ & Hn).
  intros [E|Hin]; [congruence|]. eapply IH; eassumption.
Qed.

(** The memory [DEBUG_unlink_header] leaves. *)
Definition unlinked_memory (m : memory) (h : Z) : memory :=
  let m2 := if negb (rd m h f_DEBUG_Next =? 0)
            then wr m (rd m h f_DEBUG_Next) f_DEBUG_Previous (rd m h f_DEBUG_Previous)
            else m in
  if negb (rd m2 h f_DEBUG_Previous =? 0)
  then wr m2 (rd m2 h f_DEBUG_Previous) f_DEBUG_Next (rd m2 h f_DEBUG_Next)
  else m2.

(** The link fields of the headers of a list, as intervals. *)
Definition links (L : list Z) : list (Z * Z) := map (fun h => (h, 16)) L.

Lemma links_far (L1 L2 : list Z) (h y : Z) :
  pairwise_disjoint (links (L1 ++ h :: L2)) -> In y (L1 ++ L2) ->
  y + 16 <= h \/ h + 16 <= y.
Proof.
  unfold links. rewrite map_app. cbn [map]. intros Hpd Hin.
  apply pairwise_disjoint_app in Hpd. destruct Hpd as [_ Hx].
  specialize (Hx (y, 16)). rewrite <- map_app in Hx.
  specialize (Hx (in_map (fun h => (h, 16)) _ _ Hin)).
  unfold disjoint in Hx. cbn in Hx. lia.
Qed.

Lemma pairwise_disjoint_head_tail (x : Z * Z) (B : list (Z * Z)) (y : Z * Z) :
  pairwise_disjoint (x :: B) -> In y B -> disjoint x y.
Proof. cbn. intros [H _]. apply H. Qed.

Lemma pairwise_disjoint_app_l (B1 B2 : list (Z * Z)) :
  pairwise_disjoint (B1 ++ B2) -> pairwise_disjoint B1.
Proof.
  induction B1 as [|z B1 IH]; [intros; exact I|].
  cbn [app pairwise_disjoint]. intros [Hz Hr]. split; [|now apply IH].
  intros w Hw. apply Hz, in_app_iff. now left.
Qed.

Lemma pairwise_disjoint_app_r (B1 B2 : list (Z * Z)) :
  pairwise_disjoint (B1 ++ B2) -> pairwise_disjoint B2.
Proof.
  induction B1 as [|z B1 IH]; [trivial|].
  cbn [app pairwise_disjoint]. intros [_ Hr]. now apply IH.
Qed.

Lemma links_far_apart (L1 L2 : list Z) (x y : Z) :
  pairwise_disjoint (links (L1 ++ L2)) -> In x L1 -> In y L2 ->
  x + 16 <= y \/ y + 16 <= x.
Proof.
  intros Hpd Hx Hy. apply in_split in Hx. destruct Hx as (La & Lb & ->).
  rewrite <- app_assoc in Hpd. cbn [app] in Hpd.
  apply (links_far La (Lb ++ L2) x y) in Hpd; [lia|].
  apply in_app_iff. right. apply in_app_iff. now right.
Qed.

Lemma links_far_neq (L : list Z) (x y : Z) :
  pairwise_disjoint (links L) -> In x L -> In y L -> x <> y ->
  x + 16 <= y \/ y + 16 <= x.
Proof.
  intros Hpd Hx Hy Hne. apply in_split in Hx. destruct Hx as (La & Lb & ->).
  apply (links_far La Lb x y) in Hpd; [lia|].
  apply in_app_iff in Hy. apply in_app_iff.
  destruct Hy as [Hy|[Hy|Hy]]; [now left|congruence|now right].
Qed.

Lemma links_far_tail (L : list Z) (x y : Z) :
  pairwise_disjoint (links (x :: L)) -> In y L -> x + 16 <= y \/ y + 16 <= x.
Proof.
  intros Hpd Hy. apply (links_far [] L x y) in Hpd; [lia|exact Hy].
Qed.

Lemma links_far_last (L : list Z) (y : Z) :
  pairwise_disjoint (links L) -> In y (removelast L) ->
  y + 16 <= last L 0 \/ last L 0 + 16 <= y.
Proof.
  induction L as [|z L IH]; intros Hpd Hy; [contradiction|].
  destruct L as [|z' L]; [contradiction|].
  change (last (z :: z' :: L) 0) with (last (z' :: L) 0).
  cbn [removelast] in Hy. destruct Hy as [->|Hy].
  - apply (links_far_tail (z' :: L)); [exact Hpd|apply last_In].
  - apply IH; [|exact Hy]. apply (pairwise_disjoint_app_r [(z, 16)]). exact Hpd.
Qed.

Lemma In_removelast (L : list Z) (y : Z) : In y (removelast L) -> In y L.
Proof.
  induction L as [|z L IH]; [contradiction|].
  cbn [removelast]. destruct L; [contradiction|].
  intros [->|Hy]; [now left|right; now apply IH].
Qed.

Lemma tracker_unlink (m : memory) (head h : Z) (L1 L2 : list Z) :
  dll m 0 head (L1 ++ h :: L2) ->
  pairwise_disjoint (links (L1 ++ h :: L2)) ->
  let m' := unlinked_memory m h in
  dll m' 0 (if h =? head then rd m h f_DEBUG_Next else head) (L1 ++ L2)
  /\ (forall x, (forall y, In y (L1 ++ L2) -> x < y \/ y + 16 <= x) -> m' x = m x).
Proof.
  intros Hd Hpd m'.
  pose proof (links_far L1 L2 h) as Hfar. specialize (fun y => Hfar y Hpd).
  assert (Hpd12 : pairwise_disjoint (links (L1 ++ L2))).
  { unfold links in *. rewrite map_app in *. cbn [map] in Hpd.
    now apply pairwise_disjoint_app in Hpd. }
  destruct (dll_split m h L2 L1 0 head Hd) as (S1 & Hnz & Sp & S2).
  set (nxt := rd m h f_DEBUG_Next) in *.
  set (prv := rd m h f_DEBUG_Previous) in *.
  assert (Hnxt : nxt = hd 0 L2) by (eapply dll_head; eassumption).
  assert (Hprv_range : 0 <= prv < 2 ^ 64).
  { unfold prv, rd, f_DEBUG_Previous. cbn [fst snd]. apply (load_range m _ 8). lia. }
  assert (Hnxt_range : 0 <= nxt < 2 ^ 64).
  { unfold nxt, rd, f_DEBUG_Next. cbn [fst snd]. apply (load_range m _ 8). lia. }
  assert (H1nz : ~ In 0 L1) by (eapply dlseg_In_nonzero; eassumption).
  assert (H2nz : ~ In 0 L2) by (eapply dll_nonzero; eassumption).
  (* the neighbours *)
  assert (Hprv_in : prv <> 0 -> In prv L1 /\ L1 <> [] /\ prv = last L1 0).
  { intros Hp. destruct L1 as [|y L1]; [exfalso; apply Hp; exact Sp|].
    split; [|split; [discriminate|exact Sp]].
    rewrite Sp. apply last_In. }
  assert (Hprv0 : prv = 0 -> L1 = []).
  { intros Hp. destruct L1 as [|y L1]; [reflexivity|]. exfalso.
    pose proof (last_In L1 y 0) as Hin.
    rewrite <- Sp in Hin. rewrite Hp in Hin. contradiction. }
  assert (Hnxt_in : nxt <> 0 -> exists L2', L2 = nxt :: L2').
  { intros Hn. destruct L2 as [|n L2']; [exfalso; apply Hn; exact Hnxt|].
    exists L2'. f_equal. symmetry. exact Hnxt. }
  assert (Hnxt0 : nxt = 0 -> L2 = []).
  { intros Hn. destruct L2 as [|n L2']; [reflexivity|].
    exfalso. apply H2nz. left. change n with (hd 0 (n :: L2')).
    rewrite <- Hnxt. exact Hn. }
  assert (Hfar_n : forall y, In y L1 -> nxt = 0 \/ (y + 16 <= nxt \/ nxt + 16 <= y)).
  { intros y Hy. destruct (Z.eq_dec nxt 0) as [|En]; [now left|right].
    destruct (Hnxt_in En) as (L2' & E2).
    apply (links_far_apart L1 L2); [assumption|assumption|].
    rewrite E2. now left. }
  (* the memory after the first store *)
  set (m2 := if negb (nxt =? 0) then wr m nxt f_DEBUG_Previous prv else m).
  assert (Hm2h : rd m2 h f_DEBUG_Previous = prv /\ rd m2 h f_DEBUG_Next = nxt).
  { unfold m2. destruct (nxt =? 0) eqn:En; cbn [negb]; [split; reflexivity|].
    apply Z.eqb_neq in En. destruct (Hnxt_in En) as (L2' & E2).
    assert (Hf : nxt + 16 <= h \/ h + 16 <= nxt).
    { apply Hfar, in_app_iff. right. rewrite E2. now left. }
    unfold prv, nxt in *. unfold_fields. rd_simpl. split; reflexivity. }
  destruct Hm2h as [Hm2p Hm2n].
  assert (Em' : m' = if negb (prv =? 0) then wr m2 prv f_DEBUG_Next nxt else m2).
  { unfold m', unlinked_memory. fold nxt prv. fold m2. now rewrite Hm2p, Hm2n. }
  rewrite Em'. clear Em' m'.
  split.
  - (* the list *)
    apply (dll_join _ L2 nxt).
    + (* the part before [h] *)
      destruct (prv =? 0) eqn:Ep; cbn [negb].
      * apply Z.eqb_eq in Ep. rewrite (Hprv0 Ep) in *. cbn [dlseg] in S1. subst head.
        rewrite Z.eqb_refl. reflexivity.
      * apply Z.eqb_neq in Ep. destruct (Hprv_in Ep) as (Hpin & Hne & Hlast).
        assert (Ehead : (h =? head) = false).
        { apply Z.eqb_neq. intros <-. destruct L1 as [|y L1]; [congruence|].
          cbn [dlseg] in S1. destruct S1 as (E & _). subst y.
          specialize (Hfar h ltac:(now left)). lia. }
        rewrite Ehead.
        apply (dlseg_retarget m _ nxt L1 0 head h Hne S1).
        -- intros y Hy.
           assert (Hfy : y + 16 <= h \/ h + 16 <= y) by (apply Hfar, in_app_iff; now left).
           pose proof (Hfar_n y Hy) as Hyn.
           unfold m2. destruct (nxt =? 0) eqn:En; cbn [negb].
           ++ destruct (Z.eq_dec y prv) as [->|Hyp].
              ** unfold_fields. rd_simpl. reflexivity.
              ** assert (Hf : y + 16 <= prv \/ prv + 16 <= y).
                 { apply (links_far_neq L1); try assumption.
                   unfold links in *. rewrite map_app in Hpd12.
                   eapply pairwise_disjoint_app_l. exact Hpd12. }
                 unfold_fields. rd_simpl. reflexivity.
           ++ apply Z.eqb_neq in En. destruct Hyn as [Hyn|Hyn]; [congruence|].
              destruct (Z.eq_dec y prv) as [->|Hyp].
              ** unfold_fields. rd_simpl. reflexivity.
              ** assert (Hf : y + 16 <= prv \/ prv + 16 <= y).
                 { apply (links_far_neq L1); try assumption.
                   unfold links in *. rewrite map_app in Hpd12.
                   eapply pairwise_disjoint_app_l. exact Hpd12. }
                 unfold_fields. rd_simpl. reflexivity.
        -- intros y Hy.
           assert (HyL : In y L1) by now apply In_removelast.
           assert (Hyp : y + 16 <= prv \/ prv + 16 <= y).
           { rewrite Hlast. apply links_far_last; [|assumption].
             unfold links in *. rewrite map_app in Hpd12.
             eapply pairwise_disjoint_app_l. exact Hpd12. }
           pose proof (Hfar_n y HyL) as Hyn.
           unfold m2. destruct (nxt =? 0) eqn:En; cbn [negb].
           ++ unfold_fields. rd_simpl. reflexivity.
           ++ apply Z.eqb_neq in En. destruct Hyn as [Hyn|Hyn]; [congruence|].
              unfold_fields. rd_simpl. reflexivity.
        -- rewrite <- Hlast. unfold_fields. rd_simpl. apply Z.mod_small. lia.
    + (* the part after [h] *)
      rewrite <- Sp.
      destruct (Z.eq_dec nxt 0) as [En|En].
      * rewrite (Hnxt0 En). cbn [dll]. exact En.
      * destruct (Hnxt_in En) as (L2' & E2). rewrite E2 in *.
        cbn [dll] in S2. destruct S2 as (_ & _ & _ & S2).
        assert (Hpn : prv = 0 \/ (prv + 16 <= nxt \/ nxt + 16 <= prv)).
        { destruct (Z.eq_dec prv 0) as [|Ep]; [now left|right].
          destruct (Hprv_in Ep) as (Hpin & _ & _).
          destruct (Hfar_n prv Hpin) as [|Hf]; [congruence|lia]. }
        assert (Hrest : forall y, In y L2' ->
                  (y + 16 <= nxt \/ nxt + 16 <= y)
                  /\ (prv = 0 \/ (y + 16 <= prv \/ prv + 16 <= y))).
        { intros y Hy. split.
          - assert (Hf : nxt + 16 <= y \/ y + 16 <= nxt).
            { apply (links_far_tail L2'); [|assumption].
              unfold links in *. rewrite map_app in Hpd12.
              eapply pairwise_disjoint_app_r. exact Hpd12. }
            lia.
          - destruct (Z.eq_dec prv 0) as [|Ep]; [now left|right].
            destruct (Hprv_in Ep) as (Hpin & _ & _).
            assert (Hf : prv + 16 <= y \/ y + 16 <= prv).
            { apply (links_far_apart L1 (nxt :: L2')); [assumption|assumption|].
              now right. }
            lia. }
        apply Z.eqb_neq in En as En'. unfold m2. rewrite En'. cbn [negb].
        cbn [dll]. split; [reflexivity|]. split; [assumption|].
        destruct (prv =? 0) eqn:Ep; cbn [negb].
        -- split; [unfold_fields; rd_simpl; apply Z.mod_small; lia|].
           assert (E : rd (wr m nxt f_DEBUG_Previous prv) nxt f_DEBUG_Next
                       = rd m nxt f_DEBUG_Next) by (unfold_fields; rd_simpl; reflexivity).
           rewrite E. eapply dll_frame; [|exact S2].
           intros y x Hy Hx. destruct (Hrest y Hy) as [R1 _].
           other_stores. reflexivity.
        -- apply Z.eqb_neq in Ep. destruct Hpn as [|Hpn]; [congruence|].
           split; [unfold_fields; rd_simpl; apply Z.mod_small; lia|].
           assert (E : rd (wr (wr m nxt f_DEBUG_Previous prv) prv f_DEBUG_Next nxt)
                          nxt f_DEBUG_Next = rd m nxt f_DEBUG_Next)
             by (unfold_fields; rd_simpl; reflexivity).
           rewrite E. eapply dll_frame; [|exact S2].
           intros y x Hy Hx. destruct (Hrest y Hy) as [R1 [R2|R2]]; [congruence|].
           other_stores. reflexivity.
  - (* the frame *)
    intros x Hx. unfold m2.
    destruct (prv =? 0) eqn:Ep; destruct (nxt =? 0) eqn:En; cbn [negb];
      try reflexivity.
    + apply Z.eqb_neq in En. destruct (Hnxt_in En) as (L2' & E2).
      specialize (Hx nxt ltac:(apply in_app_iff; right; rewrite E2; now left)).
      other_stores. reflexivity.
    + apply Z.eqb_neq in Ep. destruct (Hprv_in Ep) as (Hpin & _ & _).
      specialize (Hx prv ltac:(apply in_app_iff; now left)).
      other_stores. reflexivity.
    + apply Z.eqb_neq in Ep. destruct (Hprv_in Ep) as (Hpin & _ & _).
      apply Z.eqb_neq in En. destruct (Hnxt_in En) as (L2' & E2).
      pose proof (Hx prv ltac:(apply in_app_iff; now left)).
      pose proof (Hx nxt ltac:(apply in_app_iff; right; rewrite E2; now left)).
      other_stores. reflexivity.
Qed.

Lemma links_of_blocks (m : memory) (G : list live) :
  Forall (live_ok true m) G ->
  pairwise_disjoint (map (block_of true) G) ->
  pairwise_disjoint (links (map l_header G)).
Proof.
  induction G as [|lb G IH]; intros Hall Hpd; [exact I|].
  inversion Hall as [|? ? Hlb Hrest]; subst.
  cbn [map links pairwise_disjoint] in *. destruct Hpd as [Hx Hpd].
  split; [|now apply IH].
  intros y Hy. unfold links in Hy. rewrite map_map in Hy.
  apply in_map_iff in Hy. destruct Hy as (lb' & <- & Hin).
  specialize (Hx _ (in_map (block_of true) _ _ Hin)).
  rewrite Forall_forall in Hrest.
  destruct (live_ok_within _ _ _ Hlb) as (W1 & W2 & _ & W4 & _).
  destruct (live_ok_within _ _ _ (Hrest lb' Hin)) as (V1 & V2 & _ & V4 & _).
  unfold disjoint, block_of, header_hi, sizeof_allocation_header,
    NO_MANS_LAND_SIZE in *. cbn [fst snd] in *. lia.
Qed.

Lemma DEBUG_unlink_header_eq (A : Type) (st : state A) (h : Z) :
  h <> 0 -> DEBUG_Head st <> 0 ->
  exists st',
    DEBUG_unlink_header A st h = Returns st'
    /\ mem st' = unlinked_memory (mem st) h
    /\ DEBUG_Head st' = (if h =? DEBUG_Head st then rd (mem st) h f_DEBUG_Next
                         else DEBUG_Head st)
    /\ allocators st' = allocators st /\ calls st' = calls st.
Proof.
  intros Hh Hd. unfold DEBUG_unlink_header.
  apply Z.eqb_neq in Hh. apply Z.eqb_neq in Hd. rewrite Hh, Hd. cbn [negb assert bind].
  eexists. split; [reflexivity|].
  destruct (h =? DEBUG_Head st); cbn; repeat split; reflexivity.
Qed.

Lemma footprint_not_links (m : memory) (G : list live)
    (lb : live) (x : Z) :
  Forall (live_ok true m) G ->
  pairwise_disjoint (map (block_of true) G) ->
  In lb G ->
  header_lo true (l_header lb) <= x < header_hi true (l_header lb) (l_size lb) ->
  forall y, In y (map l_header G) -> x < y \/ y + 16 <= x.
Proof.
  intros Hall Hpd Hin Hx y Hy.
  rewrite Forall_forall in Hall.
  destruct (live_ok_within _ _ _ (Hall lb Hin)) as (W1 & W2 & _ & W4 & _).
  apply in_split in Hin. destruct Hin as (Ga & Gb & ->).
  rewrite map_app in Hpd. cbn [map] in Hpd.
  apply pairwise_disjoint_app in Hpd. destruct Hpd as [_ Hd].
  apply in_map_iff in Hy. destruct Hy as (lb' & <- & Hin').
  unfold header_lo, header_hi, sizeof_allocation_header, NO_MANS_LAND_SIZE in *.
  apply in_app_iff in Hin'. destruct Hin' as [Hin'|[<-|Hin']]; [|lia|].
  - destruct (live_ok_within _ _ _ (Hall lb' ltac:(apply in_app_iff; now left)))
      as (V1 & V2 & _ & V4 & _).
    specialize (Hd (block_of true lb')).
    rewrite <- map_app in Hd.
    specialize (Hd (in_map _ _ _ ltac:(apply in_app_iff; left; exact Hin'))).
    unfold disjoint, block_of, header_hi, sizeof_allocation_header,
      NO_MANS_LAND_SIZE in *. cbn [fst snd] in *. lia.
  - destruct (live_ok_within _ _ _
                (Hall lb' ltac:(apply in_app_iff; right; now right)))
      as (V1 & V2 & _ & V4 & _).
    specialize (Hd (block_of true lb')).
    rewrite <- map_app in Hd.
    specialize (Hd (in_map _ _ _ ltac:(apply in_app_iff; right; exact Hin'))).
    unfold disjoint, block_of, header_hi, sizeof_allocation_header,
      NO_MANS_LAND_SIZE in *. cbn [fst snd] in *. lia.
Qed.

(** *** Replacing a header in the list *)

Ltac case_zero x :=
  let E := fresh "E" in
  destruct (x =? 0) eqn:E; [apply Z.eqb_eq in E | apply Z.eqb_neq in E].

(** The memory [DEBUG_swap_header] leaves. *)
Definition swapped_memory (m : memory) (h nh : Z) : memory :=
  let prev := rd m h f_DEBUG_Previous in
  let next := rd m h f_DEBUG_Next in
  let m1 := if negb (prev =? 0)
            then wr (wr m prev f_DEBUG_Next nh) nh f_DEBUG_Previous prev
            else m in
  if negb (next =? 0)
  then wr (wr m1 next f_DEBUG_Previous nh) nh f_DEBUG_Next next
  else m1.

Lemma DEBUG_swap_header_eq (A : Type) (st : state A) (h nh : Z) :
  DEBUG_Head st <> 0 ->
  exists st',
    DEBUG_swap_header A st h nh = Returns st'
    /\ mem st' = swapped_memory (mem st) h nh
    /\ DEBUG_Head st' = (if rd (mem st) h f_DEBUG_Previous =? 0 then nh
                         else DEBUG_Head st)
    /\ allocators st' = allocators st /\ calls st' = calls st.
Proof.
  intros Hd. unfold DEBUG_swap_header, swapped_memory.
  apply Z.eqb_neq in Hd. rewrite Hd. cbn [negb assert bind].
  eexists. split; [reflexivity|].
  destruct (rd (mem st) h f_DEBUG_Previous =? 0);
    destruct (rd (mem st) h f_DEBUG_Next =? 0); cbn; repeat split; reflexivity.
Qed.

Lemma tracker_swap (m : memory) (head h nh : Z) (L1 L2 : list Z) :
  dll m 0 head (L1 ++ h :: L2) ->
  pairwise_disjoint (links (L1 ++ h :: L2)) ->
  0 < nh < 2 ^ 64 ->
  (forall y, In y (L1 ++ h :: L2) -> y + 16 <= nh \/ nh + 16 <= y) ->
  rd m nh f_DEBUG_Next = 0 -> rd m nh f_DEBUG_Previous = 0 ->
  let m' := swapped_memory m h nh in
  dll m' 0 (if rd m h f_DEBUG_Previous =? 0 then nh else head) (L1 ++ nh :: L2)
  /\ (forall x, (forall y, In y (L1 ++ nh :: L2) -> x < y \/ y + 16 <= x) ->
                m' x = m x).
Proof.
  intros Hd Hpd Hnh Hnew Hn0 Hp0 m'.
  pose proof (links_far L1 L2 h) as Hfar. specialize (fun y => Hfar y Hpd).
  assert (Hpd12 : pairwise_disjoint (links (L1 ++ L2))).
  { unfold links in *. rewrite map_app in *. cbn [map] in Hpd.
    now apply pairwise_disjoint_app in Hpd. }
  assert (Hpd1 : pairwise_disjoint (links L1)).
  { unfold links in *. rewrite map_app in Hpd12.
    eapply pairwise_disjoint_app_l. exact Hpd12. }
  assert (Hpd2 : pairwise_disjoint (links L2)).
  { unfold links in *. rewrite map_app in Hpd12.
    eapply pairwise_disjoint_app_r. exact Hpd12. }
  destruct (dll_split m h L2 L1 0 head Hd) as (S1 & Hnz & Sp & S2).
  unfold swapped_memory in m'.
  set (nxt := rd m h f_DEBUG_Next) in *.
  set (prv := rd m h f_DEBUG_Previous) in *.
  assert (Hnxt : nxt = hd 0 L2) by (eapply dll_head; eassumption).
  assert (Hprv_range : 0 <= prv < 2 ^ 64).
  { unfold prv, rd, f_DEBUG_Previous. cbn [fst snd]. apply (load_range m _ 8). lia. }
  assert (Hnxt_range : 0 <= nxt < 2 ^ 64).
  { unfold nxt, rd, f_DEBUG_Next. cbn [fst snd]. apply (load_range m _ 8). lia. }
  assert (H1nz : ~ In 0 L1) by (eapply dlseg_In_nonzero; eassumption).
  assert (H2nz : ~ In 0 L2) by (eapply dll_nonzero; eassumption).
  assert (Hprv_in : prv <> 0 -> In prv L1 /\ L1 <> [] /\ prv = last L1 0).
  { intros Hp. destruct L1 as [|y L1]; [exfalso; apply Hp; exact Sp|].
    split; [|split; [discriminate|exact Sp]].
    rewrite Sp. apply last_In. }
  assert (Hprv0 : prv = 0 -> L1 = []).
  { intros Hp. destruct L1 as [|y L1]; [reflexivity|]. exfalso.
    pose proof (last_In L1 y 0) as Hin.
    rewrite <- Sp in Hin. rewrite Hp in Hin. contradiction. }
  assert (Hnxt_in : nxt <> 0 -> exists L2', L2 = nxt :: L2').
  { intros Hn. destruct L2 as [|n L2']; [exfalso; apply Hn; exact Hnxt|].
    exists L2'. f_equal. symmetry. exact Hnxt. }
  assert (Hnxt0 : nxt = 0 -> L2 = []).
  { intros Hn. destruct L2 as [|n L2']; [reflexivity|].
    exfalso. apply H2nz. left. change n with (hd 0 (n :: L2')).
    rewrite <- Hnxt. exact Hn. }
  (* where the four stores go *)
  assert (Hprv_new : prv = 0 \/ (prv + 16 <= nh \/ nh + 16 <= prv)).
  { destruct (Z.eq_dec prv 0) as [|Ep]; [now left|right].
    destruct (Hprv_in Ep) as (Hpin & _ & _).
    apply Hnew, in_app_iff. now left. }
  assert (Hnxt_new : nxt = 0 \/ (nxt + 16 <= nh \/ nh + 16 <= nxt)).
  { destruct (Z.eq_dec nxt 0) as [|En]; [now left|right].
    destruct (Hnxt_in En) as (L2' & E2).
    apply Hnew, in_app_iff. right. right. rewrite E2. now left. }
  assert (Hprv_nxt : prv = 0 \/ nxt = 0 \/ (prv + 16 <= nxt \/ nxt + 16 <= prv)).
  { destruct (Z.eq_dec prv 0) as [|Ep]; [now left|right].
    destruct (Z.eq_dec nxt 0) as [|En]; [now left|right].
    destruct (Hprv_in Ep) as (Hpin & _ & _). destruct (Hnxt_in En) as (L2' & E2).
    apply (links_far_apart L1 L2); [assumption|assumption|]. rewrite E2. now left. }
  (* the other headers keep their links *)
  assert (Hother : forall y x,
            In y (L1 ++ L2) -> y <= x < y + 16 ->
            (y = prv -> y + 8 <= x) -> (y = nxt -> x < y + 8) ->
            m' x = m x).
  { intros y x Hy Hx Hyp Hyn.
    assert (Hyh : y + 16 <= nh \/ nh + 16 <= y).
    { apply Hnew. apply in_app_iff in Hy. apply in_app_iff.
      destruct Hy; [now left|right; now right]. }
    assert (Hy_prv : prv = 0 \/ y = prv \/ (y + 16 <= prv \/ prv + 16 <= y)).
    { destruct (Z.eq_dec prv 0) as [|Ep]; [now left|right].
      destruct (Z.eq_dec y prv) as [|Ne]; [now left|right].
      destruct (Hprv_in Ep) as (Hpin & _ & _).
      apply (links_far_neq (L1 ++ L2)); try assumption.
      apply in_app_iff. now left. }
    assert (Hy_nxt : nxt = 0 \/ y = nxt \/ (y + 16 <= nxt \/ nxt + 16 <= y)).
    { destruct (Z.eq_dec nxt 0) as [|En]; [now left|right].
      destruct (Z.eq_dec y nxt) as [|Ne]; [now left|right].
      destruct (Hnxt_in En) as (L2' & E2).
      apply (links_far_neq (L1 ++ L2)); try assumption.
      apply in_app_iff. right. rewrite E2. now left. }
    unfold m'.
    case_zero prv; case_zero nxt; cbn [negb]; try reflexivity;
      destruct Hy_prv as [?|[?|?]]; try congruence;
      destruct Hy_nxt as [?|[?|?]]; try congruence;
      try (specialize (Hyp ltac:(assumption)));
      try (specialize (Hyn ltac:(assumption)));
      other_stores; reflexivity. }
  assert (Hm'h_prev : rd m' nh f_DEBUG_Previous = prv).
  { unfold m'.
    case_zero prv; case_zero nxt; cbn [negb];
      destruct Hprv_new as [?|?]; try congruence;
      destruct Hnxt_new as [?|?]; try congruence;
      unfold_fields; rd_simpl; try (apply Z.mod_small; lia); congruence. }
  assert (Hm'h_next : rd m' nh f_DEBUG_Next = nxt).
  { unfold m'.
    case_zero prv; case_zero nxt; cbn [negb];
      destruct Hprv_new as [?|?]; try congruence;
      destruct Hnxt_new as [?|?]; try congruence;
      unfold_fields; rd_simpl; try (apply Z.mod_small; lia); congruence. }
  split.
  - (* the list *)
    apply (dll_join _ (nh :: L2) nh).
    + (* the part before *)
      destruct (prv =? 0) eqn:Ep.
      * apply Z.eqb_eq in Ep. rewrite (Hprv0 Ep). reflexivity.
      * apply Z.eqb_neq in Ep. destruct (Hprv_in Ep) as (Hpin & Hne & Hlast).
        apply (dlseg_retarget m _ nh L1 0 head h Hne S1).
        -- intros y Hy. unfold_fields. apply load_ext. intros x Hx.
           apply (Hother y); [apply in_app_iff; now left|lia|lia|].
           intros E. exfalso.
           destruct (Z.eq_dec nxt 0) as [En|En]; [subst y; rewrite En in *; tauto|].
           destruct (Hnxt_in En) as (L2' & E2).
           assert (Hf : y + 16 <= nxt \/ nxt + 16 <= y).
           { apply (links_far_apart L1 L2); [assumption|assumption|].
             rewrite E2. now left. }
           lia.
        -- intros y Hy.
           assert (HyL : In y L1) by now apply In_removelast.
           assert (Hyp : y + 16 <= prv \/ prv + 16 <= y).
           { rewrite Hlast. apply links_far_last; assumption. }
           unfold_fields. apply load_ext. intros x Hx.
           apply (Hother y); [apply in_app_iff; now left|lia|lia|lia].
        -- rewrite <- Hlast. unfold m'.
           try rewrite (proj2 (Z.eqb_neq prv 0) Ep). cbn [negb].
           destruct Hprv_new as [?|Hpn]; [congruence|].
           destruct (nxt =? 0) eqn:En; cbn [negb].
           ++ unfold_fields. rd_simpl. apply Z.mod_small. lia.
           ++ apply Z.eqb_neq in En.
              destruct Hprv_nxt as [?|[?|Hpx]]; try congruence.
              destruct Hnxt_new as [?|Hnn]; [congruence|].
              unfold_fields. rd_simpl. apply Z.mod_small. lia.
    + (* the new header and the part after *)
      rewrite <- Sp. cbn [dll]. split; [reflexivity|]. split; [lia|].
      split; [exact Hm'h_prev|]. rewrite Hm'h_next.
      destruct (Z.eq_dec nxt 0) as [En|En].
      * rewrite (Hnxt0 En). cbn [dll]. exact En.
      * destruct (Hnxt_in En) as (L2' & E2). rewrite E2 in *.
        cbn [dll] in S2. destruct S2 as (_ & _ & _ & S2).
        cbn [dll]. split; [reflexivity|]. split; [assumption|].
        assert (Enext : rd m' nxt f_DEBUG_Next = rd m nxt f_DEBUG_Next).
        { unfold_fields. apply load_ext. intros x Hx.
          apply (Hother nxt); [apply in_app_iff; right; now left|lia| |lia].
          intros E. exfalso.
          destruct (Z.eq_dec prv 0) as [Ep|Ep]; [congruence|].
          destruct Hprv_nxt as [?|[?|?]]; try congruence. lia. }
        split.
        -- unfold m'. rewrite (proj2 (Z.eqb_neq nxt 0) En). cbn [negb].
           destruct Hnxt_new as [?|Hnn]; [congruence|].
           unfold_fields. rd_simpl. apply Z.mod_small. lia.
        -- rewrite Enext. eapply dll_frame; [|exact S2].
           intros y x Hy Hx.
           assert (Hyn : nxt + 16 <= y \/ y + 16 <= nxt)
             by (apply (links_far_tail L2'); assumption).
           apply (Hother y); [apply in_app_iff; right; now right|lia| |lia].
           intros E. exfalso.
           destruct (Z.eq_dec prv 0) as [Ep|Ep]; [subst y; rewrite Ep in *; apply H2nz; now right|].
           destruct (Hprv_in Ep) as (Hpin & _ & _).
           assert (Hf : prv + 16 <= y \/ y + 16 <= prv).
           { apply (links_far_apart L1 (nxt :: L2')); [assumption|assumption|].
             now right. }
           lia.
  - (* the frame *)
    intros x Hx. unfold m'.
    pose proof (Hx nh ltac:(apply in_app_iff; right; now left)) as Hxn.
    destruct (prv =? 0) eqn:Ep; destruct (nxt =? 0) eqn:En; cbn [negb];
      try reflexivity.
    + apply Z.eqb_neq in En. destruct (Hnxt_in En) as (L2' & E2).
      specialize (Hx nxt ltac:(apply in_app_iff; right; right; rewrite E2; now left)).
      other_stores. reflexivity.
    + apply Z.eqb_neq in Ep. destruct (Hprv_in Ep) as (Hpin & _ & _).
      specialize (Hx prv ltac:(apply in_app_iff; now left)).
      other_stores. reflexivity.
    + apply Z.eqb_neq in Ep. destruct (Hprv_in Ep) as (Hpin & _ & _).
      apply Z.eqb_neq in En. destruct (Hnxt_in En) as (L2' & E2).
      pose proof (Hx prv ltac:(apply in_app_iff; now left)).
      pose proof (Hx nxt ltac:(apply in_app_iff; right; right; rewrite E2; now left)).
      other_stores. reflexivity.
Qed.

(** *** The line number in the log *)

(** The number a string of decimal digit characters denotes. *)
Definition digits_value (ds : list Z) : Z :=
  fold_left (fun acc d => 10 * acc + (d - 48)) ds 0.

Lemma line_digits_acc (fuel : nat) :
  forall (line : Z) (acc : list Z),
    line_digits fuel line acc = line_digits fuel line [] ++ acc.
Proof.
  induction fuel as [|fuel IH]; intros line acc; cbn [line_digits].
  - destruct (line =? 0); reflexivity.
  - destruct (line =? 0); [reflexivity|].
    rewrite (IH _ (_ :: acc)), (IH _ [_]), <- app_assoc. reflexivity.
Qed.

Lemma line_digits_value (fuel : nat) :
  forall line, 0 <= line < 10 ^ Z.of_nat fuel ->
    digits_value (line_digits fuel line []) = line
    /\ Forall (fun d => 48 <= d <= 57) (line_digits fuel line [])
    /\ (List.length (line_digits fuel line []) <= fuel)%nat
    /\ (0 < line -> exists d rest, line_digits fuel line [] = d :: rest /\ 49 <= d).
Proof.
  induction fuel as [|fuel IH]; intros line Hl; cbn [line_digits].
  - change (10 ^ Z.of_nat 0) with 1 in Hl. assert (line = 0) as -> by lia.
    cbn. repeat split; auto; lia.
  - destruct (line =? 0) eqn:E0.
    + apply Z.eqb_eq in E0. subst line. cbn. repeat split; auto; lia.
    + apply Z.eqb_neq in E0.
      rewrite Z.quot_div_nonneg, Z.rem_mod_nonneg by lia.
      rewrite line_digits_acc.
      rewrite Nat2Z.inj_succ, Z.pow_succ_r in Hl by lia.
      pose proof (Z.div_mod line 10 ltac:(lia)) as Hdm.
      pose proof (Z.mod_pos_bound line 10 ltac:(lia)) as Hm.
      assert (Hq : 0 <= line / 10 < 10 ^ Z.of_nat fuel).
      { split; [apply Z.div_pos; lia|apply Z.div_lt_upper_bound; lia]. }
      destruct (IH (line / 10) Hq) as (Hv & Hd & Hlen & Hhd).
      split; [|split; [|split]].
      * unfold digits_value in *. rewrite fold_left_app. cbn [fold_left].
        rewrite Hv. lia.
      * apply Forall_app. split; [exact Hd|]. constructor; [lia|constructor].
      * rewrite length_app. cbn [List.length]. lia.
      * intros _. destruct (Z.eq_dec (line / 10) 0) as [Ez|Ez].
        -- rewrite Ez. destruct fuel; cbn [line_digits Z.eqb app];
             exists (line mod 10 + 48), []; (split; [reflexivity|lia]).
        -- destruct (Hhd ltac:(lia)) as (d & rest & Er & Hd9).
           rewrite Er. exists d, (rest ++ [line mod 10 + 48]).
           split; [reflexivity|exact Hd9].
Qed.

(** X9.  For a line number from 0 up to the largest [s64],
    [log_file_and_line] writes the file name, a colon and the characters
    [line_digits] produces: these are decimal digits, at most 19 of them (the
    buffer has 20 places), they denote the line number, and the first of
    them is not ['0'].  For line 0 no digit at all is written. *)
Theorem log_file_and_line_writes_the_decimal_line (A : Type)
    (st : state A) (file line : Z) :
  0 <= line < 2 ^ 63 ->
  exists ds,
    log_file_and_line A st file line
    = Log_write A (Log_write A (Log_write A st (LogCString file)) (LogText ":"))
        (LogDigits ds)
    /\ digits_value ds = line
    /\ Forall (fun d => 48 <= d <= 57) ds
    /\ (List.length ds <= 19)%nat
    /\ hd 49 ds <> 48
    /\ (line = 0 -> ds = []).
Proof.
  intros Hl. exists (line_digits 20 line []).
  split; [reflexivity|].
  assert (E : line_digits 20 line [] = line_digits 19 line []).
  { cbn [line_digits]. destruct (line =? 0); [reflexivity|].
    do 18 (match goal with
           | |- context [Z.quot ?q 10 =? 0] => destruct (Z.quot q 10 =? 0); [reflexivity|]
           end).
    assert (Ez : Z.quot (Z.quot (Z.quot (Z.quot (Z.quot (Z.quot (Z.quot (Z.quot
                  (Z.quot (Z.quot (Z.quot (Z.quot (Z.quot (Z.quot (Z.quot (Z.quot
                  (Z.quot (Z.quot (Z.quot line 10) 10) 10) 10) 10) 10) 10) 10) 10)
                  10) 10) 10) 10) 10) 10) 10) 10) 10) 10 = 0).
    { rewrite !Z.quot_quot by lia. apply Z.quot_small. lia. }
    rewrite Ez. reflexivity. }
  rewrite E.
  destruct (line_digits_value 19 line ltac:(change (10 ^ Z.of_nat 19) with (10 ^ 19); lia))
    as (Hv & Hd & Hlen & Hhd).
  split; [exact Hv|]. split; [exact Hd|]. split; [exact Hlen|]. split.
  - destruct (Z.eq_dec line 0) as [->|Hne]; [cbn; lia|].
    destruct (Hhd ltac:(lia)) as (d & rest & Er & Hd9). rewrite Er. cbn. lia.
  - intros ->. reflexivity.
Qed.

(** *** Writes outside the user region are noticed *)

(** The walk of the tracked headers stops at the first header whose check
    fails, with the message of that check. *)
Lemma verify_list_stops (m : memory) (G1 : list live)
    (h : Z) (rest : list Z) (msg : string) :
  forall (fuel : nat) (prev cur : Z),
    Forall (live_ok true m) G1 ->
    dll m prev cur (map l_header G1 ++ h :: rest) ->
    (List.length G1 < fuel)%nat ->
    verify_header_unlocked true m h = AssertionFailed msg ->
    verify_list true fuel m cur = AssertionFailed msg.
Proof.
  induction G1 as [|lb G1 IH]; intros fuel prev cur Hall Hd Hf Hbad.
  - cbn [map app dll] in Hd. destruct Hd as (-> & Hnz & _).
    destruct fuel as [|fuel]; [cbn in Hf; lia|].
    cbn [verify_list]. apply Z.eqb_neq in Hnz. rewrite Hnz, Hbad. reflexivity.
  - cbn [map app dll] in Hd. destruct Hd as (-> & Hnz & _ & Hn).
    inversion Hall as [|? ? Hlb Hrest]; subst.
    destruct fuel as [|fuel]; [cbn in Hf; lia|].
    cbn [verify_list]. apply Z.eqb_neq in Hnz. rewrite Hnz.
    rewrite (verify_header_live _ _ Hlb). cbn [bind].
    eapply IH; [eassumption|eassumption|cbn in Hf; lia|exact Hbad].
Qed.

Lemma all_bytes_false (m : memory) (addr v x : Z) (n : nat) :
  addr <= x < addr + Z.of_nat n -> (m x) mod 256 <> v ->
  all_bytes m addr n v = false.
Proof.
  intros Hx Hne. destruct (all_bytes m addr n v) eqn:E; [|reflexivity].
  exfalso. apply Hne. exact (proj1 (all_bytes_spec m v n addr) E x Hx).
Qed.

(** The checks of a header whose fields are those of a live allocation and
    whose guards may have been written to. *)
Lemma verify_header_guards (m m' : memory) (lb : live) :
  live_ok true m lb ->
  (forall y, l_header lb <= y < l_header lb + 100 -> m' y = m y) ->
  verify_header_unlocked true m' (l_header lb)
  = (_ <- assert (all_bytes m' (l_header lb + 100) 4 NO_MANS_LAND_FILL)
            "No man's land was modified. This means that you wrote before the allocated block." ;;
     assert (all_bytes m' (l_header lb + 104 + l_size lb) 4 NO_MANS_LAND_FILL)
       "No man's land was modified. This means that you wrote after the allocated block.").
Proof.
  intros ((j & Hj & Ea) & Hs & Hb & Hr63 & Hlim & Hle & Hap & Hat) Hsame.
  destruct Hat as (_ & _ & HS & HA & _ & HD). specialize (HD eq_refl).
  destruct HD as (HP & _ & _).
  assert (Ha : 2 ^ 3 <= 2 ^ j <= 2 ^ 15) by (split; apply pow2_le_mono; lia).
  unfold required, sizeof_allocation_header, NO_MANS_LAND_SIZE in *.
  rewrite Ea in *.
  pose proof (Z.mod_pos_bound 104 (2 ^ j) ltac:(lia)) as Hm.
  assert (HA' : rd m' (l_header lb) (f_Alignment true) = 2 ^ j).
  { rewrite <- HA. unfold_fields. apply load_ext. intros; apply Hsame; lia. }
  assert (HP' : rd m' (l_header lb) f_DEBUG_Pointer = l_header lb + 104).
  { rewrite <- HP. unfold_fields. apply load_ext. intros; apply Hsame; lia. }
  assert (HS' : rd m' (l_header lb) (f_Size true) = l_size lb).
  { rewrite <- HS. unfold_fields. apply load_ext. intros; apply Hsame; lia. }
  unfold verify_header_unlocked. cbv zeta.
  change (sizeof_allocation_header true) with 104.
  destruct (all_bytes m' (l_header lb) (Z.to_nat 104) DEAD_LAND_FILL) eqn:Edead.
  { apply all_dead_alignment in Edead. rewrite HA' in Edead. lia. }
  cbn [negb assert bind]. rewrite HA', HP'.
  assert (E1 : (2 ^ j =? 0) = false) by (apply Z.eqb_neq; lia).
  assert (E2 : (POINTER_SIZE <=? 2 ^ j) = true) by (apply Z.leb_le; unfold POINTER_SIZE; lia).
  rewrite E1, E2, is_pow_of_2_pow2 by lia. cbn [negb assert bind].
  rewrite (wrap64_small (l_header lb + 104)) by lia.
  rewrite Z.eqb_refl. cbn [assert bind].
  unfold NO_MANS_LAND_SIZE. change (Z.to_nat 4) with 4%nat.
  rewrite (wrap64_small (l_header lb + 104 - 4)) by lia.
  replace (l_header lb + 104 - 4) with (l_header lb + 100) by lia.
  unfold rd_s64. rewrite HS', to_s64_small by lia.
  rewrite (wrap64_small (l_header lb + 104 + l_size lb)) by lia. reflexivity.
Qed.

Section Protocol.

Variable Ctx : implicit_context.
Variable A : Type.
Variable call_allocator :
  Z -> allocator_mode -> Z -> Z -> Z -> Z -> Z -> A -> Z * Z * A.

(** The allocator the program allocates with: a function pointer and its
    context. *)
Variables Function Context_ : Z.
Hypothesis Function_u64 : 0 <= Function < 2 ^ 64.
Hypothesis Context_u64 : 0 <= Context_ < 2 ^ 64.

(** The allocator protocol, as far as the front end relies on it.  [ainv a B]
    says that the allocator state [a] has handed out exactly the raw blocks
    [B] (address and size).  A successful ALLOCATE answers a block inside
    the address space that overlaps none of them; FREE of one of them gives
    it back.  Nothing is asked of an ALLOCATE that fails (answers null). *)
Variable ainv : A -> list (Z * Z) -> Prop.

Hypothesis ALLOCATE_conforms :
  forall a B n o r o' a',
    ainv a B -> 0 <= n ->
    call_allocator Function ALLOCATE Context_ n 0 0 o a = (r, o', a') ->
    r <> 0 ->
    0 < r /\ r + n <= 2 ^ 64
    /\ (forall y, In y B -> disjoint (r, n) y)
    /\ ainv a' ((r, n) :: B).

Hypothesis FREE_conforms :
  forall a B1 B2 b n o r o' a',
    ainv a (B1 ++ (b, n) :: B2) ->
    call_allocator Function FREE Context_ 0 b n o a = (r, o', a') ->
    ainv a' (B1 ++ B2).

(** The heap as the front end keeps it, for the live allocations [G]
    (latest first), of whatever allocators: every header describes its
    block and names its allocator, the raw blocks do not overlap and are
    the ones the allocators have handed out, and with DEBUG_MEMORY the one
    tracker list links exactly these headers, in order. *)
Definition heap_inv (debug : bool) (st : state A) (G : list live) : Prop :=
  Forall (live_ok debug (mem st)) G
  /\ pairwise_disjoint (map (block_of debug) G)
  /\ (debug = true -> dll (mem st) 0 (DEBUG_Head st) (map l_header G))
  /\ ainv (allocators st) (map (block_of debug) G).

(** The part of [heap_inv] that is about the memory alone. *)
Definition heap_mem (debug : bool) (st : state A) (G : list live) : Prop :=
  Forall (live_ok debug (mem st)) G
  /\ pairwise_disjoint (map (block_of debug) G)
  /\ (debug = true -> dll (mem st) 0 (DEBUG_Head st) (map l_header G)).

Lemma heap_inv_mem (debug : bool) (st : state A) (G : list live) :
  heap_inv debug st G <->
  heap_mem debug st G /\ ainv (allocators st) (map (block_of debug) G).
Proof using A ainv.
  unfold heap_inv, heap_mem. split.
  - intros (H1 & H2 & H3 & H4). repeat split; assumption.
  - intros ((H1 & H2 & H3) & H4). repeat split; assumption.
Qed.

Lemma verify_heap_mem (debug : bool) (st : state A) (G : list live) (fuel : nat) :
  heap_mem debug st G -> (List.length G <= fuel)%nat ->
  verify_heap debug A fuel st = Returns tt.
Proof.
  intros (Hall & _ & Hd) Hf. unfold verify_heap.
  destruct debug; [|reflexivity].
  eapply verify_list_live; eauto.
Qed.

Lemma verify_heap_live (debug : bool) (st : state A) (G : list live) (fuel : nat) :
  heap_inv debug st G -> (List.length G <= fuel)%nat ->
  verify_heap debug A fuel st = Returns tt.
Proof.
  intros Hinv. apply verify_heap_mem. now apply heap_inv_mem in Hinv.
Qed.

Lemma log_allocation_same (st : state A) (what : string) (o fn fl : Z) :
  let st' := log_allocation Ctx A st what o fn fl in
  mem st' = mem st /\ DEBUG_Head st' = DEBUG_Head st
  /\ AllocationCount st' = AllocationCount st
  /\ allocators st' = allocators st /\ calls st' = calls st.
Proof.
  unfold log_allocation.
  destruct (LogAllAllocations Ctx && (Z.land o XXX_AVOID_RECURSION =? 0));
    cbn; auto.
Qed.

Lemma required_eq (debug : bool) (s j : Z) :
  3 <= j <= 15 -> 0 <= s -> required debug s (2 ^ j) < 2 ^ 63 ->
  exists extra,
    extra_for debug (2 ^ j) = Returns extra
    /\ to_s64 (wrap64 (s + extra) + guard_bytes debug) = required debug s (2 ^ j)
    /\ s + 2 ^ j + sizeof_allocation_header debug
       + (if debug then NO_MANS_LAND_SIZE else 0) <= required debug s (2 ^ j).
Proof.
  intros Hj Hs Hr.
  assert (Ha : 2 ^ 3 <= 2 ^ j <= 2 ^ 15) by (split; apply pow2_le_mono; lia).
  unfold extra_for, required, guard_bytes in *.
  assert (E : (2 ^ j =? 0) = false) by (apply Z.eqb_neq; lia). rewrite E.
  pose proof (Z.mod_pos_bound (sizeof_allocation_header debug) (2 ^ j) ltac:(lia)).
  eexists. split; [reflexivity|].
  destruct debug; unfold sizeof_allocation_header, NO_MANS_LAND_SIZE in *;
    rewrite (wrap64_small (2 ^ j + _ + _)) by lia;
    rewrite wrap64_small by lia; rewrite to_s64_small by lia; lia.
Qed.

Lemma general_allocate_spec (debug : bool) (fuel : nat) (st : state A)
    (G : list live) (userSize j options fileName fileLine block o' : Z) (a' : A) :
  heap_inv debug st G -> (List.length G < fuel)%nat ->
  0 <= userSize -> 3 <= j <= 15 -> required debug userSize (2 ^ j) < 2 ^ 63 ->
  call_allocator Function ALLOCATE Context_ (required debug userSize (2 ^ j)) 0 0
    (Z.lor options (AllocOptions Ctx)) (allocators st) = (block, o', a') ->
  block <> 0 ->
  exists p st',
    general_allocate debug Ctx A call_allocator fuel Function Context_ st
      userSize (2 ^ j) options fileName fileLine = Returns (p, st')
    /\ p mod 2 ^ j = 0
    /\ rd_s64 (mem st') (p - sizeof_allocation_header debug) (f_Size debug) = userSize
    /\ calls st' = mk_call Function ALLOCATE Context_
                     (required debug userSize (2 ^ j)) 0 0 block :: calls st
    /\ heap_inv debug st'
         (mk_live (p - sizeof_allocation_header debug) block userSize (2 ^ j) Function Context_ :: G).
Proof.
  intros Hinv Hfuel Hs Hj Hr63 Hcall Hnz.
  assert (Ha : 2 ^ 3 <= 2 ^ j <= 2 ^ 15) by (split; apply pow2_le_mono; lia).
  destruct (required_eq debug userSize j Hj Hs Hr63) as (extra & Eextra & Ereq & Hreq).
  destruct Hinv as (Hall & Hpd & Hdll & Hainv).
  assert (Hreq0 : 0 <= required debug userSize (2 ^ j)).
  { destruct debug; unfold sizeof_allocation_header, NO_MANS_LAND_SIZE in Hreq; lia. }
  destruct (ALLOCATE_conforms _ _ _ _ _ _ _ Hainv Hreq0 Hcall Hnz)
    as (Hb0 & Hblim & Hfresh & Hainv').
  unfold general_allocate.
  assert (E0 : (2 ^ j =? 0) = false) by (apply Z.eqb_neq; lia).
  rewrite E0. cbn [bind].
  pose proof (log_allocation_same st ">>> Allocation made at: "
                (Z.lor options (AllocOptions Ctx)) fileName fileLine) as Hlog.
  cbv zeta in Hlog.
  set (stl := log_allocation Ctx A st ">>> Allocation made at: "
                (Z.lor options (AllocOptions Ctx)) fileName fileLine) in *.
  destruct Hlog as (Lm & Lh & Lc & La & Lk).
  assert (E1 : (2 ^ j <? POINTER_SIZE) = false)
    by (apply Z.ltb_ge; unfold POINTER_SIZE; lia).
  rewrite E1, is_pow_of_2_pow2 by lia. cbn [assert bind].
  rewrite Eextra. cbn [bind]. rewrite Ereq.
  unfold call. rewrite La, Hcall.
  match goal with |- context [encode_header _ _ ?s _ _ _ _ _ _] => set (st2 := s) end.
  assert (Hs63 : 0 <= userSize < 2 ^ 63).
  { destruct debug; unfold sizeof_allocation_header, NO_MANS_LAND_SIZE in Hreq; lia. }
  assert (Hblock : block + userSize + 2 ^ j + sizeof_allocation_header debug
                   + (if debug then NO_MANS_LAND_SIZE else 0) <= 2 ^ 64) by lia.
  destruct (encode_header_spec debug A st2 block userSize j Function Context_ o'
              Hj Hb0 Hs63 Hblock Function_u64 Context_u64)
    as (p & st3 & Eenc & E3h & E3a & E3k & E3l & E3c & Hal & Hle & Hap & Hagree & Hat & Hlinks).
  rewrite Eenc. cbn [bind].
  assert (Hh64 : 0 <= p - sizeof_allocation_header debug
                 /\ header_hi debug (p - sizeof_allocation_header debug) userSize
                    <= block + required debug userSize (2 ^ j)).
  { unfold header_hi.
    destruct debug; unfold sizeof_allocation_header, NO_MANS_LAND_SIZE in *; lia. }
  destruct Hh64 as [Hh0 Hhi].
  assert (Hm2 : mem st2 = mem st) by exact Lm.
  assert (Hfoot : forall lb x, In lb G ->
            header_lo debug (l_header lb) <= x
              < header_hi debug (l_header lb) (l_size lb) ->
            x < p - sizeof_allocation_header debug
            \/ header_hi debug (p - sizeof_allocation_header debug) userSize <= x).
  { intros lb x Hin Hx. rewrite Forall_forall in Hall.
    destruct (live_ok_within _ _ _ (Hall lb Hin)) as (W1 & W2 & _).
    specialize (Hfresh (block_of debug lb) (in_map _ _ _ Hin)).
    unfold disjoint, block_of in *. cbn [fst snd] in *.
    unfold header_lo in Hx. destruct debug; lia. }
  assert (Hpd' : pairwise_disjoint
                   (map (block_of debug)
                      (mk_live (p - sizeof_allocation_header debug) block userSize
                         (2 ^ j) Function Context_ :: G))).
  { cbn [map pairwise_disjoint]. split; [|exact Hpd]. exact Hfresh. }
  assert (Hstatic : forall m',
            header_at debug m' (p - sizeof_allocation_header debug) block userSize
              (2 ^ j) Function Context_ ->
            live_ok debug m'
              (mk_live (p - sizeof_allocation_header debug) block userSize (2 ^ j) Function Context_)).
  { intros m' Hat'. unfold live_ok. cbn [l_header l_block l_size l_align l_function l_context].
    split; [exists j; split; [assumption|reflexivity]|].
    repeat (split; [first [assumption | lia]|]). exact Hat'. }
  assert (Hfinal : forall st4,
            heap_inv debug st4
              (mk_live (p - sizeof_allocation_header debug) block userSize (2 ^ j) Function Context_ :: G) ->
            calls st4 = calls st3 ->
            exists p0 st',
              (_ <- verify_heap debug A fuel st4 ;; Returns (p, st4)) = Returns (p0, st')
              /\ p0 mod 2 ^ j = 0
              /\ rd_s64 (mem st') (p0 - sizeof_allocation_header debug) (f_Size debug)
                 = userSize
              /\ calls st' = mk_call Function ALLOCATE Context_
                               (required debug userSize (2 ^ j)) 0 0 block :: calls st
              /\ heap_inv debug st'
                   (mk_live (p0 - sizeof_allocation_header debug) block userSize
                      (2 ^ j) Function Context_ :: G)).
  { intros st4 Hinv4 Hcalls4.
    rewrite (verify_heap_live debug st4 _ fuel Hinv4) by (cbn [List.length]; lia).
    cbn [bind]. exists p, st4. split; [reflexivity|]. split; [exact Hal|].
    split.
    - destruct Hinv4 as (Hall4 & _). inversion Hall4 as [|? ? Hnew _]; subst.
      destruct Hnew as (_ & _ & _ & _ & _ & _ & _ & Hat4).
      destruct Hat4 as (_ & _ & HS & _). cbn [l_header l_size] in HS.
      unfold rd_s64. rewrite HS. apply to_s64_small. lia.
    - split; [|exact Hinv4].
      rewrite Hcalls4, E3k. unfold st2. cbn [calls]. now rewrite Lk. }
  destruct debug.
  - (* DEBUG_MEMORY *)
    change (sizeof_allocation_header true) with 104 in *.
    rewrite (wrap64_small (p - 104))
      by (unfold header_hi, sizeof_allocation_header, NO_MANS_LAND_SIZE in Hhi; lia).
    apply Hfinal; [|reflexivity].
    assert (P1 : dll (mem st) 0 (DEBUG_Head st3) (map l_header G)).
    { rewrite E3h. unfold st2. cbn [DEBUG_Head]. rewrite Lh. now apply Hdll. }
    assert (P2 : header_hi true (p - 104) userSize
                 <= block + required true userSize (2 ^ j)) by exact Hhi.
    assert (P3 : p - 104 + 104 <= 2 ^ 64).
    { unfold header_hi, sizeof_allocation_header, NO_MANS_LAND_SIZE in Hhi. lia. }
    assert (P4 : agree_outside (p - 104) (header_hi true (p - 104) userSize)
                   (mem st) (mem st3)) by (rewrite <- Hm2; exact Hagree).
    assert (P5 : rd (mem st3) (p - 104) f_DEBUG_Previous = 0)
      by (apply Hlinks; reflexivity).
    destruct (tracker_add (mem st) (mem st3) G (DEBUG_Head st3)
                (p - 104) block userSize (2 ^ j) fileName fileLine
                Hall Hpd P1 Hfresh Hb0 Hle Hs P2 P3 P4 P5)
      as (T1 & T2 & T3).
    unfold heap_inv. split; [|split; [|split]].
    + constructor; [|exact T1]. apply Hstatic.
      eapply header_at_frame; [lia| |exact Hat].
      intros x Hx. unfold header_lo in Hx. apply T3. lia.
    + exact Hpd'.
    + intros _. exact T2.
    + cbn [allocators DEBUG_add_header set_DEBUG_Head set_mem]. rewrite E3a.
      exact Hainv'.
  - (* without DEBUG_MEMORY *)
    apply Hfinal; [|reflexivity].
    unfold heap_inv. split; [|split; [|split]].
    + constructor; [apply Hstatic; exact Hat|].
      rewrite Forall_forall in *. intros lb Hin.
      apply (live_ok_frame false (mem st)); [|now apply Hall].
      intros x Hx. rewrite <- Hm2. apply Hagree. eapply Hfoot; eassumption.
    + exact Hpd'.
    + discriminate.
    + rewrite E3a. exact Hainv'.
Qed.

(** [general_free] of a live allocation, whatever allocator owns it: it
    returns, having called the FREE of the allocator in the header with the
    raw block and its size; the other allocations stay as they are. *)
Lemma general_free_returns (debug : bool) (fuel : nat) (st : state A)
    (G1 G2 : list live) (lb : live) (options : Z) :
  heap_mem debug st (G1 ++ lb :: G2) ->
  (List.length (G1 ++ G2) <= fuel)%nat ->
  exists st' r o',
    general_free debug Ctx A call_allocator fuel st
      (l_header lb + sizeof_allocation_header debug) options = Returns st'
    /\ call_allocator (l_function lb) FREE (l_context lb) 0 (l_block lb)
         (required debug (l_size lb) (l_align lb))
         (Z.lor options (AllocOptions Ctx)) (allocators st)
       = (r, o', allocators st')
    /\ calls st' = mk_call (l_function lb) FREE (l_context lb) 0 (l_block lb)
                     (required debug (l_size lb) (l_align lb)) r :: calls st
    /\ heap_mem debug st' (G1 ++ G2)
    /\ (debug = true ->
        all_bytes (mem st') (l_header lb) (Z.to_nat 104) DEAD_LAND_FILL = true)
    /\ (debug = false -> mem st' = mem st)
    /\ (debug = true ->
        forall x, l_block lb <= x
                  < l_block lb + required debug (l_size lb) (l_align lb) ->
                  mem st' x = DEAD_LAND_FILL).
Proof.
  intros (Hall & Hpd & Hdll) Hfuel.
  pose proof Hall as Hall0. pose proof Hpd as Hpd0.
  apply Forall_app in Hall. destruct Hall as [Hall1 Hall2].
  apply Forall_cons_iff in Hall2. destruct Hall2 as [Hlb Hall2'].
  assert (Hall12 : Forall (live_ok debug (mem st)) (G1 ++ G2))
    by (apply Forall_app; split; assumption).
  rewrite map_app in Hpd. cbn [map] in Hpd.
  apply pairwise_disjoint_app in Hpd. destruct Hpd as [Hpd12 Hdisj].
  rewrite <- map_app in Hpd12, Hdisj.
  change (block_of debug lb)
    with (l_block lb, required debug (l_size lb) (l_align lb)) in Hdisj.
  destruct (live_ok_within _ _ _ Hlb) as (W1 & W2 & W3 & W4 & W5).
  pose proof Hlb as ((j & Hj & Ea) & Hs & Hb & Hr63 & Hlim & Hle & Hap & Hat).
  assert (Ha : 2 ^ 3 <= 2 ^ j <= 2 ^ 15) by (split; apply pow2_le_mono; lia).
  destruct Hat as (HF & HC & HS & HA & HP & HD).
  rewrite Ea in *.
  destruct (required_eq debug (l_size lb) j Hj Hs Hr63) as (extra & Eextra & Ereq & Hreq).
  set (h := l_header lb) in *. set (b := l_block lb) in *. set (s := l_size lb) in *.
  set (req := required debug s (2 ^ j)) in *.
  set (fn := l_function lb) in *. set (cx := l_context lb) in *.
  assert (HH : 0 < sizeof_allocation_header debug) by (destruct debug; cbn; lia).
  assert (Hs63 : s < 2 ^ 63).
  { unfold req in *. destruct debug;
      unfold sizeof_allocation_header, NO_MANS_LAND_SIZE in Hreq; lia. }
  unfold general_free.
  assert (E0 : (h + sizeof_allocation_header debug =? 0) = false)
    by (apply Z.eqb_neq; lia).
  rewrite E0.
  replace (h + sizeof_allocation_header debug - sizeof_allocation_header debug)
    with h by lia.
  rewrite (wrap64_small h) by lia.
  assert (Ever : verify_header debug A st h = Returns tt).
  { unfold verify_header. destruct debug; [|reflexivity].
    apply (verify_header_live _ lb). exact Hlb. }
  rewrite Ever. cbn [bind]. rewrite HA, Eextra. cbn [bind].
  unfold rd_s64. rewrite HS, (to_s64_small s) by lia. rewrite Ereq.
  rewrite HF, HC, HP. replace (h - (h - b)) with b by lia.
  rewrite (wrap64_small b) by lia.
  fold req.
  assert (Hoff : forall lb' x, In lb' (G1 ++ G2) ->
            l_header lb' <= x < header_hi debug (l_header lb') (l_size lb') ->
            x < b \/ b + req <= x).
  { intros lb' x Hin Hx. rewrite Forall_forall in Hall12.
    destruct (live_ok_within _ _ _ (Hall12 lb' Hin)) as (V1 & V2 & _).
    specialize (Hdisj _ (in_map (block_of debug) _ _ Hin)).
    unfold disjoint, block_of in *. cbn [fst snd] in *. lia. }
  assert (Hfinal : forall st0,
            Forall (live_ok debug (mem st0)) (G1 ++ G2) ->
            (debug = true ->
             dll (mem st0) 0 (DEBUG_Head st0) (map l_header (G1 ++ G2))) ->
            allocators st0 = allocators st -> calls st0 = calls st ->
            exists st' r o',
              (let '(_, _, st1) :=
                 call A call_allocator st0 fn FREE cx 0 b req
                   (Z.lor options (AllocOptions Ctx)) in
               _ <- verify_heap debug A fuel st1 ;; Returns st1) = Returns st'
              /\ call_allocator fn FREE cx 0 b req
                   (Z.lor options (AllocOptions Ctx)) (allocators st)
                 = (r, o', allocators st')
              /\ calls st' = mk_call fn FREE cx 0 b req r :: calls st
              /\ heap_mem debug st' (G1 ++ G2)
              /\ mem st' = mem st0).
  { intros st0 Hall' Hdll' Ealloc Ecalls. unfold call.
    destruct (call_allocator fn FREE cx 0 b req
                (Z.lor options (AllocOptions Ctx)) (allocators st0))
      as [[r o'] a'] eqn:Ec.
    rewrite Ealloc in Ec.
    match goal with |- context [verify_heap _ _ _ ?s1] => set (st1 := s1) end.
    assert (Hinv1 : heap_mem debug st1 (G1 ++ G2)).
    { unfold heap_mem, st1. cbn [mem DEBUG_Head allocators]. auto. }
    rewrite (verify_heap_mem debug st1 _ fuel Hinv1 Hfuel). cbn [bind].
    exists st1, r, o'. split; [reflexivity|]. split; [exact Ec|].
    split; [|split; [exact Hinv1|reflexivity]].
    unfold st1. cbn [calls]. now rewrite Ecalls. }
  destruct debug.
  - (* DEBUG_MEMORY *)
    specialize (Hdll eq_refl). rewrite map_app in Hdll. cbn [map] in Hdll.
    fold h in Hdll.
    assert (Hheadnz : DEBUG_Head st <> 0).
    { intros E0'. rewrite E0' in Hdll.
      apply dll_split in Hdll as Hsp. destruct Hsp as (Hseg & Hhnz & _).
      destruct (map l_header G1) as [|y L] eqn:EL1.
      - cbn [dlseg] in Hseg. congruence.
      - cbn [dlseg] in Hseg. destruct Hseg as (E & Hy & _). congruence. }
    destruct (DEBUG_unlink_header_eq A st h ltac:(lia) Hheadnz)
      as (stu & Eu & Eum & Euh & Eua & Euc).
    rewrite Eu. cbn [bind].
    assert (Hlinks : pairwise_disjoint
                       (links (map l_header G1 ++ h :: map l_header G2))).
    { pose proof (links_of_blocks (mem st) (G1 ++ lb :: G2) Hall0
                    Hpd0) as Hl.
      rewrite !map_app in Hl. cbn [map] in Hl. exact Hl. }
    destruct (tracker_unlink (mem st) (DEBUG_Head st) h (map l_header G1)
                (map l_header G2) Hdll Hlinks) as (T1 & T2).
    rewrite <- map_app in T1, T2.
    change (sizeof_allocation_header true) with 104 in *.
    edestruct (Hfinal (set_mem A stu (fill_memory (mem stu) b DEAD_LAND_FILL req)))
      as (st' & r & o' & E1 & Ecall & E2 & E3 & E4).
    + cbn [mem set_mem]. rewrite Eum.
      rewrite Forall_forall in *. intros lb' Hin.
      apply (live_ok_frame true (mem st)); [|now apply Hall12].
      intros x Hx.
      assert (Hx' : l_header lb' <= x < header_hi true (l_header lb') (l_size lb'))
        by (unfold header_lo in Hx; lia).
      specialize (Hoff lb' x Hin Hx').
      transitivity (unlinked_memory (mem st) h x).
      * unfold fill_memory.
        destruct (in_range b req x) eqn:E; [apply in_range_true in E; lia|reflexivity].
      * apply T2.
        apply (footprint_not_links (mem st) (G1 ++ G2) lb' x);
          try assumption. now apply Forall_forall.
    + intros _. cbn [mem set_mem DEBUG_Head]. rewrite Eum, Euh.
      eapply dll_frame; [|exact T1].
      intros y x Hy Hx. apply in_map_iff in Hy. destruct Hy as (lb' & <- & Hin).
      assert (Hx' : l_header lb' <= x < header_hi true (l_header lb') (l_size lb')).
      { rewrite Forall_forall in Hall12.
        destruct (live_ok_within _ _ _ (Hall12 lb' Hin)) as (_ & _ & _ & V4 & _).
        unfold header_hi, sizeof_allocation_header, NO_MANS_LAND_SIZE. lia. }
      specialize (Hoff lb' x Hin Hx').
      unfold fill_memory.
      destruct (in_range b req x) eqn:E; [apply in_range_true in E; lia|reflexivity].
    + cbn [allocators set_mem]. exact Eua.
    + cbn [calls set_mem]. exact Euc.
    + exists st', r, o'. split; [exact E1|]. split; [exact Ecall|].
      split; [exact E2|]. split; [exact E3|].
      split; [|split; [discriminate|]].
      * intros _. rewrite E4. cbn [mem set_mem].
        unfold DEAD_LAND_FILL. apply all_bytes_fill; [lia| |lia].
        unfold header_hi, sizeof_allocation_header, NO_MANS_LAND_SIZE in W2.
        cbn [snd block_of] in W2. fold b s in W2. rewrite Ea in W2. fold req in W2.
        cbn. lia.
      * intros _ x Hx. rewrite E4. cbn [mem set_mem]. unfold fill_memory.
        destruct (in_range b req x) eqn:E; [reflexivity|].
        apply in_range_false in E. lia.
  - (* without DEBUG_MEMORY *)
    cbn [bind].
    destruct (Hfinal st Hall12 ltac:(discriminate) eq_refl eq_refl)
      as (st' & r & o' & E1 & Ecall & E2 & E3 & E4).
    exists st', r, o'. split; [exact E1|]. split; [exact Ecall|].
    split; [exact E2|]. split; [exact E3|].
    split; [discriminate|]. split; [intros _; exact E4|discriminate].
Qed.

Lemma general_free_spec (debug : bool) (fuel : nat) (st : state A)
    (G1 G2 : list live) (lb : live) (options : Z) :
  heap_inv debug st (G1 ++ lb :: G2) ->
  l_function lb = Function -> l_context lb = Context_ ->
  (List.length (G1 ++ G2) <= fuel)%nat ->
  exists st' r,
    general_free debug Ctx A call_allocator fuel st
      (l_header lb + sizeof_allocation_header debug) options = Returns st'
    /\ calls st' = mk_call Function FREE Context_ 0 (l_block lb)
                     (required debug (l_size lb) (l_align lb)) r :: calls st
    /\ heap_inv debug st' (G1 ++ G2)
    /\ (debug = true ->
        all_bytes (mem st') (l_header lb) (Z.to_nat 104) DEAD_LAND_FILL = true)
    /\ (debug = false -> mem st' = mem st)
    /\ (debug = true ->
        forall x, l_block lb <= x
                  < l_block lb + required debug (l_size lb) (l_align lb) ->
                  mem st' x = DEAD_LAND_FILL).
Proof.
  intros Hinv Hfn Hcx Hfuel.
  apply heap_inv_mem in Hinv. destruct Hinv as [Hmem Hainv].
  destruct (general_free_returns debug fuel st G1 G2 lb options Hmem Hfuel)
    as (st' & r & o' & E & Ecall & Hcalls & Hmem' & Hdead & Hrel & Hfill).
  rewrite Hfn, Hcx in Ecall, Hcalls.
  exists st', r. split; [exact E|]. split; [exact Hcalls|].
  split; [|auto].
  apply heap_inv_mem. split; [exact Hmem'|].
  rewrite map_app in Hainv. cbn [map] in Hainv. rewrite map_app.
  exact (FREE_conforms _ _ _ _ _ _ _ _ _ Hainv Ecall).
Qed.

(** *** C1: alignment of the pointer and size in the header *)

(** C1, as amended: for every user size [s >= 0] and every power-of-two
    alignment from the pointer size up to 32768 (what the 16-bit padding
    arithmetic and the 16-bit [Alignment] field hold), on an intact heap,
    whatever allocators its live allocations belong to, and when the
    allocator answers a block, [general_allocate] returns a pointer [p]
    that is a multiple of the alignment, and the header right before [p]
    stores [Size = s].  Both builds. *)
Theorem general_allocate_aligned_sized (debug : bool) (fuel : nat) (st : state A)
    (G : list live) (userSize j options fileName fileLine : Z) :
  heap_inv debug st G -> (List.length G < fuel)%nat ->
  0 <= userSize -> 3 <= j <= 15 -> required debug userSize (2 ^ j) < 2 ^ 63 ->
  fst (fst (call_allocator Function ALLOCATE Context_
              (required debug userSize (2 ^ j)) 0 0
              (Z.lor options (AllocOptions Ctx)) (allocators st))) <> 0 ->
  exists p st',
    general_allocate debug Ctx A call_allocator fuel Function Context_ st
      userSize (2 ^ j) options fileName fileLine = Returns (p, st')
    /\ p mod 2 ^ j = 0
    /\ rd_s64 (mem st') (p - sizeof_allocation_header debug) (f_Size debug) = userSize.
Proof.
  intros Hinv Hfuel Hs Hj Hr Hnz.
  destruct (call_allocator Function ALLOCATE Context_
              (required debug userSize (2 ^ j)) 0 0
              (Z.lor options (AllocOptions Ctx)) (allocators st))
    as [[block o'] a'] eqn:Ec.
  cbn [fst] in Hnz.
  destruct (general_allocate_spec debug fuel st G userSize j options fileName
              fileLine block o' a' Hinv Hfuel Hs Hj Hr Ec Hnz)
    as (p & st' & E & Hal & Hsz & _).
  exists p, st'. auto.
Qed.

(** *** C10: the size passed to FREE *)

(** C10, as amended: for a power-of-two alignment [a] from the pointer size
    up to 32768 (what the 16-bit [Alignment] field of the header holds),
    [general_allocate] asks ALLOCATE for
    [s + a + sizeof(allocation_header) + sizeof(allocation_header) % a]
    bytes (plus the guard bytes with DEBUG_MEMORY), and whenever the
    allocation is later freed, in any state of the heap in which it is still
    live and intact, [general_free] passes the FREE of the same allocator
    the block ALLOCATE answered and that same size.  The heap may hold the
    live allocations of other allocators, at the allocation and at the
    free.  Both builds. *)
Theorem free_passes_the_requested_size (debug : bool) (fuel : nat) (st : state A)
    (G : list live) (userSize j options fileName fileLine : Z) :
  heap_inv debug st G -> (List.length G < fuel)%nat ->
  0 <= userSize -> 3 <= j <= 15 -> required debug userSize (2 ^ j) < 2 ^ 63 ->
  fst (fst (call_allocator Function ALLOCATE Context_
              (required debug userSize (2 ^ j)) 0 0
              (Z.lor options (AllocOptions Ctx)) (allocators st))) <> 0 ->
  let total := userSize + (2 ^ j + sizeof_allocation_header debug
                           + sizeof_allocation_header debug mod 2 ^ j)
               + (if debug then NO_MANS_LAND_SIZE else 0) in
  exists p st1 block,
    general_allocate debug Ctx A call_allocator fuel Function Context_ st
      userSize (2 ^ j) options fileName fileLine = Returns (p, st1)
    /\ calls st1 = mk_call Function ALLOCATE Context_ total 0 0 block :: calls st
    /\ let lb := mk_live (p - sizeof_allocation_header debug) block userSize (2 ^ j)
                 Function Context_ in
       heap_inv debug st1 (lb :: G)
       /\ forall (st2 : state A) (G1 G2 : list live) (fuel2 : nat) (options2 : Z),
            heap_inv debug st2 (G1 ++ lb :: G2) ->
            (List.length (G1 ++ G2) <= fuel2)%nat ->
            exists st3 r,
              general_free debug Ctx A call_allocator fuel2 st2 p options2
                = Returns st3
              /\ calls st3 = mk_call Function FREE Context_ 0 block total r :: calls st2.
Proof.
  intros Hinv Hfuel Hs Hj Hr Hnz total.
  destruct (call_allocator Function ALLOCATE Context_
              (required debug userSize (2 ^ j)) 0 0
              (Z.lor options (AllocOptions Ctx)) (allocators st))
    as [[block o'] a'] eqn:Ec.
  cbn [fst] in Hnz.
  destruct (general_allocate_spec debug fuel st G userSize j options fileName
              fileLine block o' a' Hinv Hfuel Hs Hj Hr Ec Hnz)
    as (p & st1 & E & Hal & Hsz & Hcalls & Hinv1).
  exists p, st1, block. split; [exact E|]. split; [exact Hcalls|].
  cbv zeta. split; [exact Hinv1|].
  intros st2 G1 G2 fuel2 options2 Hinv2 Hfuel2.
  destruct (general_free_returns debug fuel2 st2 G1 G2 _ options2
              (proj1 (proj1 (heap_inv_mem _ _ _) Hinv2)) Hfuel2)
    as (st3 & r & _ & E3 & _ & Hc3 & _).
  cbn [l_header l_block l_size l_align l_function l_context] in E3, Hc3.
  replace (p - sizeof_allocation_header debug + sizeof_allocation_header debug)
    with p in E3 by lia.
  exists st3, r. split; [exact E3|exact Hc3].
Qed.

(** *** C6: freeing twice *)

(** Without DEBUG_MEMORY [general_free] verifies nothing and changes no
    memory: it reads the header and calls FREE. *)
Lemma general_free_release (fuel : nat) (st : state A) (lb : live) (options : Z) :
  live_ok false (mem st) lb ->
  exists st' r,
    general_free false Ctx A call_allocator fuel st (l_header lb + 40) options
      = Returns st'
    /\ calls st' = mk_call (l_function lb) FREE (l_context lb) 0 (l_block lb)
                     (required false (l_size lb) (l_align lb)) r :: calls st
    /\ mem st' = mem st.
Proof using Ctx A call_allocator.
  intros Hlb.
  destruct (live_ok_within _ _ _ Hlb) as (W1 & W2 & W3 & W4 & W5).
  pose proof Hlb as ((j & Hj & Ea) & Hs & Hb & Hr63 & Hlim & Hle & Hap & Hat).
  assert (Ha : 2 ^ 3 <= 2 ^ j <= 2 ^ 15) by (split; apply pow2_le_mono; lia).
  destruct Hat as (HF & HC & HS & HA & HP & _).
  rewrite Ea in *.
  destruct (required_eq false (l_size lb) j Hj Hs Hr63) as (extra & Eextra & Ereq & Hreq).
  unfold sizeof_allocation_header, NO_MANS_LAND_SIZE in *.
  unfold general_free.
  assert (E0 : (l_header lb + 40 =? 0) = false) by (apply Z.eqb_neq; lia).
  rewrite E0. change (sizeof_allocation_header false) with 40.
  replace (l_header lb + 40 - 40) with (l_header lb) by lia.
  rewrite (wrap64_small (l_header lb)) by lia.
  unfold verify_header, verify_header_unlocked. cbn [bind].
  rewrite HA, Eextra. cbn [bind].
  unfold rd_s64. rewrite HS, (to_s64_small (l_size lb)) by lia. rewrite Ereq.
  rewrite HF, HC, HP. replace (l_header lb - (l_header lb - l_block lb))
    with (l_block lb) by lia.
  rewrite (wrap64_small (l_block lb)) by lia.
  unfold call.
  destruct (call_allocator (l_function lb) FREE (l_context lb) 0 (l_block lb)
              (required false (l_size lb) (2 ^ j))
              (Z.lor options (AllocOptions Ctx)) (allocators st))
    as [[r o'] a'].
  unfold verify_heap. cbn [bind].
  eexists _, r. split; [reflexivity|]. split; reflexivity.
Qed.

(** With DEBUG_MEMORY, a header whose bytes are all [0xDD] stops
    [general_free] at the assertion of [verify_header]. *)
Lemma general_free_of_dead_header (fuel : nat) (st : state A) (h options : Z) :
  0 < h -> h + 104 < 2 ^ 64 ->
  all_bytes (mem st) h (Z.to_nat 104) DEAD_LAND_FILL = true ->
  general_free true Ctx A call_allocator fuel st (h + 104) options
    = AssertionFailed "Trying to access freed memory!".
Proof using Ctx A call_allocator.
  intros Hh Hlim Hdead. unfold general_free.
  assert (E0 : (h + 104 =? 0) = false) by (apply Z.eqb_neq; lia).
  rewrite E0. change (sizeof_allocation_header true) with 104.
  replace (h + 104 - 104) with h by lia. rewrite (wrap64_small h) by lia.
  unfold verify_header, verify_header_unlocked.
  change (sizeof_allocation_header true) with 104.
  rewrite Hdead. reflexivity.
Qed.

(** C6, as amended: freeing a live allocation twice, on an intact heap
    that may hold the allocations of several allocators.  The first
    [general_free] returns, having called the FREE of the allocator in the
    header with the raw block and its size.  With DEBUG_MEMORY it has filled
    the raw block, which contains the header, with [0xDD], and in every
    later state in which the 104 bytes of that header are still as it left
    them, a second [general_free] of the pointer stops at the assertion
    "Trying to access freed memory!".  Without DEBUG_MEMORY nothing detects
    the second call: the first [general_free] leaves the memory as it is,
    and the second reads the same header and calls the same FREE once more,
    with the same block and size. *)
Theorem free_twice (debug : bool) (fuel : nat) (st : state A)
    (G1 G2 : list live) (lb : live) (options : Z) :
  heap_inv debug st (G1 ++ lb :: G2) ->
  (List.length (G1 ++ G2) <= fuel)%nat ->
  let p := l_header lb + sizeof_allocation_header debug in
  let size := required debug (l_size lb) (l_align lb) in
  let FREE_call r :=
    mk_call (l_function lb) FREE (l_context lb) 0 (l_block lb) size r in
  exists st1 r1,
    general_free debug Ctx A call_allocator fuel st p options = Returns st1
    /\ calls st1 = FREE_call r1 :: calls st
    /\ if debug then
         (forall x, l_block lb <= x < l_block lb + size ->
                    mem st1 x = DEAD_LAND_FILL)
         /\ l_block lb <= l_header lb
         /\ l_header lb + 104 <= l_block lb + size
         /\ all_bytes (mem st1) (l_header lb) (Z.to_nat 104) DEAD_LAND_FILL = true
         /\ forall (st2 : state A) (fuel2 : nat) (options2 : Z),
              (forall x, l_header lb <= x < l_header lb + 104 ->
                         mem st2 x = mem st1 x) ->
              general_free debug Ctx A call_allocator fuel2 st2 p options2
                = AssertionFailed "Trying to access freed memory!"
       else
         mem st1 = mem st
         /\ forall (fuel2 : nat) (options2 : Z),
              exists st2 r2,
                general_free debug Ctx A call_allocator fuel2 st1 p options2
                  = Returns st2
                /\ calls st2 = FREE_call r2 :: calls st1.
Proof using Ctx A call_allocator ainv.
  intros Hinv Hfuel p size FREE_call. subst p size FREE_call.
  assert (Hlb : live_ok debug (mem st) lb).
  { destruct Hinv as (Hall & _). rewrite Forall_forall in Hall.
    apply Hall, in_app_iff. right. now left. }
  apply heap_inv_mem in Hinv. destruct Hinv as [Hmem _].
  destruct (general_free_returns debug fuel st G1 G2 lb options Hmem Hfuel)
    as (st1 & r & _ & E1 & _ & C1 & _ & Hdead & Hrel & Hfill).
  exists st1, r. split; [exact E1|]. split; [exact C1|].
  destruct debug.
  - destruct (live_ok_within _ _ _ Hlb) as (W1 & W2 & W3 & W4 & W5).
    change (sizeof_allocation_header true) with 104 in W2, W5 |- *.
    assert (Hin : l_header lb + 104
                  <= l_block lb + required true (l_size lb) (l_align lb)).
    { unfold header_hi, sizeof_allocation_header, NO_MANS_LAND_SIZE in W2.
      cbn [snd block_of] in W2. lia. }
    split; [now apply Hfill|]. split; [exact W1|]. split; [exact Hin|].
    split; [now apply Hdead|].
    intros st2 fuel2 options2 Hsame.
    assert (Hlt : l_header lb + 104 < 2 ^ 64).
    { unfold header_hi, sizeof_allocation_header, NO_MANS_LAND_SIZE in W2.
      cbn [snd block_of] in W2.
      destruct Hlb as (_ & Hs & _ & _ & Hlim & _). lia. }
    apply general_free_of_dead_header; [lia|exact Hlt|].
    rewrite <- (Hdead eq_refl). apply all_bytes_ext.
    intros x Hx. apply Hsame. lia.
  - split; [now apply Hrel|].
    intros fuel2 options2.
    assert (Hlb1 : live_ok false (mem st1) lb)
      by (rewrite (Hrel eq_refl); exact Hlb).
    destruct (general_free_release fuel2 st1 lb options2 Hlb1) as (st2 & r2 & E2 & C2 & _).
    exists st2, r2. split; [exact E2|exact C2].
Qed.

(** *** Sequences of allocations and frees *)

(** In this run every ALLOCATE the front end issues is answered with a
    block. *)
Fixpoint allocations_succeed (debug : bool) (fuel : nat) (rs : list request)
    (st : state A) (held : list Z) : Prop :=
  match rs with
  | [] => True
  | Allocate s j o fn fl :: rest =>
      fst (fst (call_allocator Function ALLOCATE Context_
                  (required debug s (2 ^ j)) 0 0
                  (Z.lor o (AllocOptions Ctx)) (allocators st))) <> 0
      /\ match general_allocate debug Ctx A call_allocator fuel Function Context_
                 st s (2 ^ j) o fn fl with
         | Returns (p, st') => allocations_succeed debug fuel rest st' (p :: held)
         | _ => True
         end
  | Free k o :: rest =>
      match nth_error held k with
      | None => allocations_succeed debug fuel rest st held
      | Some p =>
          match general_free debug Ctx A call_allocator fuel st p o with
          | Returns st' => allocations_succeed debug fuel rest st' (remove_nth k held)
          | _ => True
          end
      end
  end.

(** The pointer the program holds for a live allocation. *)
Definition pointer_of (debug : bool) (lb : live) : Z :=
  l_header lb + sizeof_allocation_header debug.

Lemma required_in_range (debug : bool) (s j : Z) :
  0 <= s < 2 ^ 62 -> 3 <= j <= 15 -> required debug s (2 ^ j) < 2 ^ 63.
Proof.
  intros Hs Hj.
  assert (Ha : 2 ^ 3 <= 2 ^ j <= 2 ^ 15) by (split; apply pow2_le_mono; lia).
  unfold required.
  pose proof (Z.mod_pos_bound (sizeof_allocation_header debug) (2 ^ j) ltac:(lia)).
  destruct debug; unfold sizeof_allocation_header, NO_MANS_LAND_SIZE in *; lia.
Qed.

Lemma nth_error_split_live (G : list live) (k : nat) :
  (k < List.length G)%nat ->
  exists G1 lb G2, G = G1 ++ lb :: G2 /\ List.length G1 = k.
Proof.
  revert k. induction G as [|x G IH]; intros k Hk; cbn in Hk; [lia|].
  destruct k as [|k].
  - exists [], x, G. split; reflexivity.
  - destruct (IH k ltac:(lia)) as (G1 & lb & G2 & E & Hl).
    exists (x :: G1), lb, G2. split; [now rewrite E|cbn; now rewrite Hl].
Qed.

Lemma nth_error_pointers (debug : bool) (G1 G2 : list live) (lb : live) :
  nth_error (map (pointer_of debug) (G1 ++ lb :: G2)) (List.length G1)
    = Some (pointer_of debug lb).
Proof. induction G1 as [|x G1 IH]; cbn; auto. Qed.

Lemma remove_nth_pointers (debug : bool) (G1 G2 : list live) (lb : live) :
  remove_nth (List.length G1) (map (pointer_of debug) (G1 ++ lb :: G2))
    = map (pointer_of debug) (G1 ++ G2).
Proof. induction G1 as [|x G1 IH]; cbn; [reflexivity|now rewrite IH]. Qed.

(** The allocations of the allocator the program allocates with. *)
Definition owned (lb : live) : Prop :=
  l_function lb = Function /\ l_context lb = Context_.

(** A run of allocations and frees keeps the heap invariant.  [G] are the
    allocations the program holds, [G0] the other live allocations of the
    heap, of whatever allocator. *)
Lemma run_keeps_the_heap (debug : bool) (fuel : nat) (rs : list request)
    (G0 : list live) :
  forall (st : state A) (G : list live),
    heap_inv debug st (G ++ G0) ->
    Forall owned G ->
    well_formed rs (List.length G) = true ->
    (List.length (G ++ G0) + allocations rs < fuel)%nat ->
    allocations_succeed debug fuel rs st (map (pointer_of debug) G) ->
    exists st' G',
      run debug Ctx A call_allocator fuel Function Context_ rs st
        (map (pointer_of debug) G) = Returns (st', map (pointer_of debug) G')
      /\ heap_inv debug st' (G' ++ G0)
      /\ (List.length G' + frees rs = List.length G + allocations rs)%nat.
Proof.
  induction rs as [|r rs IH]; intros st G Hinv Hown Hwf Hfuel Hok.
  - exists st, G. cbn [run]. split; [reflexivity|]. split; [exact Hinv|].
    unfold frees, allocations. cbn. lia.
  - destruct r as [s j o fn fl|k o].
    + cbn [well_formed] in Hwf.
      repeat (apply andb_prop in Hwf; destruct Hwf as [Hwf ?]).
      assert (Hs : 0 <= s < 2 ^ 62) by lia.
      assert (Hj : 3 <= j <= 15) by lia.
      cbn [allocations_succeed] in Hok. destruct Hok as [Hnz Hok].
      destruct (call_allocator Function ALLOCATE Context_
                  (required debug s (2 ^ j)) 0 0
                  (Z.lor o (AllocOptions Ctx)) (allocators st))
        as [[block o'] a'] eqn:Ec.
      cbn [fst] in Hnz.
      assert (Hf1 : (List.length (G ++ G0) < fuel)%nat).
      { unfold allocations in Hfuel. cbn in Hfuel. lia. }
      destruct (general_allocate_spec debug fuel st (G ++ G0) s j o fn fl block o' a'
                  Hinv Hf1 (proj1 Hs) Hj (required_in_range debug s j Hs Hj) Ec Hnz)
        as (p & st1 & E & _ & _ & _ & Hinv1).
      rewrite E in Hok.
      set (lb := mk_live (p - sizeof_allocation_header debug) block s (2 ^ j)
                   Function Context_) in *.
      assert (Ep : p = pointer_of debug lb) by (unfold pointer_of, lb; cbn; lia).
      rewrite Ep in Hok.
      change (pointer_of debug lb :: map (pointer_of debug) G)
        with (map (pointer_of debug) (lb :: G)) in Hok.
      destruct (IH st1 (lb :: G) Hinv1) as (st' & G' & Er & Hinv' & Hlen); auto.
      { constructor; [split; reflexivity|exact Hown]. }
      { unfold allocations in *. cbn in *. lia. }
      exists st', G'. split; [|split; [exact Hinv'|]].
      * cbn [run]. rewrite E. cbn [bind]. rewrite Ep. exact Er.
      * unfold allocations, frees in *. cbn in *. lia.
    + cbn [well_formed] in Hwf. apply andb_prop in Hwf. destruct Hwf as [Hk Hwf].
      apply Nat.ltb_lt in Hk.
      destruct (nth_error_split_live G k Hk) as (G1 & lb & G2 & EG & Hl).
      subst G k.
      cbn [allocations_succeed] in Hok. rewrite nth_error_pointers in Hok.
      apply Forall_app in Hown. destruct Hown as [Hown1 Hown2].
      apply Forall_cons_iff in Hown2. destruct Hown2 as [[Hfn Hcx] Hown2].
      rewrite <- app_assoc in Hinv, Hfuel. cbn [app] in Hinv, Hfuel.
      assert (Hf1 : (List.length (G1 ++ G2 ++ G0) <= fuel)%nat).
      { rewrite !length_app in *. cbn [List.length] in Hfuel.
        rewrite length_app in Hfuel. lia. }
      destruct (general_free_spec debug fuel st G1 (G2 ++ G0) lb o Hinv Hfn Hcx Hf1)
        as (st1 & r & E & _ & Hinv1 & _).
      fold (pointer_of debug lb) in E. rewrite E in Hok.
      rewrite remove_nth_pointers in Hok.
      assert (Hlen1 : Nat.pred (List.length (G1 ++ lb :: G2)) = List.length (G1 ++ G2)).
      { rewrite !length_app. cbn. lia. }
      rewrite Hlen1 in Hwf. rewrite app_assoc in Hinv1.
      destruct (IH st1 (G1 ++ G2) Hinv1) as (st' & G' & Er & Hinv' & Hlen); auto.
      { apply Forall_app. split; assumption. }
      { unfold allocations in *. cbn in *. rewrite !length_app in *.
        cbn [List.length] in Hfuel. rewrite ?length_app in Hfuel. lia. }
      exists st', G'. split; [|split; [exact Hinv'|]].
      * cbn [run]. rewrite nth_error_pointers, E. cbn [bind].
        rewrite remove_nth_pointers. exact Er.
      * unfold allocations, frees in *. cbn in *. rewrite !length_app in *. cbn. lia.
Qed.

Lemma count_linked_dll (fuel : nat) (m : memory) :
  forall (L : list Z) (prev cur : Z),
    dll m prev cur L -> (List.length L <= fuel)%nat ->
    count_linked fuel m cur = Some (List.length L).
Proof.
  induction fuel as [|fuel IH]; intros L prev cur Hd Hf.
  - destruct L; [|cbn in Hf; lia]. cbn in Hd. subst cur. reflexivity.
  - destruct L as [|h L].
    + cbn in Hd. subst cur. reflexivity.
    + cbn [dll] in Hd. destruct Hd as (Ec & Hnz & _ & Hd). subst cur.
      cbn [count_linked]. assert (E : (h =? 0) = false) by (apply Z.eqb_neq; lia).
      rewrite E. rewrite (IH L h _ Hd) by (cbn in Hf; lia). reflexivity.
Qed.

(** X1.  With DEBUG_MEMORY, on an intact heap with [K] live allocations, of
    whatever allocators: after a program that allocates through one
    allocator has made [N] allocations, each answered with a block by an
    allocator that follows the protocol, and has freed [M] of the pointers
    these allocations gave it, in any order, the run returns and the
    tracker list links [K + N - M] headers: one for each allocation that
    was live at the start and one for each pointer the program still
    holds. *)
Theorem tracker_counts_live_allocations (fuel : nat) (rs : list request)
    (st : state A) (G0 : list live) :
  heap_inv true st G0 ->
  well_formed rs 0 = true ->
  (List.length G0 + allocations rs < fuel)%nat ->
  allocations_succeed true fuel rs st [] ->
  exists st' held,
    run true Ctx A call_allocator fuel Function Context_ rs st [] = Returns (st', held)
    /\ count_linked fuel (mem st') (DEBUG_Head st')
         = Some (List.length G0 + (allocations rs - frees rs))%nat
    /\ List.length held = (allocations rs - frees rs)%nat.
Proof.
  intros Hinv Hwf Hfuel Hok.
  destruct (run_keeps_the_heap true fuel rs G0 st [] Hinv (Forall_nil _) Hwf Hfuel Hok)
    as (st' & G' & Er & Hinv' & Hlen).
  cbn [map List.length Nat.add] in *.
  exists st', (map (pointer_of true) G'). split; [exact Er|].
  destruct Hinv' as (_ & _ & Hd & _). specialize (Hd eq_refl).
  assert (El : List.length G' = (allocations rs - frees rs)%nat) by lia.
  split.
  - rewrite <- El, Nat.add_comm, <- length_app, <- (length_map l_header (G' ++ G0)).
    apply (count_linked_dll fuel (mem st') _ 0 _ Hd).
    rewrite length_map, length_app. lia.
  - rewrite length_map. exact El.
Qed.

(** *** Reallocation to a larger size, without DEBUG_MEMORY *)

Lemma load_copy_other (m : memory) (dest src num addr n : Z) :
  addr + n <= dest \/ dest + num <= addr ->
  load (copy_memory m dest src num) addr n = load m addr n.
Proof.
  intros Hd. apply load_ext. intros x Hx. unfold copy_memory.
  destruct (in_range dest num x) eqn:E; [|reflexivity].
  apply in_range_true in E. lia.
Qed.

Lemma agree_outside_copy (lo hi : Z) (m : memory) (dest src num : Z) :
  lo <= dest -> dest + num <= hi ->
  agree_outside lo hi m (copy_memory m dest src num).
Proof.
  intros Hlo Hhi x Hx. unfold copy_memory.
  destruct (in_range dest num x) eqn:E; [|reflexivity].
  apply in_range_true in E. lia.
Qed.

(** RESIZE either reports that the block must move, and changes nothing, or
    resizes the block where it is, without running into another block. *)
Hypothesis RESIZE_conforms :
  forall a B1 B2 b n n' o r o' a',
    ainv a (B1 ++ (b, n) :: B2) -> 0 <= n' ->
    call_allocator Function RESIZE Context_ n' b n o a = (r, o', a') ->
    (r = 0 /\ ainv a' (B1 ++ (b, n) :: B2))
    \/ (r = b /\ b + n' <= 2 ^ 64
        /\ (forall y, In y (B1 ++ B2) -> disjoint (b, n') y)
        /\ ainv a' (B1 ++ (b, n') :: B2)).

(** The allocator's record of the blocks it has handed out does not depend
    on their order. *)
Hypothesis ainv_perm :
  forall a B B', Permutation B B' -> ainv a B -> ainv a B'.

Lemma general_reallocate_grows_release (fuel : nat) (st : state A)
    (G1 G2 : list live) (lb : live) (newUserSize options fileName fileLine : Z) :
  heap_inv false st (G1 ++ lb :: G2) ->
  l_function lb = Function -> l_context lb = Context_ ->
  l_size lb < newUserSize ->
  required false newUserSize (l_align lb) < 2 ^ 63 ->
  (forall r o1 a1,
     call_allocator Function RESIZE Context_ (required false newUserSize (l_align lb))
       (l_block lb) (required false (l_size lb) (l_align lb))
       (Z.lor options (AllocOptions Ctx)) (allocators st) = (r, o1, a1) ->
     r = 0 ->
     fst (fst (call_allocator Function ALLOCATE Context_
                 (required false newUserSize (l_align lb)) 0 0 o1 a1)) <> 0) ->
  exists q st' lb',
    general_reallocate false Ctx A call_allocator fuel st (l_header lb + 40)
      newUserSize options fileName fileLine = Returns (q, st')
    /\ q = l_header lb' + 40 /\ l_size lb' = newUserSize
    /\ l_align lb' = l_align lb
    /\ (fst (fst (call_allocator Function RESIZE Context_
                    (required false newUserSize (l_align lb)) (l_block lb)
                    (required false (l_size lb) (l_align lb))
                    (Z.lor options (AllocOptions Ctx)) (allocators st))) <> 0 ->
        q = l_header lb + 40 /\ l_block lb' = l_block lb)
    /\ (forall i, 0 <= i < l_size lb ->
                  mem st' (q + i) = mem st (l_header lb + 40 + i))
    /\ heap_inv false st' (G1 ++ lb' :: G2).
Proof.
  intros (Hall & Hpd & Hdll & Hainv) Hfn Hcx Hgrow Hr63' Hnonnull.
  pose proof Hall as Hall0. pose proof Hpd as Hpd0.
  apply Forall_app in Hall. destruct Hall as [Hall1 Hall2].
  apply Forall_cons_iff in Hall2. destruct Hall2 as [Hlb Hall2'].
  assert (Hall12 : Forall (live_ok false (mem st)) (G1 ++ G2))
    by (apply Forall_app; split; assumption).
  rewrite map_app in Hpd, Hainv. cbn [map] in Hpd, Hainv.
  apply pairwise_disjoint_app in Hpd. destruct Hpd as [Hpd12 Hdisj].
  rewrite <- map_app in Hpd12, Hdisj.
  change (block_of false lb)
    with (l_block lb, required false (l_size lb) (l_align lb)) in Hainv, Hdisj.
  destruct (live_ok_within _ _ _ Hlb) as (W1 & W2 & W3 & W4 & W5).
  pose proof Hlb as ((j & Hj & Ea) & Hs & Hb & Hr63 & Hlim & Hle & Hap & Hat).
  assert (Ha : 2 ^ 3 <= 2 ^ j <= 2 ^ 15) by (split; apply pow2_le_mono; lia).
  destruct Hat as (HF & HC & HS & HA & HP & HD).
  rewrite Hfn in HF. rewrite Hcx in HC.
  rewrite Ea in *.
  destruct (required_eq false (l_size lb) j Hj Hs Hr63) as (extra & Eextra & Ereq & Hreq).
  destruct (required_eq false newUserSize j Hj ltac:(lia) Hr63')
    as (extra' & Eextra' & Ereq' & Hreq').
  assert (Ee : extra' = extra) by congruence. subst extra'.
  set (h := l_header lb) in *. set (b := l_block lb) in *. set (s := l_size lb) in *.
  set (req := required false s (2 ^ j)) in *.
  set (req' := required false newUserSize (2 ^ j)) in *.
  assert (Hrr : req' - req = newUserSize - s) by (unfold req, req', required; lia).
  change (sizeof_allocation_header false) with 40 in *.
  unfold NO_MANS_LAND_SIZE in *.
  unfold general_reallocate, general_reallocate_resize.
  change (sizeof_allocation_header false) with 40.
  replace (h + 40 - 40) with h by lia.
  rewrite (wrap64_small h) by lia.
  unfold verify_header, verify_header_unlocked. cbn [bind].
  unfold rd_s64. rewrite HS, (to_s64_small s) by lia.
  assert (Ene : (s =? newUserSize) = false) by (apply Z.eqb_neq; lia).
  rewrite Ene.
  destruct (log_allocation_same st ">>> Reallocation made at: "
              (Z.lor options (AllocOptions Ctx)) fileName fileLine)
    as (Lm & Lh & Lc & La & Lk).
  set (stl := log_allocation Ctx A st ">>> Reallocation made at: "
                (Z.lor options (AllocOptions Ctx)) fileName fileLine) in *.
  rewrite Lm, HA, Eextra. cbn [bind].
  rewrite HS, (to_s64_small s) by lia. unfold guard_bytes.
  rewrite !Z.add_0_r.
  unfold guard_bytes in Ereq, Ereq'. rewrite Z.add_0_r in Ereq, Ereq'.
  rewrite Ereq, Ereq', HF, HC, HP. replace (h - (h - b)) with b by lia.
  rewrite (wrap64_small b) by lia.
  unfold call at 1. rewrite La.
  destruct (call_allocator Function RESIZE Context_ req' b req
              (Z.lor options (AllocOptions Ctx)) (allocators st))
    as [[r o1] a1] eqn:Ec.
  assert (Hreq0' : 0 <= req') by lia.
  assert (Hlt : (req <? req') = true) by (apply Z.ltb_lt; lia).
  destruct (RESIZE_conforms _ _ _ _ _ _ _ _ _ _ Hainv Hreq0' Ec)
    as [(Er & Hainv1) | (Er & Hlim' & Hdisj' & Hainv1)].
  - (* the block must move *)
    subst r. cbn [Z.eqb].
    specialize (Hnonnull 0 o1 a1 eq_refl eq_refl).
    unfold call at 1. cbn [allocators].
    destruct (call_allocator Function ALLOCATE Context_ req' 0 0 o1 a1)
      as [[nb o2] a2] eqn:Ec2.
    cbn [fst] in Hnonnull.
    destruct (ALLOCATE_conforms _ _ _ _ _ _ _ Hainv1 Hreq0' Ec2 Hnonnull)
      as (Hnb0 & Hnblim & Hfresh & Hainv2).
    cbn [mem]. rewrite Lm, HA.
    match goal with |- context [encode_header _ _ ?s _ _ _ _ _ _] => set (st2 := s) end.
    assert (Hnew63 : 0 <= newUserSize < 2 ^ 63) by lia.
    assert (Hnblock : nb + newUserSize + 2 ^ j + sizeof_allocation_header false
                      + (if false then NO_MANS_LAND_SIZE else 0) <= 2 ^ 64)
      by (change (sizeof_allocation_header false) with 40; lia).
    destruct (encode_header_spec false A st2 nb newUserSize j Function Context_ o2
                Hj Hnb0 Hnew63 Hnblock Function_u64 Context_u64)
      as (q & st3 & Eenc & E3h & E3a & E3k & E3l & E3c & Hal & Hle' & Hap' & Hagree
          & Hat' & _).
    rewrite Eenc. cbn [bind].
    change (sizeof_allocation_header false) with 40 in *.
    unfold header_hi in Hagree. change (sizeof_allocation_header false) with 40 in Hagree.
    rewrite Z.add_0_r in Hagree.
    set (nh := q - 40) in *.
    assert (Hnh : 0 <= nh /\ nh + 40 + newUserSize <= nb + req') by lia.
    rewrite (wrap64_small nh) by lia.
    replace (nh + 40) with q by (unfold nh; lia).
    rewrite (wrap64_small q) by (unfold nh in *; lia).
    assert (Hm2 : mem st2 = mem st) by reflexivity.
    (* the old block and the new one do not overlap *)
    assert (Hapart : b + req <= nb \/ nb + req' <= b).
    { specialize (Hfresh (b, req)). unfold disjoint in Hfresh. cbn [fst snd] in Hfresh.
      assert (Hin : In (b, req)
                      (map (block_of false) G1 ++ (b, req) :: map (block_of false) G2))
        by (apply in_app_iff; right; now left).
      specialize (Hfresh Hin). lia. }
    unfold header_hi in W2. change (sizeof_allocation_header false) with 40 in W2.
    cbn [snd block_of] in W2. fold b s in W2. rewrite Ea in W2. fold req in W2.
    set (m4 := wr (mem st3) nh (f_Owner false) (rd (mem st3) h (f_Owner false))).
    assert (E4s : rd m4 h (f_Size false) = s).
    { unfold m4. unfold_fields. rewrite load_store_other by lia.
      rewrite (load_agree _ _ _ _ _ _ Hagree) by lia. exact HS. }
    rewrite E4s, (to_s64_small s) by lia.
    set (m5 := copy_memory m4 q (h + 40) s).
    unfold call.
    cbn [allocators set_mem]. rewrite E3a. unfold st2 at 1. cbn [allocators].
    destruct (call_allocator Function FREE Context_ 0 b req o2 a2)
      as [[r3 o3] a3] eqn:Ec3.
    assert (Hainv3 : ainv a3 ((nb, req') :: map (block_of false) (G1 ++ G2))).
    { rewrite map_app.
      exact (FREE_conforms a2 ((nb, req') :: map (block_of false) G1)
               (map (block_of false) G2) b req o2 r3 o3 a3 Hainv2 Ec3). }
    cbn [bind mem set_mem]. rewrite Hlt.
    rewrite (wrap64_small (q + s)) by (unfold nh in *; lia).
    unfold verify_heap. cbn [bind].
    set (mt := if negb (Z.land o3 DO_INIT_0 =? 0)
               then fill_memory m5 (q + s) 0 (req' - req) else m5).
    exists q. eexists. exists (mk_live nh nb newUserSize (2 ^ j) Function Context_).
    split; [reflexivity|]. cbn [l_header l_block l_size l_align mem set_mem].
    split; [unfold nh; lia|]. split; [reflexivity|]. split; [reflexivity|].
    split; [intros Hr; exfalso; apply Hr; reflexivity|].
    assert (Hout : agree_outside nh (nh + 40 + newUserSize) (mem st) mt).
    { apply (agree_outside_trans _ _ _ (mem st3)); [exact Hagree|].
      apply (agree_outside_trans _ _ _ m4).
      { unfold m4, wr. cbn [fst snd f_Owner]. apply agree_outside_store; lia. }
      apply (agree_outside_trans _ _ _ m5).
      { unfold m5. apply agree_outside_copy; unfold nh; lia. }
      unfold mt.
      destruct (negb (Z.land o3 DO_INIT_0 =? 0));
        [apply agree_outside_fill; unfold nh; lia|apply agree_outside_refl]. }
    split.
    + intros i Hi.
      assert (E1 : mt (q + i) = m5 (q + i)).
      { unfold mt. destruct (negb (Z.land o3 DO_INIT_0 =? 0)); [|reflexivity].
        unfold fill_memory.
        destruct (in_range (q + s) (req' - req) (q + i)) eqn:E; [|reflexivity].
        apply in_range_true in E. lia. }
      rewrite E1. unfold m5, copy_memory.
      assert (E2 : in_range q s (q + i) = true) by (apply in_range_true; lia).
      rewrite E2. replace (h + 40 + (q + i - q)) with (h + 40 + i) by lia.
      unfold m4, wr, store. cbn [fst snd f_Owner].
      assert (E3 : in_range (nh + 24) 8 (h + 40 + i) = false)
        by (apply in_range_false; lia).
      rewrite E3. apply Hagree. lia.
    + unfold heap_inv. cbn [mem DEBUG_Head allocators set_mem].
      assert (Hothers : forall lb0, In lb0 (G1 ++ G2) ->
                live_ok false mt lb0).
      { intros lb0 Hin. rewrite Forall_forall in Hall12.
        apply (live_ok_frame false (mem st)); [|now apply Hall12].
        intros x Hx. apply Hout.
        destruct (live_ok_within _ _ _ (Hall12 lb0 Hin)) as (V1 & V2 & _).
        assert (Hin' : In (block_of false lb0)
                         (map (block_of false) G1 ++ (b, req)
                          :: map (block_of false) G2)).
        { apply in_app_iff in Hin. apply in_app_iff.
          destruct Hin as [Hin|Hin]; [left|right; right]; now apply in_map. }
        specialize (Hfresh _ Hin'). unfold disjoint, block_of in *.
        cbn [fst snd] in *. unfold header_lo in Hx. lia. }
      split; [|split; [|split]].
      * apply Forall_app. split; [|constructor].
        -- apply Forall_forall. intros lb0 Hin. apply Hothers, in_app_iff. now left.
        -- unfold live_ok. cbn [l_header l_block l_size l_align l_function l_context].
           split; [exists j; split; [assumption|reflexivity]|].
           split; [lia|]. split; [lia|]. split; [exact Hr63'|].
           split; [exact Hnblim|]. split; [exact Hle'|]. split; [exact Hap'|].
           destruct Hat' as (AF & AC & AS & AA & AP & _).
           unfold header_at. fold m4 m5 mt.
           assert (Hkeep : forall off n, 0 <= off -> off + n <= 40 ->
                      off + n <= 24 \/ 32 <= off ->
                      load mt (nh + off) n = load (mem st3) (nh + off) n).
           { intros off n Ho Hn Hd.
             transitivity (load m5 (nh + off) n).
             - unfold mt. destruct (negb (Z.land o3 DO_INIT_0 =? 0)); [|reflexivity].
               apply load_fill_other. unfold nh. lia.
             - unfold m5. rewrite load_copy_other by (unfold nh; lia).
               unfold m4, wr. cbn [fst snd f_Owner].
               apply load_store_other. lia. }
           unfold_fields.
           rewrite !Hkeep by lia.
           repeat split; try assumption; discriminate.
        -- apply Forall_forall. intros lb0 Hin. apply Hothers, in_app_iff. now right.
      * rewrite map_app. cbn [map]. apply pairwise_disjoint_app.
        rewrite <- map_app. split; [exact Hpd12|].
        cbn [l_block l_size l_align block_of]. fold req'.
        intros y Hy. apply Hfresh. rewrite map_app in Hy.
        apply in_app_iff in Hy. apply in_app_iff.
        destruct Hy as [Hy|Hy]; [now left|right; now right].
      * discriminate.
      * rewrite map_app. cbn [map]. cbn [l_block l_size l_align block_of].
        fold req'.
        apply (ainv_perm a3 ((nb, req') :: map (block_of false) G1
                             ++ map (block_of false) G2)).
        -- apply Permutation_middle.
        -- rewrite map_app in Hainv3. exact Hainv3.
  - (* the block was resized where it is *)
    subst r.
    assert (Eb0 : (b =? 0) = false) by (apply Z.eqb_neq; lia).
    rewrite Eb0, Z.eqb_refl. cbn [assert bind mem set_mem]. rewrite Lm, Hlt.
    rewrite (wrap64_small (h + 40)) by lia.
    rewrite (wrap64_small (h + 40 + s)) by lia.
    unfold verify_heap. cbn [bind].
    set (m1 := wr (mem st) h (f_Size false) newUserSize).
    set (mt := if negb (Z.land o1 DO_INIT_0 =? 0)
               then fill_memory m1 (h + 40 + s) 0 (req' - req) else m1).
    exists (h + 40). eexists. exists (mk_live h b newUserSize (2 ^ j) Function Context_).
    split; [reflexivity|]. cbn [l_header l_block l_size l_align mem set_mem].
    split; [reflexivity|]. split; [reflexivity|]. split; [reflexivity|].
    split; [intros _; split; reflexivity|].
    unfold header_hi in W2. change (sizeof_allocation_header false) with 40 in W2.
    cbn [snd block_of] in W2. fold b s in W2. rewrite Ea in W2. fold req in W2.
    assert (Hout : agree_outside h (h + 40 + newUserSize) (mem st) mt).
    { apply (agree_outside_trans _ _ _ m1).
      { unfold m1, wr. cbn [fst snd f_Size]. apply agree_outside_store; lia. }
      unfold mt.
      destruct (negb (Z.land o1 DO_INIT_0 =? 0));
        [apply agree_outside_fill; lia|apply agree_outside_refl]. }
    split.
    + intros i Hi. unfold mt.
      assert (E1 : m1 (h + 40 + i) = mem st (h + 40 + i)).
      { unfold m1, wr, store. cbn [fst snd f_Size].
        assert (E : in_range (h + 16) 8 (h + 40 + i) = false)
          by (apply in_range_false; lia).
        now rewrite E. }
      destruct (negb (Z.land o1 DO_INIT_0 =? 0)); [|exact E1].
      unfold fill_memory.
      assert (E : in_range (h + 40 + s) (req' - req) (h + 40 + i) = false)
        by (apply in_range_false; lia).
      now rewrite E.
    + unfold heap_inv. cbn [mem DEBUG_Head allocators set_mem].
      split; [|split; [|split]].
      * apply Forall_app. split; [|constructor].
        -- rewrite Forall_forall in *. intros lb0 Hin.
           apply (live_ok_frame false (mem st)); [|now apply Hall1].
           intros x Hx. apply Hout.
           assert (Hin12 : In lb0 (G1 ++ G2)) by (apply in_app_iff; now left).
           destruct (live_ok_within _ _ _ (Hall12 lb0 Hin12)) as (V1 & V2 & _).
           specialize (Hdisj' (block_of false lb0)).
           rewrite <- map_app in Hdisj'. specialize (Hdisj' (in_map _ _ _ Hin12)).
           unfold disjoint, block_of in *. cbn [fst snd] in *.
           unfold header_lo in Hx. lia.
        -- unfold live_ok. cbn [l_header l_block l_size l_align l_function l_context].
           split; [exists j; split; [assumption|reflexivity]|].
           split; [lia|]. split; [lia|]. split; [exact Hr63'|].
           split; [exact Hlim'|]. split; [exact Hle|]. split; [exact Hap|].
           unfold header_at. unfold mt.
           destruct (negb (Z.land o1 DO_INIT_0 =? 0)); unfold m1; unfold_fields;
             rd_simpl; (repeat split; try assumption; try discriminate);
             apply Z.mod_small; lia.
        -- rewrite Forall_forall in *. intros lb0 Hin.
           apply (live_ok_frame false (mem st)); [|now apply Hall2'].
           intros x Hx. apply Hout.
           assert (Hin12 : In lb0 (G1 ++ G2)) by (apply in_app_iff; now right).
           destruct (live_ok_within _ _ _ (Hall12 lb0 Hin12)) as (V1 & V2 & _).
           specialize (Hdisj' (block_of false lb0)).
           rewrite <- map_app in Hdisj'. specialize (Hdisj' (in_map _ _ _ Hin12)).
           unfold disjoint, block_of in *. cbn [fst snd] in *.
           unfold header_lo in Hx. lia.
      * rewrite map_app. cbn [map]. apply pairwise_disjoint_app.
        rewrite <- map_app. split; [exact Hpd12|].
        cbn [l_block l_size l_align block_of]. fold req'.
        rewrite map_app. exact Hdisj'.
      * discriminate.
      * rewrite map_app. cbn [map]. cbn [l_block l_size l_align block_of].
        fold req'. exact Hainv1.
Qed.

(** *** Reallocation to a larger size, with DEBUG_MEMORY *)

(** What [header_at] reads: the fields from [Function] to [Size], from
    [DEBUG_Pointer] to [AlignmentPadding], and the two guards. *)
Lemma header_at_resized (m m' : memory) (h b s s' a f c : Z) :
  header_at true m h b s a f c ->
  (forall x, h + 48 <= x < h + 64 \/ h + 80 <= x < h + 92 \/ h + 100 <= x < h + 104 ->
             m' x = m x) ->
  rd m' h (f_Size true) = s' ->
  all_bytes m' (h + 104 + s') 4 NO_MANS_LAND_FILL = true ->
  header_at true m' h b s' a f c.
Proof.
  intros (H1 & H2 & H3 & H4 & H5 & H6) Hsame Hsize Hguard.
  specialize (H6 eq_refl). destruct H6 as (H6 & H7 & H8).
  unfold header_at. unfold_fields.
  rewrite (load_ext m m' (h + 48)) by (intros; apply Hsame; lia).
  rewrite (load_ext m m' (h + 56)) by (intros; apply Hsame; lia).
  rewrite (load_ext m m' (h + 88)) by (intros; apply Hsame; lia).
  rewrite (load_ext m m' (h + 90)) by (intros; apply Hsame; lia).
  rewrite (load_ext m m' (h + 80)) by (intros; apply Hsame; lia).
  rewrite (all_bytes_ext m m' (h + 100)) by (intros; apply Hsame; cbn in *; lia).
  repeat split; auto.
Qed.

Ltac mem_cases :=
  unfold_fields; unfold store, fill_memory, copy_memory;
  repeat match goal with
         | |- context [in_range ?a ?n ?x] =>
             let E := fresh "E" in
             destruct (in_range a n x) eqn:E;
             [apply in_range_true in E; try lia | apply in_range_false in E]
         end.

Lemma general_reallocate_grows_debug (fuel : nat) (st : state A)
    (G1 G2 : list live) (lb : live) (newUserSize options fileName fileLine : Z) :
  heap_inv true st (G1 ++ lb :: G2) ->
  l_function lb = Function -> l_context lb = Context_ ->
  (List.length (G1 ++ lb :: G2) <= fuel)%nat ->
  l_size lb < newUserSize ->
  required true newUserSize (l_align lb) < 2 ^ 63 ->
  (forall r o1 a1,
     call_allocator Function RESIZE Context_ (required true newUserSize (l_align lb))
       (l_block lb) (required true (l_size lb) (l_align lb))
       (Z.lor options (AllocOptions Ctx)) (allocators st) = (r, o1, a1) ->
     r = 0 ->
     fst (fst (call_allocator Function ALLOCATE Context_
                 (required true newUserSize (l_align lb)) 0 0 o1 a1)) <> 0) ->
  exists q st' lb',
    general_reallocate true Ctx A call_allocator fuel st (l_header lb + 104)
      newUserSize options fileName fileLine = Returns (q, st')
    /\ q = l_header lb' + 104 /\ l_size lb' = newUserSize
    /\ l_align lb' = l_align lb
    /\ (fst (fst (call_allocator Function RESIZE Context_
                    (required true newUserSize (l_align lb)) (l_block lb)
                    (required true (l_size lb) (l_align lb))
                    (Z.lor options (AllocOptions Ctx)) (allocators st))) <> 0 ->
        q = l_header lb + 104 /\ l_block lb' = l_block lb)
    /\ (forall i, 0 <= i < l_size lb ->
                  mem st' (q + i) = mem st (l_header lb + 104 + i))
    /\ heap_inv true st' (G1 ++ lb' :: G2).
Proof.
  intros (Hall & Hpd & Hdll & Hainv) Hfn Hcx Hfuel Hgrow Hr63' Hnonnull.
  pose proof Hall as Hall0. pose proof Hpd as Hpd0.
  apply Forall_app in Hall. destruct Hall as [Hall1 Hall2].
  apply Forall_cons_iff in Hall2. destruct Hall2 as [Hlb Hall2'].
  assert (Hall12 : Forall (live_ok true (mem st)) (G1 ++ G2))
    by (apply Forall_app; split; assumption).
  rewrite map_app in Hpd, Hainv. cbn [map] in Hpd, Hainv.
  apply pairwise_disjoint_app in Hpd. destruct Hpd as [Hpd12 Hdisj].
  rewrite <- map_app in Hpd12, Hdisj.
  change (block_of true lb)
    with (l_block lb, required true (l_size lb) (l_align lb)) in Hainv, Hdisj.
  destruct (live_ok_within _ _ _ Hlb) as (W1 & W2 & W3 & W4 & W5).
  pose proof Hlb as ((j & Hj & Ea) & Hs & Hb & Hr63 & Hlim & Hle & Hap & Hat).
  assert (Ha : 2 ^ 3 <= 2 ^ j <= 2 ^ 15) by (split; apply pow2_le_mono; lia).
  rewrite Hfn, Hcx in Hat.
  pose proof Hat as (HF & HC & HS & HA & HP & HD).
  rewrite Ea in *.
  destruct (required_eq true (l_size lb) j Hj Hs Hr63) as (extra & Eextra & Ereq & Hreq).
  destruct (required_eq true newUserSize j Hj ltac:(lia) Hr63')
    as (extra' & Eextra' & Ereq' & Hreq').
  assert (Ee : extra' = extra) by congruence. subst extra'.
  set (h := l_header lb) in *. set (b := l_block lb) in *. set (s := l_size lb) in *.
  set (req := required true s (2 ^ j)) in *.
  set (req' := required true newUserSize (2 ^ j)) in *.
  assert (Hrr : req' - req = newUserSize - s) by (unfold req, req', required; lia).
  unfold header_hi in W2. cbn [snd block_of] in W2. fold b s in W2.
  rewrite Ea in W2. fold req in W2.
  change (sizeof_allocation_header true) with 104 in *.
  unfold NO_MANS_LAND_SIZE in *.
  specialize (Hdll eq_refl). rewrite map_app in Hdll. cbn [map] in Hdll.
  fold h in Hdll.
  assert (Hheadnz : DEBUG_Head st <> 0).
  { intros E0'. rewrite E0' in Hdll.
    apply dll_split in Hdll as Hsp. destruct Hsp as (Hseg & Hhnz & _).
    destruct (map l_header G1) as [|y L] eqn:EL1.
    - cbn [dlseg] in Hseg. congruence.
    - cbn [dlseg] in Hseg. destruct Hseg as (E & Hy & _). congruence. }
  assert (Hlinks : pairwise_disjoint
                     (links (map l_header G1 ++ h :: map l_header G2))).
  { pose proof (links_of_blocks (mem st) (G1 ++ lb :: G2) Hall0
                  Hpd0) as Hl.
    rewrite !map_app in Hl. cbn [map] in Hl. exact Hl. }
  unfold general_reallocate, general_reallocate_resize.
  change (sizeof_allocation_header true) with 104.
  replace (h + 104 - 104) with h by lia.
  rewrite (wrap64_small h) by lia.
  assert (Ever : verify_header true A st h = Returns tt).
  { unfold verify_header. apply (verify_header_live _ lb). exact Hlb. }
  rewrite Ever. cbn [bind].
  unfold rd_s64. rewrite HS, (to_s64_small s) by lia.
  assert (Ene : (s =? newUserSize) = false) by (apply Z.eqb_neq; lia).
  rewrite Ene.
  destruct (log_allocation_same st ">>> Reallocation made at: "
              (Z.lor options (AllocOptions Ctx)) fileName fileLine)
    as (Lm & Lh & Lc & La & Lk).
  set (stl := log_allocation Ctx A st ">>> Reallocation made at: "
                (Z.lor options (AllocOptions Ctx)) fileName fileLine) in *.
  rewrite Lm, HA, Eextra. cbn [bind].
  rewrite HS, (to_s64_small s) by lia.
  rewrite Ereq, Ereq', HF, HC, HP. replace (h - (h - b)) with b by lia.
  rewrite (wrap64_small b) by lia.
  unfold call at 1. rewrite La.
  destruct (call_allocator Function RESIZE Context_ req' b req
              (Z.lor options (AllocOptions Ctx)) (allocators st))
    as [[r o1] a1] eqn:Ec.
  assert (Hreq0' : 0 <= req') by lia.
  assert (Hlt : (req <? req') = true) by (apply Z.ltb_lt; lia).
  (* the other allocations lie outside the old block *)
  assert (Hoff : forall lb0 x, In lb0 (G1 ++ G2) ->
            l_header lb0 <= x < header_hi true (l_header lb0) (l_size lb0) ->
            x < b \/ b + req <= x).
  { intros lb0 x Hin Hx. rewrite Forall_forall in Hall12.
    destruct (live_ok_within _ _ _ (Hall12 lb0 Hin)) as (V1 & V2 & _).
    specialize (Hdisj _ (in_map (block_of true) _ _ Hin)).
    unfold disjoint, block_of in *. cbn [fst snd] in *. lia. }
  destruct (RESIZE_conforms _ _ _ _ _ _ _ _ _ _ Hainv Hreq0' Ec)
    as [(Er & Hainv1) | (Er & Hlim' & Hdisj' & Hainv1)].
  - (* the block must move *)
    subst r. cbn [Z.eqb].
    specialize (Hnonnull 0 o1 a1 eq_refl eq_refl).
    unfold call at 1. cbn [allocators].
    destruct (call_allocator Function ALLOCATE Context_ req' 0 0 o1 a1)
      as [[nb o2] a2] eqn:Ec2.
    cbn [fst] in Hnonnull.
    destruct (ALLOCATE_conforms _ _ _ _ _ _ _ Hainv1 Hreq0' Ec2 Hnonnull)
      as (Hnb0 & Hnblim & Hfresh & Hainv2).
    cbn [mem]. rewrite Lm, HA.
    match goal with |- context [encode_header _ _ ?s _ _ _ _ _ _] => set (st2 := s) end.
    assert (Hnew63 : 0 <= newUserSize < 2 ^ 63) by lia.
    assert (Hnblock : nb + newUserSize + 2 ^ j + sizeof_allocation_header true
                      + (if true then NO_MANS_LAND_SIZE else 0) <= 2 ^ 64)
      by (change (sizeof_allocation_header true) with 104;
          unfold NO_MANS_LAND_SIZE; lia).
    destruct (encode_header_spec true A st2 nb newUserSize j Function Context_ o2
                Hj Hnb0 Hnew63 Hnblock Function_u64 Context_u64)
      as (q & st3 & Eenc & E3h & E3a & E3k & E3l & E3c & Hal & Hle' & Hap' & Hagree
          & Hat' & Hlk).
    rewrite Eenc. cbn [bind].
    change (sizeof_allocation_header true) with 104 in *.
    unfold header_hi in Hagree. change (sizeof_allocation_header true) with 104 in Hagree.
    unfold NO_MANS_LAND_SIZE in Hagree.
    specialize (Hlk eq_refl). destruct Hlk as [Hlkn Hlkp].
    set (nh := q - 104) in *.
    assert (Hnh : 0 <= nh /\ nh + 104 + newUserSize + 4 <= nb + req') by lia.
    rewrite !(wrap64_small nh) by lia.
    replace (nh + 104) with q by (unfold nh; lia).
    rewrite (wrap64_small q) by (unfold nh in *; lia).
    assert (Hm2 : mem st2 = mem st) by reflexivity.
    assert (Hapart : b + req <= nb \/ nb + req' <= b).
    { specialize (Hfresh (b, req)). unfold disjoint in Hfresh. cbn [fst snd] in Hfresh.
      assert (Hin : In (b, req)
                      (map (block_of true) G1 ++ (b, req) :: map (block_of true) G2))
        by (apply in_app_iff; right; now left).
      specialize (Hfresh Hin). lia. }
    set (m4 := wr (mem st3) nh (f_Owner true) (rd (mem st3) h (f_Owner true))).
    assert (E4s : rd m4 h (f_Size true) = s).
    { unfold m4. unfold_fields. rewrite load_store_other by lia.
      rewrite (load_agree _ _ _ _ _ _ Hagree) by lia. exact HS. }
    rewrite E4s, (to_s64_small s) by lia.
    set (m5 := copy_memory m4 q (h + 104) s).
    set (m6 := wr m5 nh f_ID (rd (mem st) h f_ID)).
    set (m7 := wr m6 nh f_RID (rd m6 h f_RID + 1)).
    (* up to here only the new block was written *)
    assert (F1 : agree_outside nh (nh + 104 + newUserSize + 4) (mem st) m7).
    { apply (agree_outside_trans _ _ _ (mem st3)); [exact Hagree|].
      apply (agree_outside_trans _ _ _ m4).
      { unfold m4, wr. cbn [fst snd f_Owner]. apply agree_outside_store; lia. }
      apply (agree_outside_trans _ _ _ m5).
      { unfold m5. apply agree_outside_copy; unfold nh; lia. }
      apply (agree_outside_trans _ _ _ m6).
      { unfold m6, wr. cbn [fst snd f_ID]. apply agree_outside_store; lia. }
      unfold m7, wr. cbn [fst snd f_RID]. apply agree_outside_store; lia. }
    assert (F2 : forall x, nh <= x < nh + 16 \/ nh + 48 <= x < nh + 72
                           \/ nh + 80 <= x < nh + 104
                           \/ q + s <= x < q + newUserSize + 4 ->
                           m7 x = mem st3 x).
    { intros x Hx. unfold m7, m6, m5, m4. mem_cases; reflexivity. }
    assert (F3 : forall i, 0 <= i < s -> m7 (q + i) = mem st (h + 104 + i)).
    { intros i Hi. unfold m7, m6, wr, store. cbn [fst snd f_RID f_ID].
      assert (E1 : in_range (nh + 24) 8 (q + i) = false)
        by (apply in_range_false; unfold nh; lia).
      assert (E2 : in_range (nh + 16) 8 (q + i) = false)
        by (apply in_range_false; unfold nh; lia).
      rewrite E1, E2. unfold m5, copy_memory.
      assert (E3 : in_range q s (q + i) = true) by (apply in_range_true; lia).
      rewrite E3. replace (h + 104 + (q + i - q)) with (h + 104 + i) by lia.
      unfold m4, wr, store. cbn [fst snd f_Owner].
      assert (E4 : in_range (nh + 72) 8 (h + 104 + i) = false)
        by (apply in_range_false; lia).
      rewrite E4. apply Hagree. lia. }
    (* the list before the swap *)
    set (st7 := set_mem A st3 m7).
    assert (Hhead7 : DEBUG_Head st7 = DEBUG_Head st).
    { unfold st7. cbn [DEBUG_Head set_mem]. rewrite E3h. unfold st2.
      cbn [DEBUG_Head]. exact Lh. }
    assert (Hfar_new : forall lb0 x, In lb0 (G1 ++ lb :: G2) ->
              l_header lb0 <= x < header_hi true (l_header lb0) (l_size lb0) ->
              x < nb \/ nb + req' <= x).
    { intros lb0 x Hin Hx. rewrite Forall_forall in Hall0.
      destruct (live_ok_within _ _ _ (Hall0 lb0 Hin)) as (V1 & V2 & _).
      assert (Hin' : In (block_of true lb0)
                       (map (block_of true) G1 ++ (b, req) :: map (block_of true) G2)).
      { apply in_app_iff in Hin. apply in_app_iff.
        destruct Hin as [Hin|[<-|Hin]];
          [left; now apply in_map
          |right; left; unfold block_of; fold b s; now rewrite Ea
          |right; right; now apply in_map]. }
      specialize (Hfresh _ Hin'). unfold disjoint, block_of in *.
      cbn [fst snd] in *. lia. }
    assert (Hhdr_in : forall y, In y (map l_header G1 ++ h :: map l_header G2) ->
              exists lb0, In lb0 (G1 ++ lb :: G2) /\ l_header lb0 = y
                          /\ 0 <= l_size lb0).
    { intros y Hy.
      assert (Hy' : In y (map l_header (G1 ++ lb :: G2)))
        by (rewrite map_app; exact Hy).
      apply in_map_iff in Hy'. destruct Hy' as (lb0 & E & Hin).
      exists lb0. split; [exact Hin|]. split; [exact E|].
      rewrite Forall_forall in Hall0.
      destruct (live_ok_within _ _ _ (Hall0 lb0 Hin)) as (_ & _ & _ & V4 & _).
      exact V4. }
    assert (Hlink_out : forall y x, In y (map l_header G1 ++ h :: map l_header G2) ->
              y <= x < y + 16 -> x < nb \/ nb + req' <= x).
    { intros y x Hy Hx. destruct (Hhdr_in y Hy) as (lb0 & Hin & <- & Hs0).
      apply (Hfar_new lb0 x Hin).
      unfold header_hi, sizeof_allocation_header, NO_MANS_LAND_SIZE. lia. }
    assert (Hdll7 : dll (mem st7) 0 (DEBUG_Head st7)
                      (map l_header G1 ++ h :: map l_header G2)).
    { rewrite Hhead7. unfold st7. cbn [mem set_mem].
      eapply dll_frame; [|exact Hdll].
      intros y x Hy Hx. apply F1. specialize (Hlink_out y x Hy Hx). lia. }
    assert (Hhead7nz : DEBUG_Head st7 <> 0) by (rewrite Hhead7; exact Hheadnz).
    destruct (DEBUG_swap_header_eq A st7 h nh Hhead7nz)
      as (st8 & Esw & E8m & E8h & E8a & E8k).
    rewrite Esw. cbn [bind].
    assert (Hnh64 : 0 < nh < 2 ^ 64) by lia.
    assert (Hnew_far : forall y, In y (map l_header G1 ++ h :: map l_header G2) ->
              y + 16 <= nh \/ nh + 16 <= y).
    { intros y Hy.
      pose proof (Hlink_out y y Hy ltac:(lia)).
      pose proof (Hlink_out y (y + 15) Hy ltac:(lia)). lia. }
    assert (Hn7 : rd (mem st7) nh f_DEBUG_Next = 0).
    { unfold st7. cbn [mem set_mem]. rewrite <- Hlkn. unfold_fields.
      apply load_ext. intros x Hx. apply F2. lia. }
    assert (Hp7 : rd (mem st7) nh f_DEBUG_Previous = 0).
    { unfold st7. cbn [mem set_mem]. rewrite <- Hlkp. unfold_fields.
      apply load_ext. intros x Hx. apply F2. lia. }
    destruct (tracker_swap (mem st7) (DEBUG_Head st7) h nh (map l_header G1)
                (map l_header G2) Hdll7 Hlinks Hnh64 Hnew_far Hn7 Hp7)
      as (T1 & T2).
    rewrite <- E8m, <- E8h in T1. rewrite <- E8m in T2.
    set (m9 := fill_memory (mem st8) b DEAD_LAND_FILL req).
    match goal with
    | |- context [wr ?m nh f_MarkedAsLeak ?v] => set (leak := v); set (m12 := wr m nh f_MarkedAsLeak leak)
    end.
    unfold call. cbn [allocators set_mem]. rewrite E8a. unfold st7 at 1.
    cbn [allocators set_mem]. rewrite E3a. unfold st2 at 1. cbn [allocators].
    destruct (call_allocator Function FREE Context_ 0 b req o2 a2)
      as [[r3 o3] a3] eqn:Ec3.
    assert (Hainv3 : ainv a3 (map (block_of true) G1 ++ (nb, req')
                              :: map (block_of true) G2)).
    { apply (ainv_perm a3 ((nb, req') :: map (block_of true) G1
                           ++ map (block_of true) G2)).
      - apply Permutation_middle.
      - exact (FREE_conforms a2 ((nb, req') :: map (block_of true) G1)
                 (map (block_of true) G2) b req o2 r3 o3 a3 Hainv2 Ec3). }
    cbn [bind mem set_mem]. rewrite Hlt.
    rewrite (wrap64_small (q + s)) by (unfold nh in *; lia).
    rewrite (wrap64_small (q + newUserSize)) by (unfold nh in *; lia).
    match goal with
    | |- context [fill_memory ?m (q + newUserSize) NO_MANS_LAND_FILL NO_MANS_LAND_SIZE] =>
        set (m13 := m);
        set (mt := fill_memory m13 (q + newUserSize) NO_MANS_LAND_FILL NO_MANS_LAND_SIZE)
    end.
    match goal with |- context [verify_heap _ _ _ ?s1] => set (stf := s1) end.
    (* after the swap: the old block, three fields of the new header, and the
       tail of the new user region *)
    assert (F4 : forall x, x < b \/ b + req <= x ->
                           x < nh + 32 \/ nh + 48 <= x -> x <> nh + 92 ->
                           x < q + s \/ q + newUserSize + 4 <= x ->
                           mt x = mem st8 x).
    { intros x X1 X2 X3 X4. unfold mt, m13, m12, m9, NO_MANS_LAND_SIZE.
      destruct (negb (Z.land o3 DO_INIT_0 =? 0)); mem_cases; reflexivity. }
    assert (F5 : forall x, nb <= x < nb + req' ->
                           x < nh \/ nh + 16 <= x -> mem st8 x = m7 x).
    { intros x X1 X2. apply T2. intros y Hy.
      apply in_app_iff in Hy. destruct Hy as [Hy|[<-|Hy]]; [|lia|].
      - assert (Hy' : In y (map l_header G1 ++ h :: map l_header G2))
          by (apply in_app_iff; now left).
        pose proof (Hlink_out y y Hy' ltac:(lia)).
        pose proof (Hlink_out y (y + 15) Hy' ltac:(lia)). lia.
      - assert (Hy' : In y (map l_header G1 ++ h :: map l_header G2))
          by (apply in_app_iff; right; now right).
        pose proof (Hlink_out y y Hy' ltac:(lia)).
        pose proof (Hlink_out y (y + 15) Hy' ltac:(lia)). lia. }
    assert (Hothers : forall lb0, In lb0 (G1 ++ G2) ->
              live_ok true mt lb0).
    { intros lb0 Hin. rewrite Forall_forall in Hall12.
      apply (live_ok_frame true (mem st)); [|now apply Hall12].
      intros x Hx.
      assert (Hx' : l_header lb0 <= x < header_hi true (l_header lb0) (l_size lb0))
        by (unfold header_lo in Hx; lia).
      pose proof (Hoff lb0 x Hin Hx') as Ho.
      assert (Hin0 : In lb0 (G1 ++ lb :: G2)).
      { apply in_app_iff in Hin. apply in_app_iff.
        destruct Hin; [now left|right; now right]. }
      pose proof (Hfar_new lb0 x Hin0 Hx') as Hn.
      rewrite F4 by (unfold nh in *; lia).
      rewrite T2.
      - unfold st7. cbn [mem set_mem]. apply F1. lia.
      - intros y Hy. apply in_app_iff in Hy. destruct Hy as [Hy|[<-|Hy]]; [|lia|].
        + apply (footprint_not_links (mem st) (G1 ++ G2) lb0 x);
            try assumption; [now apply Forall_forall|].
          rewrite map_app. apply in_app_iff. now left.
        + apply (footprint_not_links (mem st) (G1 ++ G2) lb0 x);
            try assumption; [now apply Forall_forall|].
          rewrite map_app. apply in_app_iff. now right. }
    assert (Hinvf : heap_inv true stf (G1 ++ mk_live nh nb newUserSize (2 ^ j) Function Context_ :: G2)).
    { unfold heap_inv, stf. cbn [mem DEBUG_Head allocators set_mem].
      fold mt. split; [|split; [|split]].
      - apply Forall_app. split; [|constructor].
        + apply Forall_forall. intros lb0 Hin. apply Hothers, in_app_iff. now left.
        + unfold live_ok. cbn [l_header l_block l_size l_align l_function l_context].
          split; [exists j; split; [assumption|reflexivity]|].
          split; [lia|]. split; [lia|]. split; [exact Hr63'|].
          split; [exact Hnblim|]. split; [exact Hle'|]. split; [exact Hap'|].
          assert (Hsame : forall x, nh + 48 <= x < nh + 72 \/ nh + 80 <= x < nh + 92
                                    \/ nh + 100 <= x < nh + 104 ->
                                    mt x = mem st3 x).
          { intros x Hx. rewrite F4 by (unfold nh in *; lia).
            rewrite F5 by lia. apply F2. lia. }
          apply (header_at_resized (mem st3) mt nh nb newUserSize newUserSize
                   (2 ^ j) Function Context_ Hat').
          * intros x Hx. apply Hsame. lia.
          * destruct Hat' as (_ & _ & AS & _). rewrite <- AS. unfold_fields.
            apply load_ext. intros x Hx. apply Hsame. lia.
          * unfold mt, NO_MANS_LAND_FILL, NO_MANS_LAND_SIZE.
            replace (nh + 104 + newUserSize) with (q + newUserSize) by (unfold nh; lia).
            apply all_bytes_fill; cbn; lia.
        + apply Forall_forall. intros lb0 Hin. apply Hothers, in_app_iff. now right.
      - rewrite map_app. cbn [map]. apply pairwise_disjoint_app.
        rewrite <- map_app. split; [exact Hpd12|].
        cbn [l_block l_size l_align block_of]. fold req'.
        intros y Hy. apply Hfresh. rewrite map_app in Hy.
        apply in_app_iff in Hy. apply in_app_iff.
        destruct Hy as [Hy|Hy]; [now left|right; now right].
      - intros _. rewrite map_app. cbn [map l_header].
        cbn [DEBUG_Head set_mem]. eapply dll_frame; [|exact T1].
        intros y x Hy Hx. apply F4.
        + apply in_app_iff in Hy. destruct Hy as [Hy|[<-|Hy]]; [|lia|].
          * apply in_map_iff in Hy. destruct Hy as (lb0 & <- & Hin).
            apply (Hoff lb0); [apply in_app_iff; now left|].
            rewrite Forall_forall in Hall1.
            destruct (live_ok_within _ _ _ (Hall1 lb0 Hin)) as (_ & _ & _ & V4 & _).
            unfold header_hi, sizeof_allocation_header, NO_MANS_LAND_SIZE. lia.
          * apply in_map_iff in Hy. destruct Hy as (lb0 & <- & Hin).
            apply (Hoff lb0); [apply in_app_iff; now right|].
            rewrite Forall_forall in Hall2'.
            destruct (live_ok_within _ _ _ (Hall2' lb0 Hin)) as (_ & _ & _ & V4 & _).
            unfold header_hi, sizeof_allocation_header, NO_MANS_LAND_SIZE. lia.
        + apply in_app_iff in Hy. destruct Hy as [Hy|[<-|Hy]]; [|lia|].
          * assert (Hy' : In y (map l_header G1 ++ h :: map l_header G2))
              by (apply in_app_iff; now left).
            pose proof (Hlink_out y x Hy' Hx). lia.
          * assert (Hy' : In y (map l_header G1 ++ h :: map l_header G2))
              by (apply in_app_iff; right; now right).
            pose proof (Hlink_out y x Hy' Hx). lia.
        + apply in_app_iff in Hy. destruct Hy as [Hy|[<-|Hy]]; [|lia|].
          * assert (Hy' : In y (map l_header G1 ++ h :: map l_header G2))
              by (apply in_app_iff; now left).
            pose proof (Hlink_out y x Hy' Hx). lia.
          * assert (Hy' : In y (map l_header G1 ++ h :: map l_header G2))
              by (apply in_app_iff; right; now right).
            pose proof (Hlink_out y x Hy' Hx). lia.
        + apply in_app_iff in Hy. destruct Hy as [Hy|[<-|Hy]]; [|unfold nh; lia|].
          * assert (Hy' : In y (map l_header G1 ++ h :: map l_header G2))
              by (apply in_app_iff; now left).
            pose proof (Hlink_out y x Hy' Hx). unfold nh in *. lia.
          * assert (Hy' : In y (map l_header G1 ++ h :: map l_header G2))
              by (apply in_app_iff; right; now right).
            pose proof (Hlink_out y x Hy' Hx). unfold nh in *. lia.
      - rewrite map_app. cbn [map]. cbn [l_block l_size l_align block_of].
        fold req'. exact Hainv3. }
    rewrite (verify_heap_live true stf _ fuel Hinvf)
      by (rewrite length_app in *; cbn [List.length] in *; lia).
    cbn [bind].
    exists q, stf, (mk_live nh nb newUserSize (2 ^ j) Function Context_).
    split; [reflexivity|]. cbn [l_header l_block l_size l_align].
    split; [unfold nh; lia|]. split; [reflexivity|]. split; [reflexivity|].
    split; [intros Hr; exfalso; apply Hr; reflexivity|].
    split; [|exact Hinvf].
    intros i Hi. unfold stf. cbn [mem set_mem]. fold mt.
    rewrite F4 by (unfold nh in *; lia).
    rewrite F5 by (unfold nh in *; lia).
    apply F3. exact Hi.
  - (* the block was resized where it is *)
    subst r.
    assert (Eb0 : (b =? 0) = false) by (apply Z.eqb_neq; lia).
    rewrite Eb0, Z.eqb_refl. cbn [assert bind mem set_mem]. rewrite Lm, Hlt.
    rewrite !(wrap64_small (h + 104)) by lia.
    rewrite (wrap64_small (h + 104 + s)) by lia.
    rewrite (wrap64_small (h + 104 + newUserSize)) by lia.
    match goal with
    | |- context [fill_memory ?m (h + 104 + newUserSize) NO_MANS_LAND_FILL
                    NO_MANS_LAND_SIZE] =>
        set (m5 := m);
        set (mt := fill_memory m5 (h + 104 + newUserSize) NO_MANS_LAND_FILL
                     NO_MANS_LAND_SIZE)
    end.
    match goal with |- context [verify_heap _ _ _ ?s1] => set (stf := s1) end.
    assert (F : forall x, x < h + 24 \/ h + 48 <= x ->
                          x < h + 64 \/ h + 72 <= x ->
                          x < h + 104 + s \/ h + 104 + newUserSize + 4 <= x ->
                          mt x = mem st x).
    { intros x X1 X2 X3. unfold mt, m5, NO_MANS_LAND_SIZE.
      destruct (negb (Z.land o1 DO_INIT_0 =? 0)); mem_cases; reflexivity. }
    assert (Hothers : forall lb0, In lb0 (G1 ++ G2) ->
              live_ok true mt lb0).
    { intros lb0 Hin. rewrite Forall_forall in Hall12.
      apply (live_ok_frame true (mem st)); [|now apply Hall12].
      intros x Hx.
      destruct (live_ok_within _ _ _ (Hall12 lb0 Hin)) as (V1 & V2 & _).
      specialize (Hdisj' (block_of true lb0)).
      rewrite <- map_app in Hdisj'. specialize (Hdisj' (in_map _ _ _ Hin)).
      unfold disjoint, block_of in *. cbn [fst snd] in *.
      unfold header_lo in Hx. apply F; lia. }
    assert (Hinvf : heap_inv true stf (G1 ++ mk_live h b newUserSize (2 ^ j) Function Context_ :: G2)).
    { unfold heap_inv, stf. cbn [mem DEBUG_Head allocators set_mem].
      fold m5 mt. split; [|split; [|split]].
      - apply Forall_app. split; [|constructor].
        + apply Forall_forall. intros lb0 Hin. apply Hothers, in_app_iff. now left.
        + unfold live_ok. cbn [l_header l_block l_size l_align l_function l_context].
          split; [exists j; split; [assumption|reflexivity]|].
          split; [lia|]. split; [lia|]. split; [exact Hr63'|].
          split; [exact Hlim'|]. split; [exact Hle|]. split; [exact Hap|].
          apply (header_at_resized (mem st) mt h b s newUserSize
                   (2 ^ j) Function Context_ Hat).
          * intros x Hx. apply F; lia.
          * unfold mt, m5, NO_MANS_LAND_SIZE.
            destruct (negb (Z.land o1 DO_INIT_0 =? 0)); unfold_fields; rd_simpl;
              apply Z.mod_small; lia.
          * unfold mt, NO_MANS_LAND_FILL, NO_MANS_LAND_SIZE.
            apply all_bytes_fill; cbn; lia.
        + apply Forall_forall. intros lb0 Hin. apply Hothers, in_app_iff. now right.
      - rewrite map_app. cbn [map]. apply pairwise_disjoint_app.
        rewrite <- map_app. split; [exact Hpd12|].
        cbn [l_block l_size l_align block_of]. fold req'.
        rewrite map_app. exact Hdisj'.
      - intros _. rewrite map_app. cbn [map l_header].
        rewrite Lh. eapply dll_frame; [|exact Hdll].
        intros y x Hy Hx.
        apply in_app_iff in Hy. destruct Hy as [Hy|[<-|Hy]]; [|apply F; lia|].
        + apply in_map_iff in Hy. destruct Hy as (lb0 & <- & Hin).
          assert (Hin12 : In lb0 (G1 ++ G2)) by (apply in_app_iff; now left).
          rewrite Forall_forall in Hall12.
          destruct (live_ok_within _ _ _ (Hall12 lb0 Hin12))
            as (V1 & V2 & _ & V4 & _).
          specialize (Hdisj' (block_of true lb0)).
          rewrite <- map_app in Hdisj'. specialize (Hdisj' (in_map _ _ _ Hin12)).
          unfold disjoint, block_of, header_hi, sizeof_allocation_header,
            NO_MANS_LAND_SIZE in *. cbn [fst snd] in *. apply F; lia.
        + apply in_map_iff in Hy. destruct Hy as (lb0 & <- & Hin).
          assert (Hin12 : In lb0 (G1 ++ G2)) by (apply in_app_iff; now right).
          rewrite Forall_forall in Hall12.
          destruct (live_ok_within _ _ _ (Hall12 lb0 Hin12))
            as (V1 & V2 & _ & V4 & _).
          specialize (Hdisj' (block_of true lb0)).
          rewrite <- map_app in Hdisj'. specialize (Hdisj' (in_map _ _ _ Hin12)).
          unfold disjoint, block_of, header_hi, sizeof_allocation_header,
            NO_MANS_LAND_SIZE in *. cbn [fst snd] in *. apply F; lia.
      - rewrite map_app. cbn [map]. cbn [l_block l_size l_align block_of].
        fold req'. exact Hainv1. }
    rewrite (verify_heap_live true stf _ fuel Hinvf)
      by (rewrite length_app in *; cbn [List.length] in *; lia).
    cbn [bind].
    exists (h + 104), stf, (mk_live h b newUserSize (2 ^ j) Function Context_).
    split; [reflexivity|]. cbn [l_header l_block l_size l_align].
    split; [reflexivity|]. split; [reflexivity|]. split; [reflexivity|].
    split; [intros _; split; reflexivity|].
    split; [|exact Hinvf].
    intros i Hi. unfold stf. cbn [mem set_mem]. fold m5 mt. apply F; lia.
Qed.

(** X2.  Reallocating a live allocation to a larger size, in both builds,
    on an intact heap that may hold the allocations of other allocators:
    when the allocator that owns the allocation follows the protocol (and
    answers the ALLOCATE if the block must move), [general_reallocate]
    returns a pointer whose first [old] bytes are the bytes the allocation
    held; it is the pointer it was given, in the same raw block, when
    RESIZE answered the block; the header before it stores the new size,
    and the heap is intact: the allocation keeps its place among the live
    allocations, with DEBUG_MEMORY in the tracker list too. *)
Theorem general_reallocate_grows (debug : bool) (fuel : nat) (st : state A)
    (G1 G2 : list live) (lb : live) (newUserSize options fileName fileLine : Z) :
  heap_inv debug st (G1 ++ lb :: G2) ->
  l_function lb = Function -> l_context lb = Context_ ->
  (List.length (G1 ++ lb :: G2) <= fuel)%nat ->
  l_size lb < newUserSize ->
  required debug newUserSize (l_align lb) < 2 ^ 63 ->
  (forall r o1 a1,
     call_allocator Function RESIZE Context_ (required debug newUserSize (l_align lb))
       (l_block lb) (required debug (l_size lb) (l_align lb))
       (Z.lor options (AllocOptions Ctx)) (allocators st) = (r, o1, a1) ->
     r = 0 ->
     fst (fst (call_allocator Function ALLOCATE Context_
                 (required debug newUserSize (l_align lb)) 0 0 o1 a1)) <> 0) ->
  exists q st' lb',
    general_reallocate debug Ctx A call_allocator fuel st
      (l_header lb + sizeof_allocation_header debug)
      newUserSize options fileName fileLine = Returns (q, st')
    /\ q = l_header lb' + sizeof_allocation_header debug
    /\ l_size lb' = newUserSize
    /\ l_align lb' = l_align lb
    /\ (fst (fst (call_allocator Function RESIZE Context_
                    (required debug newUserSize (l_align lb)) (l_block lb)
                    (required debug (l_size lb) (l_align lb))
                    (Z.lor options (AllocOptions Ctx)) (allocators st))) <> 0 ->
        q = l_header lb + sizeof_allocation_header debug
        /\ l_block lb' = l_block lb)
    /\ (forall i, 0 <= i < l_size lb ->
                  mem st' (q + i)
                  = mem st (l_header lb + sizeof_allocation_header debug + i))
    /\ heap_inv debug st' (G1 ++ lb' :: G2).
Proof.
  intros Hinv Hfn Hcx Hfuel Hgrow Hr63 Hnonnull. destruct debug.
  - exact (general_reallocate_grows_debug fuel st G1 G2 lb newUserSize options
             fileName fileLine Hinv Hfn Hcx Hfuel Hgrow Hr63 Hnonnull).
  - exact (general_reallocate_grows_release fuel st G1 G2 lb newUserSize options
             fileName fileLine Hinv Hfn Hcx Hgrow Hr63 Hnonnull).
Qed.

(** *** What an allocation writes *)

(** The user region [encode_header] leaves: zeroes with [DO_INIT_0],
    otherwise [0xCD] with DEBUG_MEMORY, and otherwise what was there. *)
Lemma encode_header_payload (debug : bool) (st : state A) (b s j f c flags : Z) :
  3 <= j <= 15 -> 0 < b -> 0 <= s < 2 ^ 63 ->
  b + s + 2 ^ j + sizeof_allocation_header debug
    + (if debug then NO_MANS_LAND_SIZE else 0) <= 2 ^ 64 ->
  exists p st',
    encode_header debug A st b s (2 ^ j) f c flags = Returns (p, st')
    /\ forall i, 0 <= i < s ->
         mem st' (p + i)
         = if negb (Z.land flags DO_INIT_0 =? 0) then 0
           else if debug then CLEAN_LAND_FILL else mem st (p + i).
Proof.
  intros Hj Hb Hs Hlim.
  assert (Ha : 2 ^ 3 <= 2 ^ j <= 2 ^ 15) by (split; apply pow2_le_mono; lia).
  assert (HH : 0 < sizeof_allocation_header debug <= 2 ^ 15)
    by (destruct debug; cbn; lia).
  assert (Hb2 : b + 2 ^ j <= 2 ^ 64).
  { destruct debug; unfold sizeof_allocation_header, NO_MANS_LAND_SIZE in Hlim; lia. }
  destruct (padding_for_pointer_with_header b j (sizeof_allocation_header debug)
              Hj ltac:(lia) Hb2 HH)
    as (pad & Epad & Hpad & Hmod).
  unfold encode_header. rewrite Epad. cbn [bind].
  set (a := 2 ^ j) in *.
  destruct debug; unfold sizeof_allocation_header, NO_MANS_LAND_SIZE in *; cbv zeta.
  - rewrite (wrap32_small (pad - 104)) by lia.
    rewrite (wrap64_small (b + (pad - 104))) by lia.
    set (r := b + (pad - 104)) in *.
    rewrite !(wrap64_small (r + 104)) by lia.
    rewrite (wrap64_small (r + 104 - 4)) by lia.
    rewrite (wrap64_small (r + 104 + s)) by lia.
    assert (Hal : (r + 104) mod a = 0).
    { unfold r. replace (b + (pad - 104) + 104) with (b + pad) by lia. exact Hmod. }
    assert (Emask : (Z.land (r + 104) (wrap64 (Z.lnot (to_s64 a - 1))) =? r + 104) = true).
    { apply Z.eqb_eq. unfold a. rewrite lnot_mask_u64 by lia. fold a. lia. }
    rewrite Emask. cbn [assert bind].
    eexists _, _. split; [reflexivity|].
    cbn [mem set_mem set_AllocationCount]. intros i Hi.
    unfold CLEAN_LAND_FILL.
    destruct (negb (Z.land flags DO_INIT_0 =? 0)); mem_cases;
      first [reflexivity | exfalso; lia].
  - rewrite (wrap32_small (pad - 40)) by lia.
    rewrite (wrap64_small (b + (pad - 40))) by lia.
    set (r := b + (pad - 40)) in *.
    rewrite !(wrap64_small (r + 40)) by lia.
    assert (Hal : (r + 40) mod a = 0).
    { unfold r. replace (b + (pad - 40) + 40) with (b + pad) by lia. exact Hmod. }
    assert (Emask : (Z.land (r + 40) (wrap64 (Z.lnot (to_s64 a - 1))) =? r + 40) = true).
    { apply Z.eqb_eq. unfold a. rewrite lnot_mask_u64 by lia. fold a. lia. }
    rewrite Emask. cbn [assert bind].
    eexists _, _. split; [reflexivity|].
    cbn [mem set_mem set_AllocationCount]. intros i Hi.
    destruct (negb (Z.land flags DO_INIT_0 =? 0)); mem_cases;
      first [reflexivity | exfalso; lia].
Qed.

(** The memory after [general_allocate]: the user region is initialised as
    [encode_header] does it, and outside the block the allocator function
    returned only the back link of the old list head is written. *)
Lemma general_allocate_memory (debug : bool) (fuel : nat) (st : state A)
    (G : list live) (userSize j options fileName fileLine block o' : Z) (a' : A) :
  heap_inv debug st G -> (List.length G < fuel)%nat ->
  0 <= userSize -> 3 <= j <= 15 -> required debug userSize (2 ^ j) < 2 ^ 63 ->
  call_allocator Function ALLOCATE Context_ (required debug userSize (2 ^ j)) 0 0
    (Z.lor options (AllocOptions Ctx)) (allocators st) = (block, o', a') ->
  block <> 0 ->
  exists p st',
    general_allocate debug Ctx A call_allocator fuel Function Context_ st
      userSize (2 ^ j) options fileName fileLine = Returns (p, st')
    /\ block + sizeof_allocation_header debug <= p
    /\ p + userSize + (if debug then NO_MANS_LAND_SIZE else 0)
       <= block + required debug userSize (2 ^ j)
    /\ (forall i, 0 <= i < userSize ->
          mem st' (p + i)
          = if negb (Z.land o' DO_INIT_0 =? 0) then 0
            else if debug then CLEAN_LAND_FILL else mem st (p + i))
    /\ (forall x, x < block \/ block + required debug userSize (2 ^ j) <= x ->
          debug = false \/ DEBUG_Head st = 0
          \/ x < DEBUG_Head st + 8 \/ DEBUG_Head st + 16 <= x ->
          mem st' x = mem st x)
    /\ (forall y, In y (map (block_of debug) G) ->
          disjoint (block, required debug userSize (2 ^ j)) y).
Proof.
  intros Hinv Hfuel Hs Hj Hr63 Hcall Hnz.
  destruct (general_allocate_spec debug fuel st G userSize j options fileName fileLine
              block o' a' Hinv Hfuel Hs Hj Hr63 Hcall Hnz) as (p & st' & E & _).
  exists p, st'. split; [exact E|].
  assert (Ha : 2 ^ 3 <= 2 ^ j <= 2 ^ 15) by (split; apply pow2_le_mono; lia).
  destruct (required_eq debug userSize j Hj Hs Hr63) as (extra & Eextra & Ereq & Hreq).
  destruct Hinv as (Hall & Hpd & Hdll & Hainv).
  assert (Hreq0 : 0 <= required debug userSize (2 ^ j)).
  { destruct debug; unfold sizeof_allocation_header, NO_MANS_LAND_SIZE in Hreq; lia. }
  destruct (ALLOCATE_conforms _ _ _ _ _ _ _ Hainv Hreq0 Hcall Hnz)
    as (Hb0 & Hblim & Hfresh & Hainv').
  unfold general_allocate in E.
  assert (E0 : (2 ^ j =? 0) = false) by (apply Z.eqb_neq; lia).
  rewrite E0 in E. cbn [bind] in E.
  pose proof (log_allocation_same st ">>> Allocation made at: "
                (Z.lor options (AllocOptions Ctx)) fileName fileLine) as Hlog.
  cbv zeta in Hlog.
  set (stl := log_allocation Ctx A st ">>> Allocation made at: "
                (Z.lor options (AllocOptions Ctx)) fileName fileLine) in *.
  destruct Hlog as (Lm & Lh & Lc & La & Lk).
  assert (E1 : (2 ^ j <? POINTER_SIZE) = false)
    by (apply Z.ltb_ge; unfold POINTER_SIZE; lia).
  rewrite E1, is_pow_of_2_pow2 in E by lia. cbn [assert bind] in E.
  rewrite Eextra in E. cbn [bind] in E. rewrite Ereq in E.
  unfold call in E. rewrite La, Hcall in E.
  match type of E with context [encode_header _ _ ?s _ _ _ _ _ _] => set (st2 := s) in * end.
  assert (Hs63 : 0 <= userSize < 2 ^ 63).
  { destruct debug; unfold sizeof_allocation_header, NO_MANS_LAND_SIZE in Hreq; lia. }
  assert (Hblock : block + userSize + 2 ^ j + sizeof_allocation_header debug
                   + (if debug then NO_MANS_LAND_SIZE else 0) <= 2 ^ 64) by lia.
  destruct (encode_header_spec debug A st2 block userSize j Function Context_ o'
              Hj Hb0 Hs63 Hblock Function_u64 Context_u64)
    as (p1 & st3 & Eenc & E3h & E3a & E3k & E3l & E3c & Hal & Hle & Hap & Hagree & Hat & Hlinks).
  destruct (encode_header_payload debug st2 block userSize j Function Context_ o'
              Hj Hb0 Hs63 Hblock) as (p2 & st3' & Eenc' & Hpay).
  rewrite Eenc in Eenc'. injection Eenc' as <- <-.
  rewrite Eenc in E. cbn [bind] in E.
  assert (Hm2 : mem st2 = mem st) by exact Lm.
  assert (Hhi : header_hi debug (p1 - sizeof_allocation_header debug) userSize
                <= block + required debug userSize (2 ^ j)).
  { unfold header_hi.
    destruct debug; unfold sizeof_allocation_header, NO_MANS_LAND_SIZE in *; lia. }
  match type of E with (_ <- ?v ;; _) = _ => destruct v; cbn [bind] in E; try discriminate E end.
  injection E as <- <-.
  split; [lia|]. split.
  { unfold header_hi in Hhi. destruct debug; lia. }
  refine ((fun C => conj (proj1 C) (conj (proj2 C) Hfresh)) _).
  destruct debug.
  - change (sizeof_allocation_header true) with 104 in *.
    unfold header_hi, sizeof_allocation_header, NO_MANS_LAND_SIZE in Hhi.
    rewrite (wrap64_small (p1 - 104)) by lia.
    assert (Hhead : DEBUG_Head st3 = DEBUG_Head st).
    { rewrite E3h. unfold st2. cbn [DEBUG_Head]. exact Lh. }
    assert (Hout : DEBUG_Head st = 0
                   \/ DEBUG_Head st + 16 <= block
                   \/ block + required true userSize (2 ^ j) <= DEBUG_Head st).
    { specialize (Hdll eq_refl). destruct G as [|lb G'].
      - left. exact Hdll.
      - right. cbn [map dll] in Hdll. destruct Hdll as (Eh & _).
        inversion Hall as [|? ? Hlb _]; subst.
        destruct (live_ok_within _ _ _ Hlb) as (W1 & W2 & W3 & W4 & W5).
        specialize (Hfresh (block_of true lb) (or_introl eq_refl)).
        unfold disjoint, block_of, header_hi, sizeof_allocation_header,
          NO_MANS_LAND_SIZE in *. cbn [fst snd] in *. rewrite Eh. lia. }
    unfold DEBUG_add_header. cbn [mem DEBUG_Head set_DEBUG_Head set_mem]. rewrite Hhead.
    split.
    + intros i Hi. rewrite <- (Hpay i Hi).
      destruct (DEBUG_Head st =? 0) eqn:E0h; cbn [negb];
        [|apply Z.eqb_neq in E0h]; mem_cases; first [reflexivity | exfalso; lia].
    + intros x Hx Hx'.
      rewrite <- Hm2, <- (Hagree x)
        by (unfold header_hi, sizeof_allocation_header, NO_MANS_LAND_SIZE; lia).
      destruct (DEBUG_Head st =? 0) eqn:E0h; cbn [negb];
        [|apply Z.eqb_neq in E0h]; mem_cases;
        first [reflexivity | exfalso; destruct Hx' as [Hx'|[Hx'|Hx']];
                              first [discriminate | lia]].
  - change (sizeof_allocation_header false) with 40 in *.
    unfold header_hi, sizeof_allocation_header in Hhi.
    split.
    + intros i Hi. rewrite <- Hm2. apply Hpay. exact Hi.
    + intros x Hx _. rewrite <- Hm2. apply Hagree.
      unfold header_hi, sizeof_allocation_header. lia.
Qed.

(** The memory after [general_free]: with DEBUG_MEMORY the whole block is
    dead land and, outside it, only link fields of the headers that stay
    are written; without DEBUG_MEMORY nothing is written. *)
Lemma general_free_memory (debug : bool) (fuel : nat) (st : state A)
    (G1 G2 : list live) (lb : live) (options : Z) :
  heap_inv debug st (G1 ++ lb :: G2) ->
  (List.length (G1 ++ G2) <= fuel)%nat ->
  exists st',
    general_free debug Ctx A call_allocator fuel st
      (l_header lb + sizeof_allocation_header debug) options = Returns st'
    /\ (debug = true ->
        forall x, l_block lb <= x
                    < l_block lb + required true (l_size lb) (l_align lb) ->
                  mem st' x = DEAD_LAND_FILL)
    /\ (forall x,
          x < l_block lb
          \/ l_block lb + required debug (l_size lb) (l_align lb) <= x ->
          (forall y, In y (map l_header (G1 ++ G2)) -> x < y \/ y + 16 <= x) ->
          mem st' x = mem st x).
Proof using Ctx A call_allocator ainv.
  intros Hinv Hfuel.
  destruct (general_free_returns debug fuel st G1 G2 lb options
              (proj1 (proj1 (heap_inv_mem _ _ _) Hinv)) Hfuel)
    as (st' & r & o' & E & _ & _ & _ & _ & Hrel & _).
  exists st'. split; [exact E|].
  destruct debug; [|split; [discriminate|intros x _ _; now rewrite Hrel]].
  clear Hrel.
  destruct Hinv as (Hall & Hpd & Hdll & Hainv).
  pose proof Hall as Hall0. pose proof Hpd as Hpd0.
  apply Forall_app in Hall. destruct Hall as [Hall1 Hall2].
  apply Forall_cons_iff in Hall2. destruct Hall2 as [Hlb Hall2'].
  destruct (live_ok_within _ _ _ Hlb) as (W1 & W2 & W3 & W4 & W5).
  pose proof Hlb as ((j & Hj & Ea) & Hs & Hb & Hr63 & Hlim & Hle & Hap & Hat).
  assert (Ha : 2 ^ 3 <= 2 ^ j <= 2 ^ 15) by (split; apply pow2_le_mono; lia).
  destruct Hat as (HF & HC & HS & HA & HP & HD).
  rewrite Ea in *.
  destruct (required_eq true (l_size lb) j Hj Hs Hr63) as (extra & Eextra & Ereq & Hreq).
  set (h := l_header lb) in *. set (b := l_block lb) in *. set (s := l_size lb) in *.
  set (req := required true s (2 ^ j)) in *.
  change (sizeof_allocation_header true) with 104 in *.
  assert (Hs63 : s < 2 ^ 63).
  { unfold req in *. unfold NO_MANS_LAND_SIZE in Hreq; lia. }
  unfold general_free in E.
  change (sizeof_allocation_header true) with 104 in E.
  assert (E0 : (h + 104 =? 0) = false) by (apply Z.eqb_neq; lia).
  rewrite E0 in E.
  replace (h + 104 - 104) with h in E by lia.
  rewrite (wrap64_small h) in E by lia.
  assert (Ever : verify_header true A st h = Returns tt).
  { unfold verify_header. apply (verify_header_live _ lb). exact Hlb. }
  rewrite Ever in E. cbn [bind] in E. rewrite HA, Eextra in E. cbn [bind] in E.
  unfold rd_s64 in E. rewrite HS, (to_s64_small s) in E by lia. rewrite Ereq in E.
  rewrite HF, HC, HP in E. replace (h - (h - b)) with b in E by lia.
  rewrite (wrap64_small b) in E by lia.
  fold req in E.
  specialize (Hdll eq_refl). rewrite map_app in Hdll. cbn [map] in Hdll.
  fold h in Hdll.
  assert (Hheadnz : DEBUG_Head st <> 0).
  { intros E0'. rewrite E0' in Hdll.
    apply dll_split in Hdll as Hsp. destruct Hsp as (Hseg & Hhnz & _).
    destruct (map l_header G1) as [|y L] eqn:EL1.
    - cbn [dlseg] in Hseg. congruence.
    - cbn [dlseg] in Hseg. destruct Hseg as (E' & Hy & _). congruence. }
  destruct (DEBUG_unlink_header_eq A st h ltac:(lia) Hheadnz)
    as (stu & Eu & Eum & Euh & Eua & Euc).
  rewrite Eu in E. cbn [bind] in E.
  assert (Hlinks : pairwise_disjoint
                     (links (map l_header G1 ++ h :: map l_header G2))).
  { pose proof (links_of_blocks (mem st) (G1 ++ lb :: G2) Hall0
                  Hpd0) as Hl.
    rewrite !map_app in Hl. cbn [map] in Hl. exact Hl. }
  destruct (tracker_unlink (mem st) (DEBUG_Head st) h (map l_header G1)
              (map l_header G2) Hdll Hlinks) as (_ & T2).
  rewrite <- map_app in T2.
  unfold call in E.
  match type of E with
  | context [call_allocator ?f ?mo ?c ?n ?o ?os ?op ?a] =>
      destruct (call_allocator f mo c n o os op a) as [[r' o''] a'']
  end.
  match type of E with (_ <- ?v ;; _) = _ => destruct v; cbn [bind] in E; try discriminate E end.
  injection E as <-. cbn [mem set_mem]. rewrite Eum.
  split.
  - intros _ x Hx. unfold fill_memory.
    assert (Er : in_range b req x = true) by (apply in_range_true; lia).
    rewrite Er. reflexivity.
  - intros x Hx Hy. unfold fill_memory.
    assert (Er : in_range b req x = false) by (apply in_range_false; lia).
    rewrite Er. apply T2. exact Hy.
Qed.

(** X4.  On an intact heap, for a user size [s >= 0] and a power-of-two
    alignment from 8 up to 32768, when the allocator function answers a
    block, [general_allocate] returns a pointer whose [s] user bytes are
    initialised: all zero when the options the allocator function leaves
    have [DO_INIT_0], otherwise all [0xCD] (clean land) with DEBUG_MEMORY,
    and otherwise what the block held.  The writes that follow
    [encode_header] (file name and line, the tracker links) do not touch
    them. *)
Theorem general_allocate_initialises_the_user_region (debug : bool) (fuel : nat)
    (st : state A) (G : list live)
    (userSize j options fileName fileLine block o' : Z) (a' : A) :
  heap_inv debug st G -> (List.length G < fuel)%nat ->
  0 <= userSize -> 3 <= j <= 15 -> required debug userSize (2 ^ j) < 2 ^ 63 ->
  call_allocator Function ALLOCATE Context_ (required debug userSize (2 ^ j)) 0 0
    (Z.lor options (AllocOptions Ctx)) (allocators st) = (block, o', a') ->
  block <> 0 ->
  exists p st',
    general_allocate debug Ctx A call_allocator fuel Function Context_ st
      userSize (2 ^ j) options fileName fileLine = Returns (p, st')
    /\ forall i, 0 <= i < userSize ->
         mem st' (p + i)
         = if negb (Z.land o' DO_INIT_0 =? 0) then 0
           else if debug then CLEAN_LAND_FILL else mem st (p + i).
Proof.
  intros Hinv Hfuel Hs Hj Hr63 Hcall Hnz.
  destruct (general_allocate_memory debug fuel st G userSize j options fileName
              fileLine block o' a' Hinv Hfuel Hs Hj Hr63 Hcall Hnz)
    as (p & st' & E & _ & _ & Hpay & _).
  exists p, st'. split; [exact E|exact Hpay].
Qed.

(** The user bytes of a live allocation are neither in a fresh block nor
    among the link fields of the tracked headers. *)
Lemma user_bytes_apart (debug : bool) (m : memory) (G : list live) (lb : live)
    (block req x : Z) :
  Forall (live_ok debug m) G ->
  pairwise_disjoint (map (block_of debug) G) ->
  (forall y, In y (map (block_of debug) G) -> disjoint (block, req) y) ->
  In lb G ->
  l_header lb + sizeof_allocation_header debug <= x
    < l_header lb + sizeof_allocation_header debug + l_size lb ->
  (x < block \/ block + req <= x)
  /\ (debug = true -> forall y, In y (map l_header G) -> x < y \/ y + 16 <= x).
Proof.
  intros Hall Hpd Hfresh Hin Hx.
  pose proof Hall as Hall'. rewrite Forall_forall in Hall'.
  destruct (live_ok_within _ _ _ (Hall' lb Hin)) as (W1 & W2 & W3 & W4 & W5).
  split.
  - specialize (Hfresh (block_of debug lb) (in_map _ _ _ Hin)).
    unfold disjoint, block_of, header_hi in *. cbn [fst snd] in *.
    destruct debug; unfold sizeof_allocation_header, NO_MANS_LAND_SIZE in *; lia.
  - intros ->. apply (footprint_not_links m G lb x Hall Hpd Hin).
    unfold header_lo, header_hi, sizeof_allocation_header, NO_MANS_LAND_SIZE in *. lia.
Qed.

(** X5.  Under the same conditions, the user region [general_allocate]
    returns overlaps the user region of no allocation that is live, and
    every user byte of every live allocation keeps its value. *)
Theorem general_allocate_keeps_live_allocations (debug : bool) (fuel : nat)
    (st : state A) (G : list live)
    (userSize j options fileName fileLine block o' : Z) (a' : A) :
  heap_inv debug st G -> (List.length G < fuel)%nat ->
  0 <= userSize -> 3 <= j <= 15 -> required debug userSize (2 ^ j) < 2 ^ 63 ->
  call_allocator Function ALLOCATE Context_ (required debug userSize (2 ^ j)) 0 0
    (Z.lor options (AllocOptions Ctx)) (allocators st) = (block, o', a') ->
  block <> 0 ->
  exists p st',
    general_allocate debug Ctx A call_allocator fuel Function Context_ st
      userSize (2 ^ j) options fileName fileLine = Returns (p, st')
    /\ forall lb, In lb G ->
         let q := l_header lb + sizeof_allocation_header debug in
         (p + userSize <= q \/ q + l_size lb <= p)
         /\ forall i, 0 <= i < l_size lb -> mem st' (q + i) = mem st (q + i).
Proof.
  intros Hinv Hfuel Hs Hj Hr63 Hcall Hnz.
  destruct (general_allocate_memory debug fuel st G userSize j options fileName
              fileLine block o' a' Hinv Hfuel Hs Hj Hr63 Hcall Hnz)
    as (p & st' & E & Hlo & Hhi & _ & Hframe & Hfresh).
  exists p, st'. split; [exact E|].
  destruct Hinv as (Hall & Hpd & Hdll & _).
  intros lb Hin q. split.
  - pose proof Hall as Hall'. rewrite Forall_forall in Hall'.
    destruct (live_ok_within _ _ _ (Hall' lb Hin)) as (W1 & W2 & W3 & W4 & W5).
    specialize (Hfresh (block_of debug lb) (in_map _ _ _ Hin)).
    unfold disjoint, block_of, header_hi in *. cbn [fst snd] in *. unfold q.
    destruct debug; unfold sizeof_allocation_header, NO_MANS_LAND_SIZE in *; lia.
  - intros i Hi.
    destruct (user_bytes_apart debug (mem st) G lb block
                (required debug userSize (2 ^ j)) (q + i) Hall Hpd Hfresh Hin
                ltac:(unfold q; lia)) as [Hout Hlinks].
    apply Hframe; [exact Hout|].
    destruct debug; [|now left]. right.
    specialize (Hdll eq_refl). specialize (Hlinks eq_refl).
    destruct G as [|lb0 G']; [destruct Hin|].
    cbn [map dll] in Hdll. destruct Hdll as (Eh & _).
    specialize (Hlinks (l_header lb0) (or_introl eq_refl)). rewrite Eh. lia.
Qed.

(** X6.  [general_free] of a live allocation returns, and every user byte
    of every other live allocation keeps its value (with DEBUG_MEMORY the
    header is unlinked and the block is filled, without it nothing is
    written). *)
Theorem general_free_keeps_live_allocations (debug : bool) (fuel : nat) (st : state A)
    (G1 G2 : list live) (lb : live) (options : Z) :
  heap_inv debug st (G1 ++ lb :: G2) ->
  (List.length (G1 ++ G2) <= fuel)%nat ->
  exists st',
    general_free debug Ctx A call_allocator fuel st
      (l_header lb + sizeof_allocation_header debug) options = Returns st'
    /\ forall lb', In lb' (G1 ++ G2) ->
         forall i, 0 <= i < l_size lb' ->
           mem st' (l_header lb' + sizeof_allocation_header debug + i)
           = mem st (l_header lb' + sizeof_allocation_header debug + i).
Proof using Ctx A call_allocator ainv.
  intros Hinv Hfuel.
  destruct (general_free_memory debug fuel st G1 G2 lb options Hinv Hfuel)
    as (st' & E & _ & Hframe).
  exists st'. split; [exact E|].
  destruct Hinv as (Hall & Hpd & _).
  intros lb' Hin i Hi.
  assert (Hall12 : Forall (live_ok debug (mem st)) (G1 ++ G2)).
  { apply Forall_app in Hall. destruct Hall as [H1 H2].
    inversion H2; subst. apply Forall_app. split; assumption. }
  rewrite map_app in Hpd. cbn [map] in Hpd.
  apply pairwise_disjoint_app in Hpd. destruct Hpd as [Hpd12 Hdisj].
  rewrite <- map_app in Hpd12, Hdisj.
  destruct (user_bytes_apart debug (mem st) (G1 ++ G2) lb' (l_block lb)
              (required debug (l_size lb) (l_align lb))
              (l_header lb' + sizeof_allocation_header debug + i)
              Hall12 Hpd12 Hdisj Hin ltac:(lia)) as [Hout Hlinks].
  apply Hframe; [exact Hout|].
  destruct debug; [now apply Hlinks|].
  (* without DEBUG_MEMORY the header has no links; the bytes are apart all
     the same *)
  intros y Hy. apply in_map_iff in Hy. destruct Hy as (lb2 & <- & Hin2).
  rewrite Forall_forall in Hall12.
  destruct (live_ok_within _ _ _ (Hall12 lb' Hin)) as (W1 & W2 & W3 & W4 & W5).
  destruct (live_ok_within _ _ _ (Hall12 lb2 Hin2)) as (V1 & V2 & V3 & V4 & V5).
  unfold header_hi, sizeof_allocation_header, block_of in *. cbn [snd] in *.
  destruct (in_split _ _ Hin) as (Ga & Gb & EG).
  rewrite EG in Hpd12, Hin2. rewrite map_app in Hpd12. cbn [map] in Hpd12.
  apply pairwise_disjoint_app in Hpd12. destruct Hpd12 as [_ Hd].
  apply in_app_iff in Hin2. destruct Hin2 as [Hin2|[<-|Hin2]]; [|lia|].
  - specialize (Hd (block_of false lb2)
                  (proj2 (in_app_iff _ _ _) (or_introl (in_map _ _ _ Hin2)))).
    unfold disjoint, block_of in Hd. cbn [fst snd] in Hd. lia.
  - specialize (Hd (block_of false lb2)
                  (proj2 (in_app_iff _ _ _) (or_intror (in_map _ _ _ Hin2)))).
    unfold disjoint, block_of in Hd. cbn [fst snd] in Hd. lia.
Qed.

(** X7.  With DEBUG_MEMORY, [general_free] of a live allocation leaves every
    byte of the block the allocator function had handed out (header, guards,
    padding and user bytes) equal to [0xDD], dead land.  Without DEBUG_MEMORY
    it writes no byte at all. *)
Theorem general_free_fills_the_block_with_dead_land (debug : bool) (fuel : nat)
    (st : state A) (G1 G2 : list live) (lb : live) (options : Z) :
  heap_inv debug st (G1 ++ lb :: G2) ->
  (List.length (G1 ++ G2) <= fuel)%nat ->
  exists st',
    general_free debug Ctx A call_allocator fuel st
      (l_header lb + sizeof_allocation_header debug) options = Returns st'
    /\ (debug = true ->
        forall x, l_block lb <= x
                    < l_block lb + required true (l_size lb) (l_align lb) ->
                  mem st' x = DEAD_LAND_FILL)
    /\ (debug = false -> forall x, mem st' x = mem st x).
Proof using Ctx A call_allocator ainv.
  intros Hinv Hfuel.
  destruct (general_free_memory debug fuel st G1 G2 lb options Hinv Hfuel)
    as (st' & E & Hdead & _).
  destruct (general_free_returns debug fuel st G1 G2 lb options
              (proj1 (proj1 (heap_inv_mem _ _ _) Hinv)) Hfuel)
    as (st2 & r & o' & E2 & _ & _ & _ & _ & Hrel & _).
  rewrite E in E2. injection E2 as <-.
  exists st'. split; [exact E|]. split; [exact Hdead|].
  intros Hd x. now rewrite (Hrel Hd).
Qed.

(** X8.  With DEBUG_MEMORY, let a program write only into the user region
    of one live allocation and the four guard bytes on either side of it.
    If a guard byte before the region no longer holds [0xFD], the next
    [verify_heap] stops at the assertion that names a write before the
    allocated block; if those are intact and a guard byte after the region
    no longer holds [0xFD], it stops at the assertion that names a write
    after the allocated block. *)
Theorem verify_heap_notices_a_modified_guard (fuel : nat) (st : state A)
    (G1 G2 : list live) (lb : live) (m' : memory) :
  heap_inv true st (G1 ++ lb :: G2) ->
  (List.length G1 < fuel)%nat ->
  let q := l_header lb + 104 in
  (forall y, y < q - 4 \/ q + l_size lb + 4 <= y -> m' y = mem st y) ->
  ((exists x, q - 4 <= x < q /\ (m' x) mod 256 <> NO_MANS_LAND_FILL) ->
   verify_heap true A fuel (set_mem A st m')
   = AssertionFailed
       "No man's land was modified. This means that you wrote before the allocated block.")
  /\ ((forall x, q - 4 <= x < q -> (m' x) mod 256 = NO_MANS_LAND_FILL) ->
      (exists x, q + l_size lb <= x < q + l_size lb + 4
                 /\ (m' x) mod 256 <> NO_MANS_LAND_FILL) ->
      verify_heap true A fuel (set_mem A st m')
      = AssertionFailed
          "No man's land was modified. This means that you wrote after the allocated block.").
Proof.
  intros (Hall & Hpd & Hdll & _) Hfuel q Hsame.
  specialize (Hdll eq_refl).
  pose proof Hall as Hall0.
  apply Forall_app in Hall. destruct Hall as [Hall1 Hall2].
  apply Forall_cons_iff in Hall2. destruct Hall2 as [Hlb _].
  destruct (live_ok_within _ _ _ Hlb) as (W1 & W2 & W3 & W4 & W5).
  assert (Hblocks : forall lb' x, In lb' (G1 ++ lb :: G2) -> lb' <> lb \/ x < q - 4 ->
            l_header lb' <= x < header_hi true (l_header lb') (l_size lb') ->
            lb' = lb /\ x < q - 4 \/ x < l_block lb
            \/ l_block lb + required true (l_size lb) (l_align lb) <= x).
  { intros lb' x Hin Hne Hx.
    rewrite map_app in Hpd. cbn [map] in Hpd.
    apply pairwise_disjoint_app in Hpd. destruct Hpd as [_ Hd].
    rewrite Forall_forall in Hall0.
    destruct (live_ok_within _ _ _ (Hall0 lb' Hin)) as (V1 & V2 & V3 & V4 & V5).
    apply in_app_iff in Hin. destruct Hin as [Hin|[->|Hin]].
    - right. specialize (Hd (block_of true lb')
                    (proj2 (in_app_iff _ _ _) (or_introl (in_map _ _ _ Hin)))).
      unfold disjoint, block_of in *. cbn [fst snd] in *. lia.
    - left. split; [reflexivity|]. destruct Hne as [Hne|Hne]; [congruence|exact Hne].
    - right. specialize (Hd (block_of true lb')
                    (proj2 (in_app_iff _ _ _) (or_intror (in_map _ _ _ Hin)))).
      unfold disjoint, block_of in *. cbn [fst snd] in *. lia. }
  assert (Hwithin : l_block lb <= q - 4
                    /\ q + l_size lb + 4
                       <= l_block lb + required true (l_size lb) (l_align lb)).
  { unfold header_hi, sizeof_allocation_header, NO_MANS_LAND_SIZE, block_of in W2.
    cbn [snd] in W2. unfold q. lia. }
  assert (Hdll' : dll m' 0 (DEBUG_Head st) (map l_header G1 ++ l_header lb :: map l_header G2)).
  { rewrite map_app in Hdll. cbn [map] in Hdll.
    eapply dll_frame; [|exact Hdll].
    intros h x Hh Hx. apply Hsame.
    assert (Hh' : In h (map l_header (G1 ++ lb :: G2)))
      by (rewrite map_app; exact Hh).
    apply in_map_iff in Hh'. destruct Hh' as (lb' & <- & Hin).
    rewrite Forall_forall in Hall0.
    destruct (live_ok_within _ _ _ (Hall0 lb' Hin)) as (V1 & V2 & V3 & V4 & V5).
    destruct (Hblocks lb' x Hin) as [[-> Hlt]|Hout].
    - destruct (Z.eq_dec (l_header lb') (l_header lb)) as [E|E].
      + right. unfold q. lia.
      + left. intros ->. congruence.
    - unfold header_hi, sizeof_allocation_header, NO_MANS_LAND_SIZE. lia.
    - lia.
    - lia. }
  assert (Hall1' : Forall (live_ok true m') G1).
  { rewrite Forall_forall in *. intros lb' Hin.
    apply (live_ok_frame true (mem st)); [|now apply Hall1].
    intros x Hx. apply Hsame.
    assert (Hin' : In lb' (G1 ++ lb :: G2)) by (apply in_app_iff; now left).
    apply in_split in Hin. destruct Hin as (Ga & Gb & ->).
    rewrite <- app_assoc in Hpd. cbn [app] in Hpd.
    rewrite map_app in Hpd. cbn [map] in Hpd.
    apply pairwise_disjoint_app in Hpd. destruct Hpd as [_ Hd].
    specialize (Hd (block_of true lb)).
    destruct (live_ok_within _ _ _ (Hall0 lb' Hin')) as (V1 & V2 & V3 & V4 & V5).
    assert (Hd' : disjoint (block_of true lb') (block_of true lb)).
    { apply Hd. apply in_app_iff. right. rewrite map_app. apply in_app_iff.
      right. now left. }
    unfold disjoint, block_of, header_lo in *. cbn [fst snd] in *. lia. }
  assert (Hhdr : forall y, l_header lb <= y < l_header lb + 100 -> m' y = mem st y).
  { intros y Hy. apply Hsame. unfold q. lia. }
  pose proof (verify_header_guards (mem st) m' lb Hlb Hhdr) as Ev.
  replace (l_header lb + 100) with (q - 4) in Ev by (unfold q; lia).
  fold q in Ev.
  unfold verify_heap. cbn [mem DEBUG_Head set_mem].
  split.
  - intros (x & Hx & Hne).
    apply (verify_list_stops m' G1 (l_header lb) (map l_header G2) _
             fuel 0 _ Hall1' Hdll' Hfuel).
    rewrite Ev, (all_bytes_false m' (q - 4) NO_MANS_LAND_FILL x 4) by (cbn; lia || exact Hne).
    reflexivity.
  - intros Hfront (x & Hx & Hne).
    apply (verify_list_stops m' G1 (l_header lb) (map l_header G2) _
             fuel 0 _ Hall1' Hdll' Hfuel).
    rewrite Ev.
    rewrite (proj2 (all_bytes_spec m' NO_MANS_LAND_FILL 4 (q - 4)))
      by (intros y Hy; apply Hfront; cbn in Hy; lia).
    rewrite (all_bytes_false m' (q + l_size lb) NO_MANS_LAND_FILL x 4)
      by (cbn; lia || exact Hne).
    reflexivity.
Qed.

(** *** The default alignment and alignments below the pointer size *)

(** The alignment [general_allocate] works with: the context's for the
    argument 0, and never less than the pointer size. *)
Lemma general_allocate_alignment (debug : bool) (fuel : nat) (st : state A)
    (userSize alignment k options fileName fileLine : Z) :
  0 <= k ->
  (if alignment =? 0 then AllocAlignment Ctx else alignment) = 2 ^ k ->
  general_allocate debug Ctx A call_allocator fuel Function Context_ st
    userSize alignment options fileName fileLine
  = general_allocate debug Ctx A call_allocator fuel Function Context_ st
      userSize (2 ^ Z.max k 3) options fileName fileLine.
Proof.
  intros Hk Ea.
  assert (Hp : 0 < 2 ^ k) by (apply Z.pow_pos_nonneg; lia).
  assert (Hj : 2 ^ 3 <= 2 ^ Z.max k 3) by (apply pow2_le_mono; lia).
  assert (Eraise : (if 2 ^ k <? POINTER_SIZE then POINTER_SIZE else 2 ^ k)
                   = 2 ^ Z.max k 3).
  { unfold POINTER_SIZE. destruct (2 ^ k <? 8) eqn:E.
    - apply Z.ltb_lt in E.
      assert (k < 3).
      { destruct (Z.lt_ge_cases k 3) as [|Hge]; [assumption|].
        assert (2 ^ 3 <= 2 ^ k) by (apply pow2_le_mono; lia). lia. }
      rewrite Z.max_r by lia. reflexivity.
    - apply Z.ltb_ge in E.
      assert (3 <= k).
      { destruct (Z.lt_ge_cases k 3) as [Hlt|]; [|assumption].
        assert (2 ^ k <= 2 ^ 2) by (apply pow2_le_mono; lia).
        change (2 ^ 2) with 4 in *. lia. }
      rewrite Z.max_l by lia. reflexivity. }
  assert (Ekeep : (if 2 ^ Z.max k 3 <? POINTER_SIZE then POINTER_SIZE
                   else 2 ^ Z.max k 3) = 2 ^ Z.max k 3).
  { unfold POINTER_SIZE. destruct (2 ^ Z.max k 3 <? 8) eqn:E; [|reflexivity].
    apply Z.ltb_lt in E. change (2 ^ 3) with 8 in Hj. lia. }
  unfold general_allocate.
  assert (E0 : (2 ^ Z.max k 3 =? 0) = false)
    by (apply Z.eqb_neq; change (2 ^ 3) with 8 in Hj; lia).
  rewrite E0. cbn [bind].
  destruct (alignment =? 0).
  - rewrite Ea, is_pow_of_2_pow2 by lia. cbn [assert bind].
    rewrite Eraise, Ekeep. reflexivity.
  - rewrite Ea. cbn [bind]. rewrite Eraise, Ekeep. reflexivity.
Qed.

(** X19.  [general_allocate] with the alignment argument 0 uses the
    alignment of the implicit context, and an alignment below the pointer
    size is raised to the pointer size: for an effective alignment [2^k]
    ([k] up to 15), the pointer returned is a multiple of [max (2^k) 8],
    hence of [2^k], and the header stores that alignment and the size. *)
Theorem general_allocate_raises_the_alignment (debug : bool) (fuel : nat)
    (st : state A) (G : list live)
    (userSize alignment k options fileName fileLine : Z) :
  heap_inv debug st G -> (List.length G < fuel)%nat ->
  0 <= userSize -> 0 <= k <= 15 ->
  (if alignment =? 0 then AllocAlignment Ctx else alignment) = 2 ^ k ->
  required debug userSize (Z.max (2 ^ k) 8) < 2 ^ 63 ->
  fst (fst (call_allocator Function ALLOCATE Context_
              (required debug userSize (Z.max (2 ^ k) 8)) 0 0
              (Z.lor options (AllocOptions Ctx)) (allocators st))) <> 0 ->
  exists p st',
    general_allocate debug Ctx A call_allocator fuel Function Context_ st
      userSize alignment options fileName fileLine = Returns (p, st')
    /\ p mod Z.max (2 ^ k) 8 = 0
    /\ p mod 2 ^ k = 0
    /\ rd (mem st') (p - sizeof_allocation_header debug) (f_Alignment debug)
       = Z.max (2 ^ k) 8
    /\ rd_s64 (mem st') (p - sizeof_allocation_header debug) (f_Size debug) = userSize.
Proof.
  intros Hinv Hfuel Hs Hk Ea Hr Hnz.
  assert (Emax : Z.max (2 ^ k) 8 = 2 ^ Z.max k 3).
  { destruct (Z.lt_ge_cases k 3) as [Hlt|Hge].
    - rewrite (Z.max_r k 3) by lia.
      assert (2 ^ k <= 2 ^ 2) by (apply pow2_le_mono; lia).
      change (2 ^ 2) with 4 in *. change (2 ^ 3) with 8. lia.
    - rewrite (Z.max_l k 3) by lia.
      assert (2 ^ 3 <= 2 ^ k) by (apply pow2_le_mono; lia).
      change (2 ^ 3) with 8 in *. lia. }
  rewrite Emax in *.
  rewrite (general_allocate_alignment debug fuel st userSize alignment k options
             fileName fileLine ltac:(lia) Ea).
  destruct (call_allocator Function ALLOCATE Context_
              (required debug userSize (2 ^ Z.max k 3)) 0 0
              (Z.lor options (AllocOptions Ctx)) (allocators st))
    as [[block o'] a'] eqn:Ec.
  cbn [fst] in Hnz.
  destruct (general_allocate_spec debug fuel st G userSize (Z.max k 3) options fileName
              fileLine block o' a' Hinv Hfuel Hs ltac:(lia) Hr Ec Hnz)
    as (p & st' & E & Hal & HS & _ & Hinv').
  exists p, st'. split; [exact E|]. split; [exact Hal|]. split; [|split; [|exact HS]].
  - assert (Hd : (2 ^ k | 2 ^ Z.max k 3)).
    { exists (2 ^ (Z.max k 3 - k)). rewrite <- Z.pow_add_r by lia. f_equal. lia. }
    assert (Hp : 0 < 2 ^ k) by (apply Z.pow_pos_nonneg; lia).
    apply Z.mod_divide; [lia|].
    apply (Z.divide_trans _ (2 ^ Z.max k 3)); [exact Hd|].
    apply Z.mod_divide; [|exact Hal].
    assert (0 < 2 ^ Z.max k 3) by (apply Z.pow_pos_nonneg; lia). lia.
  - destruct Hinv' as (Hall & _). inversion Hall as [|? ? Hnew _]; subst.
    destruct Hnew as (_ & _ & _ & _ & _ & _ & _ & Hat).
    destruct Hat as (_ & _ & _ & HA & _). exact HA.
Qed.

End Protocol.

(** *** The bump allocator follows the protocol *)

Import Arena.

(** The blocks handed out lie below the next free address. *)
Definition arena_inv (next : Z) (B : list (Z * Z)) : Prop :=
  0 < next <= arena_end /\ forall y, In y B -> fst y + snd y <= next.

Lemma arena_ALLOCATE_conforms (shrinks_in_place : bool) (F C : Z) :
  forall (a : Z) (B : list (Z * Z)) (n o r o' : Z) (a' : Z),
    arena_inv a B -> 0 <= n ->
    arena_allocator shrinks_in_place F ALLOCATE C n 0 0 o a = (r, o', a') ->
    r <> 0 ->
    0 < r /\ r + n <= 2 ^ 64
    /\ (forall y, In y B -> disjoint (r, n) y)
    /\ arena_inv a' ((r, n) :: B).
Proof.
  intros a B n o r o' a' (Ha & HB) Hn E Hr. unfold arena_allocator in E.
  destruct ((0 <=? n) && (a + n <=? arena_end)) eqn:Efit.
  - apply andb_prop in Efit. destruct Efit as [_ Efit]. apply Z.leb_le in Efit.
    injection E as <- <- <-. unfold arena_end in *.
    split; [lia|]. split; [lia|]. split.
    + intros y Hy. right. cbn [fst snd]. now apply HB.
    + unfold arena_inv, arena_end. split; [lia|].
      intros y [<-|Hy]; cbn [fst snd]; [lia|].
      specialize (HB y Hy). lia.
  - injection E as <- <- <-. congruence.
Qed.

Lemma arena_FREE_conforms (shrinks_in_place : bool) (F C : Z) :
  forall (a : Z) (B1 B2 : list (Z * Z)) (b n o r o' : Z) (a' : Z),
    arena_inv a (B1 ++ (b, n) :: B2) ->
    arena_allocator shrinks_in_place F FREE C 0 b n o a = (r, o', a') ->
    arena_inv a' (B1 ++ B2).
Proof.
  intros a B1 B2 b n o r o' a' (Ha & HB) E. cbn in E. injection E as <- <- <-.
  split; [exact Ha|]. intros y Hy. apply HB.
  apply in_app_iff in Hy. apply in_app_iff. destruct Hy; [now left|right; now right].
Qed.

Lemma arena_RESIZE_conforms (F C : Z) :
  forall (a : Z) (B1 B2 : list (Z * Z)) (b n n' o r o' : Z) (a' : Z),
    arena_inv a (B1 ++ (b, n) :: B2) -> 0 <= n' ->
    arena_allocator false F RESIZE C n' b n o a = (r, o', a') ->
    (r = 0 /\ arena_inv a' (B1 ++ (b, n) :: B2))
    \/ (r = b /\ b + n' <= 2 ^ 64
        /\ (forall y, In y (B1 ++ B2) -> disjoint (b, n') y)
        /\ arena_inv a' (B1 ++ (b, n') :: B2)).
Proof.
  intros a B1 B2 b n n' o r o' a' Hinv Hn E. cbn in E. injection E as <- <- <-.
  left. split; [reflexivity|exact Hinv].
Qed.

Lemma arena_inv_perm :
  forall (a : Z) (B B' : list (Z * Z)),
    Permutation B B' -> arena_inv a B -> arena_inv a B'.
Proof.
  intros a B B' HP (Ha & HB). split; [exact Ha|].
  intros y Hy. apply HB. eapply Permutation_in; [apply Permutation_sym; exact HP|exact Hy].
Qed.

Lemma arena_function_u64 : 0 <= arena_function < 2 ^ 64.
Proof. unfold arena_function. lia. Qed.

Lemma zero_u64 : 0 <= 0 < 2 ^ 64.
Proof. lia. Qed.

(** The heap invariant of a program that allocates from the arena. *)
Definition arena_heap : bool -> state Z -> list live -> Prop :=
  heap_inv Z arena_inv.

Lemma start_heap (debug : bool) : arena_heap debug start [].
Proof.
  unfold arena_heap, heap_inv. cbn. repeat split; auto; try lia.
  - unfold arena_start, arena_end. lia.
  - intros y [].
Qed.

(** After the first allocation the heap holds one live allocation, whose
    block and header are at the start of the arena. *)
Lemma first_allocation_heap (debug : bool) :
  first_allocation debug
    = Returns (4096 + sizeof_allocation_header debug, after_first_allocation debug)
  /\ arena_heap debug (after_first_allocation debug) [mk_live 4096 4096 1000 8 arena_function 0].
Proof.
  assert (Hc : forall n, 0 <= n -> n <= 2 ^ 31 ->
             arena_allocator false arena_function ALLOCATE 0 n 0 0
               (Z.lor 0 (AllocOptions context)) (allocators start)
             = (4096, 0, 4096 + n)).
  { intros n Hn Hn'. unfold arena_allocator.
    replace ((0 <=? n) && (allocators start + n <=? arena_end)) with true; [reflexivity|].
    symmetry. apply andb_true_intro. split; [now apply Z.leb_le|].
    apply Z.leb_le. change (allocators start) with 4096.
    change arena_end with (2 ^ 32). lia. }
  assert (Hreq : 0 <= required debug 1000 (2 ^ 3) <= 2 ^ 31)
    by (destruct debug; vm_compute; split; discriminate).
  destruct (general_allocate_spec context Z (arena_allocator false)
              arena_function 0 arena_function_u64 zero_u64 arena_inv
              (arena_ALLOCATE_conforms false arena_function 0)
              debug walk_fuel start [] 1000 3 0 0 0
              4096 0 (4096 + required debug 1000 (2 ^ 3)))
    as (p & st' & E & _ & _ & _ & Hinv).
  - apply start_heap.
  - cbn. unfold walk_fuel. lia.
  - lia.
  - lia.
  - destruct debug; reflexivity.
  - apply Hc; lia.
  - lia.
  - change (2 ^ 3) with 8 in *.
    assert (Ep : match first_allocation debug with
                 | Returns (q, _) => q
                 | _ => 0
                 end = 4096 + sizeof_allocation_header debug)
      by (destruct debug; vm_compute; reflexivity).
    unfold after_first_allocation. unfold first_allocation, allocate in *.
    rewrite E in *. subst p.
    replace (4096 + sizeof_allocation_header debug - sizeof_allocation_header debug)
      with 4096 in Hinv by lia.
    split; [reflexivity|exact Hinv].
Qed.

(** After the second allocation the heap holds two live allocations. *)
Lemma second_allocation_heap :
  second_allocation true = Returns (5328, after_second_allocation true)
  /\ arena_heap true (after_second_allocation true)
       [mk_live 5224 5212 16 16 arena_function 0; mk_live 4096 4096 1000 8 arena_function 0].
Proof.
  destruct (general_allocate_spec context Z (arena_allocator false)
              arena_function 0 arena_function_u64 zero_u64 arena_inv
              (arena_ALLOCATE_conforms false arena_function 0)
              true walk_fuel (after_first_allocation true)
              [mk_live 4096 4096 1000 8 arena_function 0] 16 4 0 0 0 5212 0 5360)
    as (p & st' & E & _ & _ & _ & Hinv).
  - apply (proj2 (first_allocation_heap true)).
  - cbn. unfold walk_fuel. lia.
  - lia.
  - lia.
  - vm_compute. reflexivity.
  - vm_compute. reflexivity.
  - lia.
  - change (2 ^ 4) with 16 in *.
    assert (Ep : match second_allocation true with
                 | Returns (q, _) => q
                 | _ => 0
                 end = 5328) by (vm_compute; reflexivity).
    unfold after_second_allocation. unfold second_allocation, allocate in *.
    rewrite E in *. subst p.
    change (5328 - sizeof_allocation_header true) with 5224 in Hinv.
    split; [reflexivity|exact Hinv].
Qed.

Lemma other_function_u64 : 0 <= other_function < 2 ^ 64.
Proof. unfold other_function. lia. Qed.

Lemma other_context_u64 : 0 <= other_context < 2 ^ 64.
Proof. unfold other_context. lia. Qed.

(** After the allocation made with the other allocator the heap holds the
    live allocations of two allocators. *)
Lemma other_allocation_heap :
  other_allocation true = Returns (5328, after_other_allocation true)
  /\ arena_heap true (after_other_allocation true)
       [mk_live 5224 5212 16 16 other_function other_context;
        mk_live 4096 4096 1000 8 arena_function 0].
Proof.
  destruct (general_allocate_spec context Z (arena_allocator false)
              other_function other_context other_function_u64 other_context_u64
              arena_inv
              (arena_ALLOCATE_conforms false other_function other_context)
              true walk_fuel (after_first_allocation true)
              [mk_live 4096 4096 1000 8 arena_function 0] 16 4 0 0 0 5212 0 5360)
    as (p & st' & E & _ & _ & _ & Hinv).
  - apply (proj2 (first_allocation_heap true)).
  - cbn. unfold walk_fuel. lia.
  - lia.
  - lia.
  - vm_compute. reflexivity.
  - vm_compute. reflexivity.
  - lia.
  - change (2 ^ 4) with 16 in *.
    assert (Ep : match other_allocation true with
                 | Returns (q, _) => q
                 | _ => 0
                 end = 5328) by (vm_compute; reflexivity).
    unfold after_other_allocation. unfold other_allocation in *.
    rewrite E in *. subst p.
    change (5328 - sizeof_allocation_header true) with 5224 in Hinv.
    split; [reflexivity|exact Hinv].
Qed.

(** *** The front end on the bump allocator *)

Lemma general_allocate_aligned_sized_witness :
  exists p st',
    general_allocate true context Z (arena_allocator false) walk_fuel
      arena_function 0 (after_other_allocation true) 1000 (2 ^ 3) 0 0 0
    = Returns (p, st')
    /\ p mod 2 ^ 3 = 0
    /\ rd_s64 (mem st') (p - sizeof_allocation_header true) (f_Size true) = 1000.
Proof.
  apply (general_allocate_aligned_sized context Z (arena_allocator false)
           arena_function 0 arena_function_u64 zero_u64 arena_inv
           (arena_ALLOCATE_conforms false arena_function 0)
           true walk_fuel (after_other_allocation true)
           [mk_live 5224 5212 16 16 other_function other_context;
            mk_live 4096 4096 1000 8 arena_function 0] 1000 3 0 0 0).
  - apply (proj2 other_allocation_heap).
  - unfold walk_fuel. cbn. lia.
  - lia.
  - lia.
  - vm_compute. reflexivity.
  - vm_compute. discriminate.
Defined.

(** C1, counterexample: the alignment 131072 is a power of two above the
    pointer size, and with a block at address 4096 [general_allocate] stops
    at the assertion of [encode_header] in both builds: the padding is
    computed in 16 bits (126976 becomes 61440), so the pointer it arrives
    at, 4096 + 61440 = 65536, is not a multiple of 131072. *)
Lemma alignment_131072_is_not_honoured :
  is_pow_of_2 131072 = true /\ POINTER_SIZE <= 131072
  /\ allocate true false start 1000 131072
       = AssertionFailed "Pointer wasn't properly aligned."
  /\ allocate false false start 1000 131072
       = AssertionFailed "Pointer wasn't properly aligned."
  /\ calculate_padding_for_pointer_with_header 4096 (to_s32 131072)
       (wrap32 (sizeof_allocation_header true)) = Returns 61440
  /\ (4096 + 61440) mod 131072 = 65536.
Proof.
  split; [reflexivity|]. split; [discriminate|].
  split; [vm_compute; reflexivity|]. split; [vm_compute; reflexivity|].
  split; vm_compute; reflexivity.
Qed.

Lemma free_passes_the_requested_size_witness :
  exists p st1 block,
    general_allocate true context Z (arena_allocator false) walk_fuel
      arena_function 0 (after_other_allocation true) 1000 (2 ^ 3) 0 0 0
    = Returns (p, st1)
    /\ calls st1 = mk_call arena_function ALLOCATE 0 1116 0 0 block
                   :: calls (after_other_allocation true)
    /\ arena_heap true st1
         [mk_live (p - 104) block 1000 (2 ^ 3) arena_function 0;
          mk_live 5224 5212 16 16 other_function other_context;
          mk_live 4096 4096 1000 8 arena_function 0]
    /\ forall (st2 : state Z) (G1 G2 : list live) (fuel2 : nat) (options2 : Z),
         arena_heap true st2
           (G1 ++ mk_live (p - 104) block 1000 (2 ^ 3) arena_function 0 :: G2) ->
         (List.length (G1 ++ G2) <= fuel2)%nat ->
         exists st3 r,
           general_free true context Z (arena_allocator false) fuel2 st2 p options2
             = Returns st3
           /\ calls st3 = mk_call arena_function FREE 0 0 block 1116 r :: calls st2.
Proof.
  apply (free_passes_the_requested_size context Z (arena_allocator false)
           arena_function 0 arena_function_u64 zero_u64 arena_inv
           (arena_ALLOCATE_conforms false arena_function 0)
           true walk_fuel (after_other_allocation true)
           [mk_live 5224 5212 16 16 other_function other_context;
            mk_live 4096 4096 1000 8 arena_function 0] 1000 3 0 0 0).
  - apply (proj2 other_allocation_heap).
  - unfold walk_fuel. cbn. lia.
  - lia.
  - lia.
  - vm_compute. reflexivity.
  - vm_compute. discriminate.
Defined.

Lemma free_twice_witness :
  exists st1 r1,
    general_free true context Z (arena_allocator false) walk_fuel
      (after_other_allocation true) (5224 + 104) 0 = Returns st1
    /\ calls st1 = mk_call other_function FREE other_context 0 5212 148 r1
                   :: calls (after_other_allocation true)
    /\ (forall x, 5212 <= x < 5212 + 148 -> mem st1 x = DEAD_LAND_FILL)
    /\ 5212 <= 5224
    /\ 5224 + 104 <= 5212 + 148
    /\ all_bytes (mem st1) 5224 (Z.to_nat 104) DEAD_LAND_FILL = true
    /\ forall (st2 : state Z) (fuel2 : nat) (options2 : Z),
         (forall x, 5224 <= x < 5224 + 104 -> mem st2 x = mem st1 x) ->
         general_free true context Z (arena_allocator false) fuel2 st2
           (5224 + 104) options2
           = AssertionFailed "Trying to access freed memory!".
Proof.
  apply (free_twice context Z (arena_allocator false) arena_inv
           true walk_fuel (after_other_allocation true) []
           [mk_live 4096 4096 1000 8 arena_function 0]
           (mk_live 5224 5212 16 16 other_function other_context) 0).
  - apply (proj2 other_allocation_heap).
  - unfold walk_fuel. cbn. lia.
Defined.

(** C10, counterexample: the alignment 65536 is a power of two, and without
    DEBUG_MEMORY [general_allocate] returns an allocation for it, having
    asked ALLOCATE for 1000 + 65536 + 40 + 40 bytes; but the header's 16-bit
    [Alignment] field holds 0, so [general_free] of the pointer divides by
    zero when it recomputes the size, and never calls FREE. *)
Lemma alignment_65536_is_lost_in_the_header :
  is_pow_of_2 65536 = true
  /\ ('(p, st) <- allocate false false start 1000 65536 ;;
      Returns (p, calls st,
               rd (mem st) (p - sizeof_allocation_header false) (f_Alignment false)))
     = Returns (65536, [mk_call arena_function ALLOCATE 0 66616 0 0 4096], 0)
  /\ ('(p, st) <- allocate false false start 1000 65536 ;;
      free false st p)
     = Undefined "sizeof(allocation_header) % 0".
Proof. repeat split; vm_compute; reflexivity. Qed.

(** C6, counterexample: without DEBUG_MEMORY the second [general_free] of
    the same pointer is not a no-op.  After the first one the allocator has
    been called twice (ALLOCATE, FREE); the second one returns as well and
    has called FREE again, with the block that is already free. *)
Lemma second_free_calls_FREE_again :
  ('(p, st) <- first_allocation false ;;
   st <- free false st p ;;
   Returns (p, calls st))
  = Returns (4136, [mk_call arena_function FREE 0 0 4096 1048 0;
                    mk_call arena_function ALLOCATE 0 1048 0 0 4096])
  /\ ('(p, st) <- first_allocation false ;;
      st <- free false st p ;;
      st <- free false st p ;;
      Returns (p, calls st))
     = Returns (4136, [mk_call arena_function FREE 0 0 4096 1048 0;
                       mk_call arena_function FREE 0 0 4096 1048 0;
                       mk_call arena_function ALLOCATE 0 1048 0 0 4096]).
Proof. split; vm_compute; reflexivity. Qed.

(** Three allocations and one free, of the second pointer held. *)
Definition three_allocations_one_free : list request :=
  [Allocate 1000 3 0 0 0; Allocate 8 3 0 0 0; Free 1 0; Allocate 16 4 0 0 0].

Lemma tracker_counts_live_allocations_witness :
  exists st' held,
    run true context Z (arena_allocator false) walk_fuel arena_function 0
      three_allocations_one_free (after_other_allocation true) []
    = Returns (st', held)
    /\ count_linked walk_fuel (mem st') (DEBUG_Head st') = Some 4%nat
    /\ List.length held = 2%nat.
Proof.
  apply (tracker_counts_live_allocations context Z (arena_allocator false)
           arena_function 0 arena_function_u64 zero_u64 arena_inv
           (arena_ALLOCATE_conforms false arena_function 0)
           (arena_FREE_conforms false arena_function 0)
           walk_fuel three_allocations_one_free (after_other_allocation true)
           [mk_live 5224 5212 16 16 other_function other_context;
            mk_live 4096 4096 1000 8 arena_function 0]).
  - apply (proj2 other_allocation_heap).
  - reflexivity.
  - unfold walk_fuel. cbn. lia.
  - vm_compute. repeat split; discriminate.
Defined.

Lemma general_reallocate_grows_witness :
  exists q st' lb',
    general_reallocate true context Z (arena_allocator false) walk_fuel
      (after_other_allocation true) (4096 + 104) 2000 0 0 0 = Returns (q, st')
    /\ q = l_header lb' + 104 /\ l_size lb' = 2000 /\ l_align lb' = 8
    /\ (fst (fst (arena_allocator false arena_function RESIZE 0
                    (required true 2000 8) 4096 (required true 1000 8)
                    (Z.lor 0 (AllocOptions context))
                    (allocators (after_other_allocation true)))) <> 0 ->
        q = 4096 + 104 /\ l_block lb' = 4096)
    /\ (forall i, 0 <= i < 1000 ->
                  mem st' (q + i) = mem (after_other_allocation true) (4096 + 104 + i))
    /\ arena_heap true st'
         ([mk_live 5224 5212 16 16 other_function other_context] ++ lb' :: []).
Proof.
  apply (general_reallocate_grows context Z (arena_allocator false)
           arena_function 0 arena_function_u64 zero_u64 arena_inv
           (arena_ALLOCATE_conforms false arena_function 0)
           (arena_FREE_conforms false arena_function 0)
           (arena_RESIZE_conforms arena_function 0) arena_inv_perm
           true walk_fuel (after_other_allocation true)
           [mk_live 5224 5212 16 16 other_function other_context] []
           (mk_live 4096 4096 1000 8 arena_function 0) 2000 0 0 0).
  - apply (proj2 other_allocation_heap).
  - reflexivity.
  - reflexivity.
  - unfold walk_fuel. cbn. lia.
  - cbn. lia.
  - vm_compute. reflexivity.
  - intros r o1 a1 E _. vm_compute in E. injection E as <- <- <-.
    vm_compute. discriminate.
Defined.

Lemma general_allocate_initialises_the_user_region_witness :
  exists p st',
    general_allocate true context Z (arena_allocator false) walk_fuel
      arena_function 0 start 1000 (2 ^ 3) DO_INIT_0 0 0 = Returns (p, st')
    /\ forall i, 0 <= i < 1000 ->
         mem st' (p + i)
         = if negb (Z.land DO_INIT_0 DO_INIT_0 =? 0) then 0
           else if true then CLEAN_LAND_FILL else mem start (p + i).
Proof.
  apply (general_allocate_initialises_the_user_region context Z (arena_allocator false)
           arena_function 0 arena_function_u64 zero_u64 arena_inv
           (arena_ALLOCATE_conforms false arena_function 0)
           true walk_fuel start [] 1000 3 DO_INIT_0 0 0 4096 DO_INIT_0 5212).
  - apply start_heap.
  - unfold walk_fuel. cbn. lia.
  - lia.
  - lia.
  - vm_compute. reflexivity.
  - vm_compute. reflexivity.
  - lia.
Defined.

Lemma general_allocate_keeps_live_allocations_witness :
  exists p st',
    general_allocate true context Z (arena_allocator false) walk_fuel
      arena_function 0 (after_first_allocation true) 16 (2 ^ 4) 0 0 0
    = Returns (p, st')
    /\ forall lb, In lb [mk_live 4096 4096 1000 8 arena_function 0] ->
         let q := l_header lb + sizeof_allocation_header true in
         (p + 16 <= q \/ q + l_size lb <= p)
         /\ forall i, 0 <= i < l_size lb ->
              mem st' (q + i) = mem (after_first_allocation true) (q + i).
Proof.
  apply (general_allocate_keeps_live_allocations context Z (arena_allocator false)
           arena_function 0 arena_function_u64 zero_u64 arena_inv
           (arena_ALLOCATE_conforms false arena_function 0)
           true walk_fuel (after_first_allocation true)
           [mk_live 4096 4096 1000 8 arena_function 0] 16 4 0 0 0 5212 0 5360).
  - apply (proj2 (first_allocation_heap true)).
  - unfold walk_fuel. cbn. lia.
  - lia.
  - lia.
  - vm_compute. reflexivity.
  - vm_compute. reflexivity.
  - lia.
Defined.

Lemma general_free_keeps_live_allocations_witness :
  exists st',
    general_free true context Z (arena_allocator false) walk_fuel
      (after_other_allocation true) (5224 + 104) 0 = Returns st'
    /\ forall lb', In lb' ([] ++ [mk_live 4096 4096 1000 8 arena_function 0]) ->
         forall i, 0 <= i < l_size lb' ->
           mem st' (l_header lb' + sizeof_allocation_header true + i)
           = mem (after_other_allocation true)
               (l_header lb' + sizeof_allocation_header true + i).
Proof.
  apply (general_free_keeps_live_allocations context Z (arena_allocator false)
           arena_inv
           true walk_fuel (after_other_allocation true) []
           [mk_live 4096 4096 1000 8 arena_function 0]
           (mk_live 5224 5212 16 16 other_function other_context) 0).
  - apply (proj2 other_allocation_heap).
  - unfold walk_fuel. cbn. lia.
Defined.

Lemma general_free_fills_the_block_with_dead_land_witness :
  exists st',
    general_free true context Z (arena_allocator false) walk_fuel
      (after_other_allocation true) (4096 + 104) 0 = Returns st'
    /\ (true = true ->
        forall x, 4096 <= x < 4096 + required true 1000 8 ->
                  mem st' x = DEAD_LAND_FILL)
    /\ (true = false -> forall x, mem st' x = mem (after_other_allocation true) x).
Proof.
  apply (general_free_fills_the_block_with_dead_land context Z (arena_allocator false)
           arena_inv
           true walk_fuel (after_other_allocation true)
           [mk_live 5224 5212 16 16 other_function other_context] []
           (mk_live 4096 4096 1000 8 arena_function 0) 0).
  - apply (proj2 other_allocation_heap).
  - unfold walk_fuel. cbn. lia.
Defined.

(** A program writes one byte past the 1000 bytes of its first allocation. *)
Lemma verify_heap_notices_a_modified_guard_witness :
  verify_heap true Z walk_fuel
    (set_mem Z (after_first_allocation true)
       (store (mem (after_first_allocation true)) (4200 + 1000) 1 0))
  = AssertionFailed
      "No man's land was modified. This means that you wrote after the allocated block.".
Proof.
  apply (proj2 (verify_heap_notices_a_modified_guard Z arena_inv
                  walk_fuel (after_first_allocation true) [] []
                  (mk_live 4096 4096 1000 8 arena_function 0)
                  (store (mem (after_first_allocation true)) (4200 + 1000) 1 0)
                  (proj2 (first_allocation_heap true))
                  ltac:(unfold walk_fuel; cbn; lia)
                  ltac:(cbn [l_header l_size]; intros y Hy; unfold store;
                        destruct (in_range (4200 + 1000) 1 y) eqn:E;
                        [apply in_range_true in E; lia|reflexivity]))).
  - cbn [l_header]. intros x Hx.
    assert (Hc : x = 4196 \/ x = 4197 \/ x = 4198 \/ x = 4199) by lia.
    destruct Hc as [-> | [-> | [-> | ->]]]; vm_compute; reflexivity.
  - exists 5200. cbn [l_header l_size]. split; [lia|]. vm_compute. discriminate.
Defined.

Lemma log_file_and_line_writes_the_decimal_line_witness :
  exists ds,
    log_file_and_line Z start 0 1048576
    = Log_write Z (Log_write Z (Log_write Z start (LogCString 0)) (LogText ":"))
        (LogDigits ds)
    /\ digits_value ds = 1048576
    /\ Forall (fun d => 48 <= d <= 57) ds
    /\ (List.length ds <= 19)%nat
    /\ hd 49 ds <> 48
    /\ (1048576 = 0 -> ds = []).
Proof.
  apply (log_file_and_line_writes_the_decimal_line Z start 0 1048576). lia.
Defined.

(** [operator new(size)] is [general_allocate(size, 0, 0)]: the context's
    alignment, 8, applies. *)
Lemma general_allocate_raises_the_alignment_witness :
  exists p st',
    general_allocate true context Z (arena_allocator false) walk_fuel
      arena_function 0 start 1000 0 0 0 0 = Returns (p, st')
    /\ p mod Z.max (2 ^ 3) 8 = 0
    /\ p mod 2 ^ 3 = 0
    /\ rd (mem st') (p - sizeof_allocation_header true) (f_Alignment true)
       = Z.max (2 ^ 3) 8
    /\ rd_s64 (mem st') (p - sizeof_allocation_header true) (f_Size true) = 1000.
Proof.
  apply (general_allocate_raises_the_alignment context Z (arena_allocator false)
           arena_function 0 arena_function_u64 zero_u64 arena_inv
           (arena_ALLOCATE_conforms false arena_function 0)
           true walk_fuel start [] 1000 0 3 0 0 0).
  - apply start_heap.
  - unfold walk_fuel. cbn. lia.
  - lia.
  - lia.
  - reflexivity.
  - vm_compute. reflexivity.
  - vm_compute. discriminate.
Defined.

(** C2, the failing input (DEBUG_MEMORY, an allocator that moves every block
    it resizes): the program allocates 1000 bytes, writes 01 02 .. 08 at the
    start and reallocates to 8 bytes.  [general_reallocate] does not return:
    its [verify_heap()] stops at "Trying to access freed memory!".  Up to
    that call it has moved the allocation to 5320, and then the fill of
    [oldSize - newSize] bytes with [DEAD_LAND_FILL] from the old header plus
    [oldSize] on, which starts where the old block ended, has filled the new
    header (the head of the tracker list, at 5216) and the eight bytes at
    5320 with [0xDD]. *)
Theorem reallocate_to_a_smaller_size_loses_the_content :
  ('(p, st) <- first_allocation true ;;
   Returns (p, load (mem (write_content st p)) p 8))
  = Returns (4200, content)
  /\ ('(p, st) <- first_allocation true ;;
      reallocate true false (write_content st p) p 8)
     = AssertionFailed "Trying to access freed memory!"
  /\ ('(p, st) <- first_allocation true ;;
      '(q, st') <- reallocate_before_verify_heap true false (write_content st p) p 8 ;;
      Returns (q, load (mem st') q 8, DEBUG_Head st',
               all_bytes (mem st') (DEBUG_Head st') 104 DEAD_LAND_FILL))
     = Returns (5320, 0xDDDDDDDDDDDDDDDD, 5216, true).
Proof. repeat split; vm_compute; reflexivity. Qed.

(** C7, the failing input (DEBUG_MEMORY, an allocator that shrinks blocks in
    place): the program allocates [a] (1000 bytes), then [b] (8 bytes, in
    the block right after), and reallocates [a] to 8 bytes.  Before the
    reallocation the tracker list links the two headers, 5216 then 4096.
    [general_reallocate] does not return: [verify_heap()] stops at "Trying to
    access freed memory!".  Up to that call the block of [a] was resized in
    place, and the fill of the bytes after it has overwritten the header of
    the live allocation [b], the head of the list, with [0xDD]: its
    [DEBUG_Next] no longer points to the header of [a]. *)
Theorem reallocate_in_place_breaks_the_tracker_list :
  ('(a, st) <- allocate true true start 1000 8 ;;
   '(b, st) <- allocate true true st 8 8 ;;
   Returns (a, b, DEBUG_Head st, rd (mem st) (DEBUG_Head st) f_DEBUG_Next,
            count_linked walk_fuel (mem st) (DEBUG_Head st)))
  = Returns (4200, 5320, 5216, 4096, Some 2%nat)
  /\ ('(a, st) <- allocate true true start 1000 8 ;;
      '(b, st) <- allocate true true st 8 8 ;;
      reallocate true true st a 8)
     = AssertionFailed "Trying to access freed memory!"
  /\ ('(a, st) <- allocate true true start 1000 8 ;;
      '(b, st) <- allocate true true st 8 8 ;;
      '(q, st') <- reallocate_before_verify_heap true true st a 8 ;;
      Returns (q, DEBUG_Head st', rd (mem st') (DEBUG_Head st') f_DEBUG_Next,
               all_bytes (mem st') (DEBUG_Head st') 104 DEAD_LAND_FILL))
     = Returns (4200, 5216, 0xDDDDDDDDDDDDDDDD, true).
Proof. repeat split; vm_compute; reflexivity. Qed.

End LstdFacts.
